(** * ParaForge: the Parabox level codec and the editor's tree operations

    A shallow embedding of [src/parabox/format.ts] (parser and serializer of
    the level text format), [src/parabox/types.ts] (the data model) and
    [src/editor/editorState.ts] (path addressing, cell helpers, hit testing,
    the walks over the Blocks and the undo/redo history) and of the handlers
    of [src/editor/LevelEditor.tsx] that use them, followed by the
    properties proved of them.

    Conventions of the embedding

    - A JavaScript string is a [string]: a sequence of UTF-16 code units,
      each a number [char] (below 65536 in JavaScript; nothing here depends
      on that bound).  White space is ECMAScript's WhiteSpace and
      LineTerminator sets, all of whose members are single code units.  A
      literal in double quotes stands for its ASCII code units; any other
      code unit is written by its number.
    - A JavaScript number is a [number]: NaN, an infinity, or a finite value
      kept as the decimal [m / 10^k] in lowest form, which is the decimal
      that [String] prints for it.  [Number_] classifies a literal as finite,
      infinite or zero exactly as binary64 does (the overflow and underflow
      thresholds are those of round-to-nearest); the coefficient itself is
      not rounded to 53 bits, so the model and JavaScript agree on every
      integer below 2^53 and on every literal of at most 15 significant
      digits.  A sum or a difference is the exact one rounded to the nearest
      binary64 value, a tie to the even significand: JavaScript's result
      whenever the operands are binary64 values, as every integer up to 2^53
      in magnitude is.  The model has one zero.
    - An array is a [list]; an exception is the [Err] case of [result]. *)

From Stdlib Require Import ZArith NArith List Bool Lia Arith Permutation Sorted.
From Stdlib.Strings Require Byte.
Import ListNotations.
Declare Scope jstring_scope.
Delimit Scope jstring_scope with js.
Declare Scope jchar_scope.
Delimit Scope jchar_scope with jc.
Local Open Scope jstring_scope.
Local Open Scope list_scope.
Local Open Scope nat_scope.

(* ================================================================== *)
(** * JavaScript built-ins used by the sources *)
(* ================================================================== *)

Module JS.

(** ** Strings *)

(** A UTF-16 code unit. *)
Definition char : Type := N.

Inductive string : Type :=
| EmptyString
| String (c : char) (s : string).

(** Literals: the code units of an ASCII text. *)
Definition char_of_byte (b : Byte.byte) : option N :=
  let n := Byte.to_N b in if (n <? 128)%N then Some n else None.

Definition byte_of_char (c : N) : option Byte.byte :=
  if (c <? 128)%N then Byte.of_N c else None.

Fixpoint string_of_bytes (l : list Byte.byte) : option string :=
  match l with
  | [] => Some EmptyString
  | b :: r =>
      match char_of_byte b, string_of_bytes r with
      | Some c, Some s => Some (String c s)
      | _, _ => None
      end
  end.

Fixpoint bytes_of_string (s : string) : option (list Byte.byte) :=
  match s with
  | EmptyString => Some []
  | String c r =>
      match byte_of_char c, bytes_of_string r with
      | Some b, Some l => Some (b :: l)
      | _, _ => None
      end
  end.

Bind Scope jstring_scope with string.
String Notation string string_of_bytes bytes_of_string : jstring_scope.
Bind Scope jchar_scope with char.
String Notation N char_of_byte byte_of_char : jchar_scope.

Definition nat_of_char (c : char) : nat := N.to_nat c.
Definition char_of_nat (n : nat) : char := N.of_nat n.

Module Char.
(** [c === d] on code units *)
Definition eqb (c d : char) : bool := N.eqb c d.
End Char.

(** [a + b] on strings *)
Fixpoint append (a b : string) : string :=
  match a with
  | EmptyString => b
  | String c a' => String c (append a' b)
  end.

Infix "++" := append (right associativity, at level 60) : jstring_scope.

(** [s.substring(n, n + m)]: the [m] code units from index [n] on, or as
    many as there are. *)
Fixpoint substring (n m : nat) (s : string) : string :=
  match s with
  | EmptyString => EmptyString
  | String c r =>
      match n with
      | S n' => substring n' m r
      | O =>
          match m with
          | S m' => String c (substring O m' r)
          | O => EmptyString
          end
      end
  end.

Module String.

(** [a === b] on strings *)
Fixpoint eqb (a b : string) : bool :=
  match a, b with
  | EmptyString, EmptyString => true
  | String c a', String d b' => Char.eqb c d && eqb a' b'
  | _, _ => false
  end.

(** [s.length] *)
Fixpoint length (s : string) : nat :=
  match s with
  | EmptyString => O
  | String _ s' => S (length s')
  end.

(** [ls.join(sep)] *)
Fixpoint concat (sep : string) (ls : list string) : string :=
  match ls with
  | [] => EmptyString
  | [x] => x
  | x :: xs => x ++ sep ++ concat sep xs
  end.

End String.

(** Code units that [.] does not match in a regular expression, the
    LineTerminator set: LF, CR, LINE SEPARATOR and PARAGRAPH SEPARATOR. *)
Definition is_line_terminator (c : char) : bool :=
  ((c =? 10) || (c =? 13) || (c =? 8232) || (c =? 8233))%N.

(** Code units that [\s] and [trim] treat as white space, the WhiteSpace
    and LineTerminator sets: TAB, LF, VT, FF, CR, SPACE, NBSP, U+1680,
    U+2000 to U+200A, U+2028, U+2029, U+202F, U+205F, U+3000 and U+FEFF. *)
Definition is_ws (c : char) : bool :=
  ((c =? 9) || (c =? 10) || (c =? 11) || (c =? 12) || (c =? 13) || (c =? 32)
   || (c =? 160) || (c =? 5760) || ((8192 <=? c) && (c <=? 8202))
   || (c =? 8232) || (c =? 8233) || (c =? 8239) || (c =? 8287)
   || (c =? 12288) || (c =? 65279))%N.

Definition is_space_or_tab (c : char) : bool :=
  Char.eqb c " " || Char.eqb c "009".

Definition starts_with_ws (s : string) : bool :=
  match s with String c _ => is_ws c | EmptyString => false end.

Definition is_empty (s : string) : bool :=
  match s with EmptyString => true | String _ _ => false end.

Fixpoint string_forallb (p : char -> bool) (s : string) : bool :=
  match s with
  | EmptyString => true
  | String c r => p c && string_forallb p r
  end.

Fixpoint string_existsb (p : char -> bool) (s : string) : bool :=
  match s with
  | EmptyString => false
  | String c r => p c || string_existsb p r
  end.

Fixpoint string_map (f : char -> char) (s : string) : string :=
  match s with
  | EmptyString => EmptyString
  | String c r => String (f c) (string_map f r)
  end.

(** Removal of the longest suffix whose code units all satisfy [p]:
    [s.replace(/[ \t]+$/g, '')], [s.trimEnd()], [s.replace(/0+$/g, '')]. *)
Fixpoint strip_end (p : char -> bool) (s : string) : string :=
  match s with
  | EmptyString => EmptyString
  | String c r =>
      match strip_end p r with
      | EmptyString => if p c then EmptyString else String c EmptyString
      | r' => String c r'
      end
  end.

Fixpoint strip_start (p : char -> bool) (s : string) : string :=
  match s with
  | EmptyString => EmptyString
  | String c r => if p c then strip_start p r else s
  end.

Definition trimEnd (s : string) : string := strip_end is_ws s.
Definition trimStart (s : string) : string := strip_start is_ws s.
Definition trim (s : string) : string := trimEnd (trimStart s).

(** [s.replace(/\r\n/g, '\n')] *)
Fixpoint replace_crlf (s : string) : string :=
  match s with
  | EmptyString => EmptyString
  | String c r =>
      match r with
      | String c' r' =>
          if Char.eqb c "013" && Char.eqb c' "010"
          then String "010" (replace_crlf r')
          else String c (replace_crlf r)
      | EmptyString => String c EmptyString
      end
  end.

(** [s.replace(/a/g, 'b')] for single code units [a], [b]. *)
Definition replace_char (a b : char) (s : string) : string :=
  string_map (fun c => if Char.eqb c a then b else c) s.

(** [s.split(sep)] for a separator of one code unit: the pieces between the
    separators, so always at least one piece. *)
Fixpoint split_char (sep : char) (s : string) : list string :=
  match s with
  | EmptyString => [EmptyString]
  | String c r =>
      if Char.eqb c sep then EmptyString :: split_char sep r
      else match split_char sep r with
           | p :: ps => String c p :: ps
           | [] => [String c EmptyString]
           end
  end.

(** [s.split(/\s+/g)]: the pieces between the maximal runs of white space.
    A run at either end leaves an empty piece there, as in JavaScript. *)
Fixpoint split_ws (s : string) : list string :=
  match s with
  | EmptyString => [EmptyString]
  | String c r =>
      if is_ws c then
        if starts_with_ws r then split_ws r else EmptyString :: split_ws r
      else match split_ws r with
           | p :: ps => String c p :: ps
           | [] => [String c EmptyString]
           end
  end.

(** [l.join(' ')] *)
Definition join (sep : string) (l : list string) : string := String.concat sep l.

(** [c.repeat(n)] *)
Fixpoint repeat_char (c : char) (n : nat) : string :=
  match n with
  | O => EmptyString
  | S n' => String c (repeat_char c n')
  end.

(** [s.includes(c)] for one code unit. *)
Definition includes (c : char) (s : string) : bool :=
  string_existsb (Char.eqb c) s.

(** [s.replace(/\.$/g, '')] *)
Fixpoint drop_final_dot (s : string) : string :=
  match s with
  | EmptyString => EmptyString
  | String c r =>
      match r with
      | EmptyString => if Char.eqb c "." then EmptyString else s
      | String _ _ => String c (drop_final_dot r)
      end
  end.

(** Longest prefix whose code units satisfy [p], and the rest. *)
Fixpoint span (p : char -> bool) (s : string) : string * string :=
  match s with
  | EmptyString => (EmptyString, EmptyString)
  | String c r =>
      if p c then let (a, b) := span p r in (String c a, b)
      else (EmptyString, s)
  end.

(** ** Numbers *)

Inductive number : Type :=
| NaN
| Infinity (negative : bool)
| Fin (m : Z) (k : nat).  (* the value m / 10^k *)

Local Open Scope Z_scope.

(** Lowest form of [m / 10^k]: no factor ten left in [m] unless [k = 0]. *)
Fixpoint normalize (m : Z) (k : nat) : Z * nat :=
  match k with
  | O => (m, O)
  | S k' => if m mod 10 =? 0 then normalize (m / 10) k' else (m, k)
  end.

(** Halfway between the largest binary64 value and 2^1024: from here on a
    value rounds to an infinity. *)
Definition overflow_threshold : Z := 2 ^ 1024 - 2 ^ 970.

(** The number denoted by [m / 10^k]: an infinity from the overflow
    threshold on, zero up to half the least subnormal (2^-1075). *)
Definition make_number (m : Z) (k : nat) : number :=
  if Z.abs m >=? overflow_threshold * 10 ^ Z.of_nat k then Infinity (m <? 0)
  else if Z.abs m * 2 ^ 1075 <=? 10 ^ Z.of_nat k then Fin 0 0
  else let (m', k') := normalize m k in Fin m' k'.

(** [m * 10^e] *)
Definition scale10 (m e : Z) : number :=
  if e >=? 0 then make_number (m * 10 ^ e) 0 else make_number m (Z.to_nat (- e)).

Definition is_digit (c : char) : bool :=
  let n := nat_of_char c in ((48 <=? n) && (n <=? 57))%nat.

Definition digit_val (c : char) : Z := Z.of_nat (nat_of_char c) - 48.

Definition digit_char (d : Z) : char := char_of_nat (48 + Z.to_nat d).

(** Value of a run of decimal digits, most significant first. *)
Fixpoint digits_val (acc : Z) (s : string) : Z :=
  match s with
  | EmptyString => acc
  | String c r => digits_val (acc * 10 + digit_val c) r
  end.

(** Value of a digit in radix 2, 8 or 16. *)
Definition radix_digit (radix : Z) (c : char) : option Z :=
  let n := Z.of_nat (nat_of_char c) in
  let v := if (48 <=? n) && (n <=? 57) then n - 48
           else if (97 <=? n) && (n <=? 102) then n - 87
           else if (65 <=? n) && (n <=? 70) then n - 55
           else radix in
  if v <? radix then Some v else None.

Fixpoint radix_val (radix acc : Z) (s : string) : option Z :=
  match s with
  | EmptyString => Some acc
  | String c r =>
      match radix_digit radix c with
      | Some v => radix_val radix (acc * radix + v) r
      | None => None
      end
  end.

Definition parse_radix (radix : Z) (s : string) : number :=
  if is_empty s then NaN
  else match radix_val radix 0 s with
       | Some v => make_number v 0
       | None => NaN
       end.

(** An optional ExponentPart, then the end of the literal. *)
Definition parse_exponent (s : string) : option Z :=
  match s with
  | EmptyString => Some 0
  | String c r =>
      if Char.eqb c "e" || Char.eqb c "E" then
        let '(neg, r1) :=
          match r with
          | String c1 r' =>
              if Char.eqb c1 "-" then (true, r')
              else if Char.eqb c1 "+" then (false, r')
              else (false, r)
          | EmptyString => (false, r)
          end in
        let (ds, rest) := span is_digit r1 in
        if is_empty ds || negb (is_empty rest) then None
        else Some (if neg then - digits_val 0 ds else digits_val 0 ds)
      else None
  end.

(** StrUnsignedDecimalLiteral with the sign already read. *)
Definition parse_unsigned_decimal (neg : bool) (s : string) : number :=
  if String.eqb s "Infinity" then Infinity neg
  else
    let (ip, r1) := span is_digit s in
    let '(fp, r2, ok) :=
      match r1 with
      | String c r =>
          if Char.eqb c "." then
            let (fp, r2) := span is_digit r in
            (fp, r2, negb (is_empty ip && is_empty fp))
          else (EmptyString, r1, negb (is_empty ip))
      | EmptyString => (EmptyString, r1, negb (is_empty ip))
      end in
    if ok then
      match parse_exponent r2 with
      | Some e =>
          let m := digits_val 0 (append ip fp) in
          scale10 (if neg then - m else m) (e - Z.of_nat (String.length fp))
      | None => NaN
      end
    else NaN.

(** [Number(s)] on a string (ECMAScript StringToNumber). *)
Definition Number_ (s : string) : number :=
  let t := trim s in
  match t with
  | EmptyString => Fin 0 0
  | String c r =>
      if Char.eqb c "-" then parse_unsigned_decimal true r
      else if Char.eqb c "+" then parse_unsigned_decimal false r
      else
        match r with
        | String x r' =>
            if Char.eqb c "0" && (Char.eqb x "x" || Char.eqb x "X") then parse_radix 16 r'
            else if Char.eqb c "0" && (Char.eqb x "o" || Char.eqb x "O") then parse_radix 8 r'
            else if Char.eqb c "0" && (Char.eqb x "b" || Char.eqb x "B") then parse_radix 2 r'
            else parse_unsigned_decimal false t
        | EmptyString => parse_unsigned_decimal false t
        end
  end.

(** [Number(v)] where [v] may be [undefined]. *)
Definition Number_opt (v : option string) : number :=
  match v with Some s => Number_ s | None => NaN end.

Definition isFinite (x : number) : bool :=
  match x with Fin _ _ => true | _ => false end.

(** [Math.trunc] *)
Definition trunc (x : number) : number :=
  match x with
  | Fin m k => Fin (Z.quot m (10 ^ Z.of_nat k)) 0
  | _ => x
  end.

(** Order of two numbers; [None] when one of them is NaN. *)
Definition number_compare (a b : number) : option comparison :=
  match a, b with
  | NaN, _ | _, NaN => None
  | Infinity na, Infinity nb =>
      Some (if Bool.eqb na nb then Eq else if na then Lt else Gt)
  | Infinity na, Fin _ _ => Some (if na then Lt else Gt)
  | Fin _ _, Infinity nb => Some (if nb then Gt else Lt)
  | Fin m1 k1, Fin m2 k2 =>
      Some (Z.compare (m1 * 10 ^ Z.of_nat k2) (m2 * 10 ^ Z.of_nat k1))
  end.

(** [a === b] on numbers *)
Definition number_eqb (a b : number) : bool :=
  match number_compare a b with Some Eq => true | _ => false end.

(** [a < b] *)
Definition number_ltb (a b : number) : bool :=
  match number_compare a b with Some Lt => true | _ => false end.

(** [a >= b] *)
Definition number_geb (a b : number) : bool :=
  match number_compare a b with Some Gt | Some Eq => true | _ => false end.

(** [a > b] *)
Definition number_gtb (a b : number) : bool := number_ltb b a.

(** [n / d] rounded to the nearest integer, a tie to the even one, for
    [0 <= n] and [0 < d]. *)
Definition round_half_even (n d : Z) : Z :=
  let q := n / d in
  let r := n mod d in
  if 2 * r <? d then q
  else if d <? 2 * r then q + 1
  else if Z.even q then q else q + 1.

(** The exponent [e] with [2^e <= n / d < 2^(e+1)], for [0 < n] and
    [0 < d]. *)
Definition binade (n d : Z) : Z :=
  let e := Z.log2 n - Z.log2 d in
  if n * 2 ^ Z.max 0 (- e) <? d * 2 ^ Z.max 0 e then e - 1 else e.

(** The binary64 value nearest to [m / 10^k], a tie to the even
    significand: what an arithmetic operation returns when its exact result
    is [m / 10^k].  The value is [q * 2^p] with a significand [q] of at most
    53 bits and [p >= -1074] (the subnormals); from 2^1024 on it is an
    infinity. *)
Definition binary64 (m : Z) (k : nat) : number :=
  if m =? 0 then Fin 0 0
  else
    let n := Z.abs m in
    let d := 10 ^ Z.of_nat k in
    let p := Z.max (binade n d - 52) (-1074) in
    let q := round_half_even (n * 2 ^ Z.max 0 (- p)) (d * 2 ^ Z.max 0 p) in
    if 2 ^ 1024 <=? q * 2 ^ Z.max 0 p then Infinity (m <? 0)
    else
      let (m', k') := normalize (Z.sgn m * q * 2 ^ Z.max 0 p * 5 ^ Z.max 0 (- p))
                                (Z.to_nat (Z.max 0 (- p))) in
      Fin m' k'.

(** [a + b]: the exact sum of the two values, rounded to binary64.  Beyond
    2^53 the sum of two integers need not be their sum in [Z]:
    2^53 + 1 is 2^53. *)
Definition number_add (a b : number) : number :=
  match a, b with
  | NaN, _ | _, NaN => NaN
  | Infinity na, Infinity nb => if Bool.eqb na nb then a else NaN
  | Infinity _, Fin _ _ => a
  | Fin _ _, Infinity _ => b
  | Fin m1 k1, Fin m2 k2 =>
      binary64 (m1 * 10 ^ Z.of_nat k2 + m2 * 10 ^ Z.of_nat k1) (k1 + k2)
  end.

(** [- a] *)
Definition number_neg (a : number) : number :=
  match a with
  | NaN => NaN
  | Infinity n => Infinity (negb n)
  | Fin m k => Fin (- m) k
  end.

(** [a - b]: the exact difference, rounded to binary64. *)
Definition number_sub (a b : number) : number := number_add a (number_neg b).

(** [Math.min(a, b)] and [Math.max(a, b)]: NaN when an argument is NaN. *)
Definition Math_min (a b : number) : number :=
  match number_compare a b with
  | None => NaN
  | Some Gt => b
  | Some _ => a
  end.

Definition Math_max (a b : number) : number :=
  match number_compare a b with
  | None => NaN
  | Some Lt => b
  | Some _ => a
  end.

(** Decimal digits of a non-negative integer, most significant first. *)
Fixpoint digits_fuel (fuel : nat) (n : Z) (acc : string) : string :=
  match fuel with
  | O => acc
  | S f =>
      let acc' := String (digit_char (n mod 10)) acc in
      if n <? 10 then acc' else digits_fuel f (n / 10) acc'
  end.

Definition digits_of (n : Z) : string :=
  digits_fuel (S (Z.to_nat (Z.log2 n))) n EmptyString.

(** [String(x)], that is Number::toString in radix ten: with [s] the
    significant digits, [kk] their count and [n] the position of the decimal
    point, the four layouts of the standard. *)
Definition String_ (x : number) : string :=
  match x with
  | NaN => "NaN"
  | Infinity neg => if neg then "-Infinity" else "Infinity"
  | Fin m k =>
      if m =? 0 then "0"
      else
        let sign := if m <? 0 then "-" else "" in
        let ds := digits_of (Z.abs m) in
        let n := Z.of_nat (String.length ds) - Z.of_nat k in
        let s := strip_end (Char.eqb "0") ds in
        let kk := String.length s in
        let e := n - 1 in
        let es := append (if e <? 0 then "-" else "+") (digits_of (Z.abs e)) in
        let body :=
          if (Z.of_nat kk <=? n) && (n <=? 21) then
            append s (repeat_char "0" (Z.to_nat n - kk))
          else if (0 <? n) && (n <=? 21) then
            append (substring 0 (Z.to_nat n) s)
                   (append "." (substring (Z.to_nat n) (kk - Z.to_nat n) s))
          else if (-6 <? n) && (n <=? 0) then
            append "0." (append (repeat_char "0" (Z.to_nat (- n))) s)
          else if (kk =? 1)%nat then append s (append "e" es)
          else append (substring 0 1 s)
                      (append "." (append (substring 1 (kk - 1) s) (append "e" es))) in
        append sign body
  end.

(** [x.toFixed(6)]: the nearest multiple of 10^-6, the larger of two
    equally near ones.  (The rounding is that of the decimal kept here; at
    an exact decimal tie JavaScript decides on the binary64 value.) *)
Definition toFixed6 (x : number) : string :=
  match x with
  | Fin m k =>
      let a := Z.abs m in
      let p := 10 ^ Z.of_nat k in
      if a >=? 10 ^ 21 * p then String_ x
      else
        let n := (2 * a * 10 ^ 6 + p) / (2 * p) in
        let ds := digits_of n in
        let ds := append (repeat_char "0" (7 - String.length ds)) ds in
        let ip := (String.length ds - 6)%nat in
        append (if m <? 0 then "-" else "")
               (append (substring 0 ip ds) (append "." (substring ip 6 ds)))
  | _ => String_ x
  end.

Local Close Scope Z_scope.

End JS.

(* ================================================================== *)
(** * The data model ([src/parabox/types.ts]) *)
(* ================================================================== *)

Module Types.
Import JS.

(** The type [0 | 1] of the flag fields. *)
Inductive bit : Type := B0 | B1.

(** An integer as a [number]. *)
Definition int (z : Z) : number := Fin z 0.

Inductive DrawStyle : Type := tui | grid | oldstyle.

(** An optional property is an [option]: [None] when it is absent. *)
Record LevelHeader : Type := mkHeader {
  version : number;
  attempt_order : option string;
  shed : option bool;
  inner_push : option bool;
  draw_style : option DrawStyle;
  custom_level_music : option number;
  custom_level_palette : option number;
  unknown : list string
}.

Record Ref : Type := mkRef {
  ref_x : number;
  ref_y : number;
  ref_id : number;
  ref_exitblock : bit;
  ref_infexit : bit;
  ref_infexitnum : number;
  ref_infenter : bit;
  ref_infenternum : number;
  ref_infenterid : number;
  ref_player : bit;
  ref_possessable : bit;
  ref_playerorder : number;
  ref_fliph : bit;
  ref_floatinspace : bit;
  ref_specialeffect : number
}.

Record Wall : Type := mkWall {
  wall_x : number;
  wall_y : number;
  wall_player : bit;
  wall_possessable : bit;
  wall_playerorder : number
}.

Inductive FloorType : Type :=
| Button
| PlayerButton
| Portal (sceneName : string)
| Info (text : string)
| Break
| FastTravel
| Gallery
| DemoEnd
| Unknown (raw : string).

Record Floor : Type := mkFloor {
  floor_x : number;
  floor_y : number;
  floor_type : FloorType
}.

(** A Block owns its children, which are objects again: the record is
    written over the type [O] of its children and [Obj] closes the knot. *)
Record BlockOf (O : Type) : Type := mkBlock {
  block_x : number;
  block_y : number;
  block_id : number;
  block_width : number;
  block_height : number;
  block_hue : number;
  block_sat : number;
  block_val : number;
  block_zoomfactor : number;
  block_fillwithwalls : bit;
  block_player : bit;
  block_possessable : bit;
  block_playerorder : number;
  block_fliph : bit;
  block_floatinspace : bit;
  block_specialeffect : number;
  children : list O
}.

Arguments mkBlock {O}.
Arguments block_x {O}.
Arguments block_y {O}.
Arguments block_id {O}.
Arguments block_width {O}.
Arguments block_height {O}.
Arguments block_hue {O}.
Arguments block_sat {O}.
Arguments block_val {O}.
Arguments block_zoomfactor {O}.
Arguments block_fillwithwalls {O}.
Arguments block_player {O}.
Arguments block_possessable {O}.
Arguments block_playerorder {O}.
Arguments block_fliph {O}.
Arguments block_floatinspace {O}.
Arguments block_specialeffect {O}.
Arguments children {O}.

#[local] Unset Elimination Schemes.
Inductive Obj : Type :=
| OBlock (b : BlockOf Obj)
| ORef (r : Ref)
| OWall (w : Wall)
| OFloor (f : Floor).
#[local] Set Elimination Schemes.

Definition Block : Type := BlockOf Obj.

Record Level : Type := mkLevel {
  header : LevelHeader;
  roots : list Block
}.

(** [b] with its children replaced. *)
Definition with_children (b : Block) (cs : list Obj) : Block :=
  mkBlock (block_x b) (block_y b) (block_id b) (block_width b) (block_height b)
          (block_hue b) (block_sat b) (block_val b) (block_zoomfactor b)
          (block_fillwithwalls b) (block_player b) (block_possessable b)
          (block_playerorder b) (block_fliph b) (block_floatinspace b)
          (block_specialeffect b) cs.

Definition createEmptyLevel : Level :=
  {| header := {| version := int 4; attempt_order := None; shed := None;
                  inner_push := None; draw_style := None;
                  custom_level_music := None; custom_level_palette := None;
                  unknown := [] |};
     roots := [ mkBlock (int (-1)) (int (-1)) (int 0) (int 9) (int 9)
                        (Fin 6 1) (Fin 8 1) (int 1) (int 1)
                        B0 B0 B0 (int 0) B0 B0 (int 0) [] ] |}.

(** ** References into a forest

    The parser and [setBlockAtPath] hold references to Block objects that
    live inside a tree and write through them.  Every Block object has one
    owner (a children array or the roots array), so a reference is modelled
    by the place of the object: the index of its root followed by the
    indices of the children leading to it.  Reading through a reference is
    [block_at], writing through it is [update_block_at]; both act on the one
    shared forest, which is what aliasing means here. *)

Fixpoint child_block_at (path : list nat) (b : Block) : option Block :=
  match path with
  | [] => Some b
  | i :: rest =>
      match nth_error (children b) i with
      | Some (OBlock c) => child_block_at rest c
      | _ => None
      end
  end.

Definition block_at (rs : list Block) (path : list nat) : option Block :=
  match path with
  | [] => None
  | i :: rest =>
      match nth_error rs i with
      | Some b => child_block_at rest b
      | None => None
      end
  end.

(** [l] with the element at [i] replaced by its image under [f]. *)
Fixpoint update_nth {A : Type} (l : list A) (i : nat) (f : A -> A) : list A :=
  match l, i with
  | [], _ => []
  | x :: r, O => f x :: r
  | x :: r, S i' => x :: update_nth r i' f
  end.

Fixpoint update_child_block_at (path : list nat) (f : Block -> Block) (b : Block) : Block :=
  match path with
  | [] => f b
  | i :: rest =>
      with_children b
        (update_nth (children b) i
           (fun o => match o with
                     | OBlock c => OBlock (update_child_block_at rest f c)
                     | _ => o
                     end))
  end.

Definition update_block_at (rs : list Block) (path : list nat) (f : Block -> Block) : list Block :=
  match path with
  | [] => rs
  | i :: rest => update_nth rs i (update_child_block_at rest f)
  end.

End Types.

(* ================================================================== *)
(** * Parser and serializer ([src/parabox/format.ts]) *)
(* ================================================================== *)

Module Format.
Import JS Types.

(** [ParseError]: [message] is the constructor's argument (the Error's own
    message is ["Line <line>: <message>"]), [line] is 1-based. *)
Record ParseError : Type := mkParseError {
  message : string;
  line : nat
}.

(** A computation that returns a value or throws a [ParseError]. *)
Inductive result (A : Type) : Type :=
| Ok (a : A)
| Err (e : ParseError).

Arguments Ok {A}.
Arguments Err {A}.

Definition bit_number (b : bit) : number :=
  match b with B0 => int 0 | B1 => int 1 end.

(** [token] is [undefined] when the array has no such element. *)
Definition toInt (token : option string) (fallback : number) : number :=
  match token with
  | None => fallback
  | Some t =>
      let n := Number_ t in
      if isFinite n then trunc n else fallback
  end.

Definition toFloat (token : option string) (fallback : number) : number :=
  match token with
  | None => fallback
  | Some t =>
      let n := Number_ t in
      if isFinite n then n else fallback
  end.

Definition toBool01 (token : option string) (fallback : bit) : bit :=
  let n := toInt token (bit_number fallback) in
  if number_eqb n (int 1) then B1 else B0.

Definition parseFloorType (raw : string) : FloorType :=
  let tokens := filter (fun t => negb (is_empty t)) (split_ws raw) in
  match tokens with
  | [] => Unknown ""
  | head :: rest =>
      if String.eqb head "Button" then Button
      else if String.eqb head "PlayerButton" then PlayerButton
      else if String.eqb head "Break" then Break
      else if String.eqb head "FastTravel" then FastTravel
      else if String.eqb head "Gallery" then Gallery
      else if String.eqb head "DemoEnd" then DemoEnd
      else if String.eqb head "Portal" then Portal (join " " rest)
      else if String.eqb head "Info" then Info (replace_char "_" " " (join " " rest))
      else Unknown raw
  end.

(** [args[i]] *)
Definition arg (args : list string) (i : nat) : option string := nth_error args i.

Definition parseObject (kind : string) (args : list string) (line : nat) : result Obj :=
  if String.eqb kind "Block" then
    Ok (OBlock
          {| block_x := toInt (arg args 0) (int 0);
             block_y := toInt (arg args 1) (int 0);
             block_id := toInt (arg args 2) (int 0);
             block_width := toInt (arg args 3) (int 1);
             block_height := toInt (arg args 4) (int 1);
             block_hue := toFloat (arg args 5) (Fin 6 1);
             block_sat := toFloat (arg args 6) (Fin 8 1);
             block_val := toFloat (arg args 7) (int 1);
             block_zoomfactor := toFloat (arg args 8) (int 1);
             block_fillwithwalls := toBool01 (arg args 9) B0;
             block_player := toBool01 (arg args 10) B0;
             block_possessable := toBool01 (arg args 11) B0;
             block_playerorder := toInt (arg args 12) (int 0);
             block_fliph := toBool01 (arg args 13) B0;
             block_floatinspace := toBool01 (arg args 14) B0;
             block_specialeffect := toInt (arg args 15) (int 0);
             children := [] |})
  else if String.eqb kind "Ref" then
    Ok (ORef
          {| ref_x := toInt (arg args 0) (int 0);
             ref_y := toInt (arg args 1) (int 0);
             ref_id := toInt (arg args 2) (int 0);
             ref_exitblock := toBool01 (arg args 3) B0;
             ref_infexit := toBool01 (arg args 4) B0;
             ref_infexitnum := toInt (arg args 5) (int 0);
             ref_infenter := toBool01 (arg args 6) B0;
             ref_infenternum := toInt (arg args 7) (int 0);
             ref_infenterid := toInt (arg args 8) (int (-1));
             ref_player := toBool01 (arg args 9) B0;
             ref_possessable := toBool01 (arg args 10) B0;
             ref_playerorder := toInt (arg args 11) (int 0);
             ref_fliph := toBool01 (arg args 12) B0;
             ref_floatinspace := toBool01 (arg args 13) B0;
             ref_specialeffect := toInt (arg args 14) (int 0) |})
  else if String.eqb kind "Wall" then
    Ok (OWall
          {| wall_x := toInt (arg args 0) (int 0);
             wall_y := toInt (arg args 1) (int 0);
             wall_player := toBool01 (arg args 2) B0;
             wall_possessable := toBool01 (arg args 3) B0;
             wall_playerorder := toInt (arg args 4) (int 0) |})
  else if String.eqb kind "Floor" then
    let x := toInt (arg args 0) (int 0) in
    let y := toInt (arg args 1) (int 0) in
    let rest := join " " (skipn 2 args) in
    Ok (OFloor {| floor_x := x; floor_y := y; floor_type := parseFloorType rest |})
  else Err {| message := ("Unknown object kind: " ++ kind)%js; line := line |}.

(** The [kind] property of an object, as text. *)
Definition kind_name (o : Obj) : string :=
  match o with
  | OBlock _ => "Block"
  | ORef _ => "Ref"
  | OWall _ => "Wall"
  | OFloor _ => "Floor"
  end.

(** ** The header loop *)

Definition initial_header : LevelHeader :=
  {| version := int 4; attempt_order := None; shed := None; inner_push := None;
     draw_style := None; custom_level_music := None;
     custom_level_palette := None; unknown := [] |}.

Definition set_version (h : LevelHeader) (v : number) : LevelHeader :=
  mkHeader v (attempt_order h) (shed h) (inner_push h) (draw_style h)
           (custom_level_music h) (custom_level_palette h) (unknown h).
Definition set_attempt_order (h : LevelHeader) (s : string) : LevelHeader :=
  mkHeader (version h) (Some s) (shed h) (inner_push h) (draw_style h)
           (custom_level_music h) (custom_level_palette h) (unknown h).
Definition set_shed (h : LevelHeader) : LevelHeader :=
  mkHeader (version h) (attempt_order h) (Some true) (inner_push h) (draw_style h)
           (custom_level_music h) (custom_level_palette h) (unknown h).
Definition set_inner_push (h : LevelHeader) : LevelHeader :=
  mkHeader (version h) (attempt_order h) (shed h) (Some true) (draw_style h)
           (custom_level_music h) (custom_level_palette h) (unknown h).
Definition set_draw_style (h : LevelHeader) (d : DrawStyle) : LevelHeader :=
  mkHeader (version h) (attempt_order h) (shed h) (inner_push h) (Some d)
           (custom_level_music h) (custom_level_palette h) (unknown h).
Definition set_custom_level_music (h : LevelHeader) (n : number) : LevelHeader :=
  mkHeader (version h) (attempt_order h) (shed h) (inner_push h) (draw_style h)
           (Some n) (custom_level_palette h) (unknown h).
Definition set_custom_level_palette (h : LevelHeader) (n : number) : LevelHeader :=
  mkHeader (version h) (attempt_order h) (shed h) (inner_push h) (draw_style h)
           (custom_level_music h) (Some n) (unknown h).
Definition push_unknown (h : LevelHeader) (l : string) : LevelHeader :=
  mkHeader (version h) (attempt_order h) (shed h) (inner_push h) (draw_style h)
           (custom_level_music h) (custom_level_palette h) (unknown h ++ [l])%list.

(** [style === 'tui' || style === 'grid' || style === 'oldstyle'] *)
Definition parse_draw_style (style : option string) : option DrawStyle :=
  match style with
  | Some s =>
      if String.eqb s "tui" then Some tui
      else if String.eqb s "grid" then Some grid
      else if String.eqb s "oldstyle" then Some oldstyle
      else None
  | None => None
  end.

(** One header line that is neither blank nor the terminator. *)
Definition header_line (header : LevelHeader) (line : string) (i : nat) : result LevelHeader :=
  let tokens := split_ws (trim line) in
  match tokens with
  | [] => Ok (push_unknown header line)
  | key :: _ =>
      if String.eqb key "version" then
        let v := Number_opt (nth_error tokens 1) in
        if negb (isFinite v)
        then Err {| message := "Invalid version"; line := i + 1 |}
        else Ok (set_version header (trunc v))
      else if String.eqb key "attempt_order" then
        Ok (set_attempt_order header (join " " (tl tokens)))
      else if String.eqb key "shed" then Ok (set_shed header)
      else if String.eqb key "inner_push" then Ok (set_inner_push header)
      else if String.eqb key "draw_style" then
        match parse_draw_style (nth_error tokens 1) with
        | Some style => Ok (set_draw_style header style)
        | None => Ok (push_unknown header line)
        end
      else if String.eqb key "custom_level_music" then
        Ok (set_custom_level_music header (toInt (nth_error tokens 1) (int (-1))))
      else if String.eqb key "custom_level_palette" then
        Ok (set_custom_level_palette header (toInt (nth_error tokens 1) (int (-1))))
      else Ok (push_unknown header line)
  end.

(** The first [for] loop of [parseLevel], run on the lines from index [i]
    on.  It returns the header, the index at which the second loop starts
    and the lines from that index on. *)
Fixpoint header_loop (lines : list string) (i : nat) (header : LevelHeader)
  : result (LevelHeader * nat * list string) :=
  match lines with
  | [] => Ok (header, i, [])
  | line :: rest =>
      if String.eqb (trim line) "" then header_loop rest (S i) header
      else if String.eqb (trim line) "#" then Ok (header, S i, rest)
      else
        match header_line header line i with
        | Ok header' => header_loop rest (S i) header'
        | Err e => Err e
        end
  end.

(** ** The body loop

    [roots] is the array of roots; [stack] holds references to the open
    Blocks, oldest first, each a place in [roots] (see [Types.block_at]). *)
Record BodyState : Type := mkBodyState {
  st_roots : list Block;
  st_stack : list (list nat)
}.

(** Whether [raw] matches the regular expression "any tabs, then any code
    units but line terminators, to the end": it does unless a line
    terminator is left in it.  Line feeds and carriage returns are gone from
    a line, U+2028 and U+2029 are not. *)
Definition line_matches (raw : string) : bool :=
  negb (string_existsb is_line_terminator raw).

(** The length of the first group of that match: the number of leading
    tabs. *)
Fixpoint leading_tabs (raw : string) : nat :=
  match raw with
  | String c r => if Char.eqb c "009" then S (leading_tabs r) else O
  | EmptyString => O
  end.

(** The second group of that match: the line without its leading tabs. *)
Definition after_tabs (raw : string) : string := strip_start (Char.eqb "009") raw.

(** [stack[stack.length - 1]] *)
Definition top {A : Type} (stack : list A) : option A := last (map Some stack) None.

(** [parent.children.push(obj)] through the reference [parent]. *)
Definition push_child (rs : list Block) (parent : list nat) (obj : Obj) : list Block :=
  update_block_at rs parent (fun b => with_children b (children b ++ [obj])%list).

(** Number of children of the Block that [parent] refers to. *)
Definition child_count (rs : list Block) (parent : list nat) : nat :=
  match block_at rs parent with
  | Some b => List.length (children b)
  | None => O
  end.

(** One body line that is not blank. *)
Definition body_line (st : BodyState) (raw : string) (i : nat) : result BodyState :=
  let depth := leading_tabs raw in
  let content := trim (after_tabs raw) in
  match split_ws content with
  | [] => Err {| message := "Unknown object kind: undefined"; line := i + 1 |}
  | kind :: args =>
      (* while (stack.length > depth) stack.pop() *)
      let stack := firstn depth (st_stack st) in
      if List.length stack <? depth then
        Err {| message := "Invalid indentation (no parent block at that depth)";
               line := i + 1 |}
      else
        let parent := top stack in
        match parseObject kind args (i + 1) with
        | Err e => Err e
        | Ok (OBlock b) =>
            match parent with
            | Some p =>
                Ok {| st_roots := push_child (st_roots st) p (OBlock b);
                      st_stack := (stack ++ [p ++ [child_count (st_roots st) p]])%list |}
            | None =>
                Ok {| st_roots := (st_roots st ++ [b])%list;
                      st_stack := (stack ++ [[List.length (st_roots st)]])%list |}
            end
        | Ok obj =>
            match parent with
            | None =>
                Err {| message := (kind_name obj ++ " must be inside a Block")%js;
                       line := i + 1 |}
            | Some p =>
                Ok {| st_roots := push_child (st_roots st) p obj; st_stack := stack |}
            end
        end
  end.

(** The second [for] loop, run on the lines from index [i] on. *)
Fixpoint body_loop (lines : list string) (i : nat) (st : BodyState) : result BodyState :=
  match lines with
  | [] => Ok st
  | raw :: rest =>
      if String.eqb (trim raw) "" then body_loop rest (S i) st
      else if negb (line_matches raw) then body_loop rest (S i) st
      else if String.eqb (trim (after_tabs raw)) "" then body_loop rest (S i) st
      else
        match body_line st raw i with
        | Ok st' => body_loop rest (S i) st'
        | Err e => Err e
        end
  end.

(** [text.replace(/\r\n/g, '\n').replace(/\r/g, '\n').split('\n')] with the
    trailing blanks and tabs of each line removed. *)
Definition lines_of (text : string) : list string :=
  map (strip_end is_space_or_tab)
      (split_char "010" (replace_char "013" "010" (replace_crlf text))).

Definition parseLevel (text : string) : result Level :=
  let lines := lines_of text in
  match header_loop lines 0 initial_header with
  | Err e => Err e
  | Ok (header, i, rest) =>
      if negb (isFinite (version header))
      then Err {| message := "Missing version header"; line := 1 |}
      else
        match body_loop rest i {| st_roots := []; st_stack := [] |} with
        | Err e => Err e
        | Ok st =>
            match st_roots st with
            | [] => Err {| message := "No root Block found"; line := List.length lines |}
            | _ :: _ => Ok {| header := header; roots := st_roots st |}
            end
        end
  end.

(** ** The serializer *)

Definition bit_str (b : bit) : string :=
  match b with B0 => "0" | B1 => "1" end.

Definition fmt (n : number) : string :=
  if negb (isFinite n) then "0"
  else
    let s := String_ n in
    if includes "e" s || includes "E" s
    then drop_final_dot (strip_end (Char.eqb "0") (toFixed6 n))
    else s.

Definition formatFloorType (floor : Floor) : string :=
  match floor_type floor with
  | Button => "Button"
  | PlayerButton => "PlayerButton"
  | Portal sceneName => trimEnd ("Portal " ++ sceneName)%js
  | Info text => trimEnd ("Info " ++ replace_char " " "_" text)%js
  | Break => "Break"
  | FastTravel => "FastTravel"
  | Gallery => "Gallery"
  | DemoEnd => "DemoEnd"
  | Unknown raw => raw
  end.

Definition block_line (indent : string) (b : Block) : string :=
  (indent ++ "Block " ++ String_ (block_x b) ++ " " ++ String_ (block_y b) ++ " "
  ++ String_ (block_id b) ++ " " ++ String_ (block_width b) ++ " "
  ++ String_ (block_height b) ++ " " ++ fmt (block_hue b) ++ " "
  ++ fmt (block_sat b) ++ " " ++ fmt (block_val b) ++ " "
  ++ fmt (block_zoomfactor b) ++ " " ++ bit_str (block_fillwithwalls b) ++ " "
  ++ bit_str (block_player b) ++ " " ++ bit_str (block_possessable b) ++ " "
  ++ String_ (block_playerorder b) ++ " " ++ bit_str (block_fliph b) ++ " "
  ++ bit_str (block_floatinspace b) ++ " " ++ String_ (block_specialeffect b))%js.

Definition ref_line (indent : string) (r : Ref) : string :=
  (indent ++ "Ref " ++ String_ (ref_x r) ++ " " ++ String_ (ref_y r) ++ " "
  ++ String_ (ref_id r) ++ " " ++ bit_str (ref_exitblock r) ++ " "
  ++ bit_str (ref_infexit r) ++ " " ++ String_ (ref_infexitnum r) ++ " "
  ++ bit_str (ref_infenter r) ++ " " ++ String_ (ref_infenternum r) ++ " "
  ++ String_ (ref_infenterid r) ++ " " ++ bit_str (ref_player r) ++ " "
  ++ bit_str (ref_possessable r) ++ " " ++ String_ (ref_playerorder r) ++ " "
  ++ bit_str (ref_fliph r) ++ " " ++ bit_str (ref_floatinspace r) ++ " "
  ++ String_ (ref_specialeffect r))%js.

Definition wall_line (indent : string) (w : Wall) : string :=
  (indent ++ "Wall " ++ String_ (wall_x w) ++ " " ++ String_ (wall_y w) ++ " "
  ++ bit_str (wall_player w) ++ " " ++ bit_str (wall_possessable w) ++ " "
  ++ String_ (wall_playerorder w))%js.

Definition floor_line (indent : string) (f : Floor) : string :=
  (indent ++ "Floor " ++ String_ (floor_x f) ++ " " ++ String_ (floor_y f) ++ " "
  ++ formatFloorType f)%js.

(** [emitObj(out, obj, depth)]: the array [out] after the call. *)
Fixpoint emitObj (out : list string) (obj : Obj) (depth : nat) : list string :=
  let indent := repeat_char "009" depth in
  match obj with
  | OBlock b =>
      fold_left (fun out' child => emitObj out' child (depth + 1))
                (children b) (out ++ [block_line indent b])%list
  | ORef r => (out ++ [ref_line indent r])%list
  | OWall w => (out ++ [wall_line indent w])%list
  | OFloor f => (out ++ [floor_line indent f])%list
  end.

Definition draw_style_name (d : DrawStyle) : string :=
  match d with tui => "tui" | grid => "grid" | oldstyle => "oldstyle" end.

(** The header lines and the terminator, in the order they are pushed. *)
Definition header_out (h : LevelHeader) : list string :=
  ([append "version " (String_ (version h))]
   ++ match attempt_order h with
      | Some a => if is_empty a then [] else [append "attempt_order " a]
      | None => []
      end
   ++ match shed h with Some true => ["shed"] | _ => [] end
   ++ match inner_push h with Some true => ["inner_push"] | _ => [] end
   ++ match draw_style h with
      | Some d => [append "draw_style " (draw_style_name d)]
      | None => []
      end
   ++ match custom_level_music h with
      | Some n => [append "custom_level_music " (String_ n)]
      | None => []
      end
   ++ match custom_level_palette h with
      | Some n => [append "custom_level_palette " (String_ n)]
      | None => []
      end
   ++ unknown h
   ++ ["#"])%list.

Definition serializeLevel (level : Level) : string :=
  let out := header_out (header level) in
  let out := fold_left (fun out' root => emitObj out' (OBlock root) 0) (roots level) out in
  (join (String "010" "") out ++ String "010" "")%js.

End Format.

(* ================================================================== *)
(** * The editor's state operations ([src/editor/editorState.ts]) *)
(* ================================================================== *)

Module EditorState.
Import JS Types.

Inductive FloorKind : Type := FloorButton | FloorPlayerButton.

Inductive Tool : Type :=
| ToolSelect
| ToolWall
| ToolFloor (floorKind : FloorKind)
| ToolBlock
| ToolRef (targetBlockId : option number).

Record Viewport : Type := mkViewport {
  panX : number;
  panY : number;
  zoom : number
}.

Record History : Type := mkHistory {
  past : list Level;
  future : list Level
}.

Record EditorState : Type := mkEditorState {
  level : Level;
  selectedBlockPath : list nat;
  tool : Tool;
  viewport : Viewport;
  lastError : option string;
  history : History
}.

Definition createInitialState : EditorState :=
  {| level := createEmptyLevel;
     selectedBlockPath := [0];
     tool := ToolSelect;
     viewport := {| panX := int 0; panY := int 0; zoom := int 48 |};
     lastError := None;
     history := {| past := []; future := [] |} |}.

(** The [for] loop of [getBlockByPath] over the indices after the first;
    [current] is [None] when it is [undefined]. *)
Fixpoint getBlockByPath_loop (current : option Block) (rest : list nat) : option Block :=
  match rest with
  | [] => current
  | idx :: rest' =>
      match current with
      | None => None
      | Some cur =>
          match nth_error (children cur) idx with
          | Some (OBlock c) => getBlockByPath_loop (Some c) rest'
          | _ => None
          end
      end
  end.

Definition getBlockByPath (level : Level) (path : list nat) : option Block :=
  match path with
  | [] => None
  | i :: rest => getBlockByPath_loop (nth_error (roots level) i) rest
  end.

(** [structuredClone]: a deep copy, the same value. *)
Definition cloneLevel (level : Level) : Level := level.

(** [{ ...state, level, history }] *)
Definition with_level_history (state : EditorState) (l : Level) (h : History) : EditorState :=
  {| level := l;
     selectedBlockPath := selectedBlockPath state;
     tool := tool state;
     viewport := viewport state;
     lastError := lastError state;
     history := h |}.

Definition pushHistory (state : EditorState) (next : Level) : EditorState :=
  with_level_history state next
    {| past := past (history state) ++ [level state]; future := [] |}.

Definition undo (state : EditorState) : EditorState :=
  let past_ := past (history state) in
  match last (map Some past_) None with
  | None => state            (* past.length === 0 *)
  | Some prev =>
      with_level_history state prev
        {| past := removelast past_;
           future := level state :: future (history state) |}
  end.

Definition redo (state : EditorState) : EditorState :=
  match future (history state) with
  | [] => state              (* future.length === 0 *)
  | next :: future' =>
      with_level_history state next
        {| past := past (history state) ++ [level state]; future := future' |}
  end.

(** The [x] and [y] properties, which every kind of object has. *)
Definition obj_x (o : Obj) : number :=
  match o with
  | OBlock b => block_x b
  | ORef r => ref_x r
  | OWall w => wall_x w
  | OFloor f => floor_x f
  end.

Definition obj_y (o : Obj) : number :=
  match o with
  | OBlock b => block_y b
  | ORef r => ref_y r
  | OWall w => wall_y w
  | OFloor f => floor_y f
  end.

Definition is_Block (o : Obj) : bool :=
  match o with OBlock _ => true | _ => false end.
Definition is_Wall (o : Obj) : bool :=
  match o with OWall _ => true | _ => false end.
Definition is_Floor (o : Obj) : bool :=
  match o with OFloor _ => true | _ => false end.

(** [c.x === x && c.y === y] *)
Definition at_cell (x y : number) (c : Obj) : bool :=
  number_eqb (obj_x c) x && number_eqb (obj_y c) y.

(** [l.findIndex(p)]; [None] stands for -1. *)
Fixpoint findIndex {A : Type} (p : A -> bool) (l : list A) : option nat :=
  match l with
  | [] => None
  | a :: r => if p a then Some 0 else option_map S (findIndex p r)
  end.

(** [l.splice(i, 1)]: [l] without its element at [i]. *)
Fixpoint remove_nth {A : Type} (l : list A) (i : nat) : list A :=
  match l, i with
  | [], _ => []
  | _ :: r, O => r
  | a :: r, S i' => a :: remove_nth r i'
  end.

Definition upsertWall (block : Block) (x y : number) : Block :=
  let next := block in
  match findIndex (fun c => is_Wall c && at_cell x y c) (children next) with
  | Some idx => with_children next (remove_nth (children next) idx)
  | None =>
      let wall := {| wall_x := x; wall_y := y; wall_player := B0;
                     wall_possessable := B0; wall_playerorder := int 0 |} in
      with_children next (children next ++ [OWall wall])
  end.

Definition upsertFloor (block : Block) (x y : number) (floor : FloorType) : Block :=
  let next := block in
  let obj := {| floor_x := x; floor_y := y; floor_type := floor |} in
  match findIndex (fun c => is_Floor c && at_cell x y c) (children next) with
  | Some idx => with_children next (update_nth (children next) idx (fun _ => OFloor obj))
  | None => with_children next (children next ++ [OFloor obj])
  end.

Definition removeAt (block : Block) (x y : number) : Block :=
  let next := block in
  with_children next
    (filter (fun c => if is_Block c then true else negb (at_cell x y c)) (children next)).

Definition addBlock (block : Block) (x y width height id : number) : Block :=
  let next := block in
  let child : Block :=
    {| block_x := x; block_y := y; block_id := id;
       block_width := width; block_height := height;
       block_hue := block_hue block; block_sat := block_sat block;
       block_val := block_val block; block_zoomfactor := int 1;
       block_fillwithwalls := B0; block_player := B0; block_possessable := B0;
       block_playerorder := int 0; block_fliph := B0; block_floatinspace := B0;
       block_specialeffect := int 0; children := [] |} in
  with_children next (children next ++ [OBlock child]).

Definition addRef (block : Block) (x y id : number) : Block :=
  let next := block in
  let ref :=
    {| ref_x := x; ref_y := y; ref_id := id; ref_exitblock := B0;
       ref_infexit := B0; ref_infexitnum := int 0; ref_infenter := B0;
       ref_infenternum := int 0; ref_infenterid := int (-1); ref_player := B0;
       ref_possessable := B0; ref_playerorder := int 0; ref_fliph := B0;
       ref_floatinspace := B0; ref_specialeffect := int 0 |} in
  (* overwrite existing non-block at cell *)
  let kept := filter (fun c => if is_Block c then true else negb (at_cell x y c))
                     (children next) in
  with_children next (kept ++ [ORef ref]).

(** [arr[i] = v].  Inside the array the element is replaced; at its end the
    array grows by one; beyond its end JavaScript leaves holes, which no
    value of an array type of the data model has: [None] stands for that
    outcome. *)
Definition array_set {A : Type} (arr : list A) (i : nat) (v : A) : option (list A) :=
  if i <? List.length arr then Some (update_nth arr i (fun _ => v))
  else if i =? List.length arr then Some (arr ++ [v])
  else None.

(** [setBlockAtPath]; [None] when the written array is left with holes.
    [parent] is a reference into the copy [next]: the write goes to the
    place [parentPath] of [next]. *)
Definition setBlockAtPath (level : Level) (path : list nat) (block : Block) : option Level :=
  let next := cloneLevel level in
  match path with
  | [] => Some next
  | [i] =>
      match array_set (roots next) i block with
      | Some rs => Some {| header := header next; roots := rs |}
      | None => None
      end
  | _ =>
      let parentPath := removelast path in
      match getBlockByPath next parentPath with
      | None => Some next
      | Some parent =>
          match array_set (children parent) (last path 0) (OBlock block) with
          | Some cs =>
              Some {| header := header next;
                      roots := update_block_at (roots next) parentPath
                                 (fun b => with_children b cs) |}
          | None => None
          end
      end
  end.

Definition isWithin (block : Block) (x y : number) : bool :=
  number_geb x (int 0) && number_geb y (int 0)
  && number_ltb x (block_width block) && number_ltb y (block_height block).

Inductive Hit : Type :=
| BlockChild (index : nat)
| CellObj (index : nat).

(** [x >= c.x && y >= c.y && x < c.x + c.width && y < c.y + c.height] *)
Definition in_box (c : Block) (x y : number) : bool :=
  number_geb x (block_x c) && number_geb y (block_y c)
  && number_ltb x (number_add (block_x c) (block_width c))
  && number_ltb y (number_add (block_y c) (block_height c)).

(** The first loop of [hitTest] with [i] indices left to visit: it looks
    at the children at [i - 1], [i - 2], ..., [0]. *)
Fixpoint hitTest_blocks (cs : list Obj) (x y : number) (i : nat) : option Hit :=
  match i with
  | O => None
  | S j =>
      match nth_error cs j with
      | Some (OBlock c) =>
          if in_box c x y then Some (BlockChild j) else hitTest_blocks cs x y j
      | _ => hitTest_blocks cs x y j
      end
  end.

(** The second loop. *)
Fixpoint hitTest_cells (cs : list Obj) (x y : number) (i : nat) : option Hit :=
  match i with
  | O => None
  | S j =>
      match nth_error cs j with
      | Some c =>
          if is_Block c then hitTest_cells cs x y j
          else if at_cell x y c then Some (CellObj j)
          else hitTest_cells cs x y j
      | None => hitTest_cells cs x y j
      end
  end.

Definition hitTest (block : Block) (x y : number) : option Hit :=
  (* blocks first (topmost if later in list) *)
  match hitTest_blocks (children block) x y (List.length (children block)) with
  | Some h => Some h
  | None => hitTest_cells (children block) x y (List.length (children block))
  end.

(** ** Walking the Blocks of a level *)

(** The closure [walk] of [walkBlocks]: [fn] on the Block, then the walk of
    each child that is a Block, in order.  The callback acts on variables
    that it captures; [s] is their state. *)
Fixpoint walk {St : Type} (fn : Block -> St -> St) (o : Obj) (s : St) : St :=
  match o with
  | OBlock b => fold_left (fun s' c => walk fn c s') (children b) (fn b s)
  | _ => s            (* c.kind !== 'Block': not walked *)
  end.

Definition walkBlocks {St : Type} (level : Level) (fn : Block -> St -> St) (s : St) : St :=
  fold_left (fun s' r => walk fn (OBlock r) s') (roots level) s.

Definition nextBlockId (level : Level) : number :=
  let maxId :=
    walkBlocks level
      (fun b maxId => if number_gtb (block_id b) maxId then block_id b else maxId)
      (int (-1)) in
  number_add maxId (int 1).

(** [{ id, path }] *)
Record BlockEntry : Type := mkBlockEntry {
  entry_id : number;
  entry_path : list nat
}.

(** [l.forEach((c, idx) => ...)], the indices counted from [i]; the callback
    acts on the state [s]. *)
Definition forEach_from {A St : Type} (f : St -> A -> nat -> St)
  : list A -> nat -> St -> St :=
  fix go (l : list A) (i : nat) (s : St) : St :=
    match l with
    | [] => s
    | a :: r => go r (S i) (f s a i)
    end.

(** The closure [walk] of [listAllBlocks]; [out] is the array it pushes
    to. *)
Fixpoint list_walk (out : list BlockEntry) (o : Obj) (path : list nat) : list BlockEntry :=
  match o with
  | OBlock b =>
      forEach_from (fun out' c idx => list_walk out' c (path ++ [idx]))
                   (children b) 0
                   (out ++ [{| entry_id := block_id b; entry_path := path |}])
  | _ => out
  end.

(** [comparefn(x, y) < 0], a NaN result counting as zero. *)
Definition sorts_before {A : Type} (comparefn : A -> A -> number) (x y : A) : bool :=
  number_ltb (comparefn x y) (int 0).

(** [x] put into the sorted array [s]: before the first element that it
    sorts before. *)
Fixpoint sort_insert {A : Type} (comparefn : A -> A -> number) (x : A) (s : list A) : list A :=
  match s with
  | [] => [x]
  | y :: r => if sorts_before comparefn x y then x :: y :: r
              else y :: sort_insert comparefn x r
  end.

(** [l.sort(comparefn)].  The standard asks for a stable sort and fixes the
    result when [comparefn] is a consistent comparator: the elements in
    ascending order, equal ones in their original order.  This is the
    insertion sort that gives that result. *)
Definition sort {A : Type} (comparefn : A -> A -> number) (l : list A) : list A :=
  fold_left (fun s x => sort_insert comparefn x s) l [].

Definition listAllBlocks (level : Level) : list BlockEntry :=
  let out :=
    forEach_from (fun out' r i => list_walk out' (OBlock r) [i]) (roots level) 0 [] in
  sort (fun a b => number_sub (entry_id a) (entry_id b)) out.

(** [null] is [None]. *)
Definition findPathById (level : Level) (id : number) : option (list nat) :=
  let all := listAllBlocks level in
  match find (fun b => number_eqb (entry_id b) id) all with
  | Some b => Some (entry_path b)
  | None => None
  end.


End EditorState.

(* ================================================================== *)
(** * The editor component ([src/editor/LevelEditor.tsx]) *)
(* ================================================================== *)

Module LevelEditor.
Import JS Types Format EditorState.

(** The state of the component: one field for each [useState].  A handler
    is a function from the state of the render that it was created in to
    the state after its updates; it is run with no other update pending, so
    the [s] that an updater [setState((s) => ...)] receives is the [state]
    of the handler. *)
Record Component : Type := mkComponent {
  state : EditorState;
  ioText : string;
  showHelp : bool;
  hoverCell : option (number * number);
  selectedChildIndex : option nat
}.

Definition with_state (c : Component) (s : EditorState) : Component :=
  {| state := s; ioText := ioText c; showHelp := showHelp c;
     hoverCell := hoverCell c; selectedChildIndex := selectedChildIndex c |}.

Definition with_selectedChildIndex (c : Component) (i : option nat) : Component :=
  {| state := state c; ioText := ioText c; showHelp := showHelp c;
     hoverCell := hoverCell c; selectedChildIndex := i |}.

Definition with_hoverCell (c : Component) (h : option (number * number)) : Component :=
  {| state := state c; ioText := ioText c; showHelp := showHelp c;
     hoverCell := h; selectedChildIndex := selectedChildIndex c |}.

Definition with_ioText (c : Component) (t : string) : Component :=
  {| state := state c; ioText := t; showHelp := showHelp c;
     hoverCell := hoverCell c; selectedChildIndex := selectedChildIndex c |}.

(** [{ ...s, selectedBlockPath }], [{ ...s, lastError }] and
    [{ ...createInitialState(), level }] *)
Definition with_selectedBlockPath (s : EditorState) (p : list nat) : EditorState :=
  {| level := level s; selectedBlockPath := p; tool := tool s;
     viewport := viewport s; lastError := lastError s; history := history s |}.

Definition with_lastError (s : EditorState) (e : option string) : EditorState :=
  {| level := level s; selectedBlockPath := selectedBlockPath s; tool := tool s;
     viewport := viewport s; lastError := e; history := history s |}.

Definition with_level (s : EditorState) (l : Level) : EditorState :=
  {| level := l; selectedBlockPath := selectedBlockPath s; tool := tool s;
     viewport := viewport s; lastError := lastError s; history := history s |}.

(** [selectedBlock], the memoized [getBlockByPath(state.level,
    state.selectedBlockPath)]. *)
Definition selectedBlock (c : Component) : option Block :=
  getBlockByPath (level (state c)) (selectedBlockPath (state c)).

Definition hit_index (h : Hit) : nat :=
  match h with BlockChild i => i | CellObj i => i end.

Definition floor_of_kind (k : FloorKind) : FloorType :=
  match k with FloorButton => Button | FloorPlayerButton => PlayerButton end.

(** [setBlockAtPath(level, path, nextBlock)] followed by
    [setState((s) => pushHistory(s, nextLevel))]; [None] when the write
    leaves an array with holes. *)
Definition commit (c : Component) (nextBlock : Block) : option Component :=
  match setBlockAtPath (level (state c)) (selectedBlockPath (state c)) nextBlock with
  | Some nextLevel => Some (with_state c (pushHistory (state c) nextLevel))
  | None => None
  end.

Definition applyToolAt (c : Component) (cellX cellY : number) (erase : bool)
  : option Component :=
  match selectedBlock c with
  | None => Some c
  | Some block =>
      if negb (isWithin block cellX cellY) then Some c
      else
        (* the branch [if (erase)], which every tool but Select reaches *)
        let erased :=
          match commit c (removeAt block cellX cellY) with
          | Some c' => Some (with_selectedChildIndex c' None)
          | None => None
          end in
        match tool (state c) with
        | ToolSelect =>
            match hitTest block cellX cellY with
            | None => Some (with_selectedChildIndex c None)
            | Some hit =>
                match nth_error (children block) (hit_index hit) with
                | Some (OBlock _) =>
                    Some (with_selectedChildIndex
                            (with_state c
                               (with_selectedBlockPath (state c)
                                  (selectedBlockPath (state c) ++ [hit_index hit])))
                            None)
                | _ => Some (with_selectedChildIndex c (Some (hit_index hit)))
                end
            end
        | ToolWall =>
            if erase then erased else commit c (upsertWall block cellX cellY)
        | ToolFloor floorKind =>
            if erase then erased
            else commit c (upsertFloor block cellX cellY (floor_of_kind floorKind))
        | ToolBlock =>
            if erase then erased
            else
              let id := nextBlockId (level (state c)) in
              commit c (addBlock block cellX cellY (int 3) (int 3) id)
        | ToolRef target =>
            if erase then erased
            else
              match target with
              | None =>
                  Some (with_state c
                          (with_lastError (state c)
                             (Some "Pick a target block id for Ref first.")))
              | Some target => commit c (addRef block cellX cellY target)
              end
        end
  end.

(** [onPickBlock] *)
Definition onPickBlock (c : Component) (path : list nat) : Component :=
  with_selectedChildIndex (with_state c (with_selectedBlockPath (state c) path)) None.

(** The message of a [ParseError], as its constructor builds it. *)
Definition error_message (e : ParseError) : string :=
  ("Line " ++ String_ (int (Z.of_nat (line e))) ++ ": " ++ message e)%js.

Definition onImport (c : Component) : Component :=
  match parseLevel (ioText c) with
  | Ok level =>
      with_hoverCell
        (with_selectedChildIndex (with_state c (with_level createInitialState level)) None)
        None
  | Err e => with_state c (with_lastError (state c) (Some (error_message e)))
  end.

Definition onExport (c : Component) : Component :=
  with_ioText c (serializeLevel (level (state c))).

(** [Math.max(a, Math.min(b, n))] *)
Definition clamp (n a b : number) : number := Math_max a (Math_min b n).

(** The loop of [pathEq] over two arrays of the same length. *)
Fixpoint pathEq_loop (a b : list nat) : bool :=
  match a, b with
  | x :: a', y :: b' => if negb (x =? y) then false else pathEq_loop a' b'
  | _, _ => true
  end.

Definition pathEq (a b : list nat) : bool :=
  if negb (List.length a =? List.length b) then false else pathEq_loop a b.

End LevelEditor.

(* ================================================================== *)
(** * Vocabulary of the properties *)
(* ================================================================== *)

Module Spec.
Import JS Types Format EditorState LevelEditor.

(** [n] committing edits in a row, then [n] undos. *)
Definition pushEdits (state : EditorState) (edits : list Level) : EditorState :=
  fold_left pushHistory edits state.

Definition undos (n : nat) (state : EditorState) : EditorState :=
  Nat.iter n undo state.

(** The child at index [i] is a Block whose box holds the cell [(x, y)]. *)
Definition block_hit (cs : list Obj) (x y : number) (i : nat) : Prop :=
  exists c, nth_error cs i = Some (OBlock c) /\ in_box c x y = true.

(** The child at index [i] is a leaf placed exactly at [(x, y)]. *)
Definition cell_hit (cs : list Obj) (x y : number) (i : nat) : Prop :=
  exists o, nth_error cs i = Some o /\ is_Block o = false /\ at_cell x y o = true.

(** *** Boxes on integer cells *)

(** An integer that binary64 holds along with its neighbours: below 2^53
    in magnitude. *)
Definition safe (z : Z) : bool := (Z.abs z <? 2 ^ 53)%Z.

(** Corner and size of a Block whose [x], [y], [width] and [height] are
    integers. *)
Definition box_of (c : Block) : option (Z * Z * Z * Z) :=
  match block_x c, block_y c, block_width c, block_height c with
  | Fin bx O, Fin by_ O, Fin w O, Fin h O => Some (bx, by_, w, h)
  | _, _, _, _ => None
  end.

(** The box of [c] contains the cell [(x, y)]: the cell lies from the
    corner on and before the far edges [x + width] and [y + height]. *)
Definition box_contains (c : Block) (x y : Z) : Prop :=
  exists bx by_ w h,
    box_of c = Some (bx, by_, w, h)
    /\ (bx <= x < bx + w)%Z /\ (by_ <= y < by_ + h)%Z.

(** The child at index [i] is a Block whose box contains the cell. *)
Definition block_contains (cs : list Obj) (x y : Z) (i : nat) : Prop :=
  exists c, nth_error cs i = Some (OBlock c) /\ box_contains c x y.

(** The child at index [i] is a leaf whose coordinates are those of the
    cell. *)
Definition leaf_at (cs : list Obj) (x y : Z) (i : nat) : Prop :=
  exists o, nth_error cs i = Some o /\ is_Block o = false
            /\ obj_x o = int x /\ obj_y o = int y.

(** A child within the range where the arithmetic of [hitTest] is exact:
    a Block with safe integers as corner, size and far edges; a leaf with
    safe integers as coordinates. *)
Definition safe_child (o : Obj) : bool :=
  match o with
  | OBlock c =>
      match box_of c with
      | Some (bx, by_, w, h) =>
          safe bx && safe by_ && safe w && safe h
          && safe (bx + w) && safe (by_ + h)
      | None => false
      end
  | _ =>
      match obj_x o, obj_y o with
      | Fin lx O, Fin ly O => safe lx && safe ly
      | _, _ => false
      end
  end.

(** A Block with one child Block, of width 1 and with 2^53 as its [x]. *)
Definition far_scene : Block :=
  mkBlock (int 0) (int 0) (int 0) (int 9) (int 9) (Fin 6 1) (Fin 8 1)
          (int 1) (int 1) B0 B0 B0 (int 0) B0 B0 (int 0)
    [ OBlock (mkBlock (int (2 ^ 53)) (int 0) (int 1) (int 1) (int 1) (Fin 6 1) (Fin 8 1)
                      (int 1) (int 1) B0 B0 B0 (int 0) B0 B0 (int 0) []) ].

(** [i] is the largest index with the property [P]. *)
Definition last_index (P : nat -> Prop) (i : nat) : Prop :=
  P i /\ forall j, i < j -> ~ P j.

(** The scenario of the specification for hit testing: a child Block over
    the cells (0,0) to (1,1), a Wall at (1,1) and a Wall at (2,2). *)
Definition hit_scene : Block :=
  mkBlock (int (-1)) (int (-1)) (int 0) (int 9) (int 9) (Fin 6 1) (Fin 8 1)
          (int 1) (int 1) B0 B0 B0 (int 0) B0 B0 (int 0)
    [ OBlock (mkBlock (int 0) (int 0) (int 1) (int 2) (int 2) (Fin 6 1) (Fin 8 1)
                      (int 1) (int 1) B0 B0 B0 (int 0) B0 B0 (int 0) []);
      OWall (mkWall (int 1) (int 1) B0 B0 (int 0));
      OWall (mkWall (int 2) (int 2) B0 B0 (int 0)) ].

Definition is_Ref (o : Obj) : bool :=
  match o with ORef _ => true | _ => false end.

Definition is_leaf (o : Obj) : bool := negb (is_Block o).

(** Number of children of kind [kind] placed at the cell [(x, y)]. *)
Definition count_at (kind : Obj -> bool) (cs : list Obj) (x y : number) : nat :=
  length (filter (fun c => kind c && at_cell x y c) cs).

(** Every cell of the block holds at most one leaf. *)
Definition one_leaf_per_cell (b : Block) : Prop :=
  forall x y, count_at is_leaf (children b) x y <= 1.

(** Every cell of the block holds at most one Wall, at most one Floor and at
    most one Ref. *)
Definition one_leaf_of_each_kind_per_cell (b : Block) : Prop :=
  forall x y,
    count_at is_Wall (children b) x y <= 1
    /\ count_at is_Floor (children b) x y <= 1
    /\ count_at is_Ref (children b) x y <= 1.

(** A block with one Button floor at the cell (0, 0). *)
Definition floor_scene : Block :=
  mkBlock (int (-1)) (int (-1)) (int 0) (int 9) (int 9) (Fin 6 1) (Fin 8 1)
          (int 1) (int 1) B0 B0 B0 (int 0) B0 B0 (int 0)
    [ OFloor (mkFloor (int 0) (int 0) Button) ].

(** A block with one Wall at the cell (0, 0). *)
Definition wall_scene : Block :=
  mkBlock (int (-1)) (int (-1)) (int 0) (int 9) (int 9) (Fin 6 1) (Fin 8 1)
          (int 1) (int 1) B0 B0 B0 (int 0) B0 B0 (int 0)
    [ OWall (mkWall (int 0) (int 0) B0 B0 (int 0)) ].

(** A block to write with [setBlockAtPath]. *)
Definition spare_block : Block :=
  mkBlock (int 2) (int 2) (int 7) (int 3) (int 3) (Fin 6 1) (Fin 8 1)
          (int 1) (int 1) B0 B0 B0 (int 0) B0 B0 (int 0) [].

(** A level whose root holds one Wall. *)
Definition wall_level : Level :=
  {| header := header createEmptyLevel; roots := [wall_scene] |}.

(** The token is present and its numeric value [v] has [1 <= v < 2], that
    is, [Number] gives a finite number whose integer part is one. *)
Definition reads_as_one (token : option string) : Prop :=
  exists t m k,
    token = Some t /\ Number_ t = Fin m k
    /\ (10 ^ Z.of_nat k <= m < 2 * 10 ^ Z.of_nat k)%Z.

(** The flags of an object, in the order of their positions on the line. *)
Definition flags_of (o : Obj) : list bit :=
  match o with
  | OBlock b => [block_fillwithwalls b; block_player b; block_possessable b;
                 block_fliph b; block_floatinspace b]
  | ORef r => [ref_exitblock r; ref_infexit r; ref_infenter r; ref_player r;
               ref_possessable r; ref_fliph r; ref_floatinspace r]
  | OWall w => [wall_player w; wall_possessable w]
  | OFloor _ => []
  end.

(** The positions, after the keyword, of the flags of each kind of object. *)
Definition flag_positions (kind : string) : list nat :=
  if String.eqb kind "Block" then [9; 10; 11; 13; 14]
  else if String.eqb kind "Ref" then [3; 4; 6; 9; 10; 12; 13]
  else if String.eqb kind "Wall" then [2; 3]
  else [].

(** ** Lines of the header *)

Definition is_blank (l : string) : bool := String.eqb (trim l) "".

(** The line that ends the header: its trimmed content is the one
    character [#]. *)
Definition is_terminator (l : string) : bool := String.eqb (trim l) "#".

(** First and second token of a line. *)
Definition header_key (l : string) : option string := nth_error (split_ws (trim l)) 0.
Definition header_value (l : string) : option string := nth_error (split_ws (trim l)) 1.

Definition key_is (l : string) (key : string) : bool :=
  match header_key l with Some k => String.eqb k key | None => false end.

(** The lines before the first terminator. *)
Fixpoint header_section (lines : list string) : list string :=
  match lines with
  | [] => []
  | l :: rest => if is_terminator l then [] else l :: header_section rest
  end.

(** The lines after the first terminator. *)
Fixpoint body_section (lines : list string) : list string :=
  match lines with
  | [] => []
  | l :: rest => if is_terminator l then rest else body_section rest
  end.

(** Index of the first line of the body: past the terminator, or past the
    last line when there is no terminator. *)
Fixpoint body_start (lines : list string) : nat :=
  match lines with
  | [] => 0
  | l :: rest => if is_terminator l then 1 else S (body_start rest)
  end.

(** A [version] line whose second token is missing or is not read as a
    finite number. *)
Definition invalid_version_line (l : string) : bool :=
  negb (is_blank l) && key_is l "version"
  && negb (isFinite (Number_opt (header_value l))).

(** A line that the header loop appends to [unknown]: a [draw_style] line
    whose value is none of the three styles, or a line whose first token is
    no key of the header. *)
Definition unknown_line (l : string) : bool :=
  negb (is_blank l)
  && (if key_is l "draw_style"
      then match parse_draw_style (header_value l) with Some _ => false | None => true end
      else negb (key_is l "version" || key_is l "attempt_order" || key_is l "shed"
                 || key_is l "inner_push" || key_is l "custom_level_music"
                 || key_is l "custom_level_palette")).

(** The last element with the property [p]. *)
Fixpoint last_such {A : Type} (p : A -> bool) (l : list A) : option A :=
  match l with
  | [] => None
  | a :: r =>
      match last_such p r with
      | Some b => Some b
      | None => if p a then Some a else None
      end
  end.

(** The second token of a line is missing or is not read as a finite
    number. *)
Definition bad_value (l : string) : bool :=
  negb (isFinite (Number_opt (header_value l))).

(** The value that a line with the key [key] gives its identifier: the
    field of the header is [None] until such a line is read. *)
Definition identifier_read (key : string) (lines : list string) : option number :=
  match last_such (fun l => key_is l key) (header_section lines) with
  | Some l => Some (if bad_value l then int (-1) else trunc (Number_opt (header_value l)))
  | None => None
  end.

(** Index of the first element with the property [p]. *)
Fixpoint index_of {A : Type} (p : A -> bool) (l : list A) : option nat :=
  match l with
  | [] => None
  | a :: r => if p a then Some 0 else option_map S (index_of p r)
  end.

Definition LF : string := String "010" "".
Definition TAB : string := String "009" "".

(** A text with a [custom_level_music] line whose value is no number. *)
Definition music_text : string :=
  ("version 4" ++ LF ++ "custom_level_music abc" ++ LF ++ "foo bar" ++ LF
   ++ "draw_style neon" ++ LF ++ "#" ++ LF ++ "Block 0 0 0 3 3" ++ LF)%js.

(** A text with no [version] line. *)
Definition versionless_text : string :=
  ("#" ++ LF ++ "Block 0 0 0 3 3 0.5 0.5 1 1 0 0 0 0 0 0 0" ++ LF)%js.

(** A text whose fourth line is indented by two tabs under one open Block. *)
Definition overindented_text : string :=
  ("version 4" ++ LF ++ "#" ++ LF ++ "Block 0 0 0 3 3" ++ LF
   ++ TAB ++ TAB ++ "Wall 1 1" ++ LF)%js.

(** The code unit U+2028, LINE SEPARATOR. *)
Definition LS : string := String 8232%N "".

(** The same text with a LINE SEPARATOR at the end of its fourth line. *)
Definition separator_text : string :=
  ("version 4" ++ LF ++ "#" ++ LF ++ "Block 0 0 0 3 3" ++ LF
   ++ TAB ++ TAB ++ "Wall 1 1" ++ LS ++ LF)%js.

(** ** Well-formed levels

    The levels that [serializeLevel] writes and [parseLevel] reads back. *)

(** A token: not empty and free of white space. *)
Definition is_token (t : string) : bool :=
  negb (is_empty t) && string_forallb (fun c => negb (is_ws c)) t.

(** Tokens separated by single spaces. *)
Definition is_spaced (s : string) : bool := forallb is_token (split_char " " s).

(** Free of carriage returns and line feeds. *)
Definition is_one_line (s : string) : bool :=
  string_forallb (fun c => negb (Char.eqb c "013" || Char.eqb c "010")) s.

(** An integer that [String] prints in full, without exponent: below 10^21
    in absolute value. *)
Definition plain_integer (v : number) : bool :=
  match v with
  | Fin m O => (Z.abs m <? 10 ^ 21)%Z
  | _ => false
  end.

(** A finite number in lowest form that [String] prints without exponent:
    zero, or of absolute value from 10^-6 up to, and not including, 10^21. *)
Definition plain_decimal (v : number) : bool :=
  match v with
  | Fin m k =>
      ((k =? 0) || negb (m mod 10 =? 0)%Z)
      && ((m =? 0)%Z
          || ((10 ^ Z.of_nat k <=? Z.abs m * 10 ^ 6)%Z
              && (Z.abs m <? 10 ^ 21 * 10 ^ Z.of_nat k)%Z))
  | _ => false
  end.

(** [ds] is a decimal numeral of [n]. *)
Definition numeral (ds : string) (n : Z) : Prop :=
  string_forallb is_digit ds = true
  /\ ds <> ""
  /\ (forall a, digits_val a ds = a * 10 ^ Z.of_nat (String.length ds) + n)%Z
  /\ (n < 10 ^ Z.of_nat (String.length ds))%Z
  /\ (0 < n -> 10 ^ (Z.of_nat (String.length ds) - 1) <= n)%Z
  /\ ((n mod 10)%Z <> 0%Z -> strip_end (Char.eqb "0") ds = ds).

(** A decimal literal without exponent: sign, integer part and, when it is
    not empty, a point and the fraction. *)
Definition literal (neg : bool) (ip fp : string) : string :=
  ((if neg then "-" else "") ++ ip ++ (if is_empty fp then "" else "." ++ fp))%js.

(** A code unit of a literal: a digit, the sign or the point. *)
Definition literal_char (c : char) : bool :=
  is_digit c || Char.eqb c "-" || Char.eqb c ".".

(** The scene name of a Portal: empty, or tokens separated by single
    spaces. *)
Definition wf_scene_name (s : string) : bool := is_empty s || is_spaced s.

(** The text of an Info floor: no underscore, and no white space but the
    space. *)
Definition wf_info_text (t : string) : bool :=
  string_forallb
    (fun c => negb (Char.eqb c "_") && (negb (is_ws c) || Char.eqb c " ")) t.

(** The first tokens that [parseFloorType] gives a meaning to. *)
Definition floor_keyword (t : string) : bool :=
  String.eqb t "Button" || String.eqb t "PlayerButton" || String.eqb t "Break"
  || String.eqb t "FastTravel" || String.eqb t "Gallery" || String.eqb t "DemoEnd"
  || String.eqb t "Portal" || String.eqb t "Info".

(** The payload of an Unknown floor: empty, or tokens separated by single
    spaces of which the first is no keyword. *)
Definition wf_unknown_raw (raw : string) : bool :=
  is_empty raw
  || (is_spaced raw && negb (floor_keyword (hd "" (split_char " " raw)))).

Definition wf_floor_type (t : FloorType) : bool :=
  match t with
  | Portal sceneName => wf_scene_name sceneName
  | Info text => wf_info_text text
  | Unknown raw => wf_unknown_raw raw
  | _ => true
  end.

Definition wf_ref (r : Ref) : bool :=
  plain_integer (ref_x r) && plain_integer (ref_y r) && plain_integer (ref_id r)
  && plain_integer (ref_infexitnum r) && plain_integer (ref_infenternum r)
  && plain_integer (ref_infenterid r) && plain_integer (ref_playerorder r)
  && plain_integer (ref_specialeffect r).

Definition wf_wall (w : Wall) : bool :=
  plain_integer (wall_x w) && plain_integer (wall_y w)
  && plain_integer (wall_playerorder w).

Definition wf_floor (f : Floor) : bool :=
  plain_integer (floor_x f) && plain_integer (floor_y f)
  && wf_floor_type (floor_type f).

(** The fields of a Block, its children left aside. *)
Definition wf_block_fields (b : Block) : bool :=
  plain_integer (block_x b) && plain_integer (block_y b)
  && plain_integer (block_id b) && plain_integer (block_width b)
  && plain_integer (block_height b) && plain_decimal (block_hue b)
  && plain_decimal (block_sat b) && plain_decimal (block_val b)
  && plain_decimal (block_zoomfactor b) && plain_integer (block_playerorder b)
  && plain_integer (block_specialeffect b).

Fixpoint wf_obj (o : Obj) : bool :=
  match o with
  | OBlock b => wf_block_fields b && forallb wf_obj (children b)
  | ORef r => wf_ref r
  | OWall w => wf_wall w
  | OFloor f => wf_floor f
  end.

(** The fields of an object, its children left aside. *)
Definition wf_fields (o : Obj) : bool :=
  match o with
  | OBlock b => wf_block_fields b
  | ORef r => wf_ref r
  | OWall w => wf_wall w
  | OFloor f => wf_floor f
  end.

(** An unknown line that is written and read back as it is: one line,
    without blanks or tabs at its end, not the terminator, and such that the
    header loop appends it to [unknown]. *)
Definition wf_unknown_line (u : string) : bool :=
  unknown_line u && negb (is_terminator u) && is_one_line u
  && String.eqb (strip_end is_space_or_tab u) u.

Definition wf_header (h : LevelHeader) : bool :=
  plain_integer (version h)
  && match attempt_order h with Some a => is_spaced a | None => true end
  && match shed h with Some false => false | _ => true end
  && match inner_push h with Some false => false | _ => true end
  && match custom_level_music h with Some n => plain_integer n | None => true end
  && match custom_level_palette h with Some n => plain_integer n | None => true end
  && forallb wf_unknown_line (unknown h).

(** A well-formed level: at least one root; every integer field a plain
    integer and every float field a plain decimal; the flags [shed] and
    [inner_push] absent or true; [attempt_order] absent or tokens separated
    by single spaces; well-formed unknown lines; well-formed floor payloads. *)
Definition wf_level (l : Level) : bool :=
  wf_header (header l)
  && match roots l with [] => false | _ :: _ => true end
  && forallb (fun b => wf_obj (OBlock b)) (roots l).

(** ** The lines of the serializer *)

(** The line of an object, its children left aside. *)
Definition obj_line (indent : string) (o : Obj) : string :=
  match o with
  | OBlock b => block_line indent b
  | ORef r => ref_line indent r
  | OWall w => wall_line indent w
  | OFloor f => floor_line indent f
  end.

(** The lines of an object and of its descendants, in the order [emitObj]
    pushes them. *)
Fixpoint obj_lines (depth : nat) (o : Obj) : list string :=
  obj_line (repeat_char "009" depth) o
  :: match o with
     | OBlock b => flat_map (obj_lines (S depth)) (children b)
     | _ => []
     end.

Definition floor_type_tokens (t : FloorType) : list string :=
  match t with
  | Button => ["Button"]
  | PlayerButton => ["PlayerButton"]
  | Portal sceneName =>
      "Portal" :: (if is_empty sceneName then [] else split_char " " sceneName)
  | Info text => "Info" :: (if is_empty text then [] else [replace_char " " "_" text])
  | Break => ["Break"]
  | FastTravel => ["FastTravel"]
  | Gallery => ["Gallery"]
  | DemoEnd => ["DemoEnd"]
  | Unknown raw => if is_empty raw then [] else split_char " " raw
  end.

(** The tokens of the line of an object. *)
Definition obj_tokens (o : Obj) : list string :=
  match o with
  | OBlock b =>
      ["Block"; String_ (block_x b); String_ (block_y b); String_ (block_id b);
       String_ (block_width b); String_ (block_height b); fmt (block_hue b);
       fmt (block_sat b); fmt (block_val b); fmt (block_zoomfactor b);
       bit_str (block_fillwithwalls b); bit_str (block_player b);
       bit_str (block_possessable b); String_ (block_playerorder b);
       bit_str (block_fliph b); bit_str (block_floatinspace b);
       String_ (block_specialeffect b)]
  | ORef r =>
      ["Ref"; String_ (ref_x r); String_ (ref_y r); String_ (ref_id r);
       bit_str (ref_exitblock r); bit_str (ref_infexit r);
       String_ (ref_infexitnum r); bit_str (ref_infenter r);
       String_ (ref_infenternum r); String_ (ref_infenterid r);
       bit_str (ref_player r); bit_str (ref_possessable r);
       String_ (ref_playerorder r); bit_str (ref_fliph r);
       bit_str (ref_floatinspace r); String_ (ref_specialeffect r)]
  | OWall w =>
      ["Wall"; String_ (wall_x w); String_ (wall_y w); bit_str (wall_player w);
       bit_str (wall_possessable w); String_ (wall_playerorder w)]
  | OFloor f =>
      ["Floor"; String_ (floor_x f); String_ (floor_y f)]
      ++ floor_type_tokens (floor_type f)
  end.

(** An object without its children. *)
Definition childless (o : Obj) : Obj :=
  match o with
  | OBlock b => OBlock (with_children b [])
  | _ => o
  end.

(** ** The rightmost spine of a forest

    While the body is read, the open Blocks are the last root, its last
    child, the last child of that child, and so on: the stack holds the
    places of the first Blocks of this spine. *)

(** [l] with its last element replaced by its image under [f]. *)
Fixpoint map_last {A : Type} (f : A -> A) (l : list A) : list A :=
  match l with
  | [] => []
  | x :: r => match r with [] => [f x] | _ :: _ => x :: map_last f r end
  end.

Definition on_block (f : Block -> Block) (o : Obj) : Obj :=
  match o with OBlock b => OBlock (f b) | _ => o end.

(** [b] with [f] applied to the Block that lies [m] levels below it on its
    rightmost spine. *)
Fixpoint rupdate_in (m : nat) (f : Block -> Block) (b : Block) : Block :=
  match m with
  | O => f b
  | S m' => with_children b (map_last (on_block (rupdate_in m' f)) (children b))
  end.

Definition add_child (o : Obj) (b : Block) : Block :=
  with_children b (children b ++ [o]).

Definition add_children (cs : list Obj) (b : Block) : Block :=
  with_children b (children b ++ cs).

(** The forest with [o] attached at depth [d]: as a new last root when
    [d = 0], else as a new last child of the Block at depth [d - 1] of the
    rightmost spine. *)
Definition attach (d : nat) (o : Obj) (rs : list Block) : list Block :=
  match d with
  | O => match o with OBlock b => rs ++ [b] | _ => rs end
  | S d' => map_last (rupdate_in d' (add_child o)) rs
  end.

(** The place, relative to [b], of the Block [m] levels below [b] on its
    rightmost spine. *)
Fixpoint rpath_in (m : nat) (b : Block) : option (list nat) :=
  match m with
  | O => Some []
  | S m' =>
      match top (children b) with
      | Some (OBlock c) =>
          option_map (cons (length (children b) - 1)) (rpath_in m' c)
      | _ => None
      end
  end.

(** The place of the Block at depth [k] of the rightmost spine of a forest. *)
Definition rpath (rs : list Block) (k : nat) : option (list nat) :=
  match top rs with
  | Some b => option_map (cons (length rs - 1)) (rpath_in k b)
  | None => None
  end.

(** The stack holds the places of the Blocks at depths 0, 1, ... of the
    rightmost spine. *)
Definition spine_stack (rs : list Block) (stack : list (list nat)) : Prop :=
  forall k, k < length stack -> nth_error stack k = rpath rs k.

(** ** Reading the lines of an object back

    The body loop, run on the lines that the serializer writes for [o] at
    depth [d], attaches [o] with all its descendants at depth [d] of the
    forest and keeps the stack on the rightmost spine. *)
Definition reads_back (o : Obj) : Prop :=
  forall d rs stack i rest,
    wf_obj o = true -> spine_stack rs stack -> d <= length stack ->
    (is_Block o = false -> 1 <= d) ->
    exists stack',
      body_loop (map (strip_end is_space_or_tab) (obj_lines d o) ++ rest) i
                {| st_roots := rs; st_stack := stack |}
      = body_loop rest (i + length (obj_lines d o))
                  {| st_roots := attach d o rs; st_stack := stack' |}
      /\ spine_stack (attach d o rs) stack' /\ d <= length stack'.

(** The lines of the roots of a level. *)
Definition body_out (rs : list Block) : list string :=
  flat_map (fun r => obj_lines 0 (OBlock r)) rs.

(** ** Reading header lines back

    The header loop, run on the lines [ls] from the header [h0], reaches the
    end of [ls] with the header [h1]. *)
Definition header_reads (ls : list string) (h0 h1 : LevelHeader) : Prop :=
  forall i rest, header_loop (ls ++ rest) i h0 = header_loop rest (i + length ls) h1.

(** ** Generated levels

    The levels of the round-trip property as the specification words it:
    every numeric field finite and the dimensions of every Block positive.
    Depth and object counts are bounded for every value of [Level]. *)
Definition generated_ref (r : Ref) : bool :=
  isFinite (ref_x r) && isFinite (ref_y r) && isFinite (ref_id r)
  && isFinite (ref_infexitnum r) && isFinite (ref_infenternum r)
  && isFinite (ref_infenterid r) && isFinite (ref_playerorder r)
  && isFinite (ref_specialeffect r).

Definition generated_wall (w : Wall) : bool :=
  isFinite (wall_x w) && isFinite (wall_y w) && isFinite (wall_playerorder w).

Definition generated_floor (f : Floor) : bool :=
  isFinite (floor_x f) && isFinite (floor_y f).

Definition generated_block_fields (b : Block) : bool :=
  isFinite (block_x b) && isFinite (block_y b) && isFinite (block_id b)
  && isFinite (block_width b) && isFinite (block_height b)
  && number_gtb (block_width b) (int 0) && number_gtb (block_height b) (int 0)
  && isFinite (block_hue b) && isFinite (block_sat b) && isFinite (block_val b)
  && isFinite (block_zoomfactor b) && isFinite (block_playerorder b)
  && isFinite (block_specialeffect b).

Fixpoint generated_obj (o : Obj) : bool :=
  match o with
  | OBlock b => generated_block_fields b && forallb generated_obj (children b)
  | ORef r => generated_ref r
  | OWall w => generated_wall w
  | OFloor f => generated_floor f
  end.

Definition generated_level (l : Level) : bool :=
  isFinite (version (header l))
  && match custom_level_music (header l) with Some n => isFinite n | None => true end
  && match custom_level_palette (header l) with Some n => isFinite n | None => true end
  && forallb (fun b => generated_obj (OBlock b)) (roots l).

(** A level whose root holds one Info floor, the text of which has an
    underscore. *)
Definition info_level : Level :=
  {| header := header createEmptyLevel;
     roots :=
       [ mkBlock (int (-1)) (int (-1)) (int 0) (int 9) (int 9) (Fin 6 1) (Fin 8 1)
                 (int 1) (int 1) B0 B0 B0 (int 0) B0 B0 (int 0)
           [ OFloor (mkFloor (int 0) (int 0) (Info "a_b")) ] ] |}.

(** A level with every kind of header line and of object, two roots and
    Blocks nested two deep. *)
Definition sample_level : Level :=
  {| header :=
       {| version := int 4; attempt_order := Some "push enter eat possess";
          shed := Some true; inner_push := Some true; draw_style := Some grid;
          custom_level_music := Some (int 3); custom_level_palette := Some (int (-1));
          unknown := ["draw_style flat"; "author  someone"] |};
     roots :=
       [ mkBlock (int (-1)) (int (-1)) (int 0) (int 9) (int 9) (Fin 6 1) (Fin 8 1)
                 (int 1) (int 1) B0 B0 B0 (int 0) B0 B0 (int 0)
           [ OWall (mkWall (int 0) (int 0) B0 B0 (int 0));
             OBlock (mkBlock (int 2) (int 3) (int 1) (int 5) (int 5) (Fin 25 2)
                             (Fin (-5) 1) (int 1) (Fin 15 1) B1 B1 B0 (int 2) B0 B1
                             (int 0)
                       [ OFloor (mkFloor (int 1) (int 1) (Portal "hub a"));
                         OBlock (mkBlock (int 0) (int 0) (int 2) (int 3) (int 3)
                                         (Fin 6 1) (Fin 8 1) (int 1) (int 1)
                                         B0 B0 B0 (int 0) B0 B0 (int 0) []);
                         ORef (mkRef (int 4) (int 4) (int 0) B1 B0 (int 0) B0 (int 0)
                                     (int (-1)) B0 B1 (int 0) B0 B0 (int 0)) ]);
             OFloor (mkFloor (int 8) (int 8) (Info "mind the gap"));
             OFloor (mkFloor (int 7) (int 8) (Unknown "Lava 3"));
             OFloor (mkFloor (int 6) (int 8) Button) ];
         mkBlock (int 0) (int 0) (int 3) (int 1) (int 1) (int 0) (int 0)
                 (int 0) (int 1) B0 B0 B1 (int 0) B1 B0 (int 5) [] ] |}.

(** ** Paths *)

(** [p] is a prefix of [q]: the Block at [q], if any, is the Block at [p] or
    lies inside it. *)
Fixpoint is_prefix (p q : list nat) : bool :=
  match p, q with
  | [], _ => true
  | i :: p', j :: q' => (i =? j) && is_prefix p' q'
  | _ :: _, [] => false
  end.

(** A level with a Block nested in its root, beside a Wall. *)
Definition nested_level : Level :=
  {| header := header createEmptyLevel;
     roots := [ with_children wall_scene
                  [ OWall (mkWall (int 0) (int 0) B0 B0 (int 0));
                    OBlock spare_block ] ] |}.

(** ** The Blocks of a level *)

(** The Blocks of an object: itself if it is a Block, then those of its
    children, in order. *)
Fixpoint blocks_of (o : Obj) : list Block :=
  match o with
  | OBlock b => b :: flat_map blocks_of (children b)
  | _ => []
  end.

Definition level_blocks (level : Level) : list Block :=
  flat_map (fun r => blocks_of (OBlock r)) (roots level).

(** An integer below 2^53 in absolute value ([Number.isSafeInteger]): it
    and its two neighbours are binary64 values. *)
Definition safe_integer (v : number) : bool :=
  match v with
  | Fin m O => (Z.abs m <? 2 ^ 53)%Z
  | _ => false
  end.

(** Every Block of the level has a safe integer as its id. *)
Definition safe_ids (level : Level) : bool :=
  forallb (fun b => safe_integer (block_id b)) (level_blocks level).

(** [a] is listed before [b] without being above it: the id of [b] is not
    less than the id of [a]. *)
Definition id_le (a b : BlockEntry) : Prop :=
  number_ltb (entry_id b) (entry_id a) = false.

(** ** What the parser returns *)

Definition is_integer (v : number) : bool :=
  match v with Fin _ O => true | _ => false end.

Definition read_ref (r : Ref) : bool :=
  is_integer (ref_x r) && is_integer (ref_y r) && is_integer (ref_id r)
  && is_integer (ref_infexitnum r) && is_integer (ref_infenternum r)
  && is_integer (ref_infenterid r) && is_integer (ref_playerorder r)
  && is_integer (ref_specialeffect r).

Definition read_wall (w : Wall) : bool :=
  is_integer (wall_x w) && is_integer (wall_y w) && is_integer (wall_playerorder w).

Definition read_floor (f : Floor) : bool :=
  is_integer (floor_x f) && is_integer (floor_y f).

Definition read_block_fields (b : Block) : bool :=
  is_integer (block_x b) && is_integer (block_y b) && is_integer (block_id b)
  && is_integer (block_width b) && is_integer (block_height b)
  && isFinite (block_hue b) && isFinite (block_sat b) && isFinite (block_val b)
  && isFinite (block_zoomfactor b) && is_integer (block_playerorder b)
  && is_integer (block_specialeffect b).

(** Every integer field an integer and every float field finite, in the
    object and in its descendants. *)
Fixpoint read_obj (o : Obj) : bool :=
  match o with
  | OBlock b => read_block_fields b && forallb read_obj (children b)
  | ORef r => read_ref r
  | OWall w => read_wall w
  | OFloor f => read_floor f
  end.

Definition read_header (h : LevelHeader) : bool :=
  is_integer (version h)
  && match shed h with Some false => false | _ => true end
  && match inner_push h with Some false => false | _ => true end
  && match custom_level_music h with Some n => is_integer n | None => true end
  && match custom_level_palette h with Some n => is_integer n | None => true end.

Definition read_level (l : Level) : bool :=
  read_header (header l)
  && match roots l with [] => false | _ :: _ => true end
  && forallb (fun b => read_obj (OBlock b)) (roots l).

(** ** Line endings *)

Definition CR : string := String "013" "".

(** The text with a carriage return put before every line feed. *)
Fixpoint to_crlf (s : string) : string :=
  match s with
  | EmptyString => EmptyString
  | String c r =>
      if Char.eqb c "010" then String "013" (String "010" (to_crlf r))
      else String c (to_crlf r)
  end.

Definition no_CR (s : string) : bool :=
  string_forallb (fun c => negb (Char.eqb c "013")) s.

(** ** Texts that the parser refuses *)

(** A text whose body starts with a Wall. *)
Definition leaf_first_text : string :=
  ("version 4" ++ LF ++ "#" ++ LF ++ "Wall 1 1 0 0 0" ++ LF)%js.

(** A text with an object of no known kind inside a Block. *)
Definition unknown_kind_text : string :=
  ("version 4" ++ LF ++ "#" ++ LF ++ "Block 0 0 0 3 3" ++ LF
   ++ TAB ++ "Lava 1 1" ++ LF)%js.

(** A text with a header and no object. *)
Definition empty_body_text : string :=
  ("version 4" ++ LF ++ "shed" ++ LF ++ "#" ++ LF ++ LF)%js.

(** ** The editor component *)

(** A component in its first render, with the tool [t]. *)
Definition fresh_component (t : Tool) : Component :=
  {| state := {| level := nested_level; selectedBlockPath := [0]; tool := t;
                 viewport := viewport createInitialState; lastError := None;
                 history := {| past := []; future := [] |} |};
     ioText := ""; showHelp := false; hoverCell := None;
     selectedChildIndex := None |}.

(** The tool commits an edit when it is applied inside the selected Block:
    every tool but Select does, a Ref tool without target only when it
    erases. *)
Definition commits (t : Tool) (erase : bool) : bool :=
  match t with
  | ToolSelect => false
  | ToolRef None => erase
  | _ => true
  end.

(** A level whose Blocks are not in the order of their ids, two of them
    with the same id. *)
Definition id_block (id : Z) (cs : list Obj) : Block :=
  mkBlock (int 0) (int 0) (int id) (int 3) (int 3) (Fin 6 1) (Fin 8 1)
          (int 1) (int 1) B0 B0 B0 (int 0) B0 B0 (int 0) cs.

Definition unsorted_level : Level :=
  {| header := header createEmptyLevel;
     roots := [ id_block 5 [ OWall (mkWall (int 0) (int 0) B0 B0 (int 0));
                             OBlock (id_block 2 [OBlock (id_block 9 [])]);
                             OBlock (id_block 2 []) ];
                id_block 1 [] ] |}.

End Spec.

(* ================================================================== *)
(** * Equality of code units and of strings *)
(* ================================================================== *)

Section Equality.
Import JS.

Lemma char_eqb_spec (c d : char) : reflect (c = d) (Char.eqb c d).
Proof. unfold Char.eqb. apply N.eqb_spec. Qed.

Lemma char_eqb_eq (c d : char) : Char.eqb c d = true <-> c = d.
Proof. unfold Char.eqb. apply N.eqb_eq. Qed.

Lemma char_eqb_neq (c d : char) : Char.eqb c d = false <-> c <> d.
Proof. unfold Char.eqb. apply N.eqb_neq. Qed.

Lemma char_eqb_refl (c : char) : Char.eqb c c = true.
Proof. unfold Char.eqb. apply N.eqb_refl. Qed.

Lemma char_eqb_sym (c d : char) : Char.eqb c d = Char.eqb d c.
Proof. unfold Char.eqb. apply N.eqb_sym. Qed.

Lemma string_eqb_eq (a b : string) : String.eqb a b = true <-> a = b.
Proof.
  revert b. induction a as [|c a IH]; intros [|d b]; simpl;
    try (split; [discriminate|discriminate]); [tauto|].
  rewrite andb_true_iff, char_eqb_eq, IH. split.
  - intros [-> ->]. reflexivity.
  - intros [= -> ->]. auto.
Qed.

Lemma string_eqb_refl (a : string) : String.eqb a a = true.
Proof. apply string_eqb_eq. reflexivity. Qed.

Lemma string_eqb_spec (a b : string) : reflect (a = b) (String.eqb a b).
Proof.
  destruct (String.eqb a b) eqn:E; constructor.
  - apply string_eqb_eq. exact E.
  - intros H. apply string_eqb_eq in H. congruence.
Qed.

Lemma nat_of_char_inj (c d : char) : nat_of_char c = nat_of_char d -> c = d.
Proof. apply N2Nat.inj. Qed.

Lemma nat_of_char_of_nat (n : nat) : nat_of_char (char_of_nat n) = n.
Proof. apply Nat2N.id. Qed.

End Equality.

(* ================================================================== *)
(** * The history: undo and redo *)
(* ================================================================== *)

Section History.
Import JS Types EditorState Spec.

Lemma last_some_snoc {A : Type} (l : list A) (x : A) :
  last (map Some (l ++ [x])) None = Some x.
Proof.
  rewrite map_app. simpl. apply last_last.
Qed.

Lemma undo_snoc (state : EditorState) (p : list Level) (prev : Level) :
  past (history state) = p ++ [prev] ->
  undo state =
  with_level_history state prev
    {| past := p; future := level state :: future (history state) |}.
Proof.
  intros Hp. unfold undo. rewrite Hp, last_some_snoc, removelast_last.
  reflexivity.
Qed.

Lemma undo_pushHistory_level (state : EditorState) (next : Level) :
  level (undo (pushHistory state next)) = level state
  /\ past (history (undo (pushHistory state next))) = past (history state).
Proof.
  rewrite (undo_snoc _ (past (history state)) (level state)) by reflexivity.
  split; reflexivity.
Qed.

(** Undo reads the level and the two stacks only: two states that agree on
    the level and on the past are sent to states that agree on them. *)
Lemma undo_level_past (s t : EditorState) :
  level s = level t -> past (history s) = past (history t) ->
  level (undo s) = level (undo t)
  /\ past (history (undo s)) = past (history (undo t)).
Proof.
  intros Hl Hp. unfold undo. rewrite Hp.
  destruct (last (map Some (past (history t))) None); simpl; auto.
Qed.

Lemma undos_pushEdits (edits : list Level) :
  forall state,
    level (undos (length edits) (pushEdits state edits)) = level state
    /\ past (history (undos (length edits) (pushEdits state edits)))
       = past (history state).
Proof.
  induction edits as [|e es IH]; intros state.
  - split; reflexivity.
  - unfold undos, pushEdits in *. simpl.
    destruct (IH (pushHistory state e)) as [Hl Hp].
    destruct (undo_level_past _ (pushHistory state e) Hl Hp) as [Hl' Hp'].
    rewrite Hl', Hp'. apply undo_pushHistory_level.
Qed.

Lemma redo_undo (state : EditorState) :
  past (history state) <> [] -> redo (undo state) = state.
Proof.
  intros Hne.
  destruct (exists_last Hne) as (p & prev & Hp).
  rewrite (undo_snoc _ _ _ Hp). unfold redo. simpl.
  destruct state as [l sp t v e [pa fu]]. simpl in *. subst pa.
  reflexivity.
Qed.

(** C3. After the edits [edits] are committed one after the other with
    [pushHistory], as many undos as there were edits give back the original
    current Level (and the original past); every [pushHistory] leaves the
    redo stack empty; and wherever an undo has something to undo, a redo
    right after it restores the state the undo left, in particular the Level
    that was just undone. *)
Theorem history_linearity (state : EditorState) (edits : list Level) :
  level (undos (length edits) (pushEdits state edits)) = level state
  /\ past (history (undos (length edits) (pushEdits state edits)))
     = past (history state)
  /\ (forall next, future (history (pushHistory state next)) = [])
  /\ (past (history state) <> [] ->
      redo (undo state) = state
      /\ level (redo (undo state)) = level state).
Proof.
  destruct (undos_pushEdits edits state) as [Hl Hp].
  repeat split; auto.
  - apply redo_undo; assumption.
  - rewrite redo_undo; auto.
Qed.

(** The theorem at the state reached from the initial one by one edit. *)
Lemma history_linearity_witness :
  past (history (pushHistory createInitialState createEmptyLevel)) <> []
  /\ redo (undo (pushHistory createInitialState createEmptyLevel))
     = pushHistory createInitialState createEmptyLevel.
Proof.
  split.
  - discriminate.
  - apply (history_linearity (pushHistory createInitialState createEmptyLevel) []).
    discriminate.
Defined.

End History.

(* ================================================================== *)
(** * Hit testing *)
(* ================================================================== *)

Section HitTest.
Import JS Types EditorState Spec.

Variables (cs : list Obj) (x y : number).

Lemma block_hit_dec (j : nat) :
  {block_hit cs x y j} + {~ block_hit cs x y j}.
Proof.
  unfold block_hit.
  destruct (nth_error cs j) as [[c| | |]|] eqn:E.
  - destruct (in_box c x y) eqn:B.
    + left. exists c. auto.
    + right. intros (c' & H & H'). congruence.
  - right. intros (c' & H & _). discriminate.
  - right. intros (c' & H & _). discriminate.
  - right. intros (c' & H & _). discriminate.
  - right. intros (c' & H & _). discriminate.
Qed.

(** The first loop returns the largest index below [n] that is a block hit. *)
Lemma hitTest_blocks_spec (n : nat) :
  match hitTest_blocks cs x y n with
  | Some (BlockChild i) =>
      i < n /\ block_hit cs x y i /\ forall j, i < j < n -> ~ block_hit cs x y j
  | Some (CellObj _) => False
  | None => forall j, j < n -> ~ block_hit cs x y j
  end.
Proof.
  induction n as [|n IH]; simpl.
  - intros j Hj. lia.
  - assert (Hstep :
      ~ block_hit cs x y n ->
      match hitTest_blocks cs x y n with
      | Some (BlockChild i) =>
          i < S n /\ block_hit cs x y i
          /\ forall j, i < j < S n -> ~ block_hit cs x y j
      | Some (CellObj _) => False
      | None => forall j, j < S n -> ~ block_hit cs x y j
      end).
    { intros Hn. destruct (hitTest_blocks cs x y n) as [[i|i]|]; auto.
      - destruct IH as (Hi & Hhit & Hmax). repeat split; auto.
        intros j Hj. destruct (Nat.eq_dec j n) as [->|]; auto.
        apply Hmax. lia.
      - intros j Hj. destruct (Nat.eq_dec j n) as [->|]; auto.
        apply IH. lia. }
    destruct (nth_error cs n) as [[c| | |]|] eqn:E.
    + destruct (in_box c x y) eqn:B.
      * repeat split; auto.
        -- exists c; auto.
        -- intros j Hj. lia.
      * apply Hstep. intros (c' & H & H'). congruence.
    + apply Hstep. intros (c' & H & _). congruence.
    + apply Hstep. intros (c' & H & _). congruence.
    + apply Hstep. intros (c' & H & _). congruence.
    + apply Hstep. intros (c' & H & _). congruence.
Qed.

(** The second loop returns the largest index below [n] that is a cell hit. *)
Lemma hitTest_cells_spec (n : nat) :
  match hitTest_cells cs x y n with
  | Some (CellObj i) =>
      i < n /\ cell_hit cs x y i /\ forall j, i < j < n -> ~ cell_hit cs x y j
  | Some (BlockChild _) => False
  | None => forall j, j < n -> ~ cell_hit cs x y j
  end.
Proof.
  induction n as [|n IH]; simpl.
  - intros j Hj. lia.
  - assert (Hstep :
      ~ cell_hit cs x y n ->
      match hitTest_cells cs x y n with
      | Some (CellObj i) =>
          i < S n /\ cell_hit cs x y i
          /\ forall j, i < j < S n -> ~ cell_hit cs x y j
      | Some (BlockChild _) => False
      | None => forall j, j < S n -> ~ cell_hit cs x y j
      end).
    { intros Hn. destruct (hitTest_cells cs x y n) as [[i|i]|]; auto.
      - destruct IH as (Hi & Hhit & Hmax). repeat split; auto.
        intros j Hj. destruct (Nat.eq_dec j n) as [->|]; auto.
        apply Hmax. lia.
      - intros j Hj. destruct (Nat.eq_dec j n) as [->|]; auto.
        apply IH. lia. }
    destruct (nth_error cs n) as [c|] eqn:E.
    + destruct (is_Block c) eqn:K.
      * apply Hstep. intros (o & H & H' & _). congruence.
      * destruct (at_cell x y c) eqn:B.
        -- repeat split; auto.
           ++ exists c; auto.
           ++ intros j Hj. lia.
        -- apply Hstep. intros (o & H & _ & H'). congruence.
    + apply Hstep. intros (o & H & _). congruence.
Qed.

Lemma no_block_hit_beyond (j : nat) :
  length cs <= j -> ~ block_hit cs x y j.
Proof.
  intros Hj (c & H & _). apply nth_error_None in Hj. congruence.
Qed.

Lemma no_cell_hit_beyond (j : nat) :
  length cs <= j -> ~ cell_hit cs x y j.
Proof.
  intros Hj (c & H & _). apply nth_error_None in Hj. congruence.
Qed.

End HitTest.

Section HitTestPriority.
Import JS Types EditorState Spec.

(** On integers the model's arithmetic is that of [Z]. *)
Lemma number_compare_int (a b : Z) :
  number_compare (int a) (int b) = Some (Z.compare a b).
Proof.
  unfold number_compare, int. simpl. rewrite !Z.mul_1_r. reflexivity.
Qed.

Lemma number_geb_int (a b : Z) : number_geb (int a) (int b) = (b <=? a)%Z.
Proof.
  unfold number_geb. rewrite number_compare_int.
  destruct (Z.compare_spec a b); symmetry.
  - apply Z.leb_le. lia.
  - apply Z.leb_gt. lia.
  - apply Z.leb_le. lia.
Qed.

Lemma number_ltb_int (a b : Z) : number_ltb (int a) (int b) = (a <? b)%Z.
Proof.
  unfold number_ltb. rewrite number_compare_int.
  destruct (Z.compare_spec a b); symmetry.
  - apply Z.ltb_ge. lia.
  - apply Z.ltb_lt. lia.
  - apply Z.ltb_ge. lia.
Qed.

Lemma number_eqb_int (a b : Z) : number_eqb (int a) (int b) = (a =? b)%Z.
Proof.
  unfold number_eqb. rewrite number_compare_int.
  destruct (Z.compare_spec a b); symmetry.
  - apply Z.eqb_eq. lia.
  - apply Z.eqb_neq. lia.
  - apply Z.eqb_neq. lia.
Qed.

(** *** Rounding to binary64, on integers *)

Lemma normalize_pow10 (z : Z) (j : nat) :
  normalize (z * 10 ^ Z.of_nat j) j = (z, O).
Proof.
  induction j as [|j IH].
  - simpl. rewrite Z.mul_1_r. reflexivity.
  - cbn [normalize].
    replace (z * 10 ^ Z.of_nat (S j))%Z with ((z * 10 ^ Z.of_nat j) * 10)%Z
      by (rewrite Nat2Z.inj_succ, Z.pow_succ_r by lia; ring).
    rewrite Z.mod_mul by lia. simpl Z.eqb.
    rewrite Z.div_mul by lia. exact IH.
Qed.

Lemma round_half_even_1 (n : Z) : round_half_even n 1 = n.
Proof.
  unfold round_half_even. rewrite Z.mod_1_r, Z.div_1_r. reflexivity.
Qed.

Lemma binade_int (n : Z) : (0 < n)%Z -> binade n 1 = Z.log2 n.
Proof.
  intros Hn. unfold binade. simpl Z.log2. rewrite Z.sub_0_r.
  pose proof (Z.log2_nonneg n) as HL.
  rewrite (Z.max_l 0 (- Z.log2 n)) by lia.
  rewrite (Z.max_r 0 (Z.log2 n)) by lia.
  rewrite Z.pow_0_r, Z.mul_1_r, Z.mul_1_l.
  destruct (Z.ltb_spec n (2 ^ Z.log2 n)) as [H|H]; [|reflexivity].
  pose proof (Z.log2_spec n Hn). lia.
Qed.

(** An integer of less than 53 bits is a binary64 value. *)
Lemma binary64_int_small (z : Z) :
  (Z.abs z < 2 ^ 53)%Z -> binary64 z 0 = int z.
Proof.
  intros Hz. unfold binary64.
  destruct (Z.eqb_spec z 0) as [->|Hnz]; [reflexivity|].
  assert (Hn : (0 < Z.abs z)%Z) by lia.
  simpl Z.of_nat. rewrite Z.pow_0_r, binade_int by exact Hn.
  pose proof (Z.log2_nonneg (Z.abs z)) as HL0.
  assert (HL : (Z.log2 (Z.abs z) < 53)%Z) by (apply Z.log2_lt_pow2; lia).
  set (L := Z.log2 (Z.abs z)) in *.
  rewrite (Z.max_l (L - 52) (-1074)) by lia.
  rewrite (Z.max_l 0 (L - 52)) by lia.
  rewrite (Z.max_r 0 (- (L - 52))) by lia.
  rewrite Z.pow_0_r, !Z.mul_1_r, round_half_even_1.
  set (j := (- (L - 52))%Z).
  assert (Hj : (0 <= j)%Z) by (unfold j; lia).
  assert (Hq : (Z.abs z * 2 ^ j < 2 ^ 53)%Z).
  { pose proof (Z.log2_spec (Z.abs z) Hn) as (_ & Hup). fold L in Hup.
    replace 53%Z with (Z.succ L + j)%Z by (unfold j; lia).
    rewrite Z.pow_add_r by lia.
    apply Z.mul_lt_mono_pos_r; [apply Z.pow_pos_nonneg; lia|exact Hup]. }
  destruct (Z.leb_spec (2 ^ 1024) (Z.abs z * 2 ^ j)) as [Ho|_].
  { exfalso. assert (2 ^ 53 < 2 ^ 1024)%Z by (apply Z.pow_lt_mono_r; lia). lia. }
  replace (Z.sgn z * (Z.abs z * 2 ^ j) * 5 ^ j)%Z
    with (z * 10 ^ Z.of_nat (Z.to_nat j))%Z.
  - rewrite normalize_pow10. reflexivity.
  - rewrite Z2Nat.id by exact Hj.
    replace 10%Z with (2 * 5)%Z by reflexivity.
    rewrite Z.pow_mul_l.
    assert (Es : (Z.sgn z * Z.abs z = z)%Z) by (destruct z; simpl; lia).
    transitivity ((Z.sgn z * Z.abs z) * (2 ^ j * 5 ^ j))%Z;
      [rewrite Es; reflexivity|ring].
Qed.

(** So is every integer up to 2^53 in magnitude. *)
Lemma binary64_int (z : Z) :
  (Z.abs z <= 2 ^ 53)%Z -> binary64 z 0 = int z.
Proof.
  intros Hz. destruct (Z.eq_dec (Z.abs z) (2 ^ 53)) as [E|E].
  - destruct (Z.abs_eq_or_opp z) as [H|H]; rewrite H in E.
    + subst z. vm_compute. reflexivity.
    + assert (z = (- 2 ^ 53)%Z) by lia. subst z. vm_compute. reflexivity.
  - apply binary64_int_small. lia.
Qed.

Lemma round_half_even_bounds (n d : Z) :
  (0 <= n)%Z -> (0 < d)%Z ->
  (n / d <= round_half_even n d <= n / d + 1)%Z.
Proof.
  intros Hn Hd. unfold round_half_even.
  destruct (2 * (n mod d) <? d)%Z; [lia|].
  destruct (d <? 2 * (n mod d))%Z; [lia|].
  destruct (Z.even (n / d)); lia.
Qed.

(** Rounding an integer keeps it an integer, and keeps its sign. *)
Lemma binary64_int_sign (z : Z) :
  (Z.abs z < 2 ^ 1023)%Z ->
  exists z', binary64 z 0 = int z' /\ Z.sgn z' = Z.sgn z.
Proof.
  intros Hz.
  destruct (Z.lt_ge_cases (Z.abs z) (2 ^ 53)) as [Hs|Hb].
  { exists z. split; [apply binary64_int_small; exact Hs|reflexivity]. }
  assert (Hn : (0 < Z.abs z)%Z).
  { assert (0 < 2 ^ 53)%Z by (apply Z.pow_pos_nonneg; lia). lia. }
  unfold binary64.
  destruct (Z.eqb_spec z 0) as [->|Hnz]; [simpl in Hn; lia|].
  simpl Z.of_nat. rewrite Z.pow_0_r, binade_int by exact Hn.
  assert (HL : (53 <= Z.log2 (Z.abs z))%Z) by (apply Z.log2_le_pow2; lia).
  pose proof (Z.log2_spec (Z.abs z) Hn) as (Hlo & Hup).
  set (L := Z.log2 (Z.abs z)) in *.
  rewrite (Z.max_l (L - 52) (-1074)) by lia.
  rewrite (Z.max_r 0 (L - 52)) by lia.
  rewrite (Z.max_l 0 (- (L - 52))) by lia.
  rewrite Z.pow_0_r, !Z.mul_1_r, Z.mul_1_l.
  set (p := (L - 52)%Z).
  assert (Hp : (0 < 2 ^ p)%Z) by (apply Z.pow_pos_nonneg; unfold p; lia).
  assert (HpL : (2 ^ p <= 2 ^ L)%Z) by (apply Z.pow_le_mono_r; unfold p; lia).
  pose proof (round_half_even_bounds (Z.abs z) (2 ^ p) (Z.abs_nonneg z) Hp) as (Hq1 & Hq2).
  set (q := round_half_even (Z.abs z) (2 ^ p)) in *.
  assert (Hdiv : (1 <= Z.abs z / 2 ^ p)%Z).
  { apply Z.div_le_lower_bound; lia. }
  assert (Hmul : (2 ^ p * (Z.abs z / 2 ^ p) <= Z.abs z)%Z)
    by (apply Z.mul_div_le; exact Hp).
  assert (Hq : (q * 2 ^ p < 2 ^ 1024)%Z).
  { assert (q * 2 ^ p <= Z.abs z + 2 ^ p)%Z by nia.
    assert (2 ^ 1024 = 2 * 2 ^ 1023)%Z by reflexivity. lia. }
  destruct (Z.leb_spec (2 ^ 1024) (q * 2 ^ p)) as [Ho|_]; [lia|].
  cbn [Z.to_nat normalize].
  exists (Z.sgn z * q * 2 ^ p)%Z. split; [reflexivity|].
  assert (0 < q * 2 ^ p)%Z by nia.
  destruct (Z.sgn_spec z) as [(? & ->)|[(? & ->)|(? & ->)]]; [|lia|].
  - rewrite Z.mul_1_l. apply Z.sgn_pos. lia.
  - apply Z.sgn_neg. lia.
Qed.

Lemma number_add_int_rounded (a b : Z) :
  number_add (int a) (int b) = binary64 (a + b) 0.
Proof.
  unfold number_add, int. simpl Z.of_nat. simpl Nat.add.
  rewrite Z.pow_0_r, !Z.mul_1_r. reflexivity.
Qed.

(** Up to 2^53 the sum of two integers is exact. *)
Lemma number_add_int (a b : Z) :
  (Z.abs (a + b) <= 2 ^ 53)%Z ->
  number_add (int a) (int b) = int (a + b).
Proof.
  intros H. rewrite number_add_int_rounded. apply binary64_int. exact H.
Qed.

(** On integer coordinates [in_box] is containment in the half-open box
    [bx <= x < bx + w], [by <= y < by + h], as long as the far edges are
    at most 2^53 in magnitude. *)
Lemma in_box_int (c : Block) (bx by_ w h x y : Z) :
  block_x c = int bx -> block_y c = int by_ ->
  block_width c = int w -> block_height c = int h ->
  (Z.abs (bx + w) <= 2 ^ 53)%Z ->
  (Z.abs (by_ + h) <= 2 ^ 53)%Z ->
  in_box c (int x) (int y) = true
  <-> (bx <= x < bx + w /\ by_ <= y < by_ + h)%Z.
Proof.
  intros Hx Hy Hw Hh Hbx Hby. unfold in_box.
  rewrite Hx, Hy, Hw, Hh, !number_add_int by assumption.
  rewrite !number_geb_int, !number_ltb_int, !andb_true_iff.
  rewrite !Z.leb_le, !Z.ltb_lt. lia.
Qed.

Example hitTest_scene :
  hitTest hit_scene (int 0) (int 0) = Some (BlockChild 0)
  /\ hitTest hit_scene (int 1) (int 1) = Some (BlockChild 0)
  /\ hitTest hit_scene (int 2) (int 2) = Some (CellObj 2)
  /\ hitTest hit_scene (int 3) (int 3) = None.
Proof. vm_compute. repeat split. Qed.

(** [hitTest] in terms of its own two tests: the child Block with the
    largest index among those that [in_box] accepts, else the leaf with the
    largest index among those that [at_cell] accepts, else nothing. *)
Lemma hitTest_order (block : Block) (x y : number) :
  let cs := children block in
  (forall i, hitTest block x y = Some (BlockChild i)
             <-> last_index (block_hit cs x y) i)
  /\ (forall i, hitTest block x y = Some (CellObj i)
                <-> (forall j, ~ block_hit cs x y j)
                    /\ last_index (cell_hit cs x y) i)
  /\ (hitTest block x y = None
      <-> (forall j, ~ block_hit cs x y j) /\ (forall j, ~ cell_hit cs x y j)).
Proof.
  intros cs. unfold hitTest, last_index. fold cs.
  pose proof (hitTest_blocks_spec cs x y (length cs)) as HB.
  pose proof (hitTest_cells_spec cs x y (length cs)) as HC.
  assert (Hnb : forall i, block_hit cs x y i -> i < length cs).
  { intros i Hi. destruct (Nat.lt_ge_cases i (length cs)) as [|Hge]; auto.
    exfalso. exact (no_block_hit_beyond cs x y i Hge Hi). }
  assert (Hnc : forall i, cell_hit cs x y i -> i < length cs).
  { intros i Hi. destruct (Nat.lt_ge_cases i (length cs)) as [|Hge]; auto.
    exfalso. exact (no_cell_hit_beyond cs x y i Hge Hi). }
  destruct (hitTest_blocks cs x y (length cs)) as [[b|b]|] eqn:EB.
  - (* a block was hit *)
    destruct HB as (Hb & Hhit & Hmax).
    assert (Hmax' : forall j, b < j -> ~ block_hit cs x y j).
    { intros j Hj Hh. apply (Hmax j); [split; auto|exact Hh]. }
    split; [|split].
    + intros i. split.
      * intros [= <-]. split; auto.
      * intros (Hi & Hi'). f_equal. f_equal.
        destruct (Nat.lt_trichotomy i b) as [Hlt|[->|Hgt]]; auto.
        -- exfalso. exact (Hi' b Hlt Hhit).
        -- exfalso. exact (Hmax' i Hgt Hi).
    + intros i. split.
      * intros [=].
      * intros (Hno & _). exfalso. exact (Hno b Hhit).
    + split.
      * intros [=].
      * intros (Hno & _). exfalso. exact (Hno b Hhit).
  - contradiction.
  - (* no block was hit *)
    assert (Hno : forall j, ~ block_hit cs x y j).
    { intros j Hh. apply (HB j); auto. }
    destruct (hitTest_cells cs x y (length cs)) as [[c|c]|] eqn:EC.
    + contradiction.
    + destruct HC as (Hc & Hhit & Hmax).
      assert (Hmax' : forall j, c < j -> ~ cell_hit cs x y j).
      { intros j Hj Hh. apply (Hmax j); [split; auto|exact Hh]. }
      split; [|split].
      * intros i. split.
        -- intros [=].
        -- intros (Hi & _). exfalso. exact (Hno i Hi).
      * intros i. split.
        -- intros [= <-]. repeat split; auto.
        -- intros (_ & Hi & Hi'). f_equal. f_equal.
           destruct (Nat.lt_trichotomy i c) as [Hlt|[->|Hgt]]; auto.
           ++ exfalso. exact (Hi' c Hlt Hhit).
           ++ exfalso. exact (Hmax' i Hgt Hi).
      * split.
        -- intros [=].
        -- intros (_ & Hnone). exfalso. exact (Hnone c Hhit).
    + split; [|split].
      * intros i. split.
        -- intros [=].
        -- intros (Hi & _). exfalso. exact (Hno i Hi).
      * intros i. split.
        -- intros [=].
        -- intros (_ & Hi & _). exfalso. apply (HC i); auto.
      * split; auto. intros _. split; auto.
        intros j Hh. apply (HC j); auto.
Qed.

Lemma last_index_iff (P Q : nat -> Prop) (i : nat) :
  (forall j, P j <-> Q j) -> (last_index P i <-> last_index Q i).
Proof.
  intros H. unfold last_index. split; intros (Hi & Hmax); split;
    try (apply H; exact Hi); intros j Hj Hq; apply (Hmax j Hj); apply H; exact Hq.
Qed.

Lemma safe_lt (z : Z) : safe z = true -> (Z.abs z < 2 ^ 53)%Z.
Proof. unfold safe. intros H. apply Z.ltb_lt. exact H. Qed.

(** Within the safe range [in_box] is containment in the box. *)
Lemma in_box_contains (c : Block) (x y : Z) :
  safe_child (OBlock c) = true ->
  (in_box c (int x) (int y) = true <-> box_contains c x y).
Proof.
  unfold safe_child, box_contains.
  destruct (box_of c) as [[[[bx by_] w] h]|] eqn:Eb; [|discriminate].
  rewrite !andb_true_iff. intros (((((_ & _) & _) & _) & Hxw) & Hyh).
  apply safe_lt in Hxw. apply safe_lt in Hyh.
  assert (Hf : block_x c = int bx /\ block_y c = int by_
               /\ block_width c = int w /\ block_height c = int h).
  { unfold box_of in Eb.
    destruct (block_x c) as [| |? [|?]]; try discriminate.
    destruct (block_y c) as [| |? [|?]]; try discriminate.
    destruct (block_width c) as [| |? [|?]]; try discriminate.
    destruct (block_height c) as [| |? [|?]]; try discriminate.
    injection Eb as -> -> -> ->. repeat split. }
  destruct Hf as (Hx & Hy & Hw & Hh).
  rewrite (in_box_int c bx by_ w h x y Hx Hy Hw Hh) by lia.
  split.
  - intros H. exists bx, by_, w, h. split; [reflexivity|exact H].
  - intros (bx' & by' & w' & h' & [= <- <- <- <-] & H). exact H.
Qed.

(** A leaf with integer coordinates is accepted by [at_cell] when its
    coordinates are those of the cell. *)
Lemma at_cell_leaf (o : Obj) (x y : Z) :
  is_Block o = false -> safe_child o = true ->
  (at_cell (int x) (int y) o = true <-> obj_x o = int x /\ obj_y o = int y).
Proof.
  intros Hb Hs. unfold at_cell.
  assert (H : exists lx ly, obj_x o = int lx /\ obj_y o = int ly).
  { destruct o as [c|r|w|f]; [discriminate| | |]; cbn [safe_child] in Hs;
      match type of Hs with
      | match ?a with _ => _ end = true =>
          destruct a as [| |lx [|?]]; try discriminate
      end;
      match type of Hs with
      | match ?a with _ => _ end = true =>
          destruct a as [| |ly [|?]]; try discriminate
      end; exists lx, ly; split; reflexivity. }
  destruct H as (lx & ly & -> & ->).
  rewrite !number_eqb_int, andb_true_iff, !Z.eqb_eq. unfold int.
  split.
  - intros (-> & ->). auto.
  - intros ([= ->] & [= ->]). auto.
Qed.

Lemma block_hit_contains (cs : list Obj) (x y : Z) (i : nat) :
  forallb safe_child cs = true ->
  (block_hit cs (int x) (int y) i <-> block_contains cs x y i).
Proof.
  intros Hs. rewrite forallb_forall in Hs. unfold block_hit, block_contains.
  split; intros (c & Hc & H); exists c; (split; [exact Hc|]);
    apply in_box_contains; auto; apply Hs; eapply nth_error_In; exact Hc.
Qed.

Lemma cell_hit_leaf (cs : list Obj) (x y : Z) (i : nat) :
  forallb safe_child cs = true ->
  (cell_hit cs (int x) (int y) i <-> leaf_at cs x y i).
Proof.
  intros Hs. rewrite forallb_forall in Hs. unfold cell_hit, leaf_at.
  split.
  - intros (o & Ho & Hb & H). exists o. split; [exact Ho|]. split; [exact Hb|].
    apply at_cell_leaf; auto. apply Hs. eapply nth_error_In. exact Ho.
  - intros (o & Ho & Hb & H). exists o. split; [exact Ho|]. split; [exact Hb|].
    apply at_cell_leaf; auto. apply Hs. eapply nth_error_In. exact Ho.
Qed.

(** C4, within the range where the sums [c.x + c.width] and
    [c.y + c.height] are exact.  Let the children of the Block be safe: a
    child Block has safe integers (below 2^53 in magnitude) as corner, size
    and far edges, a leaf has safe integers as coordinates; and let the
    cell [(x, y)] be one of safe integers.  Then [hitTest] answers the child
    Block with the largest index (the last inserted) among those whose box
    [c.x <= x < c.x + c.width], [c.y <= y < c.y + c.height] contains the
    cell, whenever there is one; only when no child Block contains the cell
    does it answer the leaf with the largest index among those whose
    coordinates are [x] and [y]; and it answers nothing exactly when there
    is neither. *)
Theorem hitTest_priority (block : Block) (x y : Z) :
  forallb safe_child (children block) = true ->
  safe x = true -> safe y = true ->
  let cs := children block in
  (forall i, hitTest block (int x) (int y) = Some (BlockChild i)
             <-> last_index (block_contains cs x y) i)
  /\ (forall i, hitTest block (int x) (int y) = Some (CellObj i)
                <-> (forall j, ~ block_contains cs x y j)
                    /\ last_index (leaf_at cs x y) i)
  /\ (hitTest block (int x) (int y) = None
      <-> (forall j, ~ block_contains cs x y j) /\ (forall j, ~ leaf_at cs x y j)).
Proof.
  intros Hs _ _ cs.
  destruct (hitTest_order block (int x) (int y)) as (HB & HC & HN). fold cs in HB, HC, HN.
  assert (Eb : forall j, block_hit cs (int x) (int y) j <-> block_contains cs x y j)
    by (intros j; apply block_hit_contains; exact Hs).
  assert (Ec : forall j, cell_hit cs (int x) (int y) j <-> leaf_at cs x y j)
    by (intros j; apply cell_hit_leaf; exact Hs).
  assert (Enb : (forall j, ~ block_hit cs (int x) (int y) j)
                <-> (forall j, ~ block_contains cs x y j)).
  { split; intros H j Hj; apply (H j); apply Eb; exact Hj. }
  assert (Enc : (forall j, ~ cell_hit cs (int x) (int y) j)
                <-> (forall j, ~ leaf_at cs x y j)).
  { split; intros H j Hj; apply (H j); apply Ec; exact Hj. }
  split; [|split].
  - intros i. rewrite HB. apply last_index_iff. exact Eb.
  - intros i. rewrite HC, Enb. rewrite (last_index_iff _ _ i Ec). reflexivity.
  - rewrite HN, Enb, Enc. reflexivity.
Qed.

(** The theorem at the scenario of the specification: at the cell (1,1),
    which the child Block and a Wall share, the Block is answered; at (2,2),
    which holds a Wall only, the Wall. *)
Lemma hitTest_priority_witness :
  hitTest hit_scene (int 1) (int 1) = Some (BlockChild 0)
  /\ hitTest hit_scene (int 2) (int 2) = Some (CellObj 2).
Proof.
  split.
  - apply (proj1 (hitTest_priority hit_scene 1 1 eq_refl eq_refl eq_refl) 0).
    split.
    + eexists. split; [reflexivity|]. exists 0%Z, 0%Z, 2%Z, 2%Z.
      split; [reflexivity|]. lia.
    + intros [|[|[|j]]] Hj (c & Hc & _); try discriminate;
        [lia|destruct j; discriminate].
  - apply (proj1 (proj2 (hitTest_priority hit_scene 2 2 eq_refl eq_refl eq_refl)) 2).
    split; [|split].
    + intros [|[|[|j]]] (c & Hc & bx & by_ & w & h & Hb & Hx & Hy);
        try discriminate; [|destruct j; discriminate].
      injection Hc as <-. injection Hb as <- <- <- <-. lia.
    + eexists. repeat split; reflexivity.
    + intros [|[|[|j]]] Hj (o & Ho & _); try lia. destruct j; discriminate.
Defined.

(** C4 as stated fails beyond that range.  The child Block of [far_scene]
    has 2^53 as its [x] and 1 as its width, so its box contains the cell
    (2^53, 0); the sum 2^53 + 1 is rounded to 2^53, the test
    [x < c.x + c.width] fails, and [hitTest] answers nothing. *)
Lemma hitTest_misses_far_box :
  block_contains (children far_scene) (2 ^ 53) 0 0
  /\ number_add (int (2 ^ 53)) (int 1) = int (2 ^ 53)
  /\ hitTest far_scene (int (2 ^ 53)) (int 0) = None.
Proof.
  split; [|split].
  - eexists. split; [reflexivity|].
    exists (2 ^ 53)%Z, 0%Z, 1%Z, 1%Z. split; [reflexivity|].
    split; split; reflexivity || discriminate.
  - vm_compute. reflexivity.
  - vm_compute. reflexivity.
Qed.


End HitTestPriority.

(* ================================================================== *)
(** * The cell helpers and the leaves of a cell *)
(* ================================================================== *)

Section NumberEquality.
Import JS.

Lemma pow10_pos (k : nat) : (0 < 10 ^ Z.of_nat k)%Z.
Proof. apply Z.pow_pos_nonneg; lia. Qed.

Lemma number_eqb_sym (a b : number) : number_eqb a b = number_eqb b a.
Proof.
  unfold number_eqb, number_compare.
  destruct a as [|na|m1 k1], b as [|nb|m2 k2]; try reflexivity.
  - destruct na, nb; reflexivity.
  - destruct na; reflexivity.
  - destruct nb; reflexivity.
  - rewrite (Z.compare_antisym (m1 * 10 ^ Z.of_nat k2)).
    destruct (m1 * 10 ^ Z.of_nat k2 ?= m2 * 10 ^ Z.of_nat k1)%Z; reflexivity.
Qed.

Lemma number_eqb_trans (a b c : number) :
  number_eqb a b = true -> number_eqb b c = true -> number_eqb a c = true.
Proof.
  unfold number_eqb, number_compare.
  destruct a as [|na|m1 k1], b as [|nb|m2 k2], c as [|nc|m3 k3];
    try discriminate; try (destruct na; discriminate);
    try (destruct nb; discriminate); try (destruct nc; discriminate).
  - destruct na, nb, nc; simpl; congruence.
  - intros H1 H2.
    destruct (Z.compare_spec (m1 * 10 ^ Z.of_nat k2) (m2 * 10 ^ Z.of_nat k1));
      try discriminate.
    destruct (Z.compare_spec (m2 * 10 ^ Z.of_nat k3) (m3 * 10 ^ Z.of_nat k2));
      try discriminate.
    pose proof (pow10_pos k1). pose proof (pow10_pos k2). pose proof (pow10_pos k3).
    assert (E : (m1 * 10 ^ Z.of_nat k3 = m3 * 10 ^ Z.of_nat k1)%Z).
    { apply (Z.mul_reg_r _ _ (10 ^ Z.of_nat k2)%Z); [lia|].
      transitivity (m1 * 10 ^ Z.of_nat k2 * 10 ^ Z.of_nat k3)%Z; [ring|].
      rewrite H. transitivity (m2 * 10 ^ Z.of_nat k3 * 10 ^ Z.of_nat k1)%Z; [ring|].
      rewrite H0. ring. }
    rewrite E, Z.compare_refl. reflexivity.
Qed.

End NumberEquality.

Section Cells.
Import JS Types EditorState Spec.

(** Two cells that hold a common object are the same cell: the objects of
    one are the objects of the other. *)
Lemma at_cell_shift (x y x' y' : number) (c d : Obj) :
  at_cell x y c = true -> at_cell x' y' c = true ->
  at_cell x' y' d = at_cell x y d.
Proof.
  unfold at_cell. rewrite !andb_true_iff. intros [Hx Hy] [Hx' Hy'].
  assert (Hxx : number_eqb x x' = true).
  { apply number_eqb_trans with (obj_x c); auto. rewrite number_eqb_sym; auto. }
  assert (Hyy : number_eqb y y' = true).
  { apply number_eqb_trans with (obj_y c); auto. rewrite number_eqb_sym; auto. }
  assert (Hone : forall a u v, number_eqb u v = true -> number_eqb a v = number_eqb a u).
  { intros a u v Huv. destruct (number_eqb a u) eqn:E.
    - apply number_eqb_trans with u; auto.
    - destruct (number_eqb a v) eqn:E'; auto.
      rewrite <- E. symmetry. apply number_eqb_trans with v; auto.
      rewrite number_eqb_sym; auto. }
  rewrite (Hone (obj_x d) x x' Hxx), (Hone (obj_y d) y y' Hyy). reflexivity.
Qed.

Lemma findIndex_None {A : Type} (p : A -> bool) (l : list A) :
  findIndex p l = None -> filter p l = [].
Proof.
  induction l as [|a r IH]; simpl; auto.
  destruct (p a); [discriminate|].
  destruct (findIndex p r); [discriminate|]. auto.
Qed.

Lemma findIndex_Some {A : Type} (p : A -> bool) (l : list A) (i : nat) :
  findIndex p l = Some i -> exists a, nth_error l i = Some a /\ p a = true.
Proof.
  revert i. induction l as [|a r IH]; simpl; intros i; [discriminate|].
  destruct (p a) eqn:E.
  - intros [= <-]. exists a. auto.
  - destruct (findIndex p r) as [j|]; [|discriminate].
    intros [= <-]. apply IH. reflexivity.
Qed.

Lemma count_remove_nth {A : Type} (q : A -> bool) (l : list A) (i : nat) :
  length (filter q (remove_nth l i)) <= length (filter q l).
Proof.
  revert i. induction l as [|a r IH]; intros [|i]; simpl; auto.
  - destruct (q a); simpl; lia.
  - specialize (IH i). destruct (q a); simpl; lia.
Qed.

Lemma count_update_nth {A : Type} (q : A -> bool) (l : list A) (i : nat) (old new : A) :
  nth_error l i = Some old -> (q new = true -> q old = true) ->
  length (filter q (update_nth l i (fun _ => new))) <= length (filter q l).
Proof.
  revert i. induction l as [|a r IH]; intros [|i]; simpl; try discriminate.
  - intros [= ->] H. destruct (q new); simpl.
    + rewrite H; simpl; auto.
    + destruct (q old); simpl; lia.
  - intros Hn H. specialize (IH i Hn H). destruct (q a); simpl; lia.
Qed.

Lemma count_filter {A : Type} (q p : A -> bool) (l : list A) :
  length (filter q (filter p l)) <= length (filter q l).
Proof.
  induction l as [|a r IH]; simpl; auto.
  destruct (p a), (q a) eqn:E; simpl; try rewrite E; simpl; lia.
Qed.

Lemma count_snoc {A : Type} (q : A -> bool) (l : list A) (a : A) :
  length (filter q (l ++ [a])) = length (filter q l) + (if q a then 1 else 0).
Proof.
  rewrite filter_app, length_app. simpl. destruct (q a); reflexivity.
Qed.

Lemma filter_nil_forall {A : Type} (q : A -> bool) (l : list A) :
  filter q l = [] -> forall a, In a l -> q a = false.
Proof.
  induction l as [|b r IH]; simpl; intros H a Ha; [contradiction|].
  destruct (q b) eqn:E; [discriminate|].
  destruct Ha as [->|Ha]; auto.
Qed.

Lemma count_zero_forall {A : Type} (q : A -> bool) (l : list A) :
  (forall a, In a l -> q a = false) -> length (filter q l) = 0.
Proof.
  induction l as [|b r IH]; simpl; intros H; auto.
  rewrite (H b) by auto. apply IH. intros a Ha. apply H. auto.
Qed.

(** Adding at [(x, y)] an object of a kind of which the cell holds none
    keeps a count that was at most one at most one. *)
Lemma count_at_snoc_fresh (kind : Obj -> bool) (cs : list Obj) (x y : number) (new : Obj) :
  obj_x new = x -> obj_y new = y ->
  (forall c, In c cs -> (kind c && at_cell x y c) = false) ->
  forall x' y', count_at kind cs x' y' <= 1 ->
                count_at kind (cs ++ [new]) x' y' <= 1.
Proof.
  intros Hx Hy Hfresh x' y' Hle. unfold count_at in *. rewrite count_snoc.
  destruct (kind new && at_cell x' y' new) eqn:E; [|lia].
  apply andb_true_iff in E. destruct E as [_ Hat'].
  assert (Hat : at_cell x y new = true).
  { unfold at_cell in *. rewrite Hx, Hy in *.
    apply andb_true_iff in Hat'. destruct Hat' as [H1 H2].
    rewrite (number_eqb_trans x x' x), (number_eqb_trans y y' y); auto;
      rewrite number_eqb_sym; auto. }
  rewrite count_zero_forall; [lia|].
  intros c Hc. rewrite (at_cell_shift x y x' y' new c Hat Hat').
  apply Hfresh. exact Hc.
Qed.

Lemma count_at_snoc_other (kind : Obj -> bool) (cs : list Obj) (x y : number) (new : Obj) :
  kind new = false ->
  count_at kind (cs ++ [new]) x y = count_at kind cs x y.
Proof.
  intros H. unfold count_at. rewrite count_snoc, H. simpl. lia.
Qed.

End Cells.

Section CellHelpers.
Import JS Types EditorState Spec.

Variables (b : Block) (x y : number).

Let keep (c : Obj) : bool := if is_Block c then true else negb (at_cell x y c).

Lemma kept_not_at_cell (kind : Obj -> bool) :
  (forall c, kind c = true -> is_Block c = false) ->
  forall c, In c (filter keep (children b)) -> (kind c && at_cell x y c) = false.
Proof.
  intros Hkind c Hc. apply filter_In in Hc. destruct Hc as [_ Hk].
  unfold keep in Hk. destruct (kind c) eqn:K; simpl; auto.
  rewrite (Hkind c K) in Hk. destruct (at_cell x y c); auto.
Qed.

Lemma removeAt_count (kind : Obj -> bool) (x' y' : number) :
  count_at kind (children (removeAt b x y)) x' y'
  <= count_at kind (children b) x' y'.
Proof. unfold removeAt, count_at. simpl. apply count_filter. Qed.

Lemma removeAt_one_leaf :
  one_leaf_per_cell b -> one_leaf_per_cell (removeAt b x y).
Proof.
  intros H x' y'. pose proof (removeAt_count is_leaf x' y'). specialize (H x' y'). lia.
Qed.

Lemma addRef_one_leaf (id : number) :
  one_leaf_per_cell b -> one_leaf_per_cell (addRef b x y id).
Proof.
  intros H x' y'. unfold addRef. simpl. fold keep.
  apply count_at_snoc_fresh with (x := x) (y := y); try reflexivity.
  - apply kept_not_at_cell. intros c. unfold is_leaf. destruct (is_Block c); auto.
  - pose proof (removeAt_count is_leaf x' y') as Hle. unfold removeAt in Hle.
    simpl in Hle. fold keep in Hle. specialize (H x' y'). lia.
Qed.

Lemma removeAt_each_kind :
  one_leaf_of_each_kind_per_cell b -> one_leaf_of_each_kind_per_cell (removeAt b x y).
Proof.
  intros H x' y'. destruct (H x' y') as (Hw & Hf & Hr).
  pose proof (removeAt_count is_Wall x' y').
  pose proof (removeAt_count is_Floor x' y').
  pose proof (removeAt_count is_Ref x' y'). lia.
Qed.

Lemma addRef_each_kind (id : number) :
  one_leaf_of_each_kind_per_cell b -> one_leaf_of_each_kind_per_cell (addRef b x y id).
Proof.
  intros H x' y'. destruct (H x' y') as (Hw & Hf & Hr).
  pose proof (removeAt_count is_Wall x' y') as Hw'.
  pose proof (removeAt_count is_Floor x' y') as Hf'.
  pose proof (removeAt_count is_Ref x' y') as Hr'.
  unfold removeAt in Hw', Hf', Hr'. simpl in Hw', Hf', Hr'.
  unfold addRef. simpl. fold keep in Hw', Hf', Hr' |- *.
  rewrite (count_at_snoc_other is_Wall), (count_at_snoc_other is_Floor) by reflexivity.
  repeat split; try lia.
  apply count_at_snoc_fresh with (x := x) (y := y); try reflexivity; [|lia].
  apply kept_not_at_cell. intros c. destruct c; simpl; auto; discriminate.
Qed.

Lemma upsertWall_each_kind :
  one_leaf_of_each_kind_per_cell b -> one_leaf_of_each_kind_per_cell (upsertWall b x y).
Proof.
  intros H x' y'. destruct (H x' y') as (Hw & Hf & Hr). unfold upsertWall.
  destruct (findIndex (fun c => is_Wall c && at_cell x y c) (children b)) as [idx|] eqn:E;
    simpl.
  - unfold count_at in *.
    pose proof (count_remove_nth (fun c => is_Wall c && at_cell x' y' c) (children b) idx).
    pose proof (count_remove_nth (fun c => is_Floor c && at_cell x' y' c) (children b) idx).
    pose proof (count_remove_nth (fun c => is_Ref c && at_cell x' y' c) (children b) idx).
    lia.
  - rewrite (count_at_snoc_other is_Floor), (count_at_snoc_other is_Ref) by reflexivity.
    repeat split; try lia.
    apply count_at_snoc_fresh with (x := x) (y := y); try reflexivity; [|lia].
    apply filter_nil_forall. apply findIndex_None. exact E.
Qed.

Lemma upsertFloor_each_kind (ft : FloorType) :
  one_leaf_of_each_kind_per_cell b ->
  one_leaf_of_each_kind_per_cell (upsertFloor b x y ft).
Proof.
  intros H x' y'. destruct (H x' y') as (Hw & Hf & Hr). unfold upsertFloor.
  destruct (findIndex (fun c => is_Floor c && at_cell x y c) (children b)) as [idx|] eqn:E;
    simpl.
  - destruct (findIndex_Some _ _ _ E) as (old & Hnth & Hold).
    apply andb_true_iff in Hold. destruct Hold as [Hkind Hat].
    set (new := OFloor {| floor_x := x; floor_y := y; floor_type := ft |}).
    unfold count_at in *.
    pose proof (count_update_nth (fun c => is_Wall c && at_cell x' y' c)
                  (children b) idx old new Hnth) as H1.
    pose proof (count_update_nth (fun c => is_Floor c && at_cell x' y' c)
                  (children b) idx old new Hnth) as H2.
    pose proof (count_update_nth (fun c => is_Ref c && at_cell x' y' c)
                  (children b) idx old new Hnth) as H3.
    simpl in H1, H3. specialize (H1 ltac:(discriminate)).
    specialize (H3 ltac:(discriminate)).
    assert (Hnew : is_Floor new && at_cell x' y' new = true ->
                   is_Floor old && at_cell x' y' old = true).
    { rewrite Hkind. simpl. intros Hat'.
      assert (Hself : at_cell x y new = true).
      { unfold at_cell in *. simpl in *.
        apply andb_true_iff in Hat'. destruct Hat' as [Hx Hy].
        rewrite (number_eqb_trans x x' x), (number_eqb_trans y y' y); auto;
          rewrite number_eqb_sym; auto. }
      rewrite (at_cell_shift x y x' y' new old Hself Hat'). exact Hat. }
    specialize (H2 Hnew). lia.
  - rewrite (count_at_snoc_other is_Wall), (count_at_snoc_other is_Ref) by reflexivity.
    repeat split; try lia.
    apply count_at_snoc_fresh with (x := x) (y := y); try reflexivity; [|lia].
    apply filter_nil_forall. apply findIndex_None. exact E.
Qed.

End CellHelpers.

Section CellOccupancy.
Import JS Types EditorState Spec.

(** C8, as the code has it.  [removeAt] and [addRef] keep every cell at no
    more than one leaf.  [upsertWall] and [upsertFloor] look at the leaves of
    their own kind only: all four helpers keep every cell at no more than
    one Wall, one Floor and one Ref. *)
Theorem cell_helpers_keep_cells (b : Block) (x y : number) :
  (one_leaf_per_cell b ->
   one_leaf_per_cell (removeAt b x y)
   /\ forall id, one_leaf_per_cell (addRef b x y id))
  /\ (one_leaf_of_each_kind_per_cell b ->
      one_leaf_of_each_kind_per_cell (upsertWall b x y)
      /\ (forall ft, one_leaf_of_each_kind_per_cell (upsertFloor b x y ft))
      /\ one_leaf_of_each_kind_per_cell (removeAt b x y)
      /\ forall id, one_leaf_of_each_kind_per_cell (addRef b x y id)).
Proof.
  split.
  - intros H. split.
    + apply removeAt_one_leaf; assumption.
    + intros id. apply addRef_one_leaf; assumption.
  - intros H. split; [|split; [|split]].
    + apply upsertWall_each_kind; assumption.
    + intros ft. apply upsertFloor_each_kind; assumption.
    + apply removeAt_each_kind; assumption.
    + intros id. apply addRef_each_kind; assumption.
Qed.

Lemma singleton_one_leaf (b : Block) (o : Obj) :
  children b = [o] -> one_leaf_per_cell b.
Proof.
  intros E x y. unfold count_at. rewrite E. simpl.
  destruct (is_leaf o && at_cell x y o); simpl; lia.
Qed.

Lemma singleton_each_kind (b : Block) (o : Obj) :
  children b = [o] -> one_leaf_of_each_kind_per_cell b.
Proof.
  intros E x y. unfold count_at. rewrite E. simpl.
  destruct (is_Wall o && at_cell x y o), (is_Floor o && at_cell x y o),
    (is_Ref o && at_cell x y o); simpl; lia.
Qed.

(** The theorem at a block with a Floor at (0, 0), written on at (0, 0). *)
Lemma cell_helpers_keep_cells_witness :
  one_leaf_per_cell floor_scene
  /\ one_leaf_of_each_kind_per_cell floor_scene
  /\ one_leaf_per_cell (removeAt floor_scene (int 0) (int 0))
  /\ one_leaf_of_each_kind_per_cell (upsertWall floor_scene (int 0) (int 0)).
Proof.
  assert (H1 : one_leaf_per_cell floor_scene)
    by (apply singleton_one_leaf with (o := OFloor (mkFloor (int 0) (int 0) Button));
        reflexivity).
  assert (H2 : one_leaf_of_each_kind_per_cell floor_scene)
    by (apply singleton_each_kind with (o := OFloor (mkFloor (int 0) (int 0) Button));
        reflexivity).
  split; [exact H1|]. split; [exact H2|]. split.
  - exact (proj1 (proj1 (cell_helpers_keep_cells floor_scene (int 0) (int 0)) H1)).
  - exact (proj1 (proj2 (cell_helpers_keep_cells floor_scene (int 0) (int 0)) H2)).
Defined.

(** C8 as stated fails: a Wall put by [upsertWall] on the cell of a Floor
    leaves two leaves there, and so does a Floor put by [upsertFloor] on the
    cell of a Wall. *)
Lemma upsertWall_two_leaves :
  one_leaf_per_cell floor_scene
  /\ count_at is_leaf (children (upsertWall floor_scene (int 0) (int 0))) (int 0) (int 0) = 2
  /\ ~ one_leaf_per_cell (upsertWall floor_scene (int 0) (int 0))
  /\ one_leaf_per_cell wall_scene
  /\ ~ one_leaf_per_cell (upsertFloor wall_scene (int 0) (int 0) Button).
Proof.
  split; [|split; [|split; [|split]]].
  - apply singleton_one_leaf with (o := OFloor (mkFloor (int 0) (int 0) Button)).
    reflexivity.
  - reflexivity.
  - intros H. specialize (H (int 0) (int 0)). vm_compute in H. lia.
  - apply singleton_one_leaf with (o := OWall (mkWall (int 0) (int 0) B0 B0 (int 0))).
    reflexivity.
  - intros H. specialize (H (int 0) (int 0)). vm_compute in H. lia.
Qed.

End CellOccupancy.

(* ================================================================== *)
(** * Replacing the Block at a path *)
(* ================================================================== *)

Section Paths.
Import JS Types EditorState Spec.

Lemma array_set_at_end {A : Type} (arr : list A) (v : A) :
  array_set arr (length arr) v = Some (arr ++ [v]).
Proof.
  unfold array_set. rewrite Nat.ltb_irrefl, Nat.eqb_refl. reflexivity.
Qed.

(** Where the path cannot be followed to the parent, and for the empty
    path, [setBlockAtPath] returns the level it was given. *)
Lemma setBlockAtPath_no_parent (level : Level) (path : list nat) (block : Block) :
  path = [] \/ (2 <= length path /\ getBlockByPath level (removelast path) = None) ->
  setBlockAtPath level path block = Some level.
Proof.
  intros [->|[Hlen Hnone]]; [reflexivity|].
  unfold setBlockAtPath, cloneLevel.
  destruct path as [|i [|j rest]]; simpl in Hlen; try lia.
  rewrite Hnone. reflexivity.
Qed.

(** A path of one index equal to the number of roots resolves to nothing,
    and [setBlockAtPath] adds the block as a new last root. *)
Lemma setBlockAtPath_grows_roots (level : Level) (block : Block) :
  getBlockByPath level [length (roots level)] = None
  /\ setBlockAtPath level [length (roots level)] block
     = Some {| header := header level; roots := roots level ++ [block] |}.
Proof.
  split.
  - unfold getBlockByPath. simpl. apply nth_error_None. lia.
  - unfold setBlockAtPath, cloneLevel. rewrite array_set_at_end. reflexivity.
Qed.

(** C2 at the empty level: the root index 1 is out of range of the one
    root, the path resolves to no Block, and the level returned has two
    roots.  In the level whose root holds one Wall, the path [0; 0] resolves
    to no Block either (the child is a leaf), and the Wall is replaced. *)
Theorem setBlockAtPath_out_of_range_root :
  getBlockByPath createEmptyLevel [1] = None
  /\ setBlockAtPath createEmptyLevel [1] spare_block
     = Some {| header := header createEmptyLevel;
               roots := roots createEmptyLevel ++ [spare_block] |}
  /\ setBlockAtPath createEmptyLevel [1] spare_block <> Some createEmptyLevel
  /\ getBlockByPath wall_level [0; 0] = None
  /\ setBlockAtPath wall_level [0; 0] spare_block
     = Some {| header := header wall_level;
               roots := [with_children wall_scene [OBlock spare_block]] |}.
Proof.
  repeat split; try reflexivity. discriminate.
Qed.

End Paths.

(* ================================================================== *)
(** * The flags of an object line *)
(* ================================================================== *)

Section Flags.
Import JS Types Format Spec.

Lemma quot_is_one (m p : Z) :
  (0 < p)%Z -> (Z.quot m p = 1 <-> p <= m < 2 * p)%Z.
Proof.
  intros Hp. split.
  - intros Hq. pose proof (Z.quot_rem' m p) as E. rewrite Hq in E.
    destruct (Z.lt_ge_cases m 0) as [Hneg|Hpos].
    + exfalso. pose proof (Z.quot_opp_l m p ltac:(lia)) as Ho.
      pose proof (Z.quot_pos (- m) p ltac:(lia) ltac:(lia)). lia.
    + pose proof (Z.rem_bound_pos m p Hpos Hp). lia.
  - intros [H1 H2]. rewrite Z.quot_div_nonneg by lia.
    symmetry. apply (Z.div_unique m p 1 (m - p)); lia.
Qed.

Lemma toBool01_Some (t : string) :
  toBool01 (Some t) B0 =
  match Number_ t with
  | Fin m k => if (Z.quot m (10 ^ Z.of_nat k) =? 1)%Z then B1 else B0
  | _ => B0
  end.
Proof.
  unfold toBool01, toInt. destruct (Number_ t) as [|neg|m k]; try reflexivity.
  simpl. unfold number_eqb, number_compare, int. simpl Z.of_nat.
  rewrite Z.pow_0_r, !Z.mul_1_r.
  destruct (Z.compare_spec (Z.quot m (10 ^ Z.of_nat k)) 1) as [E|E|E].
  - rewrite E. reflexivity.
  - destruct (Z.eqb_spec (Z.quot m (10 ^ Z.of_nat k)) 1); [lia|reflexivity].
  - destruct (Z.eqb_spec (Z.quot m (10 ^ Z.of_nat k)) 1); [lia|reflexivity].
Qed.

Lemma toBool01_one (token : option string) :
  toBool01 token B0 = B1 <-> reads_as_one token.
Proof.
  destruct token as [t|].
  - rewrite toBool01_Some. unfold reads_as_one. split.
    + destruct (Number_ t) as [|neg|m k] eqn:E; try discriminate.
      destruct (Z.eqb_spec (Z.quot m (10 ^ Z.of_nat k)) 1) as [Hq|]; [|discriminate].
      intros _. exists t, m, k. repeat split; auto;
        apply quot_is_one in Hq; try lia; apply Z.pow_pos_nonneg; lia.
    + intros (t' & m & k & [= <-] & E & Hm). rewrite E.
      apply quot_is_one in Hm; [|apply Z.pow_pos_nonneg; lia].
      rewrite Hm. reflexivity.
  - split; [discriminate|]. intros (t & m & k & H & _). discriminate.
Qed.

(** C7, as the code has it.  A flag is read with [toBool01]: it is 1
    exactly when its token is present and [Number] reads it as a finite
    number of integer part one, and 0 otherwise, so for a missing token and
    for every token read as another number or as none.  The tokens "1",
    "1.0", "01", "1.9" and "0x1" all give 1.  Every flag of a Block, Ref or
    Wall line is read this way from its position. *)
Theorem flags_read_as_numbers :
  (forall token, toBool01 token B0 = B1 <-> reads_as_one token)
  /\ (forall token, toBool01 token B0 = B0 <-> ~ reads_as_one token)
  /\ toBool01 None B0 = B0
  /\ map (fun t => toBool01 (Some t) B0) ["1"; "1.0"; "01"; "1.9"; "0x1"; "true"; "2"; "0"; "-1"]
     = [B1; B1; B1; B1; B1; B0; B0; B0; B0]
  /\ (forall kind args line,
        match parseObject kind args line with
        | Ok o => flags_of o = map (fun i => toBool01 (arg args i) B0) (flag_positions kind)
        | Err _ => True
        end).
Proof.
  split; [exact toBool01_one|]. split; [|split; [|split]].
  - intros token. rewrite <- toBool01_one.
    destruct (toBool01 token B0); split; congruence.
  - reflexivity.
  - vm_compute. reflexivity.
  - intros kind args line. unfold parseObject, flag_positions.
    destruct (String.eqb kind "Block"); [reflexivity|].
    destruct (String.eqb kind "Ref"); [reflexivity|].
    destruct (String.eqb kind "Wall"); [reflexivity|].
    destruct (String.eqb kind "Floor"); [reflexivity|exact I].
Qed.

(** C7 as stated fails: the tokens "1.0" and "01" are not the literal "1"
    and yet give the flag 1, on their own and on a Block line. *)
Lemma flag_of_token_1_0 :
  toBool01 (Some "1.0") B0 = B1
  /\ toBool01 (Some "01") B0 = B1
  /\ exists b,
       parseObject "Block" ["0"; "0"; "0"; "1"; "1"; "0"; "0"; "1"; "1"; "1.0"] 3
       = Ok (OBlock b)
       /\ block_fillwithwalls b = B1.
Proof.
  split; [vm_compute; reflexivity|]. split; [vm_compute; reflexivity|].
  eexists. split; [vm_compute; reflexivity|]. reflexivity.
Qed.

End Flags.

(* ================================================================== *)
(** * The header loop *)
(* ================================================================== *)

Section HeaderLoop.
Import JS Types Format Spec.

Lemma isFinite_trunc (v : number) : isFinite v = true -> isFinite (trunc v) = true.
Proof. destruct v; simpl; auto. Qed.

(** What one line does to the header. *)
Lemma header_line_spec (h : LevelHeader) (l : string) (i : nat) :
  is_blank l = false ->
  if invalid_version_line l
  then header_line h l i = Err {| message := "Invalid version"; line := i + 1 |}
  else exists h',
      header_line h l i = Ok h'
      /\ unknown h' = unknown h ++ (if unknown_line l then [l] else [])
      /\ (isFinite (version h) = true -> isFinite (version h') = true).
Proof.
  intros Hb.
  unfold header_line, invalid_version_line, unknown_line, key_is, header_key,
    header_value. rewrite Hb. simpl negb. rewrite !andb_true_l.
  destruct (split_ws (trim l)) as [|key rest] eqn:Etok.
  - simpl. eexists. split; [reflexivity|]. simpl. split; auto.
  - cbn [nth_error].
    destruct (string_eqb_spec key "version") as [->|Hv].
    { simpl.
      match goal with
      | |- context [isFinite ?v] => destruct (isFinite v) eqn:Ef; simpl
      end.
      - eexists. split; [reflexivity|]. simpl. rewrite app_nil_r. split; auto.
        intros _. apply isFinite_trunc. exact Ef.
      - reflexivity. }
    simpl.
    destruct (string_eqb_spec key "attempt_order") as [->|Ha].
    { eexists. split; [reflexivity|]. simpl. rewrite app_nil_r. auto. }
    destruct (string_eqb_spec key "shed") as [->|Hs].
    { eexists. split; [reflexivity|]. simpl. rewrite app_nil_r. auto. }
    destruct (string_eqb_spec key "inner_push") as [->|Hi].
    { eexists. split; [reflexivity|]. simpl. rewrite app_nil_r. auto. }
    destruct (string_eqb_spec key "draw_style") as [->|Hd].
    { simpl.
      match goal with
      | |- context [parse_draw_style ?v] => destruct (parse_draw_style v)
      end.
      - eexists. split; [reflexivity|]. simpl. rewrite app_nil_r. auto.
      - eexists. split; [reflexivity|]. simpl. auto. }
    destruct (string_eqb_spec key "custom_level_music") as [->|Hm].
    { eexists. split; [reflexivity|]. simpl. rewrite app_nil_r. auto. }
    destruct (string_eqb_spec key "custom_level_palette") as [->|Hp].
    { eexists. split; [reflexivity|]. simpl. rewrite app_nil_r. auto. }
    eexists. split; [reflexivity|]. simpl. auto.
Qed.

Lemma blank_not_special (l : string) :
  is_blank l = true ->
  is_terminator l = false /\ invalid_version_line l = false /\ unknown_line l = false.
Proof.
  unfold invalid_version_line, unknown_line, is_terminator, is_blank.
  intros H. rewrite H. apply string_eqb_eq in H. rewrite H. auto.
Qed.

(** The header loop stops with "Invalid version" at the first invalid
    version line of the header section. *)
Lemma header_loop_invalid (lines : list string) :
  forall i h j,
    index_of invalid_version_line (header_section lines) = Some j ->
    header_loop lines i h = Err {| message := "Invalid version"; line := i + j + 1 |}.
Proof.
  induction lines as [|l rest IH]; intros i h j; simpl; [discriminate|].
  fold (is_blank l). fold (is_terminator l).
  destruct (is_blank l) eqn:Eb.
  - destruct (blank_not_special l Eb) as (Et & Ev & _). rewrite Et. simpl.
    rewrite Ev. destruct (index_of invalid_version_line (header_section rest)) as [j'|] eqn:E;
      [|discriminate].
    intros [= <-]. rewrite (IH (S i) h j' eq_refl). do 2 f_equal. lia.
  - destruct (is_terminator l) eqn:Et; [discriminate|]. simpl.
    pose proof (header_line_spec h l i Eb) as Hl.
    destruct (invalid_version_line l) eqn:Ev.
    + intros [= <-]. rewrite Hl. do 2 f_equal. lia.
    + destruct Hl as (h' & -> & _).
      destruct (index_of invalid_version_line (header_section rest)) as [j'|] eqn:E;
        [|discriminate].
      intros [= <-]. rewrite (IH (S i) h' j' eq_refl). do 2 f_equal. lia.
Qed.

(** Without such a line the loop ends at the terminator (or at the end of
    the text), having appended the unknown lines of the header section, in
    their order. *)
Lemma header_loop_valid (lines : list string) :
  forall i h,
    index_of invalid_version_line (header_section lines) = None ->
    exists h',
      header_loop lines i h = Ok (h', i + body_start lines, body_section lines)
      /\ unknown h' = unknown h ++ filter unknown_line (header_section lines)
      /\ (isFinite (version h) = true -> isFinite (version h') = true).
Proof.
  induction lines as [|l rest IH]; intros i h; simpl.
  - intros _. exists h. rewrite Nat.add_0_r, app_nil_r. auto.
  - fold (is_blank l). fold (is_terminator l).
    destruct (is_blank l) eqn:Eb.
    + destruct (blank_not_special l Eb) as (Et & Ev & Eu). rewrite Et. simpl.
      rewrite Ev, Eu.
      destruct (index_of invalid_version_line (header_section rest)) eqn:E;
        [discriminate|].
      intros _. destruct (IH (S i) h eq_refl) as (h' & -> & Hu & Hf).
      exists h'. repeat split; auto. rewrite ?Nat.add_succ_r, ?Nat.add_1_r, ?Nat.add_0_r; reflexivity.
    + destruct (is_terminator l) eqn:Et.
      * intros _. exists h. simpl. rewrite app_nil_r.
        repeat split; auto. rewrite ?Nat.add_succ_r, ?Nat.add_1_r, ?Nat.add_0_r; reflexivity.
      * simpl. pose proof (header_line_spec h l i Eb) as Hl.
        destruct (invalid_version_line l) eqn:Ev; [discriminate|].
        destruct Hl as (h1 & -> & Hu1 & Hf1).
        destruct (index_of invalid_version_line (header_section rest)) eqn:E;
          [discriminate|].
        intros _. destruct (IH (S i) h1 eq_refl) as (h' & -> & Hu & Hf).
        exists h'. repeat split; auto.
        -- rewrite ?Nat.add_succ_r, ?Nat.add_1_r, ?Nat.add_0_r; reflexivity.
        -- rewrite Hu, Hu1. rewrite <- app_assoc. f_equal.
           destruct (unknown_line l); reflexivity.
Qed.

(** What one line does to the two identifiers of the header: a line whose
    first token is the key sets the field to the integer read from its
    second token, or to -1; every other line leaves the field as it is. *)
Lemma header_line_ids (h : LevelHeader) (l : string) (i : nat) (h' : LevelHeader) :
  header_line h l i = Ok h' ->
  custom_level_music h'
  = (if key_is l "custom_level_music"
     then Some (toInt (header_value l) (int (-1))) else custom_level_music h)
  /\ custom_level_palette h'
     = (if key_is l "custom_level_palette"
        then Some (toInt (header_value l) (int (-1))) else custom_level_palette h).
Proof.
  unfold header_line, key_is, header_key, header_value.
  destruct (split_ws (trim l)) as [|key rest] eqn:Etok.
  - intros [= <-]. simpl. auto.
  - cbn [nth_error].
    destruct (string_eqb_spec key "version") as [->|Hv].
    { simpl. match goal with
             | |- context [isFinite ?v] => destruct (isFinite v); simpl
             end; [|discriminate].
      intros [= <-]. simpl. auto. }
    simpl.
    destruct (string_eqb_spec key "attempt_order") as [->|Ha].
    { intros [= <-]. simpl. auto. }
    destruct (string_eqb_spec key "shed") as [->|Hs].
    { intros [= <-]. simpl. auto. }
    destruct (string_eqb_spec key "inner_push") as [->|Hi].
    { intros [= <-]. simpl. auto. }
    destruct (string_eqb_spec key "draw_style") as [->|Hd].
    { simpl. match goal with
             | |- context [parse_draw_style ?v] => destruct (parse_draw_style v)
             end; intros [= <-]; simpl; auto. }
    destruct (string_eqb_spec key "custom_level_music") as [->|Hm].
    { intros [= <-]. simpl. auto. }
    destruct (string_eqb_spec key "custom_level_palette") as [->|Hp].
    { intros [= <-]. simpl. auto. }
    intros [= <-]. simpl. auto.
Qed.

Lemma blank_no_key (l key : string) :
  is_blank l = true -> key <> "" -> key_is l key = false.
Proof.
  unfold is_blank, key_is, header_key. intros H Hk.
  apply string_eqb_eq in H. rewrite H. simpl.
  destruct key; [congruence|reflexivity].
Qed.

(** The two identifiers that the header loop returns: the value read from
    the last line of the header section that has the key, and the starting
    value when there is no such line. *)
Lemma header_loop_ids (lines : list string) :
  forall i h h' j rest,
    header_loop lines i h = Ok (h', j, rest) ->
    custom_level_music h'
    = match last_such (fun l => key_is l "custom_level_music") (header_section lines) with
      | Some l => Some (toInt (header_value l) (int (-1)))
      | None => custom_level_music h
      end
    /\ custom_level_palette h'
       = match last_such (fun l => key_is l "custom_level_palette") (header_section lines) with
         | Some l => Some (toInt (header_value l) (int (-1)))
         | None => custom_level_palette h
         end.
Proof.
  induction lines as [|l rest IH]; intros i h h' j rest'; simpl.
  - intros [= <- _ _]. auto.
  - fold (is_blank l). fold (is_terminator l).
    destruct (is_blank l) eqn:Eb.
    + destruct (blank_not_special l Eb) as (Et & _). rewrite Et. simpl.
      rewrite !(blank_no_key l _ Eb) by discriminate.
      intros H. destruct (IH _ _ _ _ _ H) as (Hm & Hp). rewrite Hm, Hp.
      clear Hm Hp. split.
      * destruct (last_such (fun l => key_is l "custom_level_music") _); reflexivity.
      * destruct (last_such (fun l => key_is l "custom_level_palette") _); reflexivity.
    + destruct (is_terminator l) eqn:Et.
      * intros [= <- _ _]. simpl. auto.
      * simpl. destruct (header_line h l i) as [h1|e] eqn:El; [|discriminate].
        intros H. destruct (IH _ _ _ _ _ H) as (Hm & Hp).
        destruct (header_line_ids _ _ _ _ El) as (Hm1 & Hp1).
        rewrite Hm, Hp, Hm1, Hp1. clear Hm Hp Hm1 Hp1. split.
        -- destruct (last_such (fun l => key_is l "custom_level_music") _);
             [reflexivity|].
           destruct (key_is l "custom_level_music"); reflexivity.
        -- destruct (last_such (fun l => key_is l "custom_level_palette") _);
             [reflexivity|].
           destruct (key_is l "custom_level_palette"); reflexivity.
Qed.

Lemma index_of_Some {A : Type} (p : A -> bool) (l : list A) (a : A) :
  In a l -> p a = true -> exists j, index_of p l = Some j.
Proof.
  induction l as [|b r IH]; simpl; [contradiction|].
  intros Hin Hp. destruct (p b) eqn:E; [eauto|].
  destruct Hin as [->|Hin]; [congruence|].
  destruct (IH Hin Hp) as (j & ->). simpl. eauto.
Qed.

Lemma index_of_nth {A : Type} (p : A -> bool) (l : list A) (j : nat) :
  index_of p l = Some j ->
  exists a, nth_error l j = Some a /\ p a = true
            /\ forall i b, i < j -> nth_error l i = Some b -> p b = false.
Proof.
  revert j. induction l as [|b r IH]; simpl; intros j; [discriminate|].
  destruct (p b) eqn:E.
  - intros [= <-]. exists b. repeat split; auto. intros i c Hi. lia.
  - destruct (index_of p r) as [j'|]; [|discriminate]. intros [= <-].
    destruct (IH j' eq_refl) as (a & Hn & Hp & Hmin).
    exists a. repeat split; auto.
    intros [|i] c Hi; simpl.
    + intros [= <-]. exact E.
    + apply Hmin. lia.
Qed.

Lemma header_section_all (lines : list string) :
  (forall l, In l lines -> is_terminator l = false) ->
  header_section lines = lines /\ body_section lines = []
  /\ body_start lines = length lines.
Proof.
  induction lines as [|l rest IH]; simpl; intros H; auto.
  rewrite (H l) by auto.
  destruct IH as (H1 & H2 & H3); [intros; apply H; auto|].
  rewrite H1, H2, H3. auto.
Qed.

End HeaderLoop.

(* ================================================================== *)
(** * Errors of [parseLevel] *)
(* ================================================================== *)

Section ParseErrors.
Import JS Types Format Spec.

Lemma parseLevel_invalid_version (text : string) (j : nat) :
  index_of invalid_version_line (header_section (lines_of text)) = Some j ->
  parseLevel text = Err {| message := "Invalid version"; line := j + 1 |}.
Proof.
  intros H. unfold parseLevel.
  rewrite (header_loop_invalid _ 0 initial_header j H). reflexivity.
Qed.

(** With a valid header, [parseLevel] is the body loop run on the body
    section, followed by the check that a root was found. *)
Lemma parseLevel_valid_header (text : string) :
  index_of invalid_version_line (header_section (lines_of text)) = None ->
  exists h,
    unknown h = filter unknown_line (header_section (lines_of text))
    /\ parseLevel text =
       match body_loop (body_section (lines_of text)) (body_start (lines_of text))
                       {| st_roots := []; st_stack := [] |} with
       | Err e => Err e
       | Ok st =>
           match st_roots st with
           | [] => Err {| message := "No root Block found";
                          line := length (lines_of text) |}
           | _ :: _ => Ok {| header := h; roots := st_roots st |}
           end
       end.
Proof.
  intros H. unfold parseLevel.
  destruct (header_loop_valid _ 0 initial_header H) as (h & -> & Hu & Hf).
  exists h. split; [exact Hu|].
  rewrite Hf by reflexivity. reflexivity.
Qed.

(** C5, the part that holds: a [version] line of the header section whose
    second token is missing or is not read as a finite number makes
    [parseLevel] raise "Invalid version", at the first such line. *)
Lemma invalid_version_raises (text : string) (l : string) :
  In l (header_section (lines_of text)) -> invalid_version_line l = true ->
  exists j,
    index_of invalid_version_line (header_section (lines_of text)) = Some j
    /\ parseLevel text = Err {| message := "Invalid version"; line := j + 1 |}.
Proof.
  intros Hin Hbad. destruct (index_of_Some _ _ _ Hin Hbad) as (j & Hj).
  exists j. split; [exact Hj|]. apply parseLevel_invalid_version. exact Hj.
Qed.

(** C5 at a text that has no [version] line: [parseLevel] raises nothing
    and returns a Level of version 4, the value the header starts with.  The
    check that raises "Missing version header" tests that starting value,
    so it never fires. *)
Theorem missing_version_accepted :
  (forall l, In l (header_section (lines_of versionless_text)) ->
             key_is l "version" = false)
  /\ parseLevel versionless_text
     = Ok {| header := initial_header;
             roots := [ mkBlock (int 0) (int 0) (int 0) (int 3) (int 3)
                                (Fin 5 1) (Fin 5 1) (int 1) (int 1)
                                B0 B0 B0 (int 0) B0 B0 (int 0) [] ] |}
  /\ version initial_header = int 4.
Proof.
  split; [|split].
  - simpl. intros l H. contradiction.
  - vm_compute. reflexivity.
  - reflexivity.
Qed.

(** The header that the first loop returns always has a finite version, so
    the check that raises "Missing version header" never fires. *)
Lemma version_always_finite (lines rest : list string) (h : LevelHeader) (i : nat) :
  header_loop lines 0 initial_header = Ok (h, i, rest) ->
  isFinite (version h) = true.
Proof.
  intros H.
  destruct (index_of invalid_version_line (header_section lines)) as [j|] eqn:E.
  - rewrite (header_loop_invalid _ 0 initial_header j E) in H. discriminate.
  - destruct (header_loop_valid _ 0 initial_header E) as (h' & H' & _ & Hf).
    rewrite H' in H. injection H as <- _ _. apply Hf. reflexivity.
Qed.

(** The integer read from the second token of a line, with -1 as the
    fallback, is -1 exactly when the token is missing or is not read as a
    finite number. *)
Lemma toInt_bad_value (l : string) :
  toInt (header_value l) (int (-1))
  = if bad_value l then int (-1) else trunc (Number_opt (header_value l)).
Proof.
  unfold toInt, bad_value, Number_opt.
  destruct (header_value l) as [t|]; [|reflexivity].
  destruct (isFinite (Number_ t)); reflexivity.
Qed.

Lemma parseLevel_header (text : string) (lvl : Level) :
  parseLevel text = Ok lvl ->
  exists i rest, header_loop (lines_of text) 0 initial_header = Ok (header lvl, i, rest).
Proof.
  unfold parseLevel.
  destruct (header_loop _ _ _) as [[[h i] rest]|e]; [|discriminate].
  destruct (negb _); [discriminate|].
  destruct (body_loop _ _ _) as [st|e]; [|discriminate].
  destruct (st_roots st); [discriminate|].
  intros [= <-]. exists i, rest. reflexivity.
Qed.

(** C6, as the code has it.  When [parseLevel] returns a Level, the
    [unknown] list of its header is the list of the unknown lines of the
    header section, in their order and as they stand once their trailing
    blanks and tabs are removed: the [draw_style] lines whose value is none
    of the three styles, and the lines whose first token is no key of the
    header.  No other line is appended.  A [custom_level_music] or
    [custom_level_palette] line is read into its field instead: the field
    holds the value of the last such line of the header section, which is
    -1 when the second token of that line is missing or is not read as a
    finite number, and the truncated number otherwise.  A [version] line
    with such a second token makes [parseLevel] raise "Invalid version", at
    the first such line. *)
Theorem unknown_lines_kept (text : string) :
  (forall lvl, parseLevel text = Ok lvl ->
     unknown (header lvl) = filter unknown_line (header_section (lines_of text))
     /\ custom_level_music (header lvl)
        = identifier_read "custom_level_music" (lines_of text)
     /\ custom_level_palette (header lvl)
        = identifier_read "custom_level_palette" (lines_of text))
  /\ (forall j,
        index_of invalid_version_line (header_section (lines_of text)) = Some j ->
        parseLevel text = Err {| message := "Invalid version"; line := j + 1 |}).
Proof.
  split.
  - intros lvl H. split.
    + destruct (index_of invalid_version_line (header_section (lines_of text)))
        as [j|] eqn:E.
      * rewrite (parseLevel_invalid_version _ _ E) in H. discriminate.
      * destruct (parseLevel_valid_header _ E) as (h & Hu & Hp).
        rewrite Hp in H.
        destruct (body_loop _ _ _) as [st|e]; [|discriminate].
        destruct (st_roots st); [discriminate|].
        injection H as <-. exact Hu.
    + destruct (parseLevel_header _ _ H) as (i & rest & Hl).
      destruct (header_loop_ids _ _ _ _ _ _ Hl) as (Hm & Hp).
      unfold identifier_read. rewrite Hm, Hp. clear Hm Hp. split.
      * destruct (last_such (fun l => key_is l "custom_level_music") _);
          [rewrite toInt_bad_value|]; reflexivity.
      * destruct (last_such (fun l => key_is l "custom_level_palette") _);
          [rewrite toInt_bad_value|]; reflexivity.
  - intros j E. apply parseLevel_invalid_version. exact E.
Qed.

(** The theorem at a text whose header has two unknown lines and a
    [custom_level_music] line whose value is no number. *)
Lemma unknown_lines_kept_witness :
  exists lvl,
    parseLevel music_text = Ok lvl
    /\ unknown (header lvl) = ["foo bar"; "draw_style neon"]
    /\ custom_level_music (header lvl) = Some (int (-1))
    /\ custom_level_palette (header lvl) = None.
Proof.
  destruct (parseLevel music_text) as [lvl|e] eqn:E;
    [|vm_compute in E; discriminate].
  exists lvl. split; [reflexivity|].
  destruct (proj1 (unknown_lines_kept music_text) lvl E) as (Hu & Hm & Hp).
  rewrite Hu, Hm, Hp. vm_compute. auto.
Defined.

(** C6 as stated fails: the line [custom_level_music abc] has a recognized
    key and a value that is no number; it sets the field to -1 and is not
    appended. *)
Lemma bad_music_line_not_kept :
  exists lvl,
    parseLevel music_text = Ok lvl
    /\ In "custom_level_music abc" (header_section (lines_of music_text))
    /\ Number_ "abc" = NaN
    /\ ~ In "custom_level_music abc" (unknown (header lvl))
    /\ custom_level_music (header lvl) = Some (int (-1)).
Proof.
  eexists. split; [vm_compute; reflexivity|]. simpl unknown.
  split; [vm_compute; auto|]. split; [vm_compute; reflexivity|].
  split; [|reflexivity].
  simpl. intros [H|[H|[]]]; discriminate.
Qed.

(** C10, as the code has it.  A text without terminator line is header
    material to its end.  [parseLevel] then raises "Invalid version" at the
    first invalid version line, if there is one, and otherwise "No root
    Block found" at the number of lines; it never returns a Level. *)
Theorem no_terminator_raises (text : string) :
  (forall l, In l (lines_of text) -> is_terminator l = false) ->
  parseLevel text =
  match index_of invalid_version_line (lines_of text) with
  | Some j => Err {| message := "Invalid version"; line := j + 1 |}
  | None => Err {| message := "No root Block found"; line := length (lines_of text) |}
  end.
Proof.
  intros H. destruct (header_section_all _ H) as (Hh & Hb & Hs).
  destruct (index_of invalid_version_line (lines_of text)) as [j|] eqn:E.
  - apply parseLevel_invalid_version. rewrite Hh. exact E.
  - rewrite <- Hh in E. destruct (parseLevel_valid_header _ E) as (h & _ & ->).
    rewrite Hb. reflexivity.
Qed.

(** The theorem at the text of the two lines [version 4] and [shed]. *)
Lemma no_terminator_raises_witness :
  parseLevel ("version 4" ++ LF ++ "shed")
  = Err {| message := "No root Block found"; line := 2 |}.
Proof.
  rewrite (no_terminator_raises ("version 4" ++ LF ++ "shed")).
  - vm_compute. reflexivity.
  - intros l Hl. vm_compute in Hl.
    destruct Hl as [<-|[<-|[]]]; vm_compute; reflexivity.
Defined.

(** C10 as stated fails: the text [version x] has no terminator line, and
    the error raised is "Invalid version" at line 1. *)
Lemma no_terminator_invalid_version :
  (forall l, In l (lines_of "version x") -> is_terminator l = false)
  /\ parseLevel "version x" = Err {| message := "Invalid version"; line := 1 |}
  /\ parseLevel "version x"
     <> Err {| message := "No root Block found"; line := length (lines_of "version x") |}.
Proof.
  split; [|split].
  - intros l Hl. vm_compute in Hl. destruct Hl as [<-|[]]. vm_compute. reflexivity.
  - vm_compute. reflexivity.
  - vm_compute. discriminate.
Qed.

End ParseErrors.

Section Indentation.
Import JS Types Format Spec.

Lemma trimStart_after_tabs (raw : string) :
  trimStart (after_tabs raw) = trimStart raw.
Proof.
  unfold after_tabs, trimStart.
  induction raw as [|c r IH]; [reflexivity|].
  cbn [strip_start].
  destruct (char_eqb_spec "009"%jc c) as [<-|Hc].
  - rewrite IH. reflexivity.
  - reflexivity.
Qed.

Lemma trim_after_tabs (raw : string) : trim (after_tabs raw) = trim raw.
Proof. unfold trim. rewrite trimStart_after_tabs. reflexivity. Qed.

Lemma split_ws_not_nil (s : string) : split_ws s <> [].
Proof.
  induction s as [|c r IH]; simpl; [discriminate|].
  destruct (is_ws c).
  - destruct (starts_with_ws r); [exact IH|discriminate].
  - destruct (split_ws r); discriminate.
Qed.

Lemma nth_error_body_section (lines : list string) (n : nat) (raw : string) :
  nth_error (body_section lines) n = Some raw ->
  nth_error lines (body_start lines + n) = Some raw.
Proof.
  induction lines as [|l rest IH]; simpl.
  - destruct n; discriminate.
  - destruct (is_terminator l); simpl; auto.
Qed.

Lemma body_loop_app (pre post : list string) :
  forall i st,
    body_loop (pre ++ post) i st =
    match body_loop pre i st with
    | Ok st' => body_loop post (i + length pre) st'
    | Err e => Err e
    end.
Proof.
  induction pre as [|raw pre IH]; intros i st; simpl.
  - rewrite Nat.add_0_r. reflexivity.
  - replace (i + S (length pre)) with (S i + length pre) by lia.
    destruct (String.eqb (trim raw) ""); [apply IH|].
    destruct (negb (line_matches raw)); [apply IH|].
    destruct (String.eqb (trim (after_tabs raw)) ""); [apply IH|].
    destruct (body_line st raw i); [apply IH|reflexivity].
Qed.

(** A line that is not blank, matches the line pattern and has more leading
    tabs than there are open Blocks stops the body loop at its own line
    number. *)
Lemma body_loop_overindented (raw : string) (post : list string) (i : nat) (st : BodyState) :
  is_blank raw = false ->
  line_matches raw = true ->
  length (st_stack st) < leading_tabs raw ->
  body_loop (raw :: post) i st
  = Err {| message := "Invalid indentation (no parent block at that depth)";
           line := i + 1 |}.
Proof.
  unfold is_blank. intros Hb Hm Hd. simpl.
  rewrite trim_after_tabs, Hb, Hm. simpl negb. cbv iota.
  unfold body_line. rewrite trim_after_tabs.
  destruct (split_ws (trim raw)) as [|kind args] eqn:E.
  - exfalso. exact (split_ws_not_nil _ E).
  - rewrite length_firstn.
    destruct (Nat.ltb_spec (Nat.min (leading_tabs raw) (length (st_stack st)))
                           (leading_tabs raw)) as [_|H]; [reflexivity|lia].
Qed.

(** A line that a line terminator keeps from matching the line pattern is
    passed over, whatever its indentation. *)
Lemma body_loop_unmatched (raw : string) (post : list string) (i : nat) (st : BodyState) :
  line_matches raw = false ->
  body_loop (raw :: post) i st = body_loop post (S i) st.
Proof.
  intros Hm. simpl. rewrite Hm. simpl negb.
  destruct (String.eqb (trim raw) ""); reflexivity.
Qed.

(** C9, for the lines that match the line pattern.  Let the header be read
    without error and the body start at the line of index [i]; let the
    lines [pre] of the body be read without error and leave the stack of
    open Blocks [st_stack st]; let the next line [raw] be not blank, hold no
    line terminator (no U+2028 and no U+2029: line feeds and carriage
    returns are gone from a line), and have more leading tabs than that
    stack has Blocks (so more than the stack truncated to the depth of the
    line has).  Then [parseLevel] raises the indentation error with the
    1-based number of that line, and returns no Level. *)
Theorem invalid_indentation_raises
    (text : string) (header : LevelHeader) (i : nat)
    (pre : list string) (raw : string) (post : list string) (st : BodyState) :
  header_loop (lines_of text) 0 initial_header = Ok (header, i, pre ++ raw :: post) ->
  body_loop pre i {| st_roots := []; st_stack := [] |} = Ok st ->
  is_blank raw = false ->
  string_existsb is_line_terminator raw = false ->
  length (firstn (leading_tabs raw) (st_stack st)) < leading_tabs raw ->
  nth_error (lines_of text) (i + length pre) = Some raw
  /\ parseLevel text
     = Err {| message := "Invalid indentation (no parent block at that depth)";
              line := i + length pre + 1 |}.
Proof.
  intros Hh Hpre Hb Hm Hd. rewrite length_firstn in Hd.
  assert (Hd' : length (st_stack st) < leading_tabs raw) by lia.
  assert (Hm' : line_matches raw = true) by (unfold line_matches; rewrite Hm; reflexivity).
  split.
  - destruct (index_of invalid_version_line (header_section (lines_of text))) as [j|] eqn:E.
    + rewrite (header_loop_invalid _ 0 initial_header j E) in Hh. discriminate.
    + destruct (header_loop_valid _ 0 initial_header E) as (h' & H' & _).
      rewrite H' in Hh. injection Hh as _ Hi Hrest. simpl in Hi. subst i.
      apply nth_error_body_section. rewrite Hrest.
      rewrite nth_error_app2 by lia. rewrite Nat.sub_diag. reflexivity.
  - unfold parseLevel. rewrite Hh.
    rewrite (version_always_finite _ _ _ _ Hh). simpl negb. cbv iota.
    rewrite body_loop_app, Hpre, body_loop_overindented by assumption.
    reflexivity.
Qed.

(** The theorem at a text whose fourth line has two tabs under one open
    Block. *)
Lemma invalid_indentation_raises_witness :
  parseLevel overindented_text
  = Err {| message := "Invalid indentation (no parent block at that depth)";
           line := 4 |}.
Proof.
  refine (proj2 (invalid_indentation_raises overindented_text initial_header 2
                   ["Block 0 0 0 3 3"] (TAB ++ TAB ++ "Wall 1 1") [""]
                   {| st_roots := [ mkBlock (int 0) (int 0) (int 0) (int 3) (int 3)
                                            (Fin 6 1) (Fin 8 1) (int 1) (int 1)
                                            B0 B0 B0 (int 0) B0 B0 (int 0) [] ];
                      st_stack := [[0]] |} _ _ _ _ _)).
  - vm_compute. reflexivity.
  - vm_compute. reflexivity.
  - vm_compute. reflexivity.
  - vm_compute. reflexivity.
  - vm_compute. lia.
Defined.

(** C9 as stated fails on a line that holds U+2028 or U+2029.  The fourth
    line of [separator_text] is not blank and has two leading tabs under
    the one open Block, as the fourth line of [overindented_text] has; it
    ends in U+2028, so it does not match the line pattern and the body loop
    passes it over: [parseLevel] raises nothing and returns a Level. *)
Lemma separator_line_not_raised :
  let raw := (TAB ++ TAB ++ "Wall 1 1" ++ LS)%js in
  let st := {| st_roots := [ mkBlock (int 0) (int 0) (int 0) (int 3) (int 3)
                                     (Fin 6 1) (Fin 8 1) (int 1) (int 1)
                                     B0 B0 B0 (int 0) B0 B0 (int 0) [] ];
               st_stack := [[0]] |} in
  header_loop (lines_of separator_text) 0 initial_header
  = Ok (initial_header, 2, ["Block 0 0 0 3 3"; raw; ""])
  /\ body_loop ["Block 0 0 0 3 3"] 2 {| st_roots := []; st_stack := [] |} = Ok st
  /\ nth_error (lines_of separator_text) 3 = Some raw
  /\ is_blank raw = false
  /\ length (firstn (leading_tabs raw) (st_stack st)) < leading_tabs raw
  /\ string_existsb is_line_terminator raw = true
  /\ parseLevel separator_text
     = Ok {| header := initial_header; roots := st_roots st |}.
Proof.
  cbv zeta. split; [vm_compute; reflexivity|]. split; [vm_compute; reflexivity|].
  split; [vm_compute; reflexivity|]. split; [vm_compute; reflexivity|].
  split; [vm_compute; lia|]. split; vm_compute; reflexivity.
Qed.

End Indentation.

(* ================================================================== *)
(** * Strings: tokens, lines and their splitting *)
(* ================================================================== *)

Section StringFacts.
Import JS Spec.

Lemma sapp_nil_r (s : string) : (s ++ "")%js = s.
Proof. induction s as [|c r IH]; simpl; congruence. Qed.

Lemma sapp_assoc (a b c : string) : ((a ++ b) ++ c)%js = (a ++ (b ++ c))%js.
Proof. induction a as [|x r IH]; simpl; congruence. Qed.

Lemma slength_app (a b : string) :
  String.length (a ++ b) = String.length a + String.length b.
Proof. induction a as [|x r IH]; simpl; congruence. Qed.

Lemma string_forallb_app (p : char -> bool) (a b : string) :
  string_forallb p (a ++ b) = string_forallb p a && string_forallb p b.
Proof.
  induction a as [|x r IH]; simpl; auto. rewrite IH, andb_assoc. reflexivity.
Qed.

Lemma string_forallb_impl (p q : char -> bool) (s : string) :
  (forall c, p c = true -> q c = true) ->
  string_forallb p s = true -> string_forallb q s = true.
Proof.
  intros H. induction s as [|c r IH]; simpl; auto.
  rewrite !andb_true_iff. intros [H1 H2]. auto.
Qed.

Lemma is_empty_app (a b : string) : is_empty (a ++ b) = is_empty a && is_empty b.
Proof. destruct a; reflexivity. Qed.

Lemma is_empty_true (s : string) : is_empty s = true -> s = "".
Proof. destruct s; simpl; congruence. Qed.

(** *** Stripping *)

(** A string that ends in a code unit outside [p] loses nothing. *)
Lemma strip_end_keep (p : char -> bool) (a b : string) :
  strip_end p b = b -> b <> "" -> strip_end p (a ++ b) = (a ++ b)%js.
Proof.
  intros Hb Hne. induction a as [|c r IH]; simpl; auto.
  rewrite IH. destruct (r ++ b)%js eqn:E; auto.
  destruct r; simpl in E; [contradiction|discriminate].
Qed.

Lemma strip_end_clean (p : char -> bool) (s : string) :
  string_forallb (fun c => negb (p c)) s = true -> strip_end p s = s.
Proof.
  induction s as [|c r IH]; simpl; auto.
  rewrite andb_true_iff. intros [Hc Hr]. rewrite (IH Hr).
  destruct r; auto. destruct (p c); [discriminate|reflexivity].
Qed.

(** A string of code units in [p] is stripped to nothing. *)
Lemma strip_end_all (p : char -> bool) (s : string) :
  string_forallb p s = true -> strip_end p s = "".
Proof.
  induction s as [|c r IH]; simpl; auto.
  rewrite andb_true_iff. intros [Hc Hr]. rewrite (IH Hr), Hc. reflexivity.
Qed.

Lemma strip_end_app_all (p : char -> bool) (a b : string) :
  string_forallb p b = true -> strip_end p (a ++ b) = strip_end p a.
Proof.
  intros Hb. induction a as [|c r IH]; simpl.
  - apply strip_end_all. exact Hb.
  - rewrite IH. reflexivity.
Qed.

Lemma strip_start_keep (p : char -> bool) (c : char) (r : string) :
  p c = false -> strip_start p (String c r) = String c r.
Proof. intros H. simpl. rewrite H. reflexivity. Qed.

(** *** Tokens *)

Lemma is_token_cons (t : string) :
  is_token t = true ->
  exists c r, t = String c r /\ is_ws c = false
              /\ string_forallb (fun c => negb (is_ws c)) r = true.
Proof.
  unfold is_token. destruct t as [|c r]; simpl; [discriminate|].
  rewrite andb_true_iff, negb_true_iff. intros [Hc Hr]. eauto.
Qed.

Lemma is_token_not_empty (t : string) : is_token t = true -> t <> "".
Proof. intros H. destruct (is_token_cons t H) as (c & r & -> & _). discriminate. Qed.

Lemma is_token_no_ws (t : string) :
  is_token t = true -> string_forallb (fun c => negb (is_ws c)) t = true.
Proof. unfold is_token. rewrite andb_true_iff. tauto. Qed.

Lemma is_token_app (a b : string) :
  is_token a = true -> string_forallb (fun c => negb (is_ws c)) b = true ->
  is_token (a ++ b) = true.
Proof.
  unfold is_token. rewrite !andb_true_iff. intros [Ha Hf] Hb.
  rewrite is_empty_app, string_forallb_app, Hf, Hb.
  destruct (is_empty a); [discriminate|auto].
Qed.

Lemma space_or_tab_is_ws (c : char) : is_space_or_tab c = true -> is_ws c = true.
Proof.
  unfold is_space_or_tab. rewrite orb_true_iff.
  intros [H|H]; apply char_eqb_eq in H; subst c; reflexivity.
Qed.

(** No stripping changes a token. *)
Lemma strip_end_token (p : char -> bool) (t : string) :
  (forall c, p c = true -> is_ws c = true) ->
  is_token t = true -> strip_end p t = t.
Proof.
  intros Hp Ht. apply strip_end_clean.
  apply string_forallb_impl with (p := fun c => negb (is_ws c)).
  - intros c Hc. destruct (p c) eqn:E; auto. rewrite (Hp c E) in Hc. discriminate.
  - apply is_token_no_ws. exact Ht.
Qed.

Lemma trimStart_token_app (t r : string) :
  is_token t = true -> trimStart (t ++ r) = (t ++ r)%js.
Proof.
  intros Ht. destruct (is_token_cons t Ht) as (c & r' & -> & Hc & _).
  simpl. unfold trimStart. simpl. rewrite Hc. reflexivity.
Qed.

(** *** Joining and splitting at white space *)

Lemma split_ws_token_app (t r : string) :
  string_forallb (fun c => negb (is_ws c)) t = true ->
  split_ws (t ++ r) =
  match split_ws r with
  | p :: ps => (t ++ p)%js :: ps
  | [] => [t]
  end.
Proof.
  induction t as [|c t' IH]; simpl.
  - intros _. destruct (split_ws r) eqn:E; auto.
    exfalso. exact (split_ws_not_nil r E).
  - rewrite andb_true_iff, negb_true_iff. intros [Hc Ht]. rewrite Hc, (IH Ht).
    destruct (split_ws r); reflexivity.
Qed.

Lemma split_ws_token (t : string) :
  string_forallb (fun c => negb (is_ws c)) t = true -> split_ws t = [t].
Proof.
  intros H. rewrite <- (sapp_nil_r t) at 1. rewrite split_ws_token_app by exact H.
  simpl. rewrite sapp_nil_r. reflexivity.
Qed.

Lemma join_cons (sep t : string) (u : string) (ts : list string) :
  join sep (t :: u :: ts) = (t ++ sep ++ join sep (u :: ts))%js.
Proof. reflexivity. Qed.

Lemma join_tokens_starts (ts : list string) (t : string) :
  is_token t = true -> starts_with_ws (join " " (t :: ts)) = false.
Proof.
  intros Ht. destruct (is_token_cons t Ht) as (c & r & -> & Hc & _).
  destruct ts; simpl; exact Hc.
Qed.

(** Splitting at white space undoes joining tokens with single spaces. *)
Lemma split_ws_join (ts : list string) :
  ts <> [] -> forallb is_token ts = true -> split_ws (join " " ts) = ts.
Proof.
  induction ts as [|t ts IH]; [congruence|]. intros _. simpl forallb.
  rewrite andb_true_iff. intros [Ht Hts].
  destruct ts as [|u ts].
  - simpl. apply split_ws_token. apply is_token_no_ws. exact Ht.
  - rewrite join_cons, split_ws_token_app by (apply is_token_no_ws; exact Ht).
    change (" " ++ join " " (u :: ts))%js with (String " " (join " " (u :: ts))).
    cbn [split_ws]. change (is_ws " ") with true. cbv iota.
    simpl in Hts. apply andb_true_iff in Hts. destruct Hts as [Hu Hts].
    rewrite (join_tokens_starts ts u Hu).
    rewrite IH; [|discriminate|simpl; rewrite Hu, Hts; reflexivity].
    rewrite sapp_nil_r. reflexivity.
Qed.

Lemma join_tokens_no_strip (p : char -> bool) (ts : list string) :
  (forall c, p c = true -> is_ws c = true) ->
  ts <> [] -> forallb is_token ts = true ->
  strip_end p (join " " ts) = join " " ts /\ join " " ts <> "".
Proof.
  intros Hp. induction ts as [|t ts IH]; [congruence|]. intros _. simpl forallb.
  rewrite andb_true_iff. intros [Ht Hts].
  destruct ts as [|u ts].
  - simpl. split; [apply strip_end_token; auto|apply is_token_not_empty; auto].
  - rewrite join_cons. destruct IH as [IH1 IH2]; [discriminate|exact Hts|].
    split.
    + rewrite <- sapp_assoc. apply strip_end_keep; auto.
    + destruct (is_token_cons t Ht) as (c & r & -> & _). discriminate.
Qed.

Lemma trim_join_tokens (ts : list string) :
  ts <> [] -> forallb is_token ts = true -> trim (join " " ts) = join " " ts.
Proof.
  intros Hne Hts. unfold trim.
  assert (Hs : trimStart (join " " ts) = join " " ts).
  { destruct ts as [|t ts]; [congruence|]. simpl in Hts.
    apply andb_true_iff in Hts. destruct Hts as [Ht _].
    destruct ts as [|u ts].
    - simpl. rewrite <- (sapp_nil_r t) at 1 2. apply trimStart_token_app. exact Ht.
    - rewrite join_cons. apply trimStart_token_app. exact Ht. }
  rewrite Hs. unfold trimEnd. apply join_tokens_no_strip; auto.
Qed.

(** *** Lines *)

Lemma replace_crlf_no_cr (s : string) :
  string_forallb (fun c => negb (Char.eqb c "013")) s = true -> replace_crlf s = s.
Proof.
  induction s as [|c r IH]; auto. simpl string_forallb.
  rewrite andb_true_iff, negb_true_iff. intros [Hc Hr].
  cbn [replace_crlf]. rewrite Hc. simpl. rewrite (IH Hr). destruct r; reflexivity.
Qed.

Lemma replace_char_absent (a b : char) (s : string) :
  string_forallb (fun c => negb (Char.eqb c a)) s = true -> replace_char a b s = s.
Proof.
  unfold replace_char. induction s as [|c r IH]; simpl; auto.
  rewrite andb_true_iff, negb_true_iff. intros [Hc Hr]. rewrite Hc, (IH Hr). reflexivity.
Qed.

Lemma split_char_absent (sep : char) (s : string) :
  string_forallb (fun c => negb (Char.eqb c sep)) s = true -> split_char sep s = [s].
Proof.
  induction s as [|c r IH]; simpl; auto.
  rewrite andb_true_iff, negb_true_iff. intros [Hc Hr]. rewrite Hc, (IH Hr). reflexivity.
Qed.

Lemma split_char_app (sep : char) (a b : string) :
  string_forallb (fun c => negb (Char.eqb c sep)) a = true ->
  split_char sep (a ++ String sep b) = a :: split_char sep b.
Proof.
  induction a as [|c r IH]; simpl.
  - intros _. rewrite char_eqb_refl. reflexivity.
  - rewrite andb_true_iff, negb_true_iff. intros [Hc Hr]. rewrite Hc, (IH Hr). reflexivity.
Qed.

(** Splitting at a separator undoes joining with it. *)
Lemma split_char_join (sep : char) (ls : list string) :
  ls <> [] ->
  Forall (fun l => string_forallb (fun c => negb (Char.eqb c sep)) l = true) ls ->
  split_char sep (join (String sep "") ls) = ls.
Proof.
  induction ls as [|l ls IH]; [congruence|]. intros _ H.
  inversion H as [|? ? Hl Hls]; subst.
  destruct ls as [|u ls].
  - simpl. apply split_char_absent. exact Hl.
  - rewrite join_cons.
    change (String sep "" ++ join (String sep "") (u :: ls))%js
      with (String sep (join (String sep "") (u :: ls))).
    rewrite split_char_app by exact Hl.
    rewrite IH; [reflexivity|discriminate|exact Hls].
Qed.

Lemma join_snoc_empty (sep : string) (ls : list string) :
  ls <> [] -> join sep (ls ++ [""]) = (join sep ls ++ sep)%js.
Proof.
  induction ls as [|l ls IH]; [congruence|]. intros _.
  destruct ls as [|u ls].
  - simpl. rewrite sapp_nil_r. reflexivity.
  - change ((l :: u :: ls) ++ [""]) with (l :: u :: (ls ++ [""])).
    rewrite !join_cons. change (u :: ls ++ [""]) with ((u :: ls) ++ [""]).
    rewrite IH by discriminate. rewrite !sapp_assoc. reflexivity.
Qed.

Lemma string_forallb_join (p : char -> bool) (sep : string) (ls : list string) :
  string_forallb p sep = true ->
  Forall (fun l => string_forallb p l = true) ls ->
  string_forallb p (join sep ls) = true.
Proof.
  intros Hsep. induction ls as [|l ls IH]; intros H; [reflexivity|].
  inversion H as [|? ? Hl Hls]; subst.
  destruct ls as [|u ls]; [exact Hl|].
  rewrite join_cons, !string_forallb_app, Hl, Hsep, IH; auto.
Qed.

Lemma is_one_line_parts (s : string) :
  is_one_line s = true ->
  string_forallb (fun c => negb (Char.eqb c "013")) s = true
  /\ string_forallb (fun c => negb (Char.eqb c "010")) s = true.
Proof.
  unfold is_one_line. intros H. split;
    apply string_forallb_impl with (2 := H); intros c;
    rewrite !negb_true_iff, orb_false_iff; tauto.
Qed.

(** The lines of a text made of lines joined by line feeds, with a final
    line feed: the same lines, stripped at their end, and a last empty one. *)
Lemma lines_of_join (ls : list string) :
  ls <> [] -> Forall (fun l => is_one_line l = true) ls ->
  Format.lines_of (join LF ls ++ LF)
  = map (strip_end is_space_or_tab) ls ++ [""].
Proof.
  intros Hne Hls. unfold Format.lines_of.
  rewrite <- join_snoc_empty by exact Hne.
  assert (Hall : Forall (fun l => is_one_line l = true) (ls ++ [""])).
  { apply Forall_app. split; auto. }
  rewrite replace_crlf_no_cr.
  - rewrite replace_char_absent.
    + unfold LF. rewrite split_char_join.
      * rewrite map_app. reflexivity.
      * destruct ls; discriminate.
      * eapply Forall_impl; [|exact Hall]. intros l Hl.
        apply is_one_line_parts. exact Hl.
    + apply string_forallb_join; [reflexivity|].
      eapply Forall_impl; [|exact Hall]. intros l Hl.
      apply is_one_line_parts. exact Hl.
  - apply string_forallb_join; [reflexivity|].
    eapply Forall_impl; [|exact Hall]. intros l Hl.
    apply is_one_line_parts. exact Hl.
Qed.

End StringFacts.

(* ================================================================== *)
(** * Numbers: printing and reading back *)
(* ================================================================== *)

#[global] Arguments JS.digit_char : simpl never.
#[global] Arguments JS.digit_val : simpl never.
#[global] Arguments JS.is_digit : simpl never.
#[global] Arguments JS.is_ws : simpl never.

Section Digits.
Import JS Spec.
Local Open Scope Z_scope.

Lemma digit_cases (d : Z) :
  0 <= d < 10 ->
  d = 0 \/ d = 1 \/ d = 2 \/ d = 3 \/ d = 4 \/ d = 5 \/ d = 6 \/ d = 7 \/ d = 8 \/ d = 9.
Proof. lia. Qed.

Lemma digit_char_spec (d : Z) :
  0 <= d < 10 ->
  is_digit (digit_char d) = true /\ digit_val (digit_char d) = d
  /\ (Char.eqb "0" (digit_char d) = true -> d = 0).
Proof.
  intros H. destruct (digit_cases d H) as [->|[->|[->|[->|[->|[->|[->|[->|[->| ->]]]]]]]]];
    (split; [reflexivity|split; [reflexivity|]]); intros E; try reflexivity;
    vm_compute in E; discriminate.
Qed.

Lemma digits_val_app (a : Z) (x y : string) :
  digits_val a (x ++ y) = digits_val (digits_val a x) y.
Proof. revert a. induction x as [|c r IH]; intros a; simpl; auto. Qed.

Lemma numeral_one_digit (n : Z) :
  0 <= n < 10 -> numeral (String (digit_char n) "") n.
Proof.
  intros H. destruct (digit_char_spec n H) as (Hd & Hv & Hz).
  unfold numeral. cbn [String.length string_forallb]. rewrite Hd.
  split; [reflexivity|]. split; [|split; [|split; [|split]]].
  - discriminate.
  - intros a. cbn [digits_val]. rewrite Hv. change (10 ^ Z.of_nat 1) with 10. lia.
  - change (10 ^ Z.of_nat 1) with 10. lia.
  - intros Hp. change (10 ^ (Z.of_nat 1 - 1)) with 1. lia.
  - intros Hm. cbn [strip_end].
    destruct (Char.eqb "0" (digit_char n)) eqn:E; auto.
    exfalso. apply Hm. rewrite (Hz eq_refl). reflexivity.
Qed.

Lemma numeral_snoc (ds : string) (n : Z) :
  10 <= n -> numeral ds (n / 10) ->
  numeral (ds ++ String (digit_char (n mod 10)) "") n.
Proof.
  intros Hn (Hd & Hne & Hv & Hlt & Hge & _).
  assert (Hm : 0 <= n mod 10 < 10) by (apply Z.mod_pos_bound; lia).
  destruct (digit_char_spec _ Hm) as (Hd' & Hv' & Hz).
  pose proof (Z.div_mod n 10 ltac:(lia)) as Hdiv.
  assert (Hlen : Z.of_nat (String.length (ds ++ String (digit_char (n mod 10)) ""))
                 = Z.of_nat (String.length ds) + 1).
  { rewrite slength_app. cbn [String.length]. lia. }
  assert (Hpow : 10 ^ (Z.of_nat (String.length ds) + 1)
                 = 10 * 10 ^ Z.of_nat (String.length ds)).
  { rewrite Z.pow_add_r by lia. lia. }
  unfold numeral. rewrite Hlen, Hpow.
  split; [|split; [|split; [|split; [|split]]]].
  - rewrite string_forallb_app, Hd. cbn [string_forallb andb]. rewrite Hd'. reflexivity.
  - destruct ds; discriminate.
  - intros a. rewrite digits_val_app, Hv. cbn [digits_val]. rewrite Hv'. lia.
  - lia.
  - intros _. replace (Z.of_nat (String.length ds) + 1 - 1) with
      (Z.of_nat (String.length ds) - 1 + 1) by lia.
    assert (0 < n / 10) by (apply Z.div_str_pos; lia).
    specialize (Hge H).
    assert (0 <= Z.of_nat (String.length ds) - 1).
    { destruct ds; [contradiction|]. simpl String.length. lia. }
    rewrite Z.pow_add_r by lia. lia.
  - intros Hnz. apply strip_end_keep; [|discriminate]. cbn [strip_end].
    destruct (Char.eqb "0" (digit_char (n mod 10))) eqn:E; auto.
    exfalso. apply Hnz. apply Hz. reflexivity.
Qed.

Lemma digits_fuel_S (f : nat) (n : Z) (acc : string) :
  digits_fuel (S f) n acc =
  if n <? 10 then String (digit_char (n mod 10)) acc
  else digits_fuel f (n / 10) (String (digit_char (n mod 10)) acc).
Proof. reflexivity. Qed.

Lemma digits_fuel_spec (fuel : nat) :
  forall n acc,
    0 <= n < 2 ^ Z.of_nat (S fuel) ->
    exists ds, digits_fuel (S fuel) n acc = (ds ++ acc)%js /\ numeral ds n.
Proof.
  induction fuel as [|f IH]; intros n acc Hn.
  - change (2 ^ Z.of_nat 1) with 2 in Hn.
    exists (String (digit_char n) ""). split.
    + rewrite digits_fuel_S. destruct (Z.ltb_spec n 10); [|lia].
      rewrite Z.mod_small by lia. reflexivity.
    + apply numeral_one_digit. lia.
  - rewrite digits_fuel_S. destruct (Z.ltb_spec n 10) as [Hlt|Hge].
    + exists (String (digit_char n) ""). split.
      * rewrite Z.mod_small by lia. reflexivity.
      * apply numeral_one_digit. lia.
    + destruct (IH (n / 10) (String (digit_char (n mod 10)) acc)) as (ds & E & Hnum).
      { split; [apply Z.div_pos; lia|].
        apply Z.div_lt_upper_bound; [lia|].
        rewrite Nat2Z.inj_succ, Z.pow_succ_r in Hn by lia.
        assert (0 < 2 ^ Z.of_nat (S f)) by (apply Z.pow_pos_nonneg; lia). lia. }
      exists (ds ++ String (digit_char (n mod 10)) "")%js. split.
      * rewrite E, sapp_assoc. reflexivity.
      * apply numeral_snoc; assumption.
Qed.

Lemma digits_of_numeral (n : Z) : 0 <= n -> numeral (digits_of n) n.
Proof.
  intros Hn. unfold digits_of.
  destruct (digits_fuel_spec (Z.to_nat (Z.log2 n)) n "") as (ds & E & Hnum).
  - split; [exact Hn|].
    rewrite Nat2Z.inj_succ, Z2Nat.id by apply Z.log2_nonneg.
    destruct (Z.eq_dec n 0) as [->|Hnz]; [reflexivity|].
    apply Z.log2_spec. lia.
  - rewrite E, sapp_nil_r. exact Hnum.
Qed.

End Digits.

(** Replaces the code of each literal code unit of the goal by its value. *)
Ltac char_codes :=
  repeat match goal with
         | |- context [JS.nat_of_char (Npos ?p)] =>
             let v := eval vm_compute in (JS.nat_of_char (Npos p)) in
             progress change (JS.nat_of_char (Npos p)) with v
         end.

Section Literals.
Import JS Spec.
Local Open Scope Z_scope.

(** No code unit from 33 to 159 is white space. *)
Lemma not_ws_by_code (c : char) : (33 <= nat_of_char c <= 159)%nat -> is_ws c = false.
Proof.
  unfold nat_of_char, is_ws. intros H.
  repeat match goal with
         | |- context [N.eqb c ?k] => destruct (N.eqb_spec c k); [lia|]
         end.
  destruct (N.leb_spec 8192 c); [lia|]. reflexivity.
Qed.

Lemma is_digit_not_ws (c : char) : is_digit c = true -> is_ws c = false.
Proof.
  unfold is_digit. cbv zeta.
  rewrite andb_true_iff, !Nat.leb_le. intros [H1 H2].
  apply not_ws_by_code. lia.
Qed.

Lemma is_digit_range (c : char) :
  is_digit c = true -> (48 <= nat_of_char c <= 57)%nat.
Proof.
  unfold is_digit. cbv zeta. rewrite andb_true_iff, !Nat.leb_le. tauto.
Qed.

Lemma literal_char_range (c : char) :
  literal_char c = true -> (45 <= nat_of_char c <= 57)%nat.
Proof.
  unfold literal_char, is_digit. cbv zeta.
  rewrite !orb_true_iff, andb_true_iff, !Nat.leb_le.
  intros [[H|H]|H].
  - lia.
  - apply char_eqb_eq in H. subst c. char_codes. lia.
  - apply char_eqb_eq in H. subst c. char_codes. lia.
Qed.

Lemma eqb_by_code (c d : char) :
  nat_of_char c <> nat_of_char d -> Char.eqb c d = false.
Proof. intros H. apply char_eqb_neq. congruence. Qed.

Lemma literal_char_not_ws (c : char) : literal_char c = true -> is_ws c = false.
Proof.
  intros H. apply literal_char_range in H. apply not_ws_by_code. lia.
Qed.

Lemma is_digit_literal_char (c : char) : is_digit c = true -> literal_char c = true.
Proof. unfold literal_char. intros ->. reflexivity. Qed.

Lemma literal_chars (neg : bool) (ip fp : string) :
  string_forallb is_digit ip = true -> string_forallb is_digit fp = true ->
  string_forallb literal_char (literal neg ip fp) = true.
Proof.
  intros Hi Hf. unfold literal.
  assert (Hi' : string_forallb literal_char ip = true)
    by (apply string_forallb_impl with (2 := Hi); apply is_digit_literal_char).
  assert (Hf' : string_forallb literal_char fp = true)
    by (apply string_forallb_impl with (2 := Hf); apply is_digit_literal_char).
  rewrite !string_forallb_app, Hi'.
  destruct neg, (is_empty fp); cbn [string_forallb andb append]; rewrite ?Hf'; reflexivity.
Qed.

Lemma literal_is_token (neg : bool) (ip fp : string) :
  string_forallb is_digit ip = true -> ip <> ""%js ->
  string_forallb is_digit fp = true ->
  is_token (literal neg ip fp) = true.
Proof.
  intros Hi Hne Hf. unfold is_token. apply andb_true_iff. split.
  - unfold literal. destruct neg; [reflexivity|].
    destruct ip; [contradiction|reflexivity].
  - apply string_forallb_impl with (2 := literal_chars neg ip fp Hi Hf).
    intros c Hc. rewrite (literal_char_not_ws c Hc). reflexivity.
Qed.

Lemma literal_no_exponent (neg : bool) (ip fp : string) (e : char) :
  (57 < nat_of_char e)%nat ->
  string_forallb is_digit ip = true -> string_forallb is_digit fp = true ->
  includes e (literal neg ip fp) = false.
Proof.
  intros He Hi Hf. pose proof (literal_chars neg ip fp Hi Hf) as H.
  unfold includes. induction (literal neg ip fp) as [|c r IH]; [reflexivity|].
  simpl in H. apply andb_true_iff in H. destruct H as [Hc Hr].
  cbn [string_existsb]. rewrite (IH Hr), orb_false_r.
  apply eqb_by_code. apply literal_char_range in Hc. lia.
Qed.

Lemma span_digits (ip rest : string) :
  string_forallb is_digit ip = true ->
  match rest with String c _ => is_digit c = false | EmptyString => True end ->
  span is_digit (ip ++ rest) = (ip, rest).
Proof.
  intros Hi Hr. induction ip as [|c r IH]; cbn [append].
  - destruct rest as [|c r]; [reflexivity|]. cbn [span]. rewrite Hr. reflexivity.
  - cbn [string_forallb] in Hi. apply andb_true_iff in Hi. destruct Hi as [Hc Hi].
    cbn [span]. rewrite Hc, (IH Hi). reflexivity.
Qed.

Lemma span_digits_all (ds : string) :
  string_forallb is_digit ds = true -> span is_digit ds = (ds, ""%js).
Proof.
  intros H. rewrite <- (sapp_nil_r ds) at 1. apply span_digits; auto.
Qed.

Lemma digit_first_not_Infinity (c : char) (r : string) :
  is_digit c = true -> String.eqb (String c r) "Infinity" = false.
Proof.
  intros Hc. cbn [String.eqb]. rewrite eqb_by_code; [reflexivity|].
  apply is_digit_literal_char, literal_char_range in Hc. char_codes. lia.
Qed.

(** Reading a literal whose sign has been read. *)
Lemma parse_unsigned_decimal_literal (neg : bool) (ip fp : string) :
  string_forallb is_digit ip = true -> ip <> ""%js ->
  string_forallb is_digit fp = true ->
  parse_unsigned_decimal neg (literal false ip fp)
  = scale10 (if neg then - digits_val 0 (ip ++ fp) else digits_val 0 (ip ++ fp))
            (- Z.of_nat (String.length fp)).
Proof.
  intros Hi Hne Hf.
  assert (Hlit : literal false ip fp
                 = (ip ++ (if is_empty fp then "" else String "." fp))%js).
  { unfold literal. destruct (is_empty fp); reflexivity. }
  rewrite Hlit. unfold parse_unsigned_decimal.
  assert (Hinf : String.eqb (ip ++ (if is_empty fp then "" else String "." fp))
                            "Infinity" = false).
  { destruct ip as [|c ip']; [contradiction|]. cbn [append].
    apply digit_first_not_Infinity.
    cbn [string_forallb] in Hi. apply andb_true_iff in Hi. tauto. }
  rewrite Hinf.
  assert (Hip : is_empty ip = false) by (destruct ip; [contradiction|reflexivity]).
  destruct fp as [|d fp'].
  - cbn [is_empty]. rewrite span_digits by auto. cbn [String.length].
    rewrite Hip. cbn [negb parse_exponent]. rewrite !sapp_nil_r. reflexivity.
  - cbn [is_empty]. rewrite span_digits; [|exact Hi|reflexivity].
    change (Char.eqb "." ".") with true. cbv iota.
    rewrite span_digits_all by exact Hf.
    rewrite Hip. cbn [is_empty andb negb parse_exponent]. reflexivity.
Qed.

(** Reading a literal. *)
Lemma Number_literal (neg : bool) (ip fp : string) :
  string_forallb is_digit ip = true -> ip <> ""%js ->
  string_forallb is_digit fp = true ->
  Number_ (literal neg ip fp)
  = scale10 (if neg then - digits_val 0 (ip ++ fp) else digits_val 0 (ip ++ fp))
            (- Z.of_nat (String.length fp)).
Proof.
  intros Hi Hne Hf. unfold Number_.
  pose proof (literal_is_token neg ip fp Hi Hne Hf) as Htok.
  assert (Htrim : trim (literal neg ip fp) = literal neg ip fp).
  { unfold trim. rewrite <- (sapp_nil_r (literal neg ip fp)) at 1.
    rewrite trimStart_token_app, sapp_nil_r by exact Htok.
    apply strip_end_token; auto. }
  rewrite Htrim. rewrite <- (parse_unsigned_decimal_literal neg ip fp Hi Hne Hf).
  destruct neg.
  - reflexivity.
  - pose proof (literal_chars false ip fp Hi Hf) as Hch.
    destruct (literal false ip fp) as [|c r] eqn:E; [discriminate|].
    cbn [string_forallb] in Hch. apply andb_true_iff in Hch.
    destruct Hch as [Hc Hr].
    assert (Hcd : is_digit c = true).
    { unfold literal in E. destruct ip as [|c0 ip']; [contradiction|].
      cbn [append] in E. injection E as <- _.
      cbn [string_forallb] in Hi. apply andb_true_iff in Hi. tauto. }
    apply is_digit_range in Hcd.
    rewrite (eqb_by_code c "-"), (eqb_by_code c "+")
      by (char_codes; lia).
    destruct r as [|x r']; [reflexivity|].
    cbn [string_forallb] in Hr. apply andb_true_iff in Hr. destruct Hr as [Hx _].
    apply literal_char_range in Hx.
    rewrite (eqb_by_code x "x"), (eqb_by_code x "X"), (eqb_by_code x "o"),
      (eqb_by_code x "O"), (eqb_by_code x "b"), (eqb_by_code x "B")
      by (char_codes; lia).
    rewrite !andb_false_r. reflexivity.
Qed.

(** *** Pieces of a string *)

Lemma substring_split (s : string) (n : nat) :
  (n <= String.length s)%nat ->
  (substring 0 n s ++ substring n (String.length s - n) s)%js = s.
Proof.
  revert n. induction s as [|c r IH]; intros [|n] H; cbn [String.length] in *;
    try reflexivity; try lia.
  - cbn [substring append Nat.sub]. f_equal.
    clear. induction r as [|c r IH]; [reflexivity|]. cbn [String.length substring].
    rewrite IH. reflexivity.
  - cbn [substring append Nat.sub]. f_equal. apply IH. lia.
Qed.

Lemma length_substring_0 (s : string) (n : nat) :
  (n <= String.length s)%nat -> String.length (substring 0 n s) = n.
Proof.
  revert n. induction s as [|c r IH]; intros [|n] H; cbn [String.length] in *;
    try reflexivity; try lia.
  cbn [substring String.length]. rewrite IH by lia. reflexivity.
Qed.

Lemma string_forallb_substring (p : char -> bool) (s : string) (n m : nat) :
  string_forallb p s = true -> string_forallb p (substring n m s) = true.
Proof.
  revert n m. induction s as [|c r IH]; intros n m H.
  - destruct n, m; reflexivity.
  - cbn [string_forallb] in H. apply andb_true_iff in H. destruct H as [Hc Hr].
    destruct n as [|n]; [destruct m as [|m]|]; cbn [substring string_forallb].
    + reflexivity.
    + rewrite Hc, IH; auto.
    + apply IH. exact Hr.
Qed.

Lemma length_strip_end (p : char -> bool) (s : string) :
  (String.length (strip_end p s) <= String.length s)%nat.
Proof.
  induction s as [|c r IH]; cbn [strip_end String.length]; [lia|].
  destruct (strip_end p r); [destruct (p c)|]; cbn [String.length] in *; lia.
Qed.

Lemma strip_end_empty_zeros (s : string) :
  strip_end (Char.eqb "0") s = ""%js -> s = repeat_char "0" (String.length s).
Proof.
  induction s as [|c r IH]; cbn [strip_end String.length repeat_char]; [reflexivity|].
  destruct (strip_end (Char.eqb "0") r); [|discriminate].
  destruct (char_eqb_spec "0"%jc c) as [<-|]; [|discriminate].
  intros _. rewrite <- IH by reflexivity. reflexivity.
Qed.

(** The zeros that [strip_end] removes, put back. *)
Lemma strip_end_zeros (s : string) :
  (strip_end (Char.eqb "0") s
   ++ repeat_char "0" (String.length s - String.length (strip_end (Char.eqb "0") s)))%js
  = s.
Proof.
  induction s as [|c r IH]; [reflexivity|].
  cbn [strip_end String.length].
  destruct (strip_end (Char.eqb "0") r) as [|c' r'] eqn:E.
  - pose proof (strip_end_empty_zeros r E) as Hr.
    destruct (char_eqb_spec "0"%jc c) as [<-|].
    + cbn [String.length append Nat.sub repeat_char]. rewrite <- Hr. reflexivity.
    + cbn [String.length append Nat.sub]. rewrite Nat.sub_0_r, <- Hr. reflexivity.
  - cbn [String.length append Nat.sub] in *. rewrite IH. reflexivity.
Qed.

Lemma string_forallb_repeat (p : char -> bool) (c : char) (n : nat) :
  p c = true -> string_forallb p (repeat_char c n) = true.
Proof. intros H. induction n; cbn [repeat_char string_forallb]; rewrite ?H; auto. Qed.

Lemma length_repeat_char (c : char) (n : nat) : String.length (repeat_char c n) = n.
Proof. induction n; cbn [repeat_char String.length]; congruence. Qed.

Lemma digits_val_zeros (n : nat) : digits_val 0 (repeat_char "0" n) = 0.
Proof. induction n; cbn [repeat_char digits_val]; auto. Qed.

(** *** What [make_number] keeps *)

Lemma plain_decimal_bounds (m : Z) (k : nat) :
  plain_decimal (Fin m k) = true ->
  (k = 0%nat \/ m mod 10 <> 0)
  /\ (m = 0 \/ (10 ^ Z.of_nat k <= Z.abs m * 10 ^ 6
               /\ Z.abs m < 10 ^ 21 * 10 ^ Z.of_nat k)).
Proof.
  unfold plain_decimal.
  rewrite andb_true_iff, !orb_true_iff, andb_true_iff, negb_true_iff.
  rewrite Nat.eqb_eq, Z.eqb_eq, Z.eqb_neq, Z.leb_le, Z.ltb_lt. tauto.
Qed.

Lemma threshold_above_plain : 10 ^ 21 <= overflow_threshold.
Proof. vm_compute. discriminate. Qed.

Lemma underflow_below_plain : 10 ^ 6 < 2 ^ 1075.
Proof. vm_compute. reflexivity. Qed.

Lemma make_number_plain (m : Z) (k : nat) :
  plain_decimal (Fin m k) = true -> make_number m k = Fin m k.
Proof.
  intros H. destruct (plain_decimal_bounds m k H) as [Hc Hb].
  pose proof (pow10_pos k) as Hp.
  pose proof threshold_above_plain as HT. pose proof underflow_below_plain as HU.
  unfold make_number.
  destruct (Z.eq_dec m 0) as [->|Hm].
  - assert (k = 0%nat) as -> by (destruct Hc as [|Hc]; [assumption|exfalso; apply Hc; reflexivity]).
    reflexivity.
  - destruct Hb as [|[Hlo Hhi]]; [contradiction|].
    destruct (Z.geb_spec (Z.abs m) (overflow_threshold * 10 ^ Z.of_nat k)) as [Ho|_];
      [nia|].
    destruct (Z.leb_spec (Z.abs m * 2 ^ 1075) (10 ^ Z.of_nat k)) as [Hu|_]; [nia|].
    destruct k as [|k']; [reflexivity|].
    destruct Hc as [|Hc]; [discriminate|].
    cbn [normalize]. destruct (Z.eqb_spec (m mod 10) 0); [contradiction|reflexivity].
Qed.

Lemma scale10_plain (m : Z) (k : nat) :
  plain_decimal (Fin m k) = true -> scale10 m (- Z.of_nat k) = Fin m k.
Proof.
  intros H. unfold scale10. destruct k as [|k'].
  - change (- Z.of_nat 0) with 0. cbn [Z.geb Z.compare]. rewrite Z.pow_0_r, Z.mul_1_r.
    apply make_number_plain. exact H.
  - destruct (Z.geb_spec (- Z.of_nat (S k')) 0) as [Hge|_]; [lia|].
    rewrite Z.opp_involutive, Nat2Z.id. apply make_number_plain. exact H.
Qed.

End Literals.

Section Printing.
Import JS Spec.
Local Open Scope Z_scope.

Lemma abs_mod10 (m : Z) : m mod 10 <> 0 -> Z.abs m mod 10 <> 0.
Proof.
  intros H E. apply H. apply Z.mod_divide in E; [|lia].
  apply Z.mod_divide; [lia|]. apply Z.divide_abs_r. exact E.
Qed.

Lemma pow10_lt_inv (a b : Z) : 0 <= b -> 10 ^ a < 10 ^ b -> a < b.
Proof. intros Hb H. apply (Z.pow_lt_mono_r_iff 10); [lia|exact Hb|exact H]. Qed.

Lemma String_nonzero (m : Z) (k : nat) :
  m <> 0 ->
  String_ (Fin m k) =
  let sign := if m <? 0 then "-" else "" in
  let ds := digits_of (Z.abs m) in
  let n := Z.of_nat (String.length ds) - Z.of_nat k in
  let s := strip_end (Char.eqb "0") ds in
  let kk := String.length s in
  let e := n - 1 in
  let es := append (if e <? 0 then "-" else "+") (digits_of (Z.abs e)) in
  let body :=
    if (Z.of_nat kk <=? n) && (n <=? 21) then
      append s (repeat_char "0" (Z.to_nat n - kk))
    else if (0 <? n) && (n <=? 21) then
      append (substring 0 (Z.to_nat n) s)
             (append "." (substring (Z.to_nat n) (kk - Z.to_nat n) s))
    else if (-6 <? n) && (n <=? 0) then
      append "0." (append (repeat_char "0" (Z.to_nat (- n))) s)
    else if (kk =? 1)%nat then append s (append "e" es)
    else append (substring 0 1 s)
                (append "." (append (substring 1 (kk - 1) s) (append "e" es))) in
  append sign body.
Proof.
  intros Hm. unfold String_. destruct (Z.eqb_spec m 0); [contradiction|reflexivity].
Qed.

(** [String] prints a plain decimal as a literal without exponent. *)
Lemma String_shape (m : Z) (k : nat) :
  plain_decimal (Fin m k) = true ->
  exists ip fp,
    String_ (Fin m k) = literal (m <? 0) ip fp
    /\ string_forallb is_digit ip = true /\ ip <> ""%js
    /\ string_forallb is_digit fp = true
    /\ String.length fp = k
    /\ digits_val 0 (ip ++ fp) = Z.abs m.
Proof.
  intros H. destruct (plain_decimal_bounds m k H) as [Hc Hb].
  destruct (Z.eq_dec m 0) as [->|Hm].
  - assert (k = 0%nat) as ->
        by (destruct Hc as [|Hc]; [assumption|exfalso; apply Hc; reflexivity]).
    exists "0"%js, ""%js. repeat split; try reflexivity. discriminate.
  - destruct Hb as [|[Hlo Hhi]]; [contradiction|].
    destruct (digits_of_numeral (Z.abs m) (Z.abs_nonneg m))
      as (Hd & Hne & Hv & Hlt & Hge & Hstrip).
    rewrite (String_nonzero m k Hm). cbv zeta.
    set (ds := digits_of (Z.abs m)) in *.
    set (L := String.length ds) in *.
    assert (HL : (1 <= L)%nat) by (subst L; destruct ds; [contradiction|cbn; lia]).
    specialize (Hge ltac:(lia)).
    pose proof (pow10_pos k) as Hpk.
    assert (Hup : Z.of_nat L - 1 < 21 + Z.of_nat k).
    { apply pow10_lt_inv; [lia|]. rewrite Z.pow_add_r by lia. lia. }
    destruct k as [|k'].
    + (* an integer *)
      exists ds, ""%js.
      pose proof (length_strip_end (Char.eqb "0") ds) as Hk. fold L in Hk.
      replace (Z.of_nat L - Z.of_nat 0) with (Z.of_nat L) by lia.
      destruct (Z.leb_spec (Z.of_nat (String.length (strip_end (Char.eqb "0") ds)))
                           (Z.of_nat L)) as [_|Hbad]; [|lia].
      destruct (Z.leb_spec (Z.of_nat L) 21) as [_|Hbad]; [|lia].
      cbn [andb]. rewrite Nat2Z.id. subst L. rewrite strip_end_zeros.
      unfold literal. cbn [is_empty]. rewrite !sapp_nil_r.
      split; [reflexivity|]. split; [exact Hd|]. split; [exact Hne|].
      split; [reflexivity|]. split; [reflexivity|]. rewrite Hv. lia.
    + (* a fraction *)
      destruct Hc as [|Hc]; [discriminate|].
      rewrite (Hstrip (abs_mod10 m Hc)). fold L.
      set (n := Z.of_nat L - Z.of_nat (S k')).
      destruct (Z.leb_spec (Z.of_nat L) n) as [Hbad|_]; [lia|]. cbn [andb].
      assert (Hn21 : n <= 21) by lia.
      destruct (Z.ltb_spec 0 n) as [Hpos|Hnpos].
      * destruct (Z.leb_spec n 21) as [_|Hbad]; [|lia]. cbn [andb].
        assert (Hnat : (Z.to_nat n <= L)%nat) by lia.
        exists (substring 0 (Z.to_nat n) ds),
               (substring (Z.to_nat n) (L - Z.to_nat n) ds).
        pose proof (length_substring_0 ds (Z.to_nat n) Hnat) as Hl0.
        pose proof (substring_split ds (Z.to_nat n) Hnat) as Hsp. fold L in Hsp.
        assert (Hlf : String.length (substring (Z.to_nat n) (L - Z.to_nat n) ds)
                      = S k').
        { pose proof (f_equal String.length Hsp) as Hlen.
          rewrite slength_app, Hl0 in Hlen. fold L in Hlen. lia. }
        split; [|split; [|split; [|split; [|split]]]].
        -- unfold literal.
           destruct (substring (Z.to_nat n) (L - Z.to_nat n) ds);
             [discriminate|reflexivity].
        -- apply string_forallb_substring. exact Hd.
        -- intros E. rewrite E in Hl0. cbn in Hl0. lia.
        -- apply string_forallb_substring. exact Hd.
        -- exact Hlf.
        -- rewrite Hsp, Hv. lia.
      * cbn [andb].
        assert (Hn6 : -6 < n).
        { assert (Z.of_nat (S k') < Z.of_nat L + 6); [|lia].
          apply pow10_lt_inv; [lia|]. rewrite Z.pow_add_r by lia. nia. }
        destruct (Z.ltb_spec (-6) n) as [_|Hbad]; [|lia].
        destruct (Z.leb_spec n 0) as [_|Hbad]; [|lia]. cbn [andb].
        exists "0"%js, (repeat_char "0" (Z.to_nat (- n)) ++ ds)%js.
        split; [|split; [|split; [|split; [|split]]]].
        -- unfold literal. rewrite is_empty_app.
           destruct ds; [contradiction|]. rewrite andb_false_r. reflexivity.
        -- reflexivity.
        -- discriminate.
        -- rewrite string_forallb_app, Hd, string_forallb_repeat; reflexivity.
        -- rewrite slength_app, length_repeat_char. fold L. lia.
        -- cbn [append digits_val]. rewrite digits_val_app.
           change (0 * 10 + digit_val "0") with 0.
           rewrite digits_val_zeros, Hv. lia.
Qed.

(** Reading back what [String] printed. *)
Lemma Number_String (v : number) :
  plain_decimal v = true ->
  Number_ (String_ v) = v /\ is_token (String_ v) = true
  /\ includes "e" (String_ v) = false /\ includes "E" (String_ v) = false.
Proof.
  destruct v as [| |m k]; try discriminate. intros H.
  destruct (String_shape m k H) as (ip & fp & -> & Hi & Hne & Hf & Hlen & Hval).
  split; [|split; [|split]].
  - rewrite Number_literal by assumption. rewrite Hval, Hlen.
    replace (if m <? 0 then - Z.abs m else Z.abs m) with m
      by (destruct (Z.ltb_spec m 0); lia).
    apply scale10_plain. exact H.
  - apply literal_is_token; assumption.
  - apply literal_no_exponent; auto. char_codes. lia.
  - apply literal_no_exponent; auto. char_codes. lia.
Qed.

Lemma plain_integer_decimal (v : number) :
  plain_integer v = true -> plain_decimal v = true /\ JS.trunc v = v.
Proof.
  destruct v as [| |m [|k]]; try discriminate. cbn [plain_integer plain_decimal].
  rewrite Z.ltb_lt. intros H. split.
  - cbn [Nat.eqb orb andb]. apply orb_true_iff.
    destruct (Z.eq_dec m 0) as [->|Hm]; [left; reflexivity|right].
    apply andb_true_iff. split; [apply Z.leb_le|apply Z.ltb_lt].
    + change (10 ^ Z.of_nat 0) with 1. lia.
    + change (10 ^ Z.of_nat 0) with 1. lia.
  - cbn [JS.trunc]. change (10 ^ Z.of_nat 0) with 1. rewrite Z.quot_1_r. reflexivity.
Qed.

End Printing.

Section Fields.
Import JS Types Format Spec.

(** A plain integer printed by [String] is read back by [toInt]. *)
Lemma toInt_String (v fallback : number) :
  plain_integer v = true ->
  toInt (Some (String_ v)) fallback = v /\ is_token (String_ v) = true.
Proof.
  intros H. destruct (plain_integer_decimal v H) as [Hd Ht].
  destruct (Number_String v Hd) as (Hn & Htok & _). split; [|exact Htok].
  unfold toInt. rewrite Hn. destruct v; try discriminate. exact Ht.
Qed.

(** A plain decimal printed by [fmt] is read back by [toFloat]. *)
Lemma toFloat_fmt (v fallback : number) :
  plain_decimal v = true ->
  toFloat (Some (fmt v)) fallback = v /\ is_token (fmt v) = true.
Proof.
  intros H. destruct (Number_String v H) as (Hn & Htok & He & HE).
  assert (Hfmt : fmt v = String_ v).
  { unfold fmt. destruct v; try discriminate. cbn [isFinite negb].
    rewrite He, HE. reflexivity. }
  rewrite Hfmt. split; [|exact Htok].
  unfold toFloat. rewrite Hn. destruct v; try discriminate. reflexivity.
Qed.

Lemma toBool01_bit_str (b : bit) (fallback : bit) :
  toBool01 (Some (bit_str b)) fallback = b /\ is_token (bit_str b) = true.
Proof. destruct b; split; reflexivity. Qed.

End Fields.

(* ================================================================== *)
(** * One line of the body, written and read back *)
(* ================================================================== *)

Section JoinFacts.
Import JS Spec.

Lemma split_char_not_nil (sep : char) (s : string) : split_char sep s <> [].
Proof.
  destruct s as [|c r]; cbn [split_char]; [discriminate|].
  destruct (Char.eqb c sep); [discriminate|]. destruct (split_char sep r); discriminate.
Qed.

(** Joining undoes splitting at a separator. *)
Lemma join_split_char (sep : char) (s : string) :
  join (String sep "") (split_char sep s) = s.
Proof.
  induction s as [|c r IH]; [reflexivity|]. cbn [split_char].
  destruct (char_eqb_spec c sep) as [->|Hc].
  - destruct (split_char sep r) as [|p ps] eqn:E; [exfalso; exact (split_char_not_nil _ _ E)|].
    rewrite join_cons, IH. reflexivity.
  - destruct (split_char sep r) as [|p ps] eqn:E; [exfalso; exact (split_char_not_nil _ _ E)|].
    rewrite <- IH. destruct ps; reflexivity.
Qed.

Lemma join_app (sep : string) (a b : list string) :
  a <> [] -> b <> [] ->
  join sep (a ++ b) = (join sep a ++ sep ++ join sep b)%js.
Proof.
  intros Ha Hb. induction a as [|x a IH]; [congruence|].
  destruct a as [|y a].
  - destruct b; [congruence|]. reflexivity.
  - change ((x :: y :: a) ++ b) with (x :: y :: (a ++ b)).
    rewrite !join_cons. change (y :: a ++ b) with ((y :: a) ++ b).
    rewrite IH by discriminate. rewrite !sapp_assoc. reflexivity.
Qed.

Lemma filter_tokens (ts : list string) :
  forallb is_token ts = true -> filter (fun t => negb (is_empty t)) ts = ts.
Proof.
  induction ts as [|t ts IH]; [reflexivity|]. cbn [forallb filter].
  rewrite andb_true_iff. intros [Ht Hts]. rewrite (IH Hts).
  unfold is_token in Ht. apply andb_true_iff in Ht. destruct Ht as [Ht _].
  rewrite Ht. reflexivity.
Qed.

(** A spaced string is its tokens joined by single spaces. *)
Lemma is_spaced_tokens (s : string) :
  is_spaced s = true ->
  exists ts, split_char " " s = ts /\ ts <> [] /\ forallb is_token ts = true
             /\ s = join " " ts.
Proof.
  intros H. exists (split_char " " s). split; [reflexivity|].
  split; [apply split_char_not_nil|]. split; [exact H|].
  symmetry. apply (join_split_char " ").
Qed.

Lemma strip_end_decompose (p : char -> bool) (s : string) :
  exists suffix, s = (strip_end p s ++ suffix)%js /\ string_forallb p suffix = true.
Proof.
  induction s as [|c r IH].
  - exists ""%js. auto.
  - destruct IH as (suf & E & Hs). cbn [strip_end].
    destruct (strip_end p r) as [|c' r'] eqn:Er.
    + destruct (p c) eqn:Ec.
      * exists (String c r). split; [reflexivity|]. cbn [string_forallb].
        rewrite Ec. rewrite E. exact Hs.
      * exists suf. split; [|exact Hs]. cbn [append]. rewrite E at 1. reflexivity.
    + exists suf. split; [|exact Hs]. cbn [append]. rewrite E at 1. reflexivity.
Qed.

Lemma is_one_line_unstrip (l : string) :
  is_one_line (strip_end is_space_or_tab l) = true -> is_one_line l = true.
Proof.
  intros H. destruct (strip_end_decompose is_space_or_tab l) as (suf & E & Hs).
  rewrite E. unfold is_one_line in *. rewrite string_forallb_app, H.
  apply string_forallb_impl with (2 := Hs). intros c Hc.
  unfold is_space_or_tab in Hc. apply orb_true_iff in Hc.
  destruct Hc as [Hc|Hc]; apply char_eqb_eq in Hc; subst c; reflexivity.
Qed.

Lemma no_ws_one_line (c : char) :
  (negb (is_ws c) || Char.eqb c " " || Char.eqb c "009") = true ->
  negb (Char.eqb c "013" || Char.eqb c "010") = true.
Proof.
  destruct (char_eqb_spec c "013") as [->|]; [discriminate|].
  destruct (char_eqb_spec c "010") as [->|]; [discriminate|]. reflexivity.
Qed.

Lemma is_token_one_line (t : string) : is_token t = true -> is_one_line t = true.
Proof.
  intros H. apply is_token_no_ws in H. unfold is_one_line.
  apply string_forallb_impl with (2 := H). intros c Hc.
  apply no_ws_one_line. rewrite Hc. reflexivity.
Qed.

Lemma join_tokens_one_line (ts : list string) :
  forallb is_token ts = true -> is_one_line (join " " ts) = true.
Proof.
  intros H. unfold is_one_line. apply string_forallb_join; [reflexivity|].
  apply Forall_forall. intros t Ht. apply is_token_one_line.
  rewrite forallb_forall in H. apply H. exact Ht.
Qed.

Lemma tabs_one_line (d : nat) : is_one_line (repeat_char "009" d) = true.
Proof. unfold is_one_line. apply string_forallb_repeat. reflexivity. Qed.

End JoinFacts.

(** Splits a hypothesis that is a conjunction of booleans into its parts. *)
Ltac split_andb H :=
  repeat match type of H with
         | (_ && _) = true =>
             let H1 := fresh H in
             apply andb_true_iff in H; destruct H as [H H1]
         end.

Section Tokens.
Import JS Types Format Spec.

Lemma wf_obj_fields (o : Obj) : wf_obj o = true -> wf_fields o = true.
Proof.
  destruct o; cbn [wf_obj wf_fields]; auto.
  rewrite andb_true_iff. tauto.
Qed.

Lemma int_token (v : number) : plain_integer v = true -> is_token (String_ v) = true.
Proof. intros H. apply (toInt_String v NaN H). Qed.

Lemma float_token (v : number) : plain_decimal v = true -> is_token (fmt v) = true.
Proof. intros H. apply (toFloat_fmt v NaN H). Qed.

Lemma bit_token (b : bit) : is_token (bit_str b) = true.
Proof. destruct b; reflexivity. Qed.

Lemma info_text_token (t : string) :
  wf_info_text t = true -> is_empty t = false ->
  is_token (replace_char " " "_" t) = true.
Proof.
  intros H Hne. unfold is_token. apply andb_true_iff. split.
  - destruct t; [discriminate|reflexivity].
  - clear Hne. unfold wf_info_text, replace_char in *.
    induction t as [|c r IH]; [reflexivity|].
    cbn [string_forallb string_map] in *. apply andb_true_iff in H.
    destruct H as [Hc Hr]. rewrite (IH Hr), andb_true_r.
    destruct (char_eqb_spec c " ") as [->|Hsp]; [reflexivity|].
    apply andb_true_iff in Hc. destruct Hc as [_ Hc].
    rewrite orb_false_r in Hc. exact Hc.
Qed.

Lemma info_text_back (t : string) :
  wf_info_text t = true -> replace_char "_" " " (replace_char " " "_" t) = t.
Proof.
  unfold wf_info_text, replace_char. induction t as [|c r IH]; [reflexivity|].
  cbn [string_forallb string_map]. rewrite andb_true_iff. intros [Hc Hr].
  rewrite (IH Hr). f_equal.
  destruct (char_eqb_spec c " ") as [->|Hsp]; [reflexivity|].
  apply andb_true_iff in Hc. destruct Hc as [Hu _].
  apply negb_true_iff in Hu. rewrite Hu. reflexivity.
Qed.

Lemma floor_type_tokens_ok (t : FloorType) :
  wf_floor_type t = true -> forallb is_token (floor_type_tokens t) = true.
Proof.
  destruct t as [| |s|t| | | | |raw]; cbn [wf_floor_type floor_type_tokens];
    try reflexivity.
  - unfold wf_scene_name. destruct (is_empty s); [reflexivity|]. cbn [orb forallb andb].
    intros H. exact H.
  - intros H. destruct (is_empty t) eqn:E; [reflexivity|].
    cbn [forallb]. rewrite (info_text_token t H E). reflexivity.
  - unfold wf_unknown_raw. destruct (is_empty raw); [reflexivity|]. cbn [orb].
    rewrite andb_true_iff. intros [H _]. exact H.
Qed.

Lemma obj_tokens_ok (o : Obj) :
  wf_fields o = true -> forallb is_token (obj_tokens o) = true.
Proof.
  destruct o as [b|r|w|f]; cbn [wf_fields obj_tokens]; intros H.
  - unfold wf_block_fields in H. split_andb H. cbn [forallb].
    rewrite !int_token, !float_token, !bit_token by assumption. reflexivity.
  - unfold wf_ref in H. split_andb H. cbn [forallb].
    rewrite !int_token, !bit_token by assumption. reflexivity.
  - unfold wf_wall in H. split_andb H. cbn [forallb].
    rewrite !int_token, !bit_token by assumption. reflexivity.
  - unfold wf_floor in H. split_andb H. rewrite forallb_app. cbn [forallb].
    rewrite !int_token by assumption.
    rewrite floor_type_tokens_ok by assumption. reflexivity.
Qed.

Lemma obj_tokens_not_nil (o : Obj) : obj_tokens o <> [].
Proof. destruct o; discriminate. Qed.

End Tokens.

Section Lines.
Import JS Types Format Spec.

Lemma block_line_join (indent : string) (b : Block) :
  block_line indent b = (indent ++ join " " (obj_tokens (OBlock b)))%js.
Proof. reflexivity. Qed.

Lemma ref_line_join (indent : string) (r : Ref) :
  ref_line indent r = (indent ++ join " " (obj_tokens (ORef r)))%js.
Proof. reflexivity. Qed.

Lemma wall_line_join (indent : string) (w : Wall) :
  wall_line indent w = (indent ++ join " " (obj_tokens (OWall w)))%js.
Proof. reflexivity. Qed.

Lemma floor_line_join (indent : string) (f : Floor) :
  floor_line indent f
  = (indent ++ join " " ["Floor"; String_ (floor_x f); String_ (floor_y f)]
     ++ " " ++ formatFloorType f)%js.
Proof. unfold floor_line. cbn [join String.concat]. rewrite !sapp_assoc. reflexivity. Qed.

(** The text of a floor type, stripped at its end, is its tokens joined. *)
Lemma formatFloorType_tokens (f : Floor) :
  wf_floor_type (floor_type f) = true ->
  match floor_type_tokens (floor_type f) with
  | [] => formatFloorType f = ""%js
  | ts => formatFloorType f = join " " ts
  end.
Proof.
  unfold formatFloorType.
  destruct (floor_type f) as [| |s|t| | | | |raw];
    cbn [wf_floor_type floor_type_tokens]; try reflexivity.
  - unfold wf_scene_name. destruct s as [|c s'] eqn:Es; [reflexivity|].
    cbn [is_empty orb]. intros H.
    destruct (is_spaced_tokens _ H) as (ts & Ets & Hne & Htok & Ejoin).
    rewrite Ets. destruct ts as [|t1 ts]; [congruence|].
    rewrite join_cons, <- Ejoin. unfold trimEnd.
    change ("Portal " ++ String c s')%js with ("Portal" ++ " " ++ String c s')%js.
    rewrite <- sapp_assoc. apply strip_end_keep; [|discriminate].
    rewrite Ejoin. apply join_tokens_no_strip; auto.
  - intros H. destruct t as [|c t'] eqn:Et; [reflexivity|]. cbn [is_empty].
    pose proof (info_text_token _ H eq_refl) as Htok.
    cbn [join String.concat]. unfold trimEnd.
    change ("Info " ++ replace_char " " "_" (String c t'))%js
      with ("Info" ++ " " ++ replace_char " " "_" (String c t'))%js.
    rewrite <- sapp_assoc. apply strip_end_keep.
    + apply strip_end_token; auto.
    + apply is_token_not_empty. exact Htok.
  - unfold wf_unknown_raw. destruct raw as [|c raw'] eqn:Er; [reflexivity|].
    cbn [is_empty orb]. rewrite andb_true_iff. intros [H _].
    destruct (is_spaced_tokens _ H) as (ts & Ets & Hne & Htok & Ejoin).
    rewrite Ets. destruct ts as [|t1 ts]; [congruence|]. exact Ejoin.
Qed.

(** The line of an object, stripped at its end as [parseLevel] strips it,
    is the indentation followed by the tokens joined with single spaces. *)
Lemma obj_line_stripped (indent : string) (o : Obj) :
  wf_fields o = true ->
  strip_end is_space_or_tab (obj_line indent o)
  = (indent ++ join " " (obj_tokens o))%js.
Proof.
  intros H. pose proof (obj_tokens_ok o H) as Htok.
  assert (Hkeep : forall ts, ts <> [] -> forallb is_token ts = true ->
                  strip_end is_space_or_tab (indent ++ join " " ts)
                  = (indent ++ join " " ts)%js).
  { intros ts Hne Hts.
    destruct (join_tokens_no_strip is_space_or_tab ts space_or_tab_is_ws Hne Hts).
    apply strip_end_keep; assumption. }
  destruct o as [b|r|w|f]; cbn [obj_line].
  - rewrite block_line_join. apply Hkeep; [discriminate|exact Htok].
  - rewrite ref_line_join. apply Hkeep; [discriminate|exact Htok].
  - rewrite wall_line_join. apply Hkeep; [discriminate|exact Htok].
  - rewrite floor_line_join. cbn [wf_fields] in H. unfold wf_floor in H.
    split_andb H. pose proof (formatFloorType_tokens f H0) as Hf.
    cbn [obj_tokens] in *.
    destruct (floor_type_tokens (floor_type f)) as [|t ts] eqn:E.
    + rewrite Hf, app_nil_r in *.
      rewrite <- sapp_assoc, strip_end_app_all by reflexivity.
      apply Hkeep; [discriminate|exact Htok].
    + rewrite Hf. rewrite <- join_app by discriminate.
      apply Hkeep; [discriminate|exact Htok].
Qed.

Lemma obj_line_one_line (d : nat) (o : Obj) :
  wf_fields o = true -> is_one_line (obj_line (repeat_char "009" d) o) = true.
Proof.
  intros H. apply is_one_line_unstrip. rewrite obj_line_stripped by exact H.
  unfold is_one_line. rewrite string_forallb_app.
  fold (is_one_line (repeat_char "009" d)).
  fold (is_one_line (join " " (obj_tokens o))).
  rewrite tabs_one_line, join_tokens_one_line; [reflexivity|].
  apply obj_tokens_ok. exact H.
Qed.

End Lines.

Section ReadBack.
Import JS Types Format Spec.

Lemma toInt_ok (v fallback : number) :
  plain_integer v = true -> toInt (Some (String_ v)) fallback = v.
Proof. intros H. apply (toInt_String v fallback H). Qed.

Lemma toFloat_ok (v fallback : number) :
  plain_decimal v = true -> toFloat (Some (fmt v)) fallback = v.
Proof. intros H. apply (toFloat_fmt v fallback H). Qed.

Lemma toBool01_ok (b : bit) : toBool01 (Some (bit_str b)) B0 = b.
Proof. destruct b; reflexivity. Qed.

Lemma split_ws_empty : split_ws "" = [""%js].
Proof. reflexivity. Qed.

(** The tokens of a floor type are read back as that floor type. *)
Lemma parseFloorType_tokens (t : FloorType) :
  wf_floor_type t = true ->
  parseFloorType (join " " (floor_type_tokens t)) = t.
Proof.
  intros H. pose proof (floor_type_tokens_ok t H) as Htok.
  unfold parseFloorType.
  destruct (floor_type_tokens t) as [|head rest] eqn:E.
  - (* no token: an Unknown floor with no payload *)
    destruct t as [| |s|t| | | | |raw]; cbn [floor_type_tokens] in E; try discriminate.
    destruct (is_empty raw) eqn:Er.
    + apply is_empty_true in Er. subst raw. reflexivity.
    + exfalso. exact (split_char_not_nil _ _ E).
  - rewrite split_ws_join, filter_tokens by (auto; discriminate).
    destruct t as [| |s|t| | | | |raw]; cbn [floor_type_tokens] in E;
      try (injection E as <- <-; reflexivity).
    + injection E as <- Hrest. change (String.eqb "Portal" "Button") with false.
      cbv iota. cbn [String.eqb Char.eqb N.eqb Pos.eqb andb]. f_equal.
      cbn [wf_floor_type] in H. unfold wf_scene_name in H.
      destruct (is_empty s) eqn:Es.
      * apply is_empty_true in Es. subst. reflexivity.
      * subst rest. apply (join_split_char " ").
    + injection E as <- Hrest. cbn [String.eqb Char.eqb N.eqb Pos.eqb andb]. f_equal.
      cbn [wf_floor_type] in H.
      destruct (is_empty t) eqn:Es.
      * apply is_empty_true in Es. subst. reflexivity.
      * subst rest. cbn [join String.concat]. apply info_text_back. exact H.
    + cbn [wf_floor_type] in H. unfold wf_unknown_raw in H.
      destruct (is_empty raw) eqn:Er; [discriminate|]. cbn [orb] in H.
      apply andb_true_iff in H. destruct H as [_ Hkw]. rewrite E in Hkw.
      cbn [hd] in Hkw. apply negb_true_iff in Hkw. unfold floor_keyword in Hkw.
      repeat (apply orb_false_iff in Hkw; destruct Hkw as [Hkw ?]).
      repeat match goal with H : String.eqb head _ = false |- _ => rewrite H; clear H end.
      f_equal. rewrite <- E. apply (join_split_char " ").
Qed.

(** The tokens of the line of an object are read back as that object,
    without children. *)
Lemma parseObject_tokens (o : Obj) (line : nat) :
  wf_fields o = true ->
  exists kind args,
    obj_tokens o = kind :: args /\ parseObject kind args line = Ok (childless o).
Proof.
  destruct o as [b|r|w|f]; cbn [wf_fields obj_tokens]; intros H;
    eexists; eexists; (split; [reflexivity|]).
  - unfold wf_block_fields in H. split_andb H. unfold parseObject.
    change (String.eqb "Block" "Block") with true. cbv iota.
    unfold arg. cbn [nth_error].
    rewrite !toInt_ok, !toFloat_ok, !toBool01_ok by assumption. reflexivity.
  - unfold wf_ref in H. split_andb H. unfold parseObject.
    change (String.eqb "Ref" "Block") with false.
    change (String.eqb "Ref" "Ref") with true. cbv iota.
    unfold arg. cbn [nth_error].
    rewrite !toInt_ok, !toBool01_ok by assumption. destruct r; reflexivity.
  - unfold wf_wall in H. split_andb H. unfold parseObject.
    change (String.eqb "Wall" "Block") with false.
    change (String.eqb "Wall" "Ref") with false.
    change (String.eqb "Wall" "Wall") with true. cbv iota.
    unfold arg. cbn [nth_error].
    rewrite !toInt_ok, !toBool01_ok by assumption. destruct w; reflexivity.
  - unfold wf_floor in H. split_andb H. unfold parseObject.
    change (String.eqb "Floor" "Block") with false.
    change (String.eqb "Floor" "Ref") with false.
    change (String.eqb "Floor" "Wall") with false.
    change (String.eqb "Floor" "Floor") with true. cbv iota zeta.
    unfold arg. cbn [nth_error app skipn].
    rewrite !toInt_ok by assumption.
    rewrite parseFloorType_tokens by assumption. destruct f; reflexivity.
Qed.

End ReadBack.

(* ================================================================== *)
(** * The stack of open Blocks and the rightmost spine *)
(* ================================================================== *)

Section Spine.
Import JS Types Format Spec.

Lemma top_snoc {A : Type} (l : list A) (x : A) : top (l ++ [x]) = Some x.
Proof. unfold top. apply last_some_snoc. Qed.

Lemma top_nil {A : Type} : top (@nil A) = None.
Proof. reflexivity. Qed.

Lemma top_cons {A : Type} (x y : A) (l : list A) : top (x :: y :: l) = top (y :: l).
Proof. reflexivity. Qed.

Lemma top_Some_inv {A : Type} (l : list A) (x : A) :
  top l = Some x -> exists l', l = l' ++ [x].
Proof.
  intros H. destruct l as [|a l]; [discriminate|].
  destruct (exists_last (l := a :: l) ltac:(discriminate)) as (l' & y & E).
  rewrite E in H |- *. rewrite top_snoc in H. injection H as ->. eauto.
Qed.

Lemma map_last_snoc {A : Type} (f : A -> A) (l : list A) (x : A) :
  map_last f (l ++ [x]) = l ++ [f x].
Proof.
  induction l as [|a l IH]; [reflexivity|].
  cbn [app map_last]. rewrite IH. destruct l; reflexivity.
Qed.

Lemma map_last_nil {A : Type} (f : A -> A) : map_last f [] = [].
Proof. reflexivity. Qed.

Lemma update_nth_snoc {A : Type} (l : list A) (x : A) (f : A -> A) :
  update_nth (l ++ [x]) (length l) f = l ++ [f x].
Proof. induction l as [|a l IH]; cbn [app length update_nth]; congruence. Qed.

Lemma nth_error_snoc {A : Type} (l : list A) (x : A) :
  nth_error (l ++ [x]) (length l) = Some x.
Proof. rewrite nth_error_app2, Nat.sub_diag by lia. reflexivity. Qed.

Lemma children_with_children (b : Block) (cs : list Obj) :
  children (with_children b cs) = cs.
Proof. reflexivity. Qed.

Lemma with_children_twice (b : Block) (cs cs' : list Obj) :
  with_children (with_children b cs) cs' = with_children b cs'.
Proof. reflexivity. Qed.

Lemma with_children_id (b : Block) : with_children b (children b) = b.
Proof. destruct b; reflexivity. Qed.

(** Writing through the place of a spine Block is updating that Block. *)
Lemma update_at_rpath_in (m : nat) :
  forall b p f,
    rpath_in m b = Some p -> update_child_block_at p f b = rupdate_in m f b.
Proof.
  induction m as [|m IH]; intros b p f; cbn [rpath_in rupdate_in].
  - intros [= <-]. reflexivity.
  - destruct (top (children b)) as [[c| | |]|] eqn:E; try discriminate.
    destruct (rpath_in m c) as [q|] eqn:Eq; [|discriminate].
    intros [= <-]. destruct (top_Some_inv _ _ E) as (l' & El).
    cbn [update_child_block_at]. rewrite El, length_app. cbn [length].
    replace (length l' + 1 - 1) with (length l') by lia.
    rewrite update_nth_snoc, map_last_snoc. cbn [on_block].
    rewrite (IH c q f Eq). reflexivity.
Qed.

Lemma update_at_rpath (rs : list Block) (k : nat) (p : list nat) (f : Block -> Block) :
  rpath rs k = Some p -> update_block_at rs p f = map_last (rupdate_in k f) rs.
Proof.
  unfold rpath. destruct (top rs) as [b|] eqn:E; [|discriminate].
  destruct (rpath_in k b) as [q|] eqn:Eq; [|discriminate].
  intros [= <-]. destruct (top_Some_inv _ _ E) as (l' & ->).
  cbn [update_block_at]. rewrite length_app. cbn [length].
  replace (length l' + 1 - 1) with (length l') by lia.
  rewrite update_nth_snoc, map_last_snoc, (update_at_rpath_in k b q f Eq).
  reflexivity.
Qed.

(** Reading through the place of a spine Block. *)
Lemma block_at_rpath_in (m : nat) :
  forall b p, rpath_in m b = Some p -> exists c, child_block_at p b = Some c.
Proof.
  induction m as [|m IH]; intros b p; cbn [rpath_in].
  - intros [= <-]. exists b. reflexivity.
  - destruct (top (children b)) as [[c| | |]|] eqn:E; try discriminate.
    destruct (rpath_in m c) as [q|] eqn:Eq; [|discriminate].
    intros [= <-]. destruct (top_Some_inv _ _ E) as (l' & El).
    cbn [child_block_at]. rewrite El, length_app. cbn [length].
    replace (length l' + 1 - 1) with (length l') by lia.
    rewrite nth_error_snoc. apply IH. exact Eq.
Qed.

(** The place one level further down, after a Block was attached there. *)
Lemma rpath_in_attached (m : nat) :
  forall b p c d,
    rpath_in m b = Some p -> child_block_at p b = Some c ->
    rpath_in (S m) (rupdate_in m (add_child (OBlock d)) b)
    = Some (p ++ [length (children c)]).
Proof.
  induction m as [|m IH]; intros b p c d.
  - cbn [rpath_in rupdate_in]. intros [= <-]. cbn [child_block_at]. intros [= <-].
    unfold add_child. rewrite children_with_children, top_snoc, length_app.
    cbn [length option_map app]. do 2 f_equal. lia.
  - intros Hp Hc. cbn [rpath_in] in Hp.
    destruct (top (children b)) as [[e| | |]|] eqn:E; try discriminate.
    destruct (rpath_in m e) as [q|] eqn:Eq; [|discriminate].
    injection Hp as <-. destruct (top_Some_inv _ _ E) as (l' & El).
    cbn [child_block_at] in Hc. rewrite El, length_app in Hc. cbn [length] in Hc.
    replace (length l' + 1 - 1) with (length l') in Hc by lia.
    rewrite nth_error_snoc in Hc.
    change (rpath_in (S (S m)) ?x) with
      (match top (children x) with
       | Some (OBlock c0) =>
           option_map (cons (length (children x) - 1)) (rpath_in (S m) c0)
       | _ => None
       end).
    cbn [rupdate_in]. rewrite children_with_children, El, map_last_snoc.
    cbn [on_block]. rewrite top_snoc, (IH e q c d Eq Hc), !length_app.
    cbn [length option_map app]. reflexivity.
Qed.

(** The places above the point of attachment do not move. *)
Lemma rpath_in_above (m : nat) :
  forall k b f, k <= m -> rpath_in m b <> None ->
                rpath_in k (rupdate_in m f b) = rpath_in k b.
Proof.
  induction m as [|m IH]; intros k b f Hk Hdef.
  - assert (k = 0) as -> by lia. reflexivity.
  - destruct k as [|k]; [reflexivity|].
    cbn [rpath_in] in Hdef |- *.
    destruct (top (children b)) as [[e| | |]|] eqn:E; try congruence.
    destruct (top_Some_inv _ _ E) as (l' & El).
    cbn [rupdate_in]. rewrite children_with_children, El, map_last_snoc.
    cbn [on_block]. rewrite !top_snoc, !length_app. cbn [length].
    rewrite IH; [reflexivity|lia|].
    destruct (rpath_in m e); [discriminate|exact Hdef].
Qed.

(** *** The forest *)

Lemma rpath_new_root (rs : list Block) (b : Block) :
  rpath (rs ++ [b]) 0 = Some [length rs].
Proof.
  unfold rpath. rewrite top_snoc, length_app. cbn [length rpath_in option_map].
  do 2 f_equal. lia.
Qed.

Lemma push_child_attach (rs : list Block) (j : nat) (p : list nat) (o : Obj) :
  rpath rs j = Some p -> push_child rs p o = attach (S j) o rs.
Proof.
  intros H. unfold push_child. rewrite (update_at_rpath rs j p _ H). reflexivity.
Qed.

Lemma rpath_attached (rs : list Block) (j : nat) (p : list nat) (d : Block) :
  rpath rs j = Some p ->
  rpath (attach (S j) (OBlock d) rs) (S j) = Some (p ++ [child_count rs p]).
Proof.
  unfold rpath, child_count. destruct (top rs) as [b|] eqn:E; [|discriminate].
  destruct (rpath_in j b) as [q|] eqn:Eq; [|discriminate].
  intros [= <-]. destruct (top_Some_inv _ _ E) as (l' & ->).
  destruct (block_at_rpath_in j b q Eq) as (c & Hc).
  cbn [attach block_at]. rewrite map_last_snoc, top_snoc, !length_app. cbn [length].
  replace (length l' + 1 - 1) with (length l') by lia.
  rewrite nth_error_snoc, Hc, (rpath_in_attached j b q c d Eq Hc). reflexivity.
Qed.

Lemma rpath_above (rs : list Block) (j k : nat) (o : Obj) :
  k <= j -> rpath rs j <> None -> rpath (attach (S j) o rs) k = rpath rs k.
Proof.
  unfold rpath. intros Hk Hdef. destruct (top rs) as [b|] eqn:E; [|congruence].
  destruct (top_Some_inv _ _ E) as (l' & ->).
  cbn [attach]. rewrite map_last_snoc, top_snoc, !length_app. cbn [length].
  rewrite rpath_in_above; [reflexivity|exact Hk|].
  destruct (rpath_in j b); [discriminate|exact Hdef].
Qed.

(** *** The stack *)

Lemma spine_stack_firstn (rs : list Block) (stack : list (list nat)) (d : nat) :
  spine_stack rs stack -> spine_stack rs (firstn d stack).
Proof.
  intros H k Hk. rewrite length_firstn in Hk.
  rewrite nth_error_firstn. destruct (Nat.ltb_spec k d); [|lia]. apply H. lia.
Qed.

Lemma spine_stack_nil (rs : list Block) : spine_stack rs [].
Proof. intros k Hk. cbn in Hk. lia. Qed.

Lemma top_firstn_S {A : Type} (l : list A) (j : nat) :
  j < length l -> exists p, nth_error l j = Some p /\ top (firstn (S j) l) = Some p
                           /\ firstn (S j) l = firstn j l ++ [p].
Proof.
  intros Hj. destruct (nth_error l j) as [p|] eqn:E.
  - exists p. split; [reflexivity|].
    assert (Hf : firstn (S j) l = firstn j l ++ [p]).
    { clear Hj. revert j E. induction l as [|a l IH]; intros [|j] E;
        cbn [nth_error] in E; try discriminate.
      - injection E as ->. reflexivity.
      - cbn [firstn app]. f_equal. exact (IH j E). }
    rewrite Hf, top_snoc. auto.
  - apply nth_error_None in E. lia.
Qed.

End Spine.

Section OneLine.
Import JS Types Format Spec EditorState.

Lemma tabs_then (d : nat) (s : string) :
  match s with String c _ => is_ws c = false | EmptyString => False end ->
  leading_tabs (repeat_char "009" d ++ s) = d
  /\ after_tabs (repeat_char "009" d ++ s) = s.
Proof.
  intros Hs. destruct s as [|c r]; [contradiction|].
  assert (Hc : Char.eqb c "009" = false).
  { destruct (char_eqb_spec c "009") as [->|]; [discriminate|reflexivity]. }
  unfold after_tabs. induction d as [|d [IH1 IH2]]; cbn [repeat_char append].
  - cbn [leading_tabs strip_start]. rewrite Hc, char_eqb_sym, Hc. auto.
  - cbn [leading_tabs strip_start]. rewrite IH1, IH2. auto.
Qed.

Lemma join_tokens_first (ts : list string) :
  ts <> [] -> forallb is_token ts = true ->
  match join " " ts with String c _ => is_ws c = false | EmptyString => False end.
Proof.
  intros Hne H. destruct ts as [|t ts]; [congruence|].
  cbn [forallb] in H. apply andb_true_iff in H. destruct H as [Ht _].
  destruct (is_token_cons t Ht) as (c & r & -> & Hc & _).
  destruct ts; exact Hc.
Qed.

(** What the body loop sees of the line of an object. *)
Lemma obj_line_read (d : nat) (o : Obj) :
  wf_fields o = true ->
  let raw := strip_end is_space_or_tab (obj_line (repeat_char "009" d) o) in
  leading_tabs raw = d
  /\ trim (after_tabs raw) = join " " (obj_tokens o)
  /\ trim raw = join " " (obj_tokens o)
  /\ split_ws (join " " (obj_tokens o)) = obj_tokens o
  /\ join " " (obj_tokens o) <> ""%js.
Proof.
  intros H raw. subst raw. rewrite obj_line_stripped by exact H.
  pose proof (obj_tokens_ok o H) as Htok.
  pose proof (obj_tokens_not_nil o) as Hne.
  destruct (tabs_then d (join " " (obj_tokens o)) (join_tokens_first _ Hne Htok))
    as [Hl Ha].
  assert (Htrim : trim (join " " (obj_tokens o)) = join " " (obj_tokens o))
    by (apply trim_join_tokens; assumption).
  split; [exact Hl|]. split; [rewrite Ha; exact Htrim|].
  split; [rewrite <- trim_after_tabs, Ha; exact Htrim|].
  split; [apply split_ws_join; assumption|].
  apply (join_tokens_no_strip is_space_or_tab); auto. apply space_or_tab_is_ws.
Qed.

Lemma line_terminator_is_ws (c : char) : is_line_terminator c = true -> is_ws c = true.
Proof.
  unfold is_line_terminator. intros H. rewrite !orb_true_iff in H.
  destruct H as [[[H|H]|H]|H]; apply N.eqb_eq in H; subst c; reflexivity.
Qed.

Lemma string_existsb_forallb (p : char -> bool) (s : string) :
  string_existsb p s = negb (string_forallb (fun c => negb (p c)) s).
Proof.
  induction s as [|c r IH]; [reflexivity|]. cbn [string_existsb string_forallb].
  rewrite IH, negb_andb, negb_involutive. reflexivity.
Qed.

(** Tabs followed by tokens joined with single spaces match the line
    pattern. *)
Lemma line_matches_tokens (d : nat) (ts : list string) :
  forallb is_token ts = true ->
  line_matches (repeat_char "009" d ++ join " " ts) = true.
Proof.
  intros Hts. unfold line_matches. rewrite string_existsb_forallb, negb_involutive.
  rewrite string_forallb_app. apply andb_true_iff. split.
  - induction d as [|d IH]; [reflexivity|]. cbn [repeat_char string_forallb].
    rewrite IH. reflexivity.
  - apply string_forallb_join; [reflexivity|].
    apply Forall_forall. intros t Ht.
    rewrite forallb_forall in Hts. specialize (Hts t Ht).
    apply string_forallb_impl with (2 := is_token_no_ws t Hts).
    intros c Hc. destruct (is_line_terminator c) eqn:E; [|reflexivity].
    rewrite (line_terminator_is_ws c E) in Hc. discriminate.
Qed.

Lemma obj_line_matches (d : nat) (o : Obj) :
  wf_fields o = true ->
  line_matches (strip_end is_space_or_tab (obj_line (repeat_char "009" d) o)) = true.
Proof.
  intros H. rewrite obj_line_stripped by exact H.
  apply line_matches_tokens. apply obj_tokens_ok. exact H.
Qed.

(** Reading the line of one object at depth [d] attaches the object,
    without children, at depth [d], and leaves the stack at the open Blocks
    of depth below [d], followed by the object when it is a Block. *)
Lemma body_line_obj (d : nat) (o : Obj) (rs : list Block) (stack : list (list nat)) (i : nat) :
  wf_fields o = true -> spine_stack rs stack -> d <= length stack ->
  (is_Block o = false -> 1 <= d) ->
  exists stack',
    body_line {| st_roots := rs; st_stack := stack |}
              (strip_end is_space_or_tab (obj_line (repeat_char "009" d) o)) i
    = Ok {| st_roots := attach d (childless o) rs; st_stack := stack' |}
    /\ spine_stack (attach d (childless o) rs) stack'
    /\ length stack' = d + (if is_Block o then 1 else 0).
Proof.
  intros Hwf Hinv Hd Hleaf.
  destruct (obj_line_read d o Hwf) as (Hl & Ha & _ & Hsplit & _).
  destruct (parseObject_tokens o (i + 1) Hwf) as (kind & args & Etok & Hparse).
  unfold body_line. rewrite Hl, Ha, Hsplit, Etok. cbn [st_roots st_stack].
  rewrite length_firstn.
  destruct (Nat.ltb_spec (Nat.min d (length stack)) d) as [Hbad|_]; [lia|].
  rewrite Hparse.
  pose proof (spine_stack_firstn rs stack d Hinv) as Hinv1.
  destruct d as [|j].
  - (* depth 0: a root *)
    destruct o as [b| | |]; try (specialize (Hleaf eq_refl); lia).
    cbn [childless firstn]. rewrite top_nil. cbn [app attach].
    eexists. split; [reflexivity|]. split; [|reflexivity].
    intros k Hk. cbn [length] in Hk. assert (k = 0) as -> by lia.
    rewrite rpath_new_root. reflexivity.
  - destruct (top_firstn_S stack j ltac:(lia)) as (p & Hp & Htop & Hfirst).
    assert (Hrp : rpath rs j = Some p) by (rewrite <- Hp; symmetry; apply Hinv; lia).
    assert (Hlen1 : length (firstn (S j) stack) = S j) by (rewrite length_firstn; lia).
    assert (Hkeep : forall o' k, k <= j ->
                    nth_error (firstn (S j) stack) k = rpath (attach (S j) o' rs) k).
    { intros o' k Hk. rewrite rpath_above by (auto; congruence).
      apply Hinv1. lia. }
    rewrite Htop.
    destruct o as [b|r|w|f]; cbn [childless is_Block].
    + (* a Block: attached and pushed *)
      rewrite (push_child_attach rs j p _ Hrp).
      eexists. split; [reflexivity|]. split.
      * intros k Hk. rewrite length_app, Hlen1 in Hk. cbn [length] in Hk.
        destruct (Nat.eq_dec k (S j)) as [->|Hne].
        -- rewrite nth_error_app2 by lia. rewrite Hlen1, Nat.sub_diag.
           cbn [nth_error]. symmetry. apply rpath_attached. exact Hrp.
        -- rewrite nth_error_app1 by lia. apply Hkeep. lia.
      * rewrite length_app, Hlen1. reflexivity.
    + rewrite (push_child_attach rs j p _ Hrp).
      eexists. split; [reflexivity|]. split; [|lia].
      intros k Hk. apply Hkeep. lia.
    + rewrite (push_child_attach rs j p _ Hrp).
      eexists. split; [reflexivity|]. split; [|lia].
      intros k Hk. apply Hkeep. lia.
    + rewrite (push_child_attach rs j p _ Hrp).
      eexists. split; [reflexivity|]. split; [|lia].
      intros k Hk. apply Hkeep. lia.
Qed.

(** The same, as a step of the body loop. *)
Lemma body_loop_obj_line (d : nat) (o : Obj) (rs : list Block) (stack : list (list nat))
    (i : nat) (rest : list string) :
  wf_fields o = true -> spine_stack rs stack -> d <= length stack ->
  (is_Block o = false -> 1 <= d) ->
  exists stack',
    body_loop (strip_end is_space_or_tab (obj_line (repeat_char "009" d) o) :: rest) i
              {| st_roots := rs; st_stack := stack |}
    = body_loop rest (S i) {| st_roots := attach d (childless o) rs; st_stack := stack' |}
    /\ spine_stack (attach d (childless o) rs) stack'
    /\ length stack' = d + (if is_Block o then 1 else 0).
Proof.
  intros Hwf Hinv Hd Hleaf.
  destruct (obj_line_read d o Hwf) as (_ & Ha & Ht & _ & Hne).
  destruct (body_line_obj d o rs stack i Hwf Hinv Hd Hleaf) as (stack' & Hb & Hs & Hlen).
  exists stack'. split; [|auto].
  cbn [body_loop]. rewrite Ht, Ha, (obj_line_matches d o Hwf). cbn [negb].
  destruct (string_eqb_spec (join " " (obj_tokens o)) ""); [contradiction|].
  rewrite Hb. reflexivity.
Qed.

End OneLine.

(* ================================================================== *)
(** * Reading back what the serializer writes *)
(* ================================================================== *)

Section ReadBack.
Import JS Types Format Spec EditorState.

(** Induction on objects, the children of a Block included. *)
Lemma Obj_children_ind (P : Obj -> Prop) :
  (forall b, Forall P (children b) -> P (OBlock b)) ->
  (forall r, P (ORef r)) -> (forall w, P (OWall w)) -> (forall f, P (OFloor f)) ->
  forall o, P o.
Proof.
  intros HB HR HW HF. fix IH 1. intros [b|r|w|f]; [|apply HR|apply HW|apply HF].
  apply HB. destruct b as [? ? ? ? ? ? ? ? ? ? ? ? ? ? ? ? cs]. cbn [children].
  induction cs as [|c cs IHcs]; constructor; [apply IH|exact IHcs].
Qed.

(** ** Attaching the children one by one *)

Lemma map_last_ext {A : Type} (f g : A -> A) (l : list A) :
  (forall x, f x = g x) -> map_last f l = map_last g l.
Proof.
  intros H. induction l as [|a l IH]; [reflexivity|].
  cbn [map_last]. destruct l; [rewrite H; reflexivity|]. rewrite IH. reflexivity.
Qed.

Lemma map_last_twice {A : Type} (f g : A -> A) (l : list A) :
  map_last f (map_last g l) = map_last (fun x => f (g x)) l.
Proof.
  induction l as [|a l IH]; [reflexivity|].
  destruct l as [|b l]; [reflexivity|].
  change (map_last g (a :: b :: l)) with (a :: map_last g (b :: l)).
  change (map_last (fun x => f (g x)) (a :: b :: l))
    with (a :: map_last (fun x => f (g x)) (b :: l)).
  rewrite <- IH.
  destruct (map_last g (b :: l)) as [|y r] eqn:E.
  - destruct l; discriminate.
  - reflexivity.
Qed.

Lemma on_block_twice (f g : Block -> Block) (o : Obj) :
  on_block f (on_block g o) = on_block (fun b => f (g b)) o.
Proof. destruct o; reflexivity. Qed.

Lemma on_block_ext (f g : Block -> Block) (o : Obj) :
  (forall b, f b = g b) -> on_block f o = on_block g o.
Proof. intros H. destruct o; cbn [on_block]; [rewrite H|..]; reflexivity. Qed.

(** A child attached below a Block that was just attached is a child of
    that Block. *)
Lemma rupdate_in_child (c : Obj) (b' : Block) (j : nat) :
  forall x,
    rupdate_in (S j) (add_child c) (rupdate_in j (add_child (OBlock b')) x)
    = rupdate_in j (add_child (OBlock (add_child c b'))) x.
Proof.
  induction j as [|j IH]; intros x.
  - cbn [rupdate_in]. unfold add_child.
    rewrite children_with_children, with_children_twice, map_last_snoc.
    reflexivity.
  - change (rupdate_in (S j) (add_child (OBlock b')) x)
      with (with_children x (map_last (on_block (rupdate_in j (add_child (OBlock b'))))
                                      (children x))).
    change (rupdate_in (S j) (add_child (OBlock (add_child c b'))) x)
      with (with_children x
              (map_last (on_block (rupdate_in j (add_child (OBlock (add_child c b')))))
                        (children x))).
    change (rupdate_in (S (S j)) (add_child c) ?y)
      with (with_children y (map_last (on_block (rupdate_in (S j) (add_child c)))
                                      (children y))).
    rewrite children_with_children, with_children_twice, map_last_twice.
    f_equal. apply map_last_ext. intros o. rewrite on_block_twice.
    apply on_block_ext. exact IH.
Qed.

Lemma attach_child (d : nat) (c : Obj) (b' : Block) (rs : list Block) :
  attach (S d) c (attach d (OBlock b') rs) = attach d (OBlock (add_child c b')) rs.
Proof.
  destruct d as [|j]; cbn [attach].
  - rewrite map_last_snoc. reflexivity.
  - rewrite map_last_twice. apply map_last_ext. apply rupdate_in_child.
Qed.

Lemma add_children_nil (b : Block) : add_children [] b = b.
Proof. unfold add_children. rewrite app_nil_r. apply with_children_id. Qed.

Lemma add_children_cons (c : Obj) (cs : list Obj) (b : Block) :
  add_children cs (add_child c b) = add_children (c :: cs) b.
Proof.
  unfold add_children, add_child.
  rewrite children_with_children, with_children_twice, <- app_assoc. reflexivity.
Qed.

Lemma attach_children (d : nat) (cs : list Obj) (rs : list Block) :
  forall b',
    fold_left (fun rs' c => attach (S d) c rs') cs (attach d (OBlock b') rs)
    = attach d (OBlock (add_children cs b')) rs.
Proof.
  induction cs as [|c cs IH]; intros b'; cbn [fold_left].
  - rewrite add_children_nil. reflexivity.
  - rewrite attach_child, IH, add_children_cons. reflexivity.
Qed.

Lemma add_children_childless (b : Block) :
  add_children (children b) (with_children b []) = b.
Proof.
  unfold add_children. rewrite children_with_children, with_children_twice.
  apply with_children_id.
Qed.

Lemma attach_leaf (d : nat) (o : Obj) (rs : list Block) :
  is_Block o = false -> attach d (childless o) rs = attach d o rs.
Proof. destruct o; [discriminate|reflexivity..]. Qed.

Lemma attach_roots (bs : list Block) :
  forall rs, fold_left (fun rs' c => attach 0 c rs') (map OBlock bs) rs = rs ++ bs.
Proof.
  induction bs as [|b bs IH]; intros rs; cbn [map fold_left attach].
  - rewrite app_nil_r. reflexivity.
  - rewrite IH, <- app_assoc. reflexivity.
Qed.

(** ** The body loop on the lines of an object *)

(** A run of objects at one depth. *)
Lemma body_loop_objs (d : nat) (cs : list Obj) :
  Forall reads_back cs -> forallb wf_obj cs = true ->
  (forall c, In c cs -> is_Block c = false -> 1 <= d) ->
  forall rs stack i rest,
    spine_stack rs stack -> d <= length stack ->
    exists stack',
      body_loop (map (strip_end is_space_or_tab) (flat_map (obj_lines d) cs) ++ rest) i
                {| st_roots := rs; st_stack := stack |}
      = body_loop rest (i + length (flat_map (obj_lines d) cs))
                  {| st_roots := fold_left (fun rs' c => attach d c rs') cs rs;
                     st_stack := stack' |}
      /\ spine_stack (fold_left (fun rs' c => attach d c rs') cs rs) stack'
      /\ d <= length stack'.
Proof.
  induction cs as [|c cs IH]; intros Hall Hwf Hleaf rs stack i rest Hinv Hd.
  - exists stack. cbn [flat_map map app length fold_left].
    rewrite Nat.add_0_r. auto.
  - inversion Hall as [|? ? Hc Hcs]; subst.
    cbn [forallb] in Hwf. apply andb_true_iff in Hwf. destruct Hwf as [Hwc Hwcs].
    cbn [flat_map fold_left]. rewrite map_app, <- app_assoc, length_app.
    destruct (Hc d rs stack i
                 (map (strip_end is_space_or_tab) (flat_map (obj_lines d) cs) ++ rest)
                 Hwc Hinv Hd (Hleaf c (or_introl eq_refl)))
      as (stack1 & E1 & Hinv1 & Hd1).
    rewrite E1.
    destruct (IH Hcs Hwcs (fun c' Hin => Hleaf c' (or_intror Hin))
                 (attach d c rs) stack1 (i + length (obj_lines d c)) rest Hinv1 Hd1)
      as (stack2 & E2 & Hinv2 & Hd2).
    exists stack2. rewrite E2, Nat.add_assoc. auto.
Qed.

(** Every object is read back. *)
Lemma body_loop_obj (o : Obj) : reads_back o.
Proof.
  induction o as [b IHb|r|w|f] using Obj_children_ind;
    intros d rs stack i rest Hwf Hinv Hd Hleaf.
  - (* a Block: its line, then its children one level deeper *)
    cbn [wf_obj] in Hwf. apply andb_true_iff in Hwf. destruct Hwf as [Hwb Hwcs].
    cbn [obj_lines map app length].
    destruct (body_loop_obj_line d (OBlock b) rs stack i
                (map (strip_end is_space_or_tab)
                     (flat_map (obj_lines (S d)) (children b)) ++ rest)
                Hwb Hinv Hd Hleaf)
      as (stack1 & E1 & Hinv1 & Hlen1).
    cbn [is_Block childless] in *.
    change (obj_line (repeat_char "009" d) (OBlock b))
      with (block_line (repeat_char "009" d) b) in E1.
    cbn [obj_line]. rewrite E1.
    destruct (body_loop_objs (S d) (children b) IHb Hwcs (fun _ _ _ => le_n_S _ _ (Nat.le_0_l d))
                (attach d (OBlock (with_children b [])) rs) stack1 (S i) rest
                Hinv1 ltac:(lia))
      as (stack2 & E2 & Hinv2 & Hd2).
    rewrite attach_children, add_children_childless in E2, Hinv2.
    exists stack2. rewrite E2.
    replace (S i + length (flat_map (obj_lines (S d)) (children b)))
      with (i + S (length (flat_map (obj_lines (S d)) (children b)))) by lia.
    split; [reflexivity|]. split; [exact Hinv2|lia].
  - destruct (body_loop_obj_line d (ORef r) rs stack i rest Hwf Hinv Hd Hleaf)
      as (stack1 & E1 & Hinv1 & Hlen1).
    exists stack1. cbn [obj_lines map app length]. rewrite Nat.add_1_r.
    split; [exact E1|]. split; [exact Hinv1|]. cbn [is_Block] in Hlen1. lia.
  - destruct (body_loop_obj_line d (OWall w) rs stack i rest Hwf Hinv Hd Hleaf)
      as (stack1 & E1 & Hinv1 & Hlen1).
    exists stack1. cbn [obj_lines map app length]. rewrite Nat.add_1_r.
    split; [exact E1|]. split; [exact Hinv1|]. cbn [is_Block] in Hlen1. lia.
  - destruct (body_loop_obj_line d (OFloor f) rs stack i rest Hwf Hinv Hd Hleaf)
      as (stack1 & E1 & Hinv1 & Hlen1).
    exists stack1. cbn [obj_lines map app length]. rewrite Nat.add_1_r.
    split; [exact E1|]. split; [exact Hinv1|]. cbn [is_Block] in Hlen1. lia.
Qed.

(** The body of a level is read back as its roots. *)
Lemma body_loop_roots (bs : list Block) (i : nat) :
  forallb (fun b => wf_obj (OBlock b)) bs = true ->
  exists stack,
    body_loop (map (strip_end is_space_or_tab) (body_out bs) ++ [""]) i
              {| st_roots := []; st_stack := [] |}
    = Ok {| st_roots := bs; st_stack := stack |}.
Proof.
  intros Hwf.
  assert (Hflat : body_out bs = flat_map (obj_lines 0) (map OBlock bs)).
  { unfold body_out. induction bs as [|b bs IH]; [reflexivity|].
    cbn [forallb] in Hwf. apply andb_true_iff in Hwf.
    cbn [map flat_map]. rewrite IH by tauto. reflexivity. }
  rewrite Hflat.
  destruct (body_loop_objs 0 (map OBlock bs)) with
    (rs := @nil Block) (stack := @nil (list nat)) (i := i) (rest := [""])
    as (stack & E & _ & _).
  - apply Forall_forall. intros c _. apply body_loop_obj.
  - clear Hflat. induction bs as [|b bs IH]; [reflexivity|].
    cbn [map forallb] in *. apply andb_true_iff in Hwf.
    destruct Hwf as [-> Hbs]. exact (IH Hbs).
  - intros c Hin Hc. apply in_map_iff in Hin. destruct Hin as (b & <- & _). discriminate.
  - apply spine_stack_nil.
  - cbn [length]. lia.
  - exists stack. rewrite E, attach_roots. reflexivity.
Qed.

(** ** The lines of the serializer *)

Lemma emitObj_lines (o : Obj) :
  forall out depth, emitObj out o depth = out ++ obj_lines depth o.
Proof.
  induction o as [b IHb|r|w|f] using Obj_children_ind; intros out depth;
    cbn [emitObj obj_lines obj_line]; try reflexivity.
  rewrite Nat.add_1_r.
  change (out ++ block_line (repeat_char "009" depth) b
              :: flat_map (obj_lines (S depth)) (children b))
    with (out ++ [block_line (repeat_char "009" depth) b]
              ++ flat_map (obj_lines (S depth)) (children b)).
  rewrite app_assoc.
  generalize (out ++ [block_line (repeat_char "009" depth) b]).
  induction IHb as [|c cs Hc _ IH]; intros acc; cbn [fold_left flat_map].
  - rewrite app_nil_r. reflexivity.
  - rewrite Hc, IH, <- app_assoc. reflexivity.
Qed.

Lemma emit_roots (bs : list Block) :
  forall out,
    fold_left (fun out' root => emitObj out' (OBlock root) 0) bs out
    = out ++ body_out bs.
Proof.
  unfold body_out.
  induction bs as [|b bs IH]; intros out; cbn [fold_left flat_map].
  - rewrite app_nil_r. reflexivity.
  - rewrite emitObj_lines, IH, <- app_assoc. reflexivity.
Qed.

Lemma obj_lines_one_line (o : Obj) :
  forall d, wf_obj o = true -> Forall (fun l => is_one_line l = true) (obj_lines d o).
Proof.
  induction o as [b IHb|r|w|f] using Obj_children_ind; intros d Hwf;
    pose proof (obj_line_one_line d _ (wf_obj_fields _ Hwf)) as H1;
    cbn [obj_lines]; constructor; auto.
  cbn [wf_obj] in Hwf. apply andb_true_iff in Hwf. destruct Hwf as [_ Hcs].
  induction IHb as [|c cs Hc _ IH]; cbn [flat_map]; [constructor|].
  cbn [forallb] in Hcs. apply andb_true_iff in Hcs. destruct Hcs as [Hwc Hwcs].
  apply Forall_app. split; auto.
Qed.

Lemma body_out_one_line (bs : list Block) :
  forallb (fun b => wf_obj (OBlock b)) bs = true ->
  Forall (fun l => is_one_line l = true) (body_out bs).
Proof.
  unfold body_out. induction bs as [|b bs IH]; cbn [flat_map forallb]; [constructor|].
  rewrite andb_true_iff. intros [Hb Hbs]. apply Forall_app. split; auto.
  apply obj_lines_one_line. exact Hb.
Qed.

End ReadBack.

(* ================================================================== *)
(** * Reading the header back *)
(* ================================================================== *)

Section HeaderBack.
Import JS Types Format Spec EditorState.

Lemma header_reads_nil (h : LevelHeader) : header_reads [] h h.
Proof. intros i rest. cbn [app length]. rewrite Nat.add_0_r. reflexivity. Qed.

Lemma header_reads_app (ls1 ls2 : list string) (h0 h1 h2 : LevelHeader) :
  header_reads ls1 h0 h1 -> header_reads ls2 h1 h2 -> header_reads (ls1 ++ ls2) h0 h2.
Proof.
  intros H1 H2 i rest. rewrite <- app_assoc, H1, H2, length_app, Nat.add_assoc.
  reflexivity.
Qed.

Lemma header_reads_one (l : string) (h0 h1 : LevelHeader) :
  is_blank l = false -> is_terminator l = false ->
  (forall i, header_line h0 l i = Ok h1) ->
  header_reads [l] h0 h1.
Proof.
  intros Hb Ht Hl i rest. cbn [app length header_loop].
  fold (is_blank l). fold (is_terminator l). rewrite Hb, Ht, Hl, Nat.add_1_r.
  reflexivity.
Qed.

(** A line of tokens separated by single spaces. *)
Lemma token_line (ts : list string) :
  ts <> [] -> forallb is_token ts = true -> hd "" ts <> "#"%js ->
  let l := join " " ts in
  strip_end is_space_or_tab l = l /\ split_ws (trim l) = ts
  /\ is_blank l = false /\ is_terminator l = false /\ is_one_line l = true.
Proof.
  intros Hne Htok Hhd l. subst l.
  destruct (join_tokens_no_strip is_space_or_tab ts space_or_tab_is_ws Hne Htok)
    as [Hstrip Hnot].
  pose proof (trim_join_tokens ts Hne Htok) as Htrim.
  pose proof (split_ws_join ts Hne Htok) as Hsplit.
  unfold is_blank, is_terminator. rewrite Htrim.
  split; [exact Hstrip|]. split; [exact Hsplit|].
  split; [destruct (string_eqb_spec (join " " ts) ""); [contradiction|reflexivity]|].
  split; [|apply join_tokens_one_line; exact Htok].
  destruct (string_eqb_spec (join " " ts) "#") as [E|]; [|reflexivity].
  rewrite E in Hsplit. rewrite <- Hsplit in Hhd. exfalso. apply Hhd. reflexivity.
Qed.

Lemma header_line_tokens (h : LevelHeader) (l : string) (i : nat) (key : string)
    (r : list string) :
  split_ws (trim l) = key :: r ->
  header_line h l i =
  if String.eqb key "version" then
    let v := Number_opt (nth_error (key :: r) 1) in
    if negb (isFinite v)
    then Err {| message := "Invalid version"; line := i + 1 |}
    else Ok (set_version h (trunc v))
  else if String.eqb key "attempt_order" then
    Ok (set_attempt_order h (join " " r))
  else if String.eqb key "shed" then Ok (set_shed h)
  else if String.eqb key "inner_push" then Ok (set_inner_push h)
  else if String.eqb key "draw_style" then
    match parse_draw_style (nth_error (key :: r) 1) with
    | Some style => Ok (set_draw_style h style)
    | None => Ok (push_unknown h l)
    end
  else if String.eqb key "custom_level_music" then
    Ok (set_custom_level_music h (toInt (nth_error (key :: r) 1) (int (-1))))
  else if String.eqb key "custom_level_palette" then
    Ok (set_custom_level_palette h (toInt (nth_error (key :: r) 1) (int (-1))))
  else Ok (push_unknown h l).
Proof. intros H. unfold header_line. rewrite H. reflexivity. Qed.

(** A line of tokens is read as the header loop reads its tokens. *)
Lemma header_reads_tokens (key : string) (r : list string) (h0 h1 : LevelHeader) :
  forallb is_token (key :: r) = true -> key <> "#"%js ->
  (forall l i, split_ws (trim l) = key :: r -> header_line h0 l i = Ok h1) ->
  header_reads [strip_end is_space_or_tab (join " " (key :: r))] h0 h1.
Proof.
  intros Htok Hkey Hl.
  destruct (token_line (key :: r) ltac:(discriminate) Htok Hkey)
    as (Hstrip & Hsplit & Hb & Ht & _).
  rewrite Hstrip. apply header_reads_one; auto.
Qed.

Lemma version_reads (h0 : LevelHeader) (v : number) :
  plain_integer v = true ->
  header_reads [strip_end is_space_or_tab (append "version " (String_ v))]
               h0 (set_version h0 v).
Proof.
  intros Hv. destruct (plain_integer_decimal v Hv) as [Hd Ht].
  destruct (Number_String v Hd) as (Hn & Htok & _).
  apply (header_reads_tokens "version" [String_ v]).
  - cbn [forallb]. rewrite Htok. reflexivity.
  - discriminate.
  - intros l i Hl. rewrite (header_line_tokens _ _ _ _ _ Hl).
    change (String.eqb "version" "version") with true. cbv iota zeta.
    cbn [nth_error]. unfold Number_opt. rewrite Hn, Ht.
    destruct v; try discriminate. reflexivity.
Qed.

Lemma attempt_order_reads (h0 : LevelHeader) (a : string) :
  is_spaced a = true ->
  is_empty a = false
  /\ header_reads [strip_end is_space_or_tab (append "attempt_order " a)]
                  h0 (set_attempt_order h0 a).
Proof.
  intros Ha. destruct (is_spaced_tokens a Ha) as (ts & _ & Hne & Htok & ->).
  split.
  { destruct ts as [|t ts]; [congruence|]. cbn [forallb] in Htok.
    apply andb_true_iff in Htok. destruct Htok as [Ht _].
    destruct (is_token_cons t Ht) as (c & r & -> & _).
    destruct ts; reflexivity. }
  assert (E : append "attempt_order " (join " " ts) = join " " ("attempt_order" :: ts)).
  { destruct ts as [|t ts]; [congruence|]. rewrite join_cons. reflexivity. }
  rewrite E. apply (header_reads_tokens "attempt_order" ts).
  - cbn [forallb]. rewrite Htok. reflexivity.
  - discriminate.
  - intros l i Hl. rewrite (header_line_tokens _ _ _ _ _ Hl). reflexivity.
Qed.

Lemma shed_reads (h0 : LevelHeader) :
  header_reads [strip_end is_space_or_tab "shed"] h0 (set_shed h0).
Proof.
  apply (header_reads_tokens "shed" []); [reflexivity|discriminate|].
  intros l i Hl. rewrite (header_line_tokens _ _ _ _ _ Hl). reflexivity.
Qed.

Lemma inner_push_reads (h0 : LevelHeader) :
  header_reads [strip_end is_space_or_tab "inner_push"] h0 (set_inner_push h0).
Proof.
  apply (header_reads_tokens "inner_push" []); [reflexivity|discriminate|].
  intros l i Hl. rewrite (header_line_tokens _ _ _ _ _ Hl). reflexivity.
Qed.

Lemma draw_style_reads (h0 : LevelHeader) (d : DrawStyle) :
  header_reads [strip_end is_space_or_tab (append "draw_style " (draw_style_name d))]
               h0 (set_draw_style h0 d).
Proof.
  change (append "draw_style " (draw_style_name d))
    with (join " " ["draw_style"; draw_style_name d]).
  apply (header_reads_tokens "draw_style" [draw_style_name d]).
  - destruct d; reflexivity.
  - discriminate.
  - intros l i Hl. rewrite (header_line_tokens _ _ _ _ _ Hl). destruct d; reflexivity.
Qed.

Lemma custom_level_music_reads (h0 : LevelHeader) (n : number) :
  plain_integer n = true ->
  header_reads [strip_end is_space_or_tab (append "custom_level_music " (String_ n))]
               h0 (set_custom_level_music h0 n).
Proof.
  intros Hn. destruct (toInt_String n (int (-1)) Hn) as [Hi Htok].
  apply (header_reads_tokens "custom_level_music" [String_ n]).
  - cbn [forallb]. rewrite Htok. reflexivity.
  - discriminate.
  - intros l i Hl. rewrite (header_line_tokens _ _ _ _ _ Hl).
    change (String.eqb "custom_level_music" "version") with false.
    change (String.eqb "custom_level_music" "attempt_order") with false.
    change (String.eqb "custom_level_music" "shed") with false.
    change (String.eqb "custom_level_music" "inner_push") with false.
    change (String.eqb "custom_level_music" "draw_style") with false.
    change (String.eqb "custom_level_music" "custom_level_music") with true.
    cbv iota. cbn [nth_error]. rewrite Hi. reflexivity.
Qed.

Lemma custom_level_palette_reads (h0 : LevelHeader) (n : number) :
  plain_integer n = true ->
  header_reads [strip_end is_space_or_tab (append "custom_level_palette " (String_ n))]
               h0 (set_custom_level_palette h0 n).
Proof.
  intros Hn. destruct (toInt_String n (int (-1)) Hn) as [Hi Htok].
  apply (header_reads_tokens "custom_level_palette" [String_ n]).
  - cbn [forallb]. rewrite Htok. reflexivity.
  - discriminate.
  - intros l i Hl. rewrite (header_line_tokens _ _ _ _ _ Hl).
    change (String.eqb "custom_level_palette" "version") with false.
    change (String.eqb "custom_level_palette" "attempt_order") with false.
    change (String.eqb "custom_level_palette" "shed") with false.
    change (String.eqb "custom_level_palette" "inner_push") with false.
    change (String.eqb "custom_level_palette" "draw_style") with false.
    change (String.eqb "custom_level_palette" "custom_level_music") with false.
    change (String.eqb "custom_level_palette" "custom_level_palette") with true.
    cbv iota. cbn [nth_error]. rewrite Hi. reflexivity.
Qed.

(** An unknown line is appended to [unknown]. *)
Lemma unknown_line_pushed (h : LevelHeader) (l : string) (i : nat) :
  unknown_line l = true -> header_line h l i = Ok (push_unknown h l).
Proof.
  unfold unknown_line, key_is, header_key, header_value, header_line.
  rewrite andb_true_iff. intros [_ H].
  destruct (split_ws (trim l)) as [|key r]; [reflexivity|].
  cbn [nth_error] in *. revert H.
  destruct (String.eqb key "draw_style") eqn:Ed; intros H.
  - apply string_eqb_eq in Ed. subst key.
    change (String.eqb "draw_style" "version") with false.
    change (String.eqb "draw_style" "attempt_order") with false.
    change (String.eqb "draw_style" "shed") with false.
    change (String.eqb "draw_style" "inner_push") with false.
    change (String.eqb "draw_style" "draw_style") with true.
    cbv iota. revert H.
    destruct (parse_draw_style _); [discriminate|reflexivity].
  - rewrite negb_true_iff, !orb_false_iff in H.
    destruct H as (((((-> & ->) & ->) & ->) & ->) & ->). reflexivity.
Qed.

Lemma unknown_reads (us : list string) :
  forallb wf_unknown_line us = true ->
  forall h0,
    header_reads (map (strip_end is_space_or_tab) us)
                 h0 (mkHeader (version h0) (attempt_order h0) (shed h0) (inner_push h0)
                              (draw_style h0) (custom_level_music h0)
                              (custom_level_palette h0) (unknown h0 ++ us)).
Proof.
  induction us as [|u us IH]; intros Hwf h0.
  - rewrite app_nil_r. destruct h0. apply header_reads_nil.
  - cbn [forallb] in Hwf. apply andb_true_iff in Hwf. destruct Hwf as [Hu Hus].
    unfold wf_unknown_line in Hu. rewrite !andb_true_iff in Hu.
    destruct Hu as (((Hunk & Hterm) & _) & Hstrip).
    apply string_eqb_eq in Hstrip. apply negb_true_iff in Hterm.
    change (map (strip_end is_space_or_tab) (u :: us))
      with ([strip_end is_space_or_tab u] ++ map (strip_end is_space_or_tab) us).
    apply header_reads_app with (h1 := push_unknown h0 u).
    + rewrite Hstrip. apply header_reads_one; auto.
      * unfold unknown_line in Hunk. apply andb_true_iff in Hunk.
        destruct Hunk as [Hb _]. apply negb_true_iff in Hb. exact Hb.
      * intros i. apply unknown_line_pushed. exact Hunk.
    + specialize (IH Hus (push_unknown h0 u)).
      cbn [push_unknown version attempt_order shed inner_push draw_style
           custom_level_music custom_level_palette unknown] in IH.
      rewrite <- app_assoc in IH. exact IH.
Qed.

Lemma terminator_read (h : LevelHeader) (i : nat) (rest : list string) :
  header_loop (strip_end is_space_or_tab "#" :: rest) i h = Ok (h, S i, rest).
Proof. reflexivity. Qed.

(** The header lines are read back as the header. *)
Lemma header_loop_header_out (h : LevelHeader) (rest : list string) :
  wf_header h = true ->
  header_loop (map (strip_end is_space_or_tab) (header_out h) ++ rest) 0 initial_header
  = Ok (h, length (header_out h), rest).
Proof.
  unfold wf_header. rewrite !andb_true_iff.
  intros ((((((Hv & Ha) & Hs) & Hi) & Hm) & Hp) & Hu).
  destruct h as [v ao sh ip ds clm clp us].
  cbn [version attempt_order shed inner_push draw_style custom_level_music
       custom_level_palette unknown] in *.
  unfold header_out.
  cbn [version attempt_order shed inner_push draw_style custom_level_music
       custom_level_palette unknown].
  set (lv := [append "version " (String_ v)]).
  set (la := match ao with
             | Some a => if is_empty a then [] else [append "attempt_order " a]
             | None => []
             end).
  set (ls := match sh with Some true => ["shed"] | _ => [] end).
  set (li := match ip with Some true => ["inner_push"] | _ => [] end).
  set (ld := match ds with
             | Some d => [append "draw_style " (draw_style_name d)]
             | None => []
             end).
  set (lm := match clm with
             | Some n => [append "custom_level_music " (String_ n)]
             | None => []
             end).
  set (lp := match clp with
             | Some n => [append "custom_level_palette " (String_ n)]
             | None => []
             end).
  assert (Rv : header_reads (map (strip_end is_space_or_tab) lv) initial_header
                 (mkHeader v None None None None None None [])).
  { apply (version_reads initial_header v Hv). }
  assert (Ra : header_reads (map (strip_end is_space_or_tab) la)
                 (mkHeader v None None None None None None [])
                 (mkHeader v ao None None None None None [])).
  { subst la. destruct ao as [a|]; [|apply header_reads_nil].
    destruct (attempt_order_reads (mkHeader v None None None None None None []) a Ha)
      as [-> R]. exact R. }
  assert (Rs : header_reads (map (strip_end is_space_or_tab) ls)
                 (mkHeader v ao None None None None None [])
                 (mkHeader v ao sh None None None None [])).
  { subst ls. destruct sh as [[|]|]; [|discriminate|apply header_reads_nil].
    apply (shed_reads (mkHeader v ao None None None None None [])). }
  assert (Ri : header_reads (map (strip_end is_space_or_tab) li)
                 (mkHeader v ao sh None None None None [])
                 (mkHeader v ao sh ip None None None [])).
  { subst li. destruct ip as [[|]|]; [|discriminate|apply header_reads_nil].
    apply (inner_push_reads (mkHeader v ao sh None None None None [])). }
  assert (Rd : header_reads (map (strip_end is_space_or_tab) ld)
                 (mkHeader v ao sh ip None None None [])
                 (mkHeader v ao sh ip ds None None [])).
  { subst ld. destruct ds as [d|]; [|apply header_reads_nil].
    apply (draw_style_reads (mkHeader v ao sh ip None None None []) d). }
  assert (Rm : header_reads (map (strip_end is_space_or_tab) lm)
                 (mkHeader v ao sh ip ds None None [])
                 (mkHeader v ao sh ip ds clm None [])).
  { subst lm. destruct clm as [n|]; [|apply header_reads_nil].
    apply (custom_level_music_reads (mkHeader v ao sh ip ds None None []) n Hm). }
  assert (Rp : header_reads (map (strip_end is_space_or_tab) lp)
                 (mkHeader v ao sh ip ds clm None [])
                 (mkHeader v ao sh ip ds clm clp [])).
  { subst lp. destruct clp as [n|]; [|apply header_reads_nil].
    apply (custom_level_palette_reads (mkHeader v ao sh ip ds clm None []) n Hp). }
  pose proof (unknown_reads us Hu (mkHeader v ao sh ip ds clm clp [])) as Ru.
  cbn [version attempt_order shed inner_push draw_style custom_level_music
       custom_level_palette unknown app] in Ru.
  pose proof (header_reads_app _ _ _ _ _ Rv
             (header_reads_app _ _ _ _ _ Ra
             (header_reads_app _ _ _ _ _ Rs
             (header_reads_app _ _ _ _ _ Ri
             (header_reads_app _ _ _ _ _ Rd
             (header_reads_app _ _ _ _ _ Rm
             (header_reads_app _ _ _ _ _ Rp Ru))))))) as R.
  rewrite !map_app, <- !app_assoc.
  rewrite !app_assoc.
  rewrite <- (app_assoc _ (map (strip_end is_space_or_tab) ["#"]) rest).
  rewrite <- !app_assoc.
  rewrite !app_assoc in R.
  rewrite !app_assoc.
  rewrite <- (app_assoc _ (map (strip_end is_space_or_tab) ["#"]) rest).
  rewrite R. cbn [map app]. rewrite terminator_read.
  rewrite !length_app, !length_map. cbn [length].
  f_equal. f_equal. f_equal. lia.
Qed.

Lemma header_out_one_line (h : LevelHeader) :
  wf_header h = true -> Forall (fun l => is_one_line l = true) (header_out h).
Proof.
  unfold wf_header. rewrite !andb_true_iff.
  intros ((((((Hv & Ha) & Hs) & Hi) & Hm) & Hp) & Hu).
  assert (Hint : forall k n, plain_integer n = true ->
                 is_one_line (append k (String_ n)) = is_one_line k).
  { intros k n Hn. unfold is_one_line. rewrite string_forallb_app.
    fold (is_one_line (String_ n)).
    rewrite (is_token_one_line _ (int_token n Hn)). apply andb_true_r. }
  unfold header_out.
  apply Forall_app; split; [|apply Forall_app; split; [|apply Forall_app; split;
    [|apply Forall_app; split; [|apply Forall_app; split; [|apply Forall_app; split;
    [|apply Forall_app; split; [|apply Forall_app; split]]]]]]].
  - constructor; [|constructor]. rewrite Hint by exact Hv. reflexivity.
  - destruct (attempt_order h) as [a|]; [|constructor].
    destruct (is_empty a); constructor; [|constructor].
    destruct (is_spaced_tokens a Ha) as (ts & _ & _ & Htok & ->).
    unfold is_one_line. rewrite string_forallb_app.
    fold (is_one_line (join " " ts)). rewrite join_tokens_one_line by exact Htok.
    reflexivity.
  - destruct (shed h) as [[|]|]; repeat constructor.
  - destruct (inner_push h) as [[|]|]; repeat constructor.
  - destruct (draw_style h) as [[| |]|]; repeat constructor.
  - destruct (custom_level_music h) as [n|]; [|constructor].
    constructor; [|constructor]. rewrite Hint by exact Hm. reflexivity.
  - destruct (custom_level_palette h) as [n|]; [|constructor].
    constructor; [|constructor]. rewrite Hint by exact Hp. reflexivity.
  - apply Forall_forall. intros u Hin. rewrite forallb_forall in Hu.
    specialize (Hu u Hin). unfold wf_unknown_line in Hu.
    rewrite !andb_true_iff in Hu. tauto.
  - repeat constructor.
Qed.

End HeaderBack.

(* ================================================================== *)
(** * The round trip *)
(* ================================================================== *)

Section RoundTrip.
Import JS Types Format Spec EditorState.

(** The lines that [parseLevel] sees of a serialized level. *)
Lemma lines_of_serializeLevel (lvl : Level) :
  wf_level lvl = true ->
  lines_of (serializeLevel lvl)
  = map (strip_end is_space_or_tab) (header_out (header lvl))
    ++ map (strip_end is_space_or_tab) (body_out (roots lvl)) ++ [""].
Proof.
  unfold wf_level. rewrite !andb_true_iff. intros [[Hh _] Hr].
  unfold serializeLevel. cbv zeta. rewrite emit_roots.
  change (String "010" "") with LF.
  rewrite lines_of_join.
  - rewrite map_app, <- app_assoc. reflexivity.
  - unfold header_out. discriminate.
  - apply Forall_app. split.
    + apply header_out_one_line. exact Hh.
    + apply body_out_one_line. exact Hr.
Qed.

(** C1, with the well-formedness that the code needs.  For every level
    with at least one root Block, whose integer fields are integers that
    [String] prints without exponent, whose float fields print without
    exponent, whose optional flags are absent or true, whose [attempt_order]
    is absent or made of tokens separated by single spaces, whose unknown
    header lines are lines that the header loop keeps, and whose floor
    payloads are free of the characters that the format cannot carry,
    parsing the text produced by [serializeLevel] returns that level. *)
Theorem parse_serialize_well_formed (lvl : Level) :
  wf_level lvl = true -> parseLevel (serializeLevel lvl) = Ok lvl.
Proof.
  intros Hwf. unfold parseLevel. cbv zeta.
  rewrite (lines_of_serializeLevel lvl Hwf).
  unfold wf_level in Hwf. rewrite !andb_true_iff in Hwf.
  destruct Hwf as [[Hh Hne] Hr].
  rewrite (header_loop_header_out (header lvl) _ Hh).
  assert (Hfin : isFinite (version (header lvl)) = true).
  { unfold wf_header in Hh. rewrite !andb_true_iff in Hh.
    destruct Hh as ((((((Hv & _) & _) & _) & _) & _) & _).
    destruct (version (header lvl)) as [| |m [|k]]; try discriminate. reflexivity. }
  rewrite Hfin. cbn [negb].
  destruct (body_loop_roots (roots lvl) (length (header_out (header lvl))) Hr)
    as (stack & ->).
  cbn [st_roots]. destruct lvl as [h [|r rs]]; [discriminate|reflexivity].
Qed.

Lemma parse_serialize_well_formed_witness :
  wf_level sample_level = true
  /\ parseLevel (serializeLevel sample_level) = Ok sample_level.
Proof.
  split; [vm_compute; reflexivity|].
  apply (parse_serialize_well_formed sample_level). vm_compute. reflexivity.
Defined.

(** C1 as the specification words it does not hold: the level
    [info_level] has finite numeric fields and a root of positive
    dimensions, and is read back with the underscore of its Info text
    turned into a space. *)
Lemma generated_level_not_read_back :
  ~ (forall lvl, generated_level lvl = true ->
                 parseLevel (serializeLevel lvl) = Ok lvl).
Proof.
  intros H. specialize (H info_level eq_refl).
  vm_compute in H. discriminate H.
Qed.

End RoundTrip.

(* ================================================================== *)
(** * More on the history and on the cell helpers *)
(* ================================================================== *)

Section MoreHistory.
Import JS Types EditorState Spec.

(** X1.  Where there is something to redo, an undo right after the redo
    gives back the state as it was: level, past and future. *)
Theorem undo_redo (state : EditorState) :
  future (history state) <> [] -> undo (redo state) = state.
Proof.
  destruct state as [l sp t v e [pa fu]]. cbn [history future].
  destruct fu as [|next fu']; [congruence|]. intros _.
  unfold redo. cbn [history future past level].
  rewrite (undo_snoc _ pa l) by reflexivity.
  reflexivity.
Qed.

Lemma undo_redo_witness :
  undo (redo (undo (pushHistory createInitialState wall_level)))
  = undo (pushHistory createInitialState wall_level).
Proof. apply undo_redo. vm_compute. discriminate. Defined.

(** X2.  Undo and redo move one level between the two stacks or do
    nothing: the number of levels kept in past and future together does not
    change, so no history entry is lost by them. *)
Theorem undo_redo_keep_entries (state : EditorState) :
  length (past (history (undo state))) + length (future (history (undo state)))
  = length (past (history state)) + length (future (history state))
  /\ length (past (history (redo state))) + length (future (history (redo state)))
     = length (past (history state)) + length (future (history state)).
Proof.
  destruct state as [l sp t v e [pa fu]]. split.
  - destruct pa as [|p0 pa'] using rev_ind.
    + reflexivity.
    + rewrite (undo_snoc _ pa' p0) by reflexivity.
      cbn [with_level_history history past future length].
      rewrite length_app. cbn [length]. lia.
  - unfold redo. cbn [history future past level].
    destruct fu as [|next fu']; [reflexivity|].
    cbn [with_level_history history past future length].
    rewrite length_app. cbn [length]. lia.
Qed.

End MoreHistory.

Section MoreCells.
Import JS Types EditorState Spec.

Lemma findIndex_app_None {A : Type} (p : A -> bool) (l : list A) (a : A) :
  findIndex p l = None -> p a = true -> findIndex p (l ++ [a]) = Some (length l).
Proof.
  intros Hl Ha. induction l as [|b r IH]; cbn [app findIndex length] in *.
  - rewrite Ha. reflexivity.
  - destruct (p b); [discriminate|].
    destruct (findIndex p r); [discriminate|]. rewrite IH by reflexivity. reflexivity.
Qed.

Lemma findIndex_None_forall {A : Type} (p : A -> bool) (l : list A) :
  (forall a, In a l -> p a = false) -> findIndex p l = None.
Proof.
  induction l as [|b r IH]; intros H; cbn [findIndex]; [reflexivity|].
  rewrite (H b) by (left; reflexivity).
  rewrite IH by (intros a Ha; apply H; right; exact Ha). reflexivity.
Qed.

Lemma remove_nth_snoc {A : Type} (l : list A) (a : A) :
  remove_nth (l ++ [a]) (length l) = l.
Proof. induction l as [|b r IH]; cbn [app length remove_nth]; congruence. Qed.

Lemma findIndex_update_nth {A : Type} (p : A -> bool) (l : list A) (i : nat) (a : A) :
  findIndex p l = Some i -> p a = true ->
  findIndex p (update_nth l i (fun _ => a)) = Some i.
Proof.
  revert i. induction l as [|b r IH]; intros i; cbn [findIndex]; [discriminate|].
  destruct (p b) eqn:E.
  - intros [= <-] Ha. cbn [update_nth findIndex]. rewrite Ha. reflexivity.
  - destruct (findIndex p r) as [j|] eqn:Ej; [|discriminate].
    intros [= <-] Ha. cbn [update_nth findIndex]. rewrite E, (IH j eq_refl Ha).
    reflexivity.
Qed.

Lemma update_nth_twice {A : Type} (l : list A) (i : nat) (a a' : A) :
  update_nth (update_nth l i (fun _ => a)) i (fun _ => a') = update_nth l i (fun _ => a').
Proof.
  revert i. induction l as [|b r IH]; intros [|i]; cbn [update_nth]; try reflexivity.
  rewrite IH. reflexivity.
Qed.

Lemma at_cell_wall (x y : number) (w : Wall) :
  wall_x w = x -> wall_y w = y ->
  number_eqb x x = true -> number_eqb y y = true -> at_cell x y (OWall w) = true.
Proof.
  intros <- <- Hx Hy. unfold at_cell. cbn [obj_x obj_y]. rewrite Hx, Hy. reflexivity.
Qed.

(** X3.  On a cell without Wall, and for coordinates that are not NaN,
    [upsertWall] applied twice gives back the Block: the Wall that the first
    call adds is the one that the second call removes. *)
Theorem upsertWall_twice (b : Block) (x y : number) :
  number_eqb x x = true -> number_eqb y y = true ->
  (forall c, In c (children b) -> is_Wall c = true -> at_cell x y c = false) ->
  upsertWall (upsertWall b x y) x y = b.
Proof.
  intros Hx Hy Hfree.
  assert (Hnone : findIndex (fun c => is_Wall c && at_cell x y c) (children b) = None).
  { apply findIndex_None_forall. intros c Hc.
    destruct (is_Wall c) eqn:K; [|reflexivity]. exact (Hfree c Hc K). }
  unfold upsertWall at 2. cbv zeta. rewrite Hnone.
  unfold upsertWall. cbv zeta. rewrite children_with_children.
  rewrite (findIndex_app_None _ _ _ Hnone).
  - rewrite remove_nth_snoc, with_children_twice. apply with_children_id.
  - cbn [is_Wall andb]. apply at_cell_wall; auto.
Qed.

Lemma upsertWall_twice_witness :
  upsertWall (upsertWall floor_scene (int 0) (int 0)) (int 0) (int 0) = floor_scene.
Proof.
  apply upsertWall_twice; [reflexivity|reflexivity|].
  intros c [<-|[]]. discriminate.
Defined.

(** X4.  For coordinates that are not NaN, a second [upsertFloor] on the
    same cell overwrites the first in place: the result is the one of the
    second call alone, so the Block does not grow and the last type wins. *)
Theorem upsertFloor_twice (b : Block) (x y : number) (t1 t2 : FloorType) :
  number_eqb x x = true -> number_eqb y y = true ->
  upsertFloor (upsertFloor b x y t1) x y t2 = upsertFloor b x y t2.
Proof.
  intros Hx Hy.
  assert (Hat : forall t, (is_Floor (OFloor (mkFloor x y t))
                           && at_cell x y (OFloor (mkFloor x y t))) = true).
  { intros t. unfold at_cell. cbn [is_Floor obj_x obj_y floor_x floor_y andb].
    rewrite Hx, Hy. reflexivity. }
  unfold upsertFloor. cbv zeta.
  destruct (findIndex (fun c => is_Floor c && at_cell x y c) (children b))
    as [idx|] eqn:E.
  - rewrite children_with_children.
    rewrite (findIndex_update_nth _ _ _ _ E (Hat t1)).
    rewrite with_children_twice, update_nth_twice. reflexivity.
  - rewrite children_with_children.
    rewrite (findIndex_app_None _ _ _ E (Hat t1)).
    rewrite with_children_twice, update_nth_snoc. reflexivity.
Qed.

Lemma upsertFloor_twice_witness :
  upsertFloor (upsertFloor wall_scene (int 1) (int 2) Button) (int 1) (int 2) PlayerButton
  = upsertFloor wall_scene (int 1) (int 2) PlayerButton.
Proof. apply upsertFloor_twice; reflexivity. Defined.

Lemma hitTest_cells_none (cs : list Obj) (x y : number) :
  (forall c, In c cs -> is_Block c = false -> at_cell x y c = false) ->
  forall n, hitTest_cells cs x y n = None.
Proof.
  intros H n. induction n as [|n IH]; cbn [hitTest_cells]; [reflexivity|].
  destruct (nth_error cs n) as [c|] eqn:E; [|exact IH].
  destruct (is_Block c) eqn:K; [exact IH|].
  rewrite (H c (nth_error_In _ _ E) K). exact IH.
Qed.

Lemma hitTest_blocks_none (cs : list Obj) (x y : number) :
  (forall c, In (OBlock c) cs -> in_box c x y = false) ->
  forall n, hitTest_blocks cs x y n = None.
Proof.
  intros H n. induction n as [|n IH]; cbn [hitTest_blocks]; [reflexivity|].
  destruct (nth_error cs n) as [[c| | |]|] eqn:E; try exact IH.
  rewrite (H c (nth_error_In _ _ E)). exact IH.
Qed.

Lemma hitTest_blocks_only (cs : list Obj) (x y : number) (n i : nat) :
  hitTest_blocks cs x y n <> Some (CellObj i).
Proof.
  induction n as [|n IH]; cbn [hitTest_blocks]; [discriminate|].
  destruct (nth_error cs n) as [[c| | |]|]; try exact IH.
  destruct (in_box c x y); [discriminate|exact IH].
Qed.

Lemma filter_filter_same {A : Type} (p : A -> bool) (l : list A) :
  filter p (filter p l) = filter p l.
Proof.
  induction l as [|a r IH]; cbn [filter]; [reflexivity|].
  destruct (p a) eqn:E; cbn [filter]; [rewrite E, IH|]; auto.
Qed.

Lemma filter_blocks_kept (x y : number) (cs : list Obj) :
  filter is_Block (filter (fun c => if is_Block c then true else negb (at_cell x y c)) cs)
  = filter is_Block cs.
Proof.
  induction cs as [|c cs IH]; cbn [filter]; [reflexivity|].
  destruct (is_Block c) eqn:K; cbn [filter].
  - rewrite K, IH. reflexivity.
  - destruct (negb (at_cell x y c)); cbn [filter]; [rewrite K|]; exact IH.
Qed.

(** X5.  After [removeAt] no leaf is left on the cell, so [hitTest] on that
    cell finds no cell object; the child Blocks are all kept, in their
    order; and a second [removeAt] on the cell changes nothing. *)
Theorem removeAt_clears_cell (b : Block) (x y : number) :
  (forall c, In c (children (removeAt b x y)) ->
             is_Block c = false -> at_cell x y c = false)
  /\ (forall i, hitTest (removeAt b x y) x y <> Some (CellObj i))
  /\ filter is_Block (children (removeAt b x y)) = filter is_Block (children b)
  /\ removeAt (removeAt b x y) x y = removeAt b x y.
Proof.
  assert (Hclear : forall c, In c (children (removeAt b x y)) ->
                             is_Block c = false -> at_cell x y c = false).
  { unfold removeAt. cbv zeta. rewrite children_with_children.
    intros c Hc K. apply filter_In in Hc. destruct Hc as [_ Hk].
    rewrite K in Hk. apply negb_true_iff in Hk. exact Hk. }
  split; [exact Hclear|]. split; [|split].
  - intros i. unfold hitTest.
    destruct (hitTest_blocks (children (removeAt b x y)) x y
                (length (children (removeAt b x y)))) as [h|] eqn:E.
    + intros [= ->]. exact (hitTest_blocks_only _ _ _ _ _ E).
    + rewrite (hitTest_cells_none _ _ _ Hclear). discriminate.
  - unfold removeAt. cbv zeta. rewrite children_with_children.
    apply filter_blocks_kept.
  - unfold removeAt. cbv zeta.
    rewrite children_with_children, with_children_twice, filter_filter_same.
    reflexivity.
Qed.

(** X6.  For coordinates that are not NaN and a cell that no child Block
    covers, [hitTest] on the cell after [addRef] finds the Ref that was just
    added: the last child, with the given target id. *)
Theorem addRef_is_hit (b : Block) (x y id : number) :
  number_eqb x x = true -> number_eqb y y = true ->
  (forall c, In (OBlock c) (children b) -> in_box c x y = false) ->
  exists i r,
    hitTest (addRef b x y id) x y = Some (CellObj i)
    /\ S i = length (children (addRef b x y id))
    /\ nth_error (children (addRef b x y id)) i = Some (ORef r)
    /\ ref_x r = x /\ ref_y r = y /\ ref_id r = id.
Proof.
  intros Hx Hy Hfree. unfold addRef. cbv zeta. rewrite children_with_children.
  set (kept := filter (fun c => if is_Block c then true else negb (at_cell x y c))
                      (children b)).
  set (r := mkRef x y id B0 B0 (int 0) B0 (int 0) (int (-1)) B0 B0 (int 0) B0 B0 (int 0)).
  exists (length kept), r.
  split; [|split; [|split; [|auto]]].
  - unfold hitTest. rewrite children_with_children.
    rewrite hitTest_blocks_none.
    + rewrite length_app. cbn [length]. rewrite Nat.add_1_r.
      cbn [hitTest_cells]. rewrite nth_error_snoc. cbn [is_Block].
      unfold at_cell. cbn [obj_x obj_y r ref_x ref_y]. rewrite Hx, Hy. reflexivity.
    + intros c Hc. apply in_app_or in Hc. destruct Hc as [Hc|[Hc|[]]]; [|discriminate].
      apply Hfree. apply filter_In in Hc. tauto.
  - rewrite length_app. cbn [length]. lia.
  - apply nth_error_snoc.
Qed.

Lemma addRef_is_hit_witness :
  exists i r,
    hitTest (addRef wall_scene (int 0) (int 0) (int 5)) (int 0) (int 0) = Some (CellObj i)
    /\ S i = length (children (addRef wall_scene (int 0) (int 0) (int 5)))
    /\ nth_error (children (addRef wall_scene (int 0) (int 0) (int 5))) i = Some (ORef r)
    /\ ref_x r = int 0 /\ ref_y r = int 0 /\ ref_id r = int 5.
Proof.
  apply addRef_is_hit; [reflexivity|reflexivity|].
  intros c [H|[]]. discriminate.
Defined.

(** X7.  On integer cells, with the sums of corner and size below 2^53 so
    that JavaScript adds them exactly, every cell inside the box of a Block
    just added with [addBlock] is hit as that Block, the last child,
    whatever lay there before. *)
Theorem addBlock_is_hit (b : Block) (bx by_ w h px py : Z) (id : number) :
  (Z.abs (bx + w) < 2 ^ 53)%Z -> (Z.abs (by_ + h) < 2 ^ 53)%Z ->
  (bx <= px < bx + w)%Z -> (by_ <= py < by_ + h)%Z ->
  hitTest (addBlock b (int bx) (int by_) (int w) (int h) id) (int px) (int py)
  = Some (BlockChild (length (children b))).
Proof.
  intros Hbx Hby Hpx Hpy.
  unfold addBlock, hitTest. cbv zeta. rewrite children_with_children.
  rewrite length_app. cbn [length]. rewrite Nat.add_1_r.
  cbn [hitTest_blocks]. rewrite nth_error_snoc.
  match goal with
  | |- context [in_box ?c _ _] =>
      assert (Hin : in_box c (int px) (int py) = true)
  end.
  { apply (in_box_int _ bx by_ w h); try reflexivity; lia. }
  rewrite Hin. reflexivity.
Qed.

Lemma addBlock_is_hit_witness :
  hitTest (addBlock wall_scene (int 0) (int 0) (int 3) (int 3) (int 1)) (int 2) (int 1)
  = Some (BlockChild (length (children wall_scene))).
Proof. apply addBlock_is_hit; lia. Defined.

End MoreCells.

(* ================================================================== *)
(** * Writing and reading a Block by its path *)
(* ================================================================== *)

Section MorePaths.
Import JS Types EditorState Spec.

Lemma nth_error_update_nth {A : Type} (l : list A) (i : nat) (f : A -> A) :
  nth_error (update_nth l i f) i = option_map f (nth_error l i).
Proof.
  revert i. induction l as [|a r IH]; intros [|i]; cbn [update_nth nth_error option_map];
    auto.
Qed.

Lemma nth_error_update_nth_other {A : Type} (l : list A) (i j : nat) (f : A -> A) :
  i <> j -> nth_error (update_nth l i f) j = nth_error l j.
Proof.
  revert i j. induction l as [|a r IH]; intros [|i] [|j] H;
    cbn [update_nth nth_error]; auto; congruence.
Qed.

Lemma update_nth_ext_at {A : Type} (l : list A) (i : nat) (f g : A -> A) :
  (forall a, nth_error l i = Some a -> f a = g a) ->
  update_nth l i f = update_nth l i g.
Proof.
  revert i. induction l as [|a r IH]; intros [|i] H; cbn [update_nth]; auto.
  - rewrite (H a eq_refl). reflexivity.
  - rewrite (IH i H). reflexivity.
Qed.

Lemma update_nth_id_at {A : Type} (l : list A) (i : nat) (f : A -> A) :
  (forall a, nth_error l i = Some a -> f a = a) -> update_nth l i f = l.
Proof.
  revert i. induction l as [|a r IH]; intros [|i] H; cbn [update_nth]; auto.
  - rewrite (H a eq_refl). reflexivity.
  - rewrite (IH i H). reflexivity.
Qed.

Lemma update_nth_compose {A : Type} (l : list A) (i : nat) (f g : A -> A) :
  update_nth (update_nth l i f) i g = update_nth l i (fun a => g (f a)).
Proof.
  revert i. induction l as [|a r IH]; intros [|i]; cbn [update_nth]; auto.
  rewrite IH. reflexivity.
Qed.

Lemma length_update_nth {A : Type} (l : list A) (i : nat) (f : A -> A) :
  length (update_nth l i f) = length l.
Proof.
  revert i. induction l as [|a r IH]; intros [|i]; cbn [update_nth length]; auto.
Qed.

(** [getBlockByPath] reads the forest as [block_at] does. *)
Lemma getBlockByPath_loop_child (rest : list nat) :
  forall b, getBlockByPath_loop (Some b) rest = child_block_at rest b.
Proof.
  induction rest as [|i rest IH]; intros b; cbn [getBlockByPath_loop child_block_at];
    [reflexivity|].
  destruct (nth_error (children b) i) as [[c| | |]|]; auto.
Qed.

Lemma getBlockByPath_loop_None (rest : list nat) : getBlockByPath_loop None rest = None.
Proof. destruct rest; reflexivity. Qed.

Lemma getBlockByPath_block_at (level : Level) (path : list nat) :
  getBlockByPath level path = block_at (roots level) path.
Proof.
  destruct path as [|i rest]; [reflexivity|]. cbn [getBlockByPath block_at].
  destruct (nth_error (roots level) i) as [b|].
  - apply getBlockByPath_loop_child.
  - apply getBlockByPath_loop_None.
Qed.

(** Reading below a place that was written. *)
Lemma child_block_at_update (p q : list nat) (f : Block -> Block) :
  forall b,
    child_block_at (p ++ q) (update_child_block_at p f b)
    = match child_block_at p b with
      | Some c => child_block_at q (f c)
      | None => None
      end.
Proof.
  induction p as [|i p IH]; intros b; [reflexivity|].
  cbn [app child_block_at update_child_block_at].
  rewrite children_with_children, nth_error_update_nth.
  destruct (nth_error (children b) i) as [[c| | |]|]; cbn [option_map]; auto.
Qed.

(** Reading a place that lies neither above nor below the one written. *)
Lemma child_block_at_update_other (p : list nat) (f : Block -> Block) :
  forall q b,
    is_prefix p q = false -> is_prefix q p = false ->
    child_block_at q (update_child_block_at p f b) = child_block_at q b.
Proof.
  induction p as [|i p IH]; intros q b Hpq Hqp; [discriminate|].
  destruct q as [|j q]; [discriminate|].
  cbn [is_prefix] in Hpq, Hqp.
  cbn [child_block_at update_child_block_at]. rewrite children_with_children.
  destruct (Nat.eqb_spec i j) as [->|Hij].
  - rewrite Nat.eqb_refl in Hqp. cbn [andb] in Hpq, Hqp.
    rewrite nth_error_update_nth.
    destruct (nth_error (children b) j) as [[c| | |]|]; cbn [option_map]; auto.
  - rewrite nth_error_update_nth_other by exact Hij. reflexivity.
Qed.

Lemma update_child_block_at_ext_at (p : list nat) (f g : Block -> Block) :
  forall b,
    (forall c, child_block_at p b = Some c -> f c = g c) ->
    update_child_block_at p f b = update_child_block_at p g b.
Proof.
  induction p as [|i p IH]; intros b H; cbn [update_child_block_at].
  - apply H. reflexivity.
  - f_equal. apply update_nth_ext_at. intros [c| | |] Hc; try reflexivity.
    f_equal. apply IH. intros d Hd. apply H. cbn [child_block_at]. rewrite Hc. exact Hd.
Qed.

Lemma update_child_block_at_id_at (p : list nat) (f : Block -> Block) :
  forall b,
    (forall c, child_block_at p b = Some c -> f c = c) ->
    update_child_block_at p f b = b.
Proof.
  induction p as [|i p IH]; intros b H; cbn [update_child_block_at].
  - apply H. reflexivity.
  - rewrite update_nth_id_at; [apply with_children_id|].
    intros [c| | |] Hc; try reflexivity.
    f_equal. apply IH. intros d Hd. apply H. cbn [child_block_at]. rewrite Hc. exact Hd.
Qed.

Lemma update_child_block_at_compose (p : list nat) (f g : Block -> Block) :
  forall b,
    update_child_block_at p g (update_child_block_at p f b)
    = update_child_block_at p (fun c => g (f c)) b.
Proof.
  induction p as [|i p IH]; intros b; cbn [update_child_block_at]; [reflexivity|].
  rewrite children_with_children, with_children_twice, update_nth_compose.
  f_equal. apply update_nth_ext_at. intros [c| | |] _; try reflexivity.
  rewrite IH. reflexivity.
Qed.

Lemma update_child_block_at_snoc (p : list nat) (i : nat) (f : Block -> Block) :
  forall b,
    update_child_block_at (p ++ [i]) f b
    = update_child_block_at p
        (fun c => with_children c
                    (update_nth (children c) i
                       (fun o => match o with OBlock d => OBlock (f d) | _ => o end))) b.
Proof.
  induction p as [|j p IH]; intros b; cbn [app update_child_block_at]; [reflexivity|].
  f_equal. apply update_nth_ext_at. intros [c| | |] _; try reflexivity.
  rewrite IH. reflexivity.
Qed.

Lemma child_block_at_snoc (p : list nat) (i : nat) :
  forall b,
    child_block_at (p ++ [i]) b
    = match child_block_at p b with
      | Some c => match nth_error (children c) i with
                  | Some (OBlock d) => Some d
                  | _ => None
                  end
      | None => None
      end.
Proof.
  induction p as [|j p IH]; intros b; cbn [app child_block_at].
  - destruct (nth_error (children b) i) as [[d| | |]|]; reflexivity.
  - destruct (nth_error (children b) j) as [[c| | |]|]; auto.
Qed.

(** On a path that resolves, [setBlockAtPath] replaces the Block at the
    path. *)
Lemma setBlockAtPath_update (level : Level) (path : list nat) (block old : Block) :
  getBlockByPath level path = Some old ->
  setBlockAtPath level path block
  = Some {| header := header level;
            roots := update_block_at (roots level) path (fun _ => block) |}.
Proof.
  rewrite getBlockByPath_block_at.
  destruct path as [|i rest]; [discriminate|].
  destruct rest as [|j rest].
  - (* a root *)
    cbn [block_at child_block_at]. intros H.
    destruct (nth_error (roots level) i) as [b|] eqn:E; [|discriminate].
    unfold setBlockAtPath, cloneLevel, array_set.
    assert (Hi : i < length (roots level)) by (apply nth_error_Some; congruence).
    destruct (Nat.ltb_spec i (length (roots level))); [|lia]. reflexivity.
  - (* a child: the parent is the Block at the path without its last index *)
    destruct (exists_last (l := j :: rest) ltac:(discriminate)) as (mid & k & Hmid).
    rewrite Hmid. intros H.
    assert (Hrl : removelast (i :: mid ++ [k]) = i :: mid).
    { change (i :: mid ++ [k]) with ((i :: mid) ++ [k]). apply removelast_last. }
    assert (Hl : last (i :: mid ++ [k]) 0 = k).
    { change (i :: mid ++ [k]) with ((i :: mid) ++ [k]). apply last_last. }
    cbn [block_at] in H.
    destruct (nth_error (roots level) i) as [r|] eqn:Er; [|discriminate].
    rewrite child_block_at_snoc in H.
    destruct (child_block_at mid r) as [parent|] eqn:Ep; [|discriminate].
    destruct (nth_error (children parent) k) as [[d| | |]|] eqn:Ek; try discriminate.
    assert (Hk : k < length (children parent)) by (apply nth_error_Some; congruence).
    unfold setBlockAtPath, cloneLevel.
    destruct (mid ++ [k]) as [|m0 mid0] eqn:Emk; [destruct mid; discriminate|].
    rewrite Hrl, Hl. rewrite <- Emk.
    rewrite getBlockByPath_block_at. cbn [block_at]. rewrite Er, Ep.
    unfold array_set. destruct (Nat.ltb_spec k (length (children parent))); [|lia].
    f_equal. f_equal. cbn [update_block_at].
    apply update_nth_ext_at. intros r' Hr'. rewrite Er in Hr'. injection Hr' as <-.
    rewrite update_child_block_at_snoc.
    apply update_child_block_at_ext_at. intros c Hc. rewrite Ep in Hc.
    injection Hc as <-. f_equal. apply update_nth_ext_at.
    intros o Ho. rewrite Ek in Ho. injection Ho as <-. reflexivity.
Qed.

Lemma block_at_update (rs : list Block) (p : list nat) (f : Block -> Block) :
  block_at (update_block_at rs p f) p = option_map f (block_at rs p).
Proof.
  destruct p as [|i p]; [reflexivity|]. cbn [block_at update_block_at].
  rewrite nth_error_update_nth.
  destruct (nth_error rs i) as [b|]; cbn [option_map]; [|reflexivity].
  rewrite <- (app_nil_r p) at 1. rewrite child_block_at_update.
  destruct (child_block_at p b); reflexivity.
Qed.

Lemma setBlockAtPath_then_get_aux (level : Level) (path : list nat) (block old : Block) :
  getBlockByPath level path = Some old ->
  exists level',
    setBlockAtPath level path block = Some level'
    /\ getBlockByPath level' path = Some block.
Proof.
  intros H. rewrite (setBlockAtPath_update _ _ _ _ H).
  eexists. split; [reflexivity|].
  rewrite getBlockByPath_block_at in *. cbn [roots].
  rewrite block_at_update, H. reflexivity.
Qed.

(** X8.  On a path that resolves to a Block, [setBlockAtPath] returns a
    level in which the path resolves to the Block that was written, and
    which has as many roots as before and the same header. *)
Theorem setBlockAtPath_then_get (level : Level) (path : list nat) (block old : Block) :
  getBlockByPath level path = Some old ->
  exists level',
    setBlockAtPath level path block = Some level'
    /\ getBlockByPath level' path = Some block
    /\ length (roots level') = length (roots level)
    /\ header level' = header level.
Proof.
  intros H. rewrite (setBlockAtPath_update _ _ _ _ H).
  eexists. split; [reflexivity|].
  rewrite getBlockByPath_block_at in *. cbn [roots header].
  rewrite block_at_update, H. split; [reflexivity|]. split; [|reflexivity].
  destruct path as [|i p]; [discriminate|]. cbn [update_block_at].
  apply length_update_nth.
Qed.

Lemma setBlockAtPath_then_get_witness :
  exists level',
    setBlockAtPath nested_level [0; 1] wall_scene = Some level'
    /\ getBlockByPath level' [0; 1] = Some wall_scene
    /\ length (roots level') = length (roots nested_level)
    /\ header level' = header nested_level.
Proof. apply (setBlockAtPath_then_get nested_level [0; 1] wall_scene spare_block). reflexivity. Defined.

(** X9.  Writing at a path the Block that the path resolves to gives back
    the level. *)
Theorem setBlockAtPath_same (level : Level) (path : list nat) (b : Block) :
  getBlockByPath level path = Some b -> setBlockAtPath level path b = Some level.
Proof.
  intros H. rewrite (setBlockAtPath_update _ _ _ _ H).
  rewrite getBlockByPath_block_at in H.
  destruct level as [h rs]. cbn [header roots] in *. f_equal. f_equal.
  destruct path as [|i p]; [reflexivity|]. cbn [update_block_at block_at] in *.
  apply update_nth_id_at. intros r Hr. rewrite Hr in H.
  apply update_child_block_at_id_at. intros c Hc. congruence.
Qed.

Lemma setBlockAtPath_same_witness :
  setBlockAtPath nested_level [0; 1] spare_block = Some nested_level.
Proof. apply setBlockAtPath_same. reflexivity. Defined.

(** X10.  On a path that resolves, a second write at the path overwrites
    the first: the result is the one of the second write alone. *)
Theorem setBlockAtPath_twice (level level1 : Level) (path : list nat) (old b1 b2 : Block) :
  getBlockByPath level path = Some old ->
  setBlockAtPath level path b1 = Some level1 ->
  setBlockAtPath level1 path b2 = setBlockAtPath level path b2.
Proof.
  intros H H1. rewrite (setBlockAtPath_update _ _ _ _ H) in H1. injection H1 as <-.
  assert (H' : getBlockByPath
                 {| header := header level;
                    roots := update_block_at (roots level) path (fun _ => b1) |} path
               = Some b1).
  { rewrite getBlockByPath_block_at in *. cbn [roots].
    rewrite block_at_update, H. reflexivity. }
  rewrite (setBlockAtPath_update _ _ _ _ H'), (setBlockAtPath_update _ _ _ _ H).
  cbn [header roots]. f_equal. f_equal.
  destruct path as [|i p]; [reflexivity|]. cbn [update_block_at].
  rewrite update_nth_compose. apply update_nth_ext_at. intros r _.
  apply update_child_block_at_compose.
Qed.

Lemma setBlockAtPath_twice_witness :
  setBlockAtPath
    {| header := header nested_level;
       roots := update_block_at (roots nested_level) [0; 1] (fun _ => wall_scene) |}
    [0; 1] floor_scene
  = setBlockAtPath nested_level [0; 1] floor_scene.
Proof.
  apply (setBlockAtPath_twice nested_level _ [0; 1] spare_block wall_scene floor_scene);
    reflexivity.
Defined.

(** X11.  A write at a path that resolves leaves every Block that lies
    neither on the way to the path nor below it where it was and as it
    was: a path that is no prefix of the written one, and of which the
    written one is no prefix, resolves as before. *)
Theorem setBlockAtPath_elsewhere
    (level level' : Level) (p q : list nat) (old block : Block) :
  getBlockByPath level p = Some old ->
  setBlockAtPath level p block = Some level' ->
  is_prefix p q = false -> is_prefix q p = false ->
  getBlockByPath level' q = getBlockByPath level q.
Proof.
  intros H H1 Hpq Hqp. rewrite (setBlockAtPath_update _ _ _ _ H) in H1.
  injection H1 as <-. rewrite !getBlockByPath_block_at. cbn [roots].
  destruct p as [|i p]; [discriminate|]. destruct q as [|j q]; [discriminate|].
  cbn [is_prefix] in Hpq, Hqp. cbn [update_block_at block_at].
  destruct (Nat.eqb_spec i j) as [->|Hij].
  - rewrite Nat.eqb_refl in Hqp. cbn [andb] in Hpq, Hqp.
    rewrite nth_error_update_nth.
    destruct (nth_error (roots level) j) as [r|]; cbn [option_map]; [|reflexivity].
    apply child_block_at_update_other; assumption.
  - rewrite nth_error_update_nth_other by exact Hij. reflexivity.
Qed.

Lemma setBlockAtPath_elsewhere_witness :
  getBlockByPath
    {| header := header nested_level;
       roots := update_block_at (roots nested_level) [0; 1] (fun _ => wall_scene) |} [1]
  = getBlockByPath nested_level [1].
Proof.
  apply (setBlockAtPath_elsewhere nested_level _ [0; 1] [1] spare_block wall_scene);
    reflexivity.
Defined.

(** X12.  For a path of two indices or more whose parent path resolves to
    no Block, [setBlockAtPath] returns the level unchanged. *)
Theorem setBlockAtPath_unresolved_parent
    (level : Level) (path : list nat) (i : nat) (block : Block) :
  path <> [] -> getBlockByPath level path = None ->
  setBlockAtPath level (path ++ [i]) block = Some level.
Proof.
  intros Hne Hnone. unfold setBlockAtPath, cloneLevel.
  destruct (path ++ [i]) as [|a [|b rest]] eqn:E.
  - destruct path; discriminate.
  - destruct path as [|x [|y path]]; try discriminate. congruence.
  - rewrite <- E, removelast_last, Hnone. reflexivity.
Qed.

Lemma setBlockAtPath_unresolved_parent_witness :
  setBlockAtPath nested_level ([0; 0] ++ [2]) spare_block = Some nested_level.
Proof. apply setBlockAtPath_unresolved_parent; [discriminate|reflexivity]. Defined.

End MorePaths.

(* ================================================================== *)
(** * The walks over the Blocks of a level *)
(* ================================================================== *)

Section MoreWalks.
Import JS Types EditorState Spec.

(** ** [walkBlocks] and [nextBlockId] *)

Lemma fold_left_flat_map {A B St : Type} (f : St -> B -> St) (g : A -> list B) (l : list A) :
  forall s,
    fold_left f (flat_map g l) s = fold_left (fun s' a => fold_left f (g a) s') l s.
Proof.
  induction l as [|a l IH]; intros s; cbn [flat_map fold_left]; [reflexivity|].
  rewrite fold_left_app. apply IH.
Qed.

Lemma fold_left_ext_in {A St : Type} (f g : St -> A -> St) (l : list A) :
  (forall a, In a l -> forall s, f s a = g s a) ->
  forall s, fold_left f l s = fold_left g l s.
Proof.
  induction l as [|a l IH]; intros H s; cbn [fold_left]; [reflexivity|].
  rewrite (H a (or_introl eq_refl)). apply IH. intros b Hb. apply H. right. exact Hb.
Qed.

(** The walk calls [fn] on the Blocks of the object, in their order. *)
Lemma walk_blocks_of {St : Type} (fn : Block -> St -> St) (o : Obj) :
  forall s, walk fn o s = fold_left (fun s' b => fn b s') (blocks_of o) s.
Proof.
  induction o as [b IHb|r|w|f] using Obj_children_ind; intros s;
    cbn [walk blocks_of fold_left]; try reflexivity.
  rewrite fold_left_flat_map. apply fold_left_ext_in.
  intros c Hc s'. rewrite Forall_forall in IHb. apply IHb. exact Hc.
Qed.

Lemma walkBlocks_level_blocks {St : Type} (level : Level) (fn : Block -> St -> St) (s : St) :
  walkBlocks level fn s = fold_left (fun s' b => fn b s') (level_blocks level) s.
Proof.
  unfold walkBlocks, level_blocks. rewrite fold_left_flat_map.
  apply fold_left_ext_in. intros r _ s'. apply walk_blocks_of.
Qed.

Lemma safe_integer_int (v : number) :
  safe_integer v = true -> exists z, v = int z /\ (Z.abs z < 2 ^ 53)%Z.
Proof.
  destruct v as [| |m [|k]]; try discriminate. cbn [safe_integer].
  intros H. apply Z.ltb_lt in H. exists m. auto.
Qed.

(** The largest id, or -1. *)
Lemma max_id_fold (l : list Block) :
  forallb (fun b => safe_integer (block_id b)) l = true ->
  forall z0, (-1 <= z0 < 2 ^ 53)%Z ->
  exists z,
    fold_left (fun maxId b => if number_gtb (block_id b) maxId then block_id b else maxId)
              l (int z0) = int z
    /\ (z0 <= z < 2 ^ 53)%Z
    /\ forall b, In b l -> exists i, block_id b = int i /\ (i <= z)%Z.
Proof.
  induction l as [|b l IH]; intros Hsafe z0 Hz0; cbn [fold_left].
  - exists z0. split; [reflexivity|]. split; [lia|]. intros b [].
  - cbn [forallb] in Hsafe. apply andb_true_iff in Hsafe. destruct Hsafe as [Hb Hl].
    destruct (safe_integer_int _ Hb) as (i & Ei & Hi).
    rewrite Ei. unfold number_gtb. rewrite number_ltb_int.
    destruct (Z.ltb_spec z0 i) as [Hlt|Hge].
    + destruct (IH Hl i ltac:(lia)) as (z & Ez & Hz & Hall).
      exists z. split; [exact Ez|]. split; [lia|].
      intros b' [<-|Hb']; [exists i; split; [exact Ei|lia]|auto].
    + destruct (IH Hl z0 Hz0) as (z & Ez & Hz & Hall).
      exists z. split; [exact Ez|]. split; [lia|].
      intros b' [<-|Hb']; [exists i; split; [exact Ei|lia]|auto].
Qed.

Lemma child_block_at_blocks_of (p : list nat) :
  forall b c, child_block_at p b = Some c -> In c (blocks_of (OBlock b)).
Proof.
  induction p as [|i p IH]; intros b c; cbn [child_block_at].
  - intros [= <-]. left. reflexivity.
  - destruct (nth_error (children b) i) as [[d| | |]|] eqn:E; try discriminate.
    intros H. cbn [blocks_of]. right. apply in_flat_map.
    exists (OBlock d). split; [exact (nth_error_In _ _ E)|]. exact (IH d c H).
Qed.

Lemma blocks_of_child_block_at (o : Obj) :
  forall c, In c (blocks_of o) ->
            exists b p, o = OBlock b /\ child_block_at p b = Some c.
Proof.
  induction o as [b IHb|r|w|f] using Obj_children_ind; intros c; cbn [blocks_of];
    try contradiction.
  intros [<-|Hc].
  - exists b, []. auto.
  - apply in_flat_map in Hc. destruct Hc as (o & Ho & Hc).
    rewrite Forall_forall in IHb. destruct (IHb o Ho c Hc) as (d & p & -> & Hp).
    destruct (In_nth_error _ _ Ho) as (i & Ei).
    exists b, (i :: p). split; [reflexivity|]. cbn [child_block_at]. rewrite Ei. exact Hp.
Qed.

(** The Blocks of a level are the Blocks that its paths resolve to. *)
Lemma level_blocks_paths (level : Level) (c : Block) :
  In c (level_blocks level) <-> exists p, getBlockByPath level p = Some c.
Proof.
  unfold level_blocks. rewrite in_flat_map. split.
  - intros (r & Hr & Hc). destruct (In_nth_error _ _ Hr) as (i & Ei).
    destruct (blocks_of_child_block_at _ c Hc) as (b & p & [= <-] & Hp).
    exists (i :: p). rewrite getBlockByPath_block_at. cbn [block_at].
    unfold Block in *. rewrite Ei. exact Hp.
  - intros (p & Hp). rewrite getBlockByPath_block_at in Hp.
    destruct p as [|i p]; [discriminate|]. cbn [block_at] in Hp.
    destruct (nth_error (roots level) i) as [r|] eqn:Ei; [|discriminate].
    exists r. split; [exact (nth_error_In _ _ Ei)|].
    exact (child_block_at_blocks_of p r c Hp).
Qed.

(** X13.  In a level whose Block ids are integers below 2^53 in absolute
    value, [nextBlockId] is a non-negative integer greater than the id of
    every Block that a path of the level resolves to, at any depth: no Block
    of the level has this id. *)
Theorem nextBlockId_fresh (level : Level) :
  safe_ids level = true ->
  exists z,
    nextBlockId level = int z /\ (0 <= z)%Z
    /\ forall p b, getBlockByPath level p = Some b ->
                   number_ltb (block_id b) (nextBlockId level) = true
                   /\ number_eqb (block_id b) (nextBlockId level) = false.
Proof.
  intros Hsafe. unfold nextBlockId. cbv zeta. rewrite walkBlocks_level_blocks.
  destruct (max_id_fold (level_blocks level) Hsafe (-1)%Z ltac:(lia))
    as (m & Em & Hm & Hall).
  cbv beta. unfold Block in *. rewrite Em, number_add_int by lia.
  exists (m + 1)%Z. split; [reflexivity|]. split; [lia|].
  intros p b Hp.
  destruct (Hall b) as (i & Ei & Hi); [apply level_blocks_paths; eauto|].
  rewrite Ei, number_ltb_int, number_eqb_int. split.
  - apply Z.ltb_lt. lia.
  - apply Z.eqb_neq. lia.
Qed.

Lemma nextBlockId_fresh_witness :
  exists z,
    nextBlockId unsorted_level = int z /\ (0 <= z)%Z
    /\ forall p b, getBlockByPath unsorted_level p = Some b ->
                   number_ltb (block_id b) (nextBlockId unsorted_level) = true
                   /\ number_eqb (block_id b) (nextBlockId unsorted_level) = false.
Proof. apply nextBlockId_fresh. vm_compute. reflexivity. Defined.

(** ** [listAllBlocks] and [findPathById] *)

(** The entries that the walk of [list_walk] pushes. *)
Lemma In_forEach_walk (path : list nat) (cs : list Obj) (e : BlockEntry) :
  Forall (fun c => forall out path',
            In e (list_walk out c path')
            <-> In e out
                \/ exists b q d, c = OBlock b /\ child_block_at q b = Some d
                                 /\ e = {| entry_id := block_id d;
                                           entry_path := path' ++ q |}) cs ->
  forall i out,
    In e (forEach_from (fun out' c idx => list_walk out' c (path ++ [idx])) cs i out)
    <-> In e out
        \/ exists k b q d, nth_error cs k = Some (OBlock b)
                           /\ child_block_at q b = Some d
                           /\ e = {| entry_id := block_id d;
                                     entry_path := path ++ (i + k) :: q |}.
Proof.
  induction 1 as [|c cs Hc _ IH]; intros i out; cbn [forEach_from].
  - split; [auto|]. intros [H|(k & b & q & d & Hk & _)]; [exact H|].
    destruct k; discriminate.
  - rewrite IH, Hc. split.
    + intros [[H|(b & q & d & -> & Hq & ->)]|(k & b & q & d & Hk & Hq & ->)].
      * left. exact H.
      * right. exists 0, b, q, d. rewrite Nat.add_0_r, <- app_assoc. auto.
      * right. exists (S k), b, q, d. rewrite Nat.add_succ_r. auto.
    + intros [H|(k & b & q & d & Hk & Hq & ->)]; [auto|].
      destruct k as [|k]; cbn [nth_error] in Hk.
      * injection Hk as ->. left. right. exists b, q, d.
        rewrite Nat.add_0_r, <- app_assoc. auto.
      * right. exists k, b, q, d. rewrite Nat.add_succ_r. auto.
Qed.

Lemma In_list_walk (e : BlockEntry) (o : Obj) :
  forall out path,
    In e (list_walk out o path)
    <-> In e out
        \/ exists b q d, o = OBlock b /\ child_block_at q b = Some d
                         /\ e = {| entry_id := block_id d; entry_path := path ++ q |}.
Proof.
  induction o as [b IHb|r|w|f] using Obj_children_ind; intros out path;
    cbn [list_walk];
    try (split; [auto|intros [H|(b & q & d & Hb & _)]; [exact H|discriminate]]).
  rewrite (In_forEach_walk path (children b) e IHb 0). rewrite in_app_iff. split.
  - intros [[H|[<-|[]]]|(k & c & q & d & Hk & Hq & ->)].
    + left. exact H.
    + right. exists b, [], b. rewrite app_nil_r. auto.
    + right. exists b, (k :: q), d. cbn [child_block_at]. rewrite Hk. auto.
  - intros [H|(b' & q & d & [= <-] & Hq & ->)]; [auto|].
    destruct q as [|k q]; cbn [child_block_at] in Hq.
    + injection Hq as <-. left. right. left. rewrite app_nil_r. reflexivity.
    + destruct (nth_error (children b) k) as [[c| | |]|] eqn:Ek; try discriminate.
      right. exists k, c, q, d. auto.
Qed.

Lemma In_forEach_roots (e : BlockEntry) (rs : list Block) :
  forall i out,
    In e (forEach_from (fun out' r idx => list_walk out' (OBlock r) [idx]) rs i out)
    <-> In e out
        \/ exists k r q d, nth_error rs k = Some r /\ child_block_at q r = Some d
                           /\ e = {| entry_id := block_id d;
                                     entry_path := (i + k) :: q |}.
Proof.
  induction rs as [|r rs IH]; intros i out; cbn [forEach_from].
  - split; [auto|]. intros [H|(k & b & q & d & Hk & _)]; [exact H|].
    destruct k; discriminate.
  - rewrite IH, In_list_walk. split.
    + intros [[H|(b & q & d & [= <-] & Hq & ->)]|(k & b & q & d & Hk & Hq & ->)].
      * left. exact H.
      * right. exists 0, r, q, d. rewrite Nat.add_0_r. auto.
      * right. exists (S k), b, q, d. rewrite Nat.add_succ_r. auto.
    + intros [H|(k & b & q & d & Hk & Hq & ->)]; [auto|].
      destruct k as [|k]; cbn [nth_error] in Hk.
      * injection Hk as ->. left. right. exists b, q, d. rewrite Nat.add_0_r. auto.
      * right. exists k, b, q, d. rewrite Nat.add_succ_r. auto.
Qed.

(** The sort rearranges the array. *)
Lemma sort_insert_perm {A : Type} (cmp : A -> A -> number) (x : A) (s : list A) :
  Permutation (sort_insert cmp x s) (x :: s).
Proof.
  induction s as [|y r IH]; cbn [sort_insert]; [reflexivity|].
  destruct (sorts_before cmp x y); [reflexivity|].
  rewrite IH. apply perm_swap.
Qed.

Lemma sort_fold_perm {A : Type} (cmp : A -> A -> number) (l : list A) :
  forall s, Permutation (fold_left (fun s' x => sort_insert cmp x s') l s) (s ++ l).
Proof.
  induction l as [|x l IH]; intros s; cbn [fold_left].
  - rewrite app_nil_r. reflexivity.
  - rewrite IH, sort_insert_perm. apply Permutation_middle.
Qed.

Lemma sort_perm {A : Type} (cmp : A -> A -> number) (l : list A) :
  Permutation (sort cmp l) l.
Proof. unfold sort. apply (sort_fold_perm cmp l []). Qed.

Lemma listAllBlocks_entries_aux (level : Level) (e : BlockEntry) :
  In e (listAllBlocks level)
  <-> exists b, getBlockByPath level (entry_path e) = Some b
                /\ block_id b = entry_id e.
Proof.
  unfold listAllBlocks. cbv zeta.
  split.
  - intros H. apply (Permutation_in _ (sort_perm _ _)) in H.
    apply In_forEach_roots in H. destruct H as [[]|(k & r & q & d & Hk & Hq & ->)].
    exists d. cbn [entry_path entry_id]. split; [|reflexivity].
    rewrite getBlockByPath_block_at. cbn [block_at Nat.add]. rewrite Hk. exact Hq.
  - intros (b & Hp & Hid).
    apply (Permutation_in _ (Permutation_sym (sort_perm _ _))).
    apply In_forEach_roots. right.
    rewrite getBlockByPath_block_at in Hp.
    destruct e as [id p]. cbn [entry_path entry_id] in *.
    destruct p as [|i q]; [discriminate|]. cbn [block_at] in Hp.
    destruct (nth_error (roots level) i) as [r|] eqn:Ei; [|discriminate].
    exists i, r, q, b. rewrite Hid. auto.
Qed.

(** Each Block is pushed under a path of its own. *)
Lemma is_prefix_refl (p : list nat) : is_prefix p p = true.
Proof. induction p as [|i p IH]; cbn [is_prefix]; [|rewrite Nat.eqb_refl]; auto. Qed.

Lemma is_prefix_app_false (p r : list nat) :
  forall q, is_prefix p q = false -> is_prefix (p ++ r) q = false.
Proof.
  induction p as [|i p IH]; intros q; cbn [app is_prefix]; [discriminate|].
  destruct q as [|j q]; [reflexivity|].
  destruct (i =? j); cbn [andb]; auto.
Qed.

Lemma is_prefix_longer (p : list nat) (k : nat) : is_prefix (p ++ [k]) p = false.
Proof. induction p as [|i p IH]; cbn [app is_prefix]; [|rewrite Nat.eqb_refl]; auto. Qed.

Lemma is_prefix_sibling (p q : list nat) (i k : nat) :
  k <> i -> is_prefix (p ++ [k]) ((p ++ [i]) ++ q) = false.
Proof.
  intros H. induction p as [|j p IH]; cbn [app is_prefix].
  - destruct (Nat.eqb_spec k i); [contradiction|reflexivity].
  - rewrite Nat.eqb_refl. exact IH.
Qed.

Lemma NoDup_forEach_walk (path : list nat) (cs : list Obj) :
  Forall (fun c => forall out path',
            NoDup (map entry_path out) ->
            (forall e, In e out -> is_prefix path' (entry_path e) = false) ->
            NoDup (map entry_path (list_walk out c path'))) cs ->
  forall i out,
    NoDup (map entry_path out) ->
    (forall e k, In e out -> i <= k -> is_prefix (path ++ [k]) (entry_path e) = false) ->
    NoDup (map entry_path
             (forEach_from (fun out' c idx => list_walk out' c (path ++ [idx])) cs i out)).
Proof.
  induction 1 as [|c cs Hc _ IH]; intros i out Hnd Hout; cbn [forEach_from];
    [exact Hnd|].
  apply IH.
  - apply Hc; [exact Hnd|]. intros e He. apply (Hout e i He). lia.
  - intros e k He Hk. apply In_list_walk in He.
    destruct He as [He|(b & q & d & _ & _ & ->)].
    + apply (Hout e k He). lia.
    + cbn [entry_path]. apply is_prefix_sibling. lia.
Qed.

Lemma NoDup_list_walk (o : Obj) :
  forall out path,
    NoDup (map entry_path out) ->
    (forall e, In e out -> is_prefix path (entry_path e) = false) ->
    NoDup (map entry_path (list_walk out o path)).
Proof.
  induction o as [b IHb|r|w|f] using Obj_children_ind; intros out path Hnd Hout;
    cbn [list_walk]; try exact Hnd.
  apply (NoDup_forEach_walk path (children b) IHb).
  - rewrite map_app. cbn [map entry_path].
    apply NoDup_app; [exact Hnd|repeat constructor; intros []|].
    intros p Hp [<-|[]]. apply in_map_iff in Hp. destruct Hp as (e & <- & He).
    pose proof (Hout e He) as H. rewrite is_prefix_refl in H. discriminate.
  - intros e k He _. apply in_app_or in He. destruct He as [He|[<-|[]]].
    + apply is_prefix_app_false. exact (Hout e He).
    + cbn [entry_path]. apply is_prefix_longer.
Qed.

Lemma NoDup_forEach_roots (rs : list Block) :
  forall i out,
    NoDup (map entry_path out) ->
    (forall e k, In e out -> i <= k -> is_prefix [k] (entry_path e) = false) ->
    NoDup (map entry_path
             (forEach_from (fun out' r idx => list_walk out' (OBlock r) [idx]) rs i out)).
Proof.
  induction rs as [|r rs IH]; intros i out Hnd Hout; cbn [forEach_from]; [exact Hnd|].
  apply IH.
  - apply NoDup_list_walk; [exact Hnd|]. intros e He. apply (Hout e i He). lia.
  - intros e k He Hk. apply In_list_walk in He.
    destruct He as [He|(b & q & d & _ & _ & ->)].
    + apply (Hout e k He). lia.
    + cbn [entry_path app is_prefix].
      destruct (Nat.eqb_spec k i); [lia|reflexivity].
Qed.

(** X14.  [listAllBlocks] lists the Blocks of the level, each one once, and
    nothing else: an entry is in the list exactly when its path resolves,
    by [getBlockByPath], to a Block that has the id of the entry, and no two
    entries have the same path. *)
Theorem listAllBlocks_entries (level : Level) :
  (forall e, In e (listAllBlocks level)
             <-> exists b, getBlockByPath level (entry_path e) = Some b
                           /\ block_id b = entry_id e)
  /\ NoDup (map entry_path (listAllBlocks level)).
Proof.
  split; [apply listAllBlocks_entries_aux|].
  unfold listAllBlocks. cbv zeta.
  eapply Permutation_NoDup.
  - symmetry. apply Permutation_map. apply sort_perm.
  - apply NoDup_forEach_roots; [constructor|]. intros e k [].
Qed.

(** The sort puts the ids in ascending order. *)
Lemma sorts_before_int (a b : BlockEntry) (x y : Z) :
  entry_id a = int x -> entry_id b = int y ->
  (Z.abs x < 2 ^ 53)%Z -> (Z.abs y < 2 ^ 53)%Z ->
  sorts_before (fun a b => number_sub (entry_id a) (entry_id b)) a b = (x <? y)%Z.
Proof.
  intros Ea Eb Hx Hy. unfold sorts_before, number_sub. rewrite Ea, Eb.
  change (number_neg (int y)) with (int (- y)).
  rewrite number_add_int_rounded.
  assert (Hth : (2 ^ 54 < 2 ^ 1023)%Z) by (apply Z.pow_lt_mono_r; lia).
  destruct (binary64_int_sign (x + - y)) as (d & -> & Hd); [lia|].
  rewrite number_ltb_int.
  pose proof (Z.sgn_spec d) as Hsd. pose proof (Z.sgn_spec (x + - y)) as Hsx.
  destruct (Z.ltb_spec d 0), (Z.ltb_spec x y); try reflexivity; lia.
Qed.

Lemma id_le_int (a b : BlockEntry) (x y : Z) :
  entry_id a = int x -> entry_id b = int y -> (id_le a b <-> (x <= y)%Z).
Proof.
  intros Ea Eb. unfold id_le. rewrite Ea, Eb, number_ltb_int.
  destruct (Z.ltb_spec y x); split; intros; try reflexivity; try discriminate; lia.
Qed.

Lemma sort_insert_sorted (x : BlockEntry) (s : list BlockEntry) :
  safe_integer (entry_id x) = true ->
  Forall (fun e => safe_integer (entry_id e) = true) s ->
  StronglySorted id_le s ->
  StronglySorted id_le
    (sort_insert (fun a b => number_sub (entry_id a) (entry_id b)) x s).
Proof.
  intros Hx Hs Hsorted.
  destruct (safe_integer_int _ Hx) as (xi & Ex & Hxi).
  induction s as [|y r IH]; cbn [sort_insert].
  - constructor; constructor.
  - inversion Hs as [|? ? Hy Hr]; subst.
    inversion Hsorted as [|? ? Hsr Hyr]; subst.
    destruct (safe_integer_int _ Hy) as (yi & Ey & Hyi).
    rewrite (sorts_before_int x y xi yi Ex Ey Hxi Hyi).
    destruct (Z.ltb_spec xi yi) as [Hlt|Hge].
    + constructor; [exact Hsorted|]. constructor.
      * apply (id_le_int x y xi yi Ex Ey). lia.
      * rewrite Forall_forall in Hyr, Hr |- *. intros e He.
        destruct (safe_integer_int _ (Hr e He)) as (ei & Ee & _).
        apply (id_le_int x e xi ei Ex Ee).
        pose proof (proj1 (id_le_int y e yi ei Ey Ee) (Hyr e He)). lia.
    + constructor; [exact (IH Hr Hsr)|].
      apply (Permutation_Forall (Permutation_sym (sort_insert_perm _ x r))).
      constructor; [|exact Hyr]. apply (id_le_int y x yi xi Ey Ex). lia.
Qed.

Lemma sort_fold_sorted (l : list BlockEntry) :
  Forall (fun e => safe_integer (entry_id e) = true) l ->
  forall s,
    Forall (fun e => safe_integer (entry_id e) = true) s ->
    StronglySorted id_le s ->
    StronglySorted id_le
      (fold_left (fun s' x => sort_insert (fun a b => number_sub (entry_id a) (entry_id b))
                                           x s') l s).
Proof.
  induction 1 as [|x l Hx Hl IH]; intros s Hs Hsorted; cbn [fold_left]; [exact Hsorted|].
  apply IH.
  - apply (Permutation_Forall (Permutation_sym (sort_insert_perm _ x s))).
    constructor; assumption.
  - apply sort_insert_sorted; assumption.
Qed.

(** X15.  In a level whose Block ids are integers below 2^53 in absolute
    value, [listAllBlocks] is in ascending order of id: no entry is followed,
    at any distance, by an entry with a smaller id. *)
Theorem listAllBlocks_sorted (level : Level) :
  safe_ids level = true -> StronglySorted id_le (listAllBlocks level).
Proof.
  intros Hsafe. unfold listAllBlocks. cbv zeta. unfold sort.
  apply sort_fold_sorted; [|constructor|constructor].
  apply Forall_forall. intros e He.
  apply In_forEach_roots in He. destruct He as [[]|(k & r & q & d & Hk & Hq & ->)].
  cbn [entry_id]. unfold safe_ids in Hsafe. rewrite forallb_forall in Hsafe.
  apply Hsafe. apply level_blocks_paths. exists (k :: q).
  rewrite getBlockByPath_block_at. cbn [block_at]. unfold Block in *. rewrite Hk. exact Hq.
Qed.

Lemma listAllBlocks_sorted_witness :
  StronglySorted id_le (listAllBlocks unsorted_level).
Proof. apply listAllBlocks_sorted. vm_compute. reflexivity. Defined.

(** X16.  [findPathById] returns a path that resolves to a Block with the
    id asked for, and returns nothing only when no path of the level
    resolves to a Block with that id. *)
Theorem findPathById_sound_complete (level : Level) (id : number) :
  (forall p, findPathById level id = Some p ->
             exists b, getBlockByPath level p = Some b
                       /\ number_eqb (block_id b) id = true)
  /\ (findPathById level id = None ->
      forall p b, getBlockByPath level p = Some b -> number_eqb (block_id b) id = false).
Proof.
  unfold findPathById. cbv zeta.
  destruct (find (fun b => number_eqb (entry_id b) id) (listAllBlocks level))
    as [e|] eqn:E; split.
  - intros p [= <-]. apply find_some in E. destruct E as [Hin Hid].
    apply listAllBlocks_entries_aux in Hin.
    destruct Hin as (b & Hb & Eid). exists b. rewrite Eid. auto.
  - discriminate.
  - discriminate.
  - intros _ p b Hp.
    pose proof (find_none _ _ E {| entry_id := block_id b; entry_path := p |}) as H.
    apply H. apply listAllBlocks_entries_aux. exists b. auto.
Qed.

Lemma findPathById_sound_complete_witness :
  (exists b, getBlockByPath unsorted_level [0; 1] = Some b
             /\ number_eqb (block_id b) (int 2) = true)
  /\ forall p b, getBlockByPath unsorted_level p = Some b ->
                 number_eqb (block_id b) (int 3) = false.
Proof.
  split.
  - apply (proj1 (findPathById_sound_complete unsorted_level (int 2)) [0; 1]).
    vm_compute. reflexivity.
  - apply (proj2 (findPathById_sound_complete unsorted_level (int 3))).
    vm_compute. reflexivity.
Defined.

End MoreWalks.

(* ================================================================== *)
(** * More on the parser and the serializer *)
(* ================================================================== *)

Section MoreFormat.
Import JS Types Format Spec EditorState.

(** ** The numbers of a parsed level *)

Lemma toInt_integer (token : option string) (fallback : number) :
  is_integer fallback = true -> is_integer (toInt token fallback) = true.
Proof.
  intros H. unfold toInt. destruct token as [t|]; [|exact H]. cbv zeta.
  destruct (Number_ t) as [| |m k]; cbn [isFinite trunc]; auto.
Qed.

Lemma toFloat_finite (token : option string) (fallback : number) :
  isFinite fallback = true -> isFinite (toFloat token fallback) = true.
Proof.
  intros H. unfold toFloat. destruct token as [t|]; [|exact H]. cbv zeta.
  destruct (isFinite (Number_ t)) eqn:E; auto.
Qed.

Lemma parseObject_read (kind : string) (args : list string) (line : nat) (o : Obj) :
  parseObject kind args line = Ok o -> read_obj o = true.
Proof.
  unfold parseObject.
  destruct (String.eqb kind "Block"); [|destruct (String.eqb kind "Ref");
    [|destruct (String.eqb kind "Wall"); [|destruct (String.eqb kind "Floor")]]];
    intros H; try discriminate; injection H as <-.
  - cbn [read_obj]. unfold read_block_fields.
    cbn [block_x block_y block_id block_width block_height
         block_hue block_sat block_val block_zoomfactor block_playerorder
         block_specialeffect children forallb].
    rewrite !toInt_integer, !toFloat_finite by reflexivity. reflexivity.
  - cbn [read_obj]. unfold read_ref.
    cbn [ref_x ref_y ref_id ref_infexitnum ref_infenternum
         ref_infenterid ref_playerorder ref_specialeffect].
    rewrite !toInt_integer by reflexivity. reflexivity.
  - cbn [read_obj]. unfold read_wall. cbn [wall_x wall_y wall_playerorder].
    rewrite !toInt_integer by reflexivity. reflexivity.
  - cbv zeta. cbn [read_obj]. unfold read_floor. cbn [floor_x floor_y].
    rewrite !toInt_integer by reflexivity. reflexivity.
Qed.

Lemma forallb_update_nth {A : Type} (p : A -> bool) (f : A -> A) (l : list A) (i : nat) :
  (forall a, p a = true -> p (f a) = true) ->
  forallb p l = true -> forallb p (update_nth l i f) = true.
Proof.
  intros Hf. revert i. induction l as [|a r IH]; intros [|i]; cbn [update_nth forallb];
    auto; rewrite !andb_true_iff; intros [Ha Hr]; auto.
Qed.

Lemma update_child_block_at_read (p : list nat) (f : Block -> Block) :
  (forall b, read_obj (OBlock b) = true -> read_obj (OBlock (f b)) = true) ->
  forall b, read_obj (OBlock b) = true ->
            read_obj (OBlock (update_child_block_at p f b)) = true.
Proof.
  intros Hf. induction p as [|i p IH]; intros b Hb; cbn [update_child_block_at];
    [auto|].
  cbn [read_obj] in Hb |- *. apply andb_true_iff in Hb. destruct Hb as [Hfields Hcs].
  rewrite children_with_children. apply andb_true_iff. split.
  - destruct b; exact Hfields.
  - apply forallb_update_nth; [|exact Hcs].
    intros [c| | |] Hc; auto.
Qed.

Lemma push_child_read (rs : list Block) (p : list nat) (o : Obj) :
  read_obj o = true ->
  forallb (fun b => read_obj (OBlock b)) rs = true ->
  forallb (fun b => read_obj (OBlock b)) (push_child rs p o) = true.
Proof.
  intros Ho Hrs. unfold push_child, update_block_at.
  destruct p as [|i p]; [exact Hrs|].
  apply forallb_update_nth; [|exact Hrs].
  apply update_child_block_at_read. intros b Hb.
  cbn [read_obj] in Hb |- *. apply andb_true_iff in Hb. destruct Hb as [Hfields Hcs].
  rewrite children_with_children, forallb_app. cbn [forallb].
  rewrite Hcs, Ho. rewrite andb_true_r. destruct b; exact Hfields.
Qed.

Lemma body_line_read (st st' : BodyState) (raw : string) (i : nat) :
  forallb (fun b => read_obj (OBlock b)) (st_roots st) = true ->
  body_line st raw i = Ok st' ->
  forallb (fun b => read_obj (OBlock b)) (st_roots st') = true.
Proof.
  intros Hrs. unfold body_line.
  destruct (split_ws (trim (after_tabs raw))) as [|kind args]; [discriminate|].
  destruct (length (firstn (leading_tabs raw) (st_stack st)) <? leading_tabs raw);
    [discriminate|].
  destruct (parseObject kind args (i + 1)) as [o|e] eqn:Eo; [|discriminate].
  pose proof (parseObject_read _ _ _ _ Eo) as Ho.
  destruct o as [b|r|w|f];
    destruct (top (firstn (leading_tabs raw) (st_stack st))) as [p|];
    intros H; try discriminate; injection H as <-; cbn [st_roots];
    try (apply push_child_read; assumption).
  rewrite forallb_app. apply andb_true_iff. split; [exact Hrs|].
  cbn [forallb]. rewrite Ho. reflexivity.
Qed.

Lemma body_loop_read (lines : list string) :
  forall i st st',
    forallb (fun b => read_obj (OBlock b)) (st_roots st) = true ->
    body_loop lines i st = Ok st' ->
    forallb (fun b => read_obj (OBlock b)) (st_roots st') = true.
Proof.
  induction lines as [|raw rest IH]; intros i st st' Hrs; cbn [body_loop].
  - intros [= <-]. exact Hrs.
  - destruct (String.eqb (trim raw) ""); [apply IH; exact Hrs|].
    destruct (negb (line_matches raw)); [apply IH; exact Hrs|].
    destruct (String.eqb (trim (after_tabs raw)) ""); [apply IH; exact Hrs|].
    destruct (body_line st raw i) as [st1|e] eqn:E; [|discriminate].
    apply IH. exact (body_line_read _ _ _ _ Hrs E).
Qed.

Lemma header_line_read (h h' : LevelHeader) (l : string) (i : nat) :
  read_header h = true -> header_line h l i = Ok h' -> read_header h' = true.
Proof.
  intros Hh. unfold header_line.
  destruct (split_ws (trim l)) as [|key r]; [intros [= <-]; exact Hh|].
  unfold read_header in Hh. rewrite !andb_true_iff in Hh.
  destruct Hh as ((((Hv & Hs) & Hi) & Hm) & Hp).
  destruct (String.eqb key "version").
  { cbv zeta. destruct (Number_opt (nth_error (key :: r) 1)) as [| |m k] eqn:En;
      cbn [isFinite negb]; try discriminate.
    intros [= <-]. unfold read_header. cbn [set_version version shed inner_push
      custom_level_music custom_level_palette trunc is_integer].
    rewrite Hs, Hi, Hm, Hp. reflexivity. }
  destruct (String.eqb key "attempt_order").
  { intros [= <-]. unfold read_header. cbn [set_attempt_order version shed inner_push
      custom_level_music custom_level_palette]. rewrite Hv, Hs, Hi, Hm, Hp. reflexivity. }
  destruct (String.eqb key "shed").
  { intros [= <-]. unfold read_header. cbn [set_shed version shed inner_push
      custom_level_music custom_level_palette]. rewrite Hv, Hi, Hm, Hp. reflexivity. }
  destruct (String.eqb key "inner_push").
  { intros [= <-]. unfold read_header. cbn [set_inner_push version shed inner_push
      custom_level_music custom_level_palette]. rewrite Hv, Hs, Hm, Hp. reflexivity. }
  destruct (String.eqb key "draw_style").
  { destruct (parse_draw_style (nth_error (key :: r) 1)); intros [= <-];
      unfold read_header; cbn [set_draw_style push_unknown version shed inner_push
        custom_level_music custom_level_palette]; rewrite Hv, Hs, Hi, Hm, Hp; reflexivity. }
  destruct (String.eqb key "custom_level_music").
  { intros [= <-]. unfold read_header. cbn [set_custom_level_music version shed
      inner_push custom_level_music custom_level_palette].
    rewrite Hv, Hs, Hi, Hp, toInt_integer by reflexivity. reflexivity. }
  destruct (String.eqb key "custom_level_palette").
  { intros [= <-]. unfold read_header. cbn [set_custom_level_palette version shed
      inner_push custom_level_music custom_level_palette].
    rewrite Hv, Hs, Hi, Hm, toInt_integer by reflexivity. reflexivity. }
  intros [= <-]. unfold read_header. cbn [push_unknown version shed inner_push
    custom_level_music custom_level_palette]. rewrite Hv, Hs, Hi, Hm, Hp. reflexivity.
Qed.

Lemma header_loop_read (lines : list string) :
  forall i h h' j rest,
    read_header h = true -> header_loop lines i h = Ok (h', j, rest) ->
    read_header h' = true.
Proof.
  induction lines as [|l lines IH]; intros i h h' j rest Hh; cbn [header_loop].
  - intros [= <- _ _]. exact Hh.
  - destruct (String.eqb (trim l) ""); [apply IH; exact Hh|].
    destruct (String.eqb (trim l) "#"); [intros [= <- _ _]; exact Hh|].
    destruct (header_line h l i) as [h1|e] eqn:E; [|discriminate].
    apply IH. exact (header_line_read _ _ _ _ Hh E).
Qed.

(** X17.  Whatever the text, a level that [parseLevel] returns has at least
    one root, an integer version, integer ids of music and palette where
    present, flags [shed] and [inner_push] that are absent or true, and, in
    every object at any depth, integers in the integer fields and finite
    numbers in the float fields: no NaN and no infinity. *)
Theorem parseLevel_reads_numbers (text : string) (lvl : Level) :
  parseLevel text = Ok lvl -> read_level lvl = true.
Proof.
  unfold parseLevel. cbv zeta.
  destruct (header_loop (lines_of text) 0 initial_header) as [[[h i] rest]|e] eqn:Eh;
    [|discriminate].
  destruct (negb (isFinite (version h))); [discriminate|].
  destruct (body_loop rest i {| st_roots := []; st_stack := [] |}) as [st|e] eqn:Eb;
    [|discriminate].
  pose proof (header_loop_read _ 0 initial_header _ _ _ eq_refl Eh) as Hh.
  pose proof (body_loop_read _ _ {| st_roots := []; st_stack := [] |} _ eq_refl Eb)
    as Hb.
  destruct (st_roots st) as [|r rs] eqn:Er; [discriminate|].
  intros [= <-]. unfold read_level. cbn [header roots]. rewrite Hh, Hb. reflexivity.
Qed.

Lemma parseLevel_reads_numbers_witness :
  read_level
    {| header := initial_header;
       roots := [ mkBlock (int 0) (int 0) (int 0) (int 3) (int 3) (Fin 6 1) (Fin 8 1)
                          (int 1) (int 1) B0 B0 B0 (int 0) B0 B0 (int 0) [] ] |} = true.
Proof.
  apply (parseLevel_reads_numbers
           ("version 4" ++ LF ++ "#" ++ LF ++ "Block 0 0 0 3 3 x" ++ LF)%js).
  vm_compute. reflexivity.
Defined.

(** ** The errors of the body *)

Lemma parseLevel_body (text : string) (h : LevelHeader) (i : nat) (rest : list string) :
  header_loop (lines_of text) 0 initial_header = Ok (h, i, rest) ->
  parseLevel text =
  match body_loop rest i {| st_roots := []; st_stack := [] |} with
  | Err e => Err e
  | Ok st =>
      match st_roots st with
      | [] => Err {| message := "No root Block found"; line := length (lines_of text) |}
      | _ :: _ => Ok {| header := h; roots := st_roots st |}
      end
  end.
Proof.
  intros Hh. unfold parseLevel. cbv zeta. rewrite Hh.
  rewrite (version_always_finite _ _ _ _ Hh). reflexivity.
Qed.

Lemma body_loop_raises (pre post : list string) (raw : string) (i : nat)
    (st : BodyState) (e : ParseError) :
  body_loop pre i {| st_roots := []; st_stack := [] |} = Ok st ->
  is_blank raw = false ->
  string_existsb is_line_terminator raw = false ->
  body_line st raw (i + length pre) = Err e ->
  body_loop (pre ++ raw :: post) i {| st_roots := []; st_stack := [] |} = Err e.
Proof.
  intros Hpre Hb Hm He. rewrite body_loop_app, Hpre. cbn [body_loop].
  unfold is_blank in Hb. unfold line_matches.
  rewrite trim_after_tabs, Hb, Hm, He. reflexivity.
Qed.

Lemma tokens_not_blank (raw kind : string) (args : list string) :
  split_ws (trim raw) = kind :: args -> kind <> ""%js -> is_blank raw = false.
Proof.
  intros Hs Hk. unfold is_blank.
  destruct (string_eqb_spec (trim raw) "") as [E|]; [|reflexivity].
  rewrite E in Hs. cbn in Hs. congruence.
Qed.

Lemma leading_tabs_0 (raw : string) : leading_tabs raw = 0 -> after_tabs raw = raw.
Proof.
  destruct raw as [|c r]; [reflexivity|]. unfold after_tabs. cbn [leading_tabs strip_start].
  rewrite (char_eqb_sym "009" c). destruct (Char.eqb c "009"); [discriminate|reflexivity].
Qed.

(** X18.  Let the header be read without error and the body start at the
    line of index [i]; let the lines [pre] of the body be read without
    error.  If the next line holds no line terminator (no U+2028 and no
    U+2029, which would keep it from matching the line pattern), has no
    leading tab and has [Ref], [Wall] or [Floor] as its first token, then
    [parseLevel] raises "<kind> must be inside a Block" with the 1-based
    number of that line: a leaf is never a root, whatever was read
    before. *)
Theorem leaf_at_depth_0_raises
    (text : string) (header : LevelHeader) (i : nat)
    (pre : list string) (raw : string) (post : list string) (st : BodyState)
    (kind : string) (args : list string) :
  header_loop (lines_of text) 0 initial_header = Ok (header, i, pre ++ raw :: post) ->
  body_loop pre i {| st_roots := []; st_stack := [] |} = Ok st ->
  string_existsb is_line_terminator raw = false ->
  leading_tabs raw = 0 ->
  split_ws (trim raw) = kind :: args ->
  In kind ["Ref"; "Wall"; "Floor"]%js ->
  parseLevel text
  = Err {| message := (kind ++ " must be inside a Block")%js;
           line := i + length pre + 1 |}.
Proof.
  intros Hh Hpre Hm Hd Htok Hkind.
  rewrite (parseLevel_body _ _ _ _ Hh).
  rewrite (body_loop_raises pre post raw i st
             {| message := (kind ++ " must be inside a Block")%js;
                line := i + length pre + 1 |} Hpre); [reflexivity| | |].
  - apply (tokens_not_blank raw kind args Htok).
    destruct Hkind as [<-|[<-|[<-|[]]]]; discriminate.
  - exact Hm.
  - unfold body_line. rewrite (leading_tabs_0 raw Hd), Htok, Hd.
    cbn [firstn length Nat.ltb Nat.leb]. rewrite top_nil.
    destruct Hkind as [<-|[<-|[<-|[]]]]; reflexivity.
Qed.

Lemma leaf_at_depth_0_raises_witness :
  parseLevel leaf_first_text
  = Err {| message := "Wall must be inside a Block"; line := 3 |}.
Proof.
  refine (leaf_at_depth_0_raises leaf_first_text initial_header 2
            [] "Wall 1 1 0 0 0" [""] {| st_roots := []; st_stack := [] |}
            "Wall" ["1"; "1"; "0"; "0"; "0"] _ _ _ _ _ _).
  - vm_compute. reflexivity.
  - reflexivity.
  - reflexivity.
  - reflexivity.
  - vm_compute. reflexivity.
  - right. left. reflexivity.
Defined.

(** X19.  Let the header be read without error and the lines [pre] of the
    body be read without error, leaving the stack of open Blocks
    [st_stack st].  If the next line is not blank, holds no line terminator
    (no U+2028 and no U+2029), is indented by no more tabs than that stack
    has Blocks, and its first token is none of [Block], [Ref], [Wall],
    [Floor], then [parseLevel] raises "Unknown object kind: <token>" with
    the 1-based number of that line. *)
Theorem unknown_kind_raises
    (text : string) (header : LevelHeader) (i : nat)
    (pre : list string) (raw : string) (post : list string) (st : BodyState)
    (kind : string) (args : list string) :
  header_loop (lines_of text) 0 initial_header = Ok (header, i, pre ++ raw :: post) ->
  body_loop pre i {| st_roots := []; st_stack := [] |} = Ok st ->
  is_blank raw = false ->
  string_existsb is_line_terminator raw = false ->
  leading_tabs raw <= length (st_stack st) ->
  split_ws (trim raw) = kind :: args ->
  ~ In kind ["Block"; "Ref"; "Wall"; "Floor"]%js ->
  parseLevel text
  = Err {| message := ("Unknown object kind: " ++ kind)%js;
           line := i + length pre + 1 |}.
Proof.
  intros Hh Hpre Hb Hm Hd Htok Hkind.
  rewrite (parseLevel_body _ _ _ _ Hh).
  rewrite (body_loop_raises pre post raw i st
             {| message := ("Unknown object kind: " ++ kind)%js;
                line := i + length pre + 1 |} Hpre Hb Hm); [reflexivity|].
  unfold body_line. rewrite trim_after_tabs, Htok, length_firstn.
  destruct (Nat.ltb_spec (Nat.min (leading_tabs raw) (length (st_stack st)))
                         (leading_tabs raw)) as [H|_]; [lia|].
  unfold parseObject.
  destruct (string_eqb_spec kind "Block") as [->|_]; [exfalso; apply Hkind; cbn; auto|].
  destruct (string_eqb_spec kind "Ref") as [->|_]; [exfalso; apply Hkind; cbn; auto|].
  destruct (string_eqb_spec kind "Wall") as [->|_]; [exfalso; apply Hkind; cbn; auto|].
  destruct (string_eqb_spec kind "Floor") as [->|_]; [exfalso; apply Hkind; cbn; auto|].
  reflexivity.
Qed.

Lemma unknown_kind_raises_witness :
  parseLevel unknown_kind_text
  = Err {| message := "Unknown object kind: Lava"; line := 4 |}.
Proof.
  refine (unknown_kind_raises unknown_kind_text initial_header 2
            ["Block 0 0 0 3 3"] (TAB ++ "Lava 1 1") [""]
            {| st_roots := [ mkBlock (int 0) (int 0) (int 0) (int 3) (int 3)
                                     (Fin 6 1) (Fin 8 1) (int 1) (int 1)
                                     B0 B0 B0 (int 0) B0 B0 (int 0) [] ];
               st_stack := [[0]] |}
            "Lava" ["1"; "1"] _ _ _ _ _ _ _).
  - vm_compute. reflexivity.
  - vm_compute. reflexivity.
  - vm_compute. reflexivity.
  - vm_compute. reflexivity.
  - vm_compute. lia.
  - vm_compute. reflexivity.
  - intros [H|[H|[H|[H|[]]]]]; discriminate H.
Defined.

Lemma body_loop_blank (rest : list string) :
  Forall (fun l => is_blank l = true) rest ->
  forall i st, body_loop rest i st = Ok st.
Proof.
  induction 1 as [|l rest Hl _ IH]; intros i st; cbn [body_loop]; [reflexivity|].
  unfold is_blank in Hl. rewrite Hl. apply IH.
Qed.

(** X20.  If the header is read without error and every line after it is
    blank (or there is none), [parseLevel] raises "No root Block found",
    and the line number that it reports is the number of lines of the
    text. *)
Theorem empty_body_raises
    (text : string) (header : LevelHeader) (i : nat) (rest : list string) :
  header_loop (lines_of text) 0 initial_header = Ok (header, i, rest) ->
  Forall (fun l => is_blank l = true) rest ->
  parseLevel text
  = Err {| message := "No root Block found"; line := length (lines_of text) |}.
Proof.
  intros Hh Hrest. rewrite (parseLevel_body _ _ _ _ Hh).
  rewrite (body_loop_blank rest Hrest). reflexivity.
Qed.

Lemma empty_body_raises_witness :
  parseLevel empty_body_text
  = Err {| message := "No root Block found"; line := 5 |}.
Proof.
  refine (empty_body_raises empty_body_text
            (set_shed initial_header) 3 [""; ""] _ _).
  - vm_compute. reflexivity.
  - repeat constructor.
Defined.

(** ** Line endings *)

Lemma to_crlf_back (s : string) :
  no_CR s = true -> replace_crlf (to_crlf s) = s.
Proof.
  unfold no_CR. induction s as [|c r IH]; [reflexivity|].
  cbn [string_forallb to_crlf]. rewrite andb_true_iff, negb_true_iff.
  intros [Hc Hr]. specialize (IH Hr).
  destruct (char_eqb_spec c "010") as [->|Hlf].
  - cbn [replace_crlf]. change (Char.eqb "013" "013" && Char.eqb "010" "010") with true.
    cbv iota. rewrite IH. reflexivity.
  - cbn [replace_crlf]. rewrite Hc. cbn [andb].
    destruct (to_crlf r) as [|c' r'] eqn:E.
    + destruct r as [|c0 r0]; [reflexivity|]. cbn [to_crlf] in E.
      destruct (Char.eqb c0 "010"); discriminate.
    + rewrite IH. reflexivity.
Qed.

Lemma replace_LF_CR_back (s : string) :
  no_CR s = true ->
  replace_char "013" "010" (replace_crlf (replace_char "010" "013" s)) = s.
Proof.
  unfold no_CR, replace_char. induction s as [|c r IH]; [reflexivity|].
  cbn [string_forallb string_map]. rewrite andb_true_iff, negb_true_iff.
  intros [Hc Hr]. specialize (IH Hr).
  cbn [replace_crlf].
  destruct (string_map (fun c0 => if Char.eqb c0 "010" then "013"%jc else c0) r)
    as [|c' r'] eqn:E.
  - destruct r; [|discriminate]. cbn [string_map].
    destruct (char_eqb_spec c "010") as [->|Hlf]; [reflexivity|]. rewrite Hc. reflexivity.
  - assert (Hc' : Char.eqb c' "010" = false).
    { destruct r as [|c0 r0]; [discriminate|]. cbn [string_map] in E.
      injection E as <- _. destruct (char_eqb_spec c0 "010"); [reflexivity|].
      destruct (char_eqb_spec c0 "010"); [contradiction|reflexivity]. }
    rewrite Hc', andb_false_r. cbn [string_map]. rewrite IH. f_equal.
    destruct (char_eqb_spec c "010") as [->|Hlf]; [reflexivity|]. rewrite Hc. reflexivity.
Qed.

(** X21.  [parseLevel] does not depend on the line endings: a text without
    carriage returns gives the same result, Level or error, line numbers
    included, when every line feed is written as carriage return and line
    feed, and when every line feed is written as a carriage return. *)
Theorem parseLevel_line_endings (text : string) :
  no_CR text = true ->
  parseLevel (to_crlf text) = parseLevel text
  /\ parseLevel (replace_char "010" "013" text) = parseLevel text.
Proof.
  intros H.
  assert (H1 : lines_of (to_crlf text) = lines_of text).
  { unfold lines_of. rewrite (to_crlf_back text H).
    rewrite (replace_crlf_no_cr text H). reflexivity. }
  assert (H2 : lines_of (replace_char "010" "013" text) = lines_of text).
  { unfold lines_of. rewrite (replace_LF_CR_back text H).
    rewrite (replace_crlf_no_cr text H), (replace_char_absent "013" "010" text H).
    reflexivity. }
  unfold parseLevel. rewrite H1, H2. auto.
Qed.

Lemma parseLevel_line_endings_witness :
  parseLevel (to_crlf overindented_text) = parseLevel overindented_text
  /\ parseLevel (replace_char "010" "013" overindented_text)
     = parseLevel overindented_text.
Proof. apply parseLevel_line_endings. vm_compute. reflexivity. Defined.

(** ** Floor payloads *)

(** X22.  For a Floor whose payload the format can carry (a scene name or
    an Unknown text of tokens separated by single spaces, the Unknown one
    not starting with a keyword; an Info text without underscore and with no
    white space but spaces), [parseFloorType] reads the text that
    [formatFloorType] writes back as the type of the Floor. *)
Theorem parseFloorType_formatFloorType (f : Floor) :
  wf_floor_type (floor_type f) = true ->
  parseFloorType (formatFloorType f) = floor_type f.
Proof.
  intros H. pose proof (formatFloorType_tokens f H) as E.
  assert (Ef : formatFloorType f = join " " (floor_type_tokens (floor_type f))).
  { destruct (floor_type_tokens (floor_type f)) as [|t ts]; exact E. }
  rewrite Ef. apply parseFloorType_tokens. exact H.
Qed.

Lemma parseFloorType_formatFloorType_witness :
  parseFloorType (formatFloorType (mkFloor (int 1) (int 2) (Info "mind the gap")))
  = Info "mind the gap".
Proof.
  apply (parseFloorType_formatFloorType (mkFloor (int 1) (int 2) (Info "mind the gap"))).
  reflexivity.
Defined.

End MoreFormat.

(* ================================================================== *)
(** * The handlers of the editor component *)
(* ================================================================== *)

Section MoreEditor.
Import JS Types Format EditorState LevelEditor Spec.

(** ** [clamp] and [pathEq] *)

Lemma number_compare_antisym (a b : number) :
  number_compare b a = option_map CompOpp (number_compare a b).
Proof.
  destruct a as [|na|m1 k1], b as [|nb|m2 k2]; cbn [number_compare option_map];
    try reflexivity.
  - destruct na, nb; reflexivity.
  - destruct na; reflexivity.
  - destruct nb; reflexivity.
  - rewrite (Z.compare_antisym (m1 * 10 ^ Z.of_nat k2)). reflexivity.
Qed.

Lemma number_compare_refl (a : number) :
  number_eqb a a = true -> number_compare a a = Some Eq.
Proof.
  unfold number_eqb. destruct (number_compare a a) as [[| |]|]; try discriminate.
  reflexivity.
Qed.

Lemma not_NaN_refl (a : number) : a <> NaN -> number_compare a a = Some Eq.
Proof.
  destruct a as [|na|m k]; [congruence| |]; intros _; cbn [number_compare].
  - rewrite Bool.eqb_reflx. reflexivity.
  - rewrite Z.compare_refl. reflexivity.
Qed.

Lemma number_compare_Some (a b : number) :
  a <> NaN -> b <> NaN -> exists c, number_compare a b = Some c.
Proof.
  destruct a as [|na|m1 k1], b as [|nb|m2 k2]; try congruence; intros _ _;
    cbn [number_compare]; eauto.
Qed.

Lemma number_compare_not_NaN (a b : number) (c : comparison) :
  number_compare a b = Some c -> a <> NaN /\ b <> NaN.
Proof. destruct a, b; cbn [number_compare]; try discriminate; split; discriminate. Qed.

(** X23.  [clamp(n, a, b)] is NaN when [n] is NaN.  For bounds [a <= b] and
    a number [n] that is not NaN, it lies between the bounds, and it is [n]
    itself when [n] lies between them. *)
Theorem clamp_in_range (n a b : number) :
  clamp NaN a b = NaN
  /\ (number_geb b a = true -> n <> NaN ->
      number_geb (clamp n a b) a = true
      /\ number_geb b (clamp n a b) = true
      /\ (number_geb n a = true -> number_geb b n = true ->
          number_eqb (clamp n a b) n = true)).
Proof.
  split.
  { unfold clamp, Math_max, Math_min.
    destruct b as [|nb|mb kb]; cbn [number_compare];
      destruct a as [|na|ma ka]; reflexivity. }
  intros Hab Hn.
  assert (Hba : exists c, number_compare b a = Some c /\ c <> Lt).
  { unfold number_geb in Hab. destruct (number_compare b a) as [[| |]|];
      try discriminate; eexists; split; try reflexivity; discriminate. }
  destruct Hba as (cba & Cba & Hcba).
  destruct (number_compare_not_NaN _ _ _ Cba) as [Hb Ha].
  pose proof (not_NaN_refl a Ha) as Raa.
  pose proof (not_NaN_refl b Hb) as Rbb.
  pose proof (not_NaN_refl n Hn) as Rnn.
  destruct (number_compare_Some b n Hb Hn) as (c1 & C1).
  destruct (number_compare_Some a n Ha Hn) as (c2 & C2).
  pose proof (number_compare_antisym b n) as A1. rewrite C1 in A1.
  pose proof (number_compare_antisym a n) as A2. rewrite C2 in A2.
  pose proof (number_compare_antisym b a) as A3. rewrite Cba in A3.
  cbn [option_map] in A1, A2, A3.
  unfold clamp, Math_min. rewrite C1.
  destruct c1.
  - (* b = n: the minimum is b *)
    unfold Math_max. rewrite A3.
    destruct cba; [| congruence |]; cbn [CompOpp].
    + unfold number_geb, number_eqb. rewrite Raa, Cba.
      repeat split; try reflexivity. intros _ _. rewrite C2.
      assert (E : number_eqb a n = true).
      { apply number_eqb_trans with b; unfold number_eqb; [rewrite A3|rewrite C1];
          reflexivity. }
      unfold number_eqb in E. rewrite C2 in E. exact E.
    + unfold number_geb, number_eqb. rewrite Cba, Rbb, C1. repeat split; reflexivity.
  - (* b < n: the minimum is b *)
    unfold Math_max. rewrite A3.
    destruct cba; [| congruence |]; cbn [CompOpp].
    + unfold number_geb, number_eqb. rewrite Raa, Cba, C1.
      repeat split; try reflexivity. intros _ H. discriminate.
    + unfold number_geb, number_eqb. rewrite Cba, Rbb, C1.
      repeat split; try reflexivity. intros _ H. discriminate.
  - (* b > n: the minimum is n *)
    unfold Math_max. rewrite C2.
    destruct c2.
    + unfold number_geb, number_eqb. rewrite Raa, Cba, C2.
      repeat split; try reflexivity. destruct cba; congruence.
    + unfold number_geb, number_eqb. rewrite A2, C1, Rnn. repeat split; reflexivity.
    + unfold number_geb, number_eqb. rewrite Raa, Cba, C2, A2. cbn [CompOpp].
      repeat split; try reflexivity; try (destruct cba; congruence).
Qed.

Lemma clamp_in_range_witness :
  number_geb (clamp (Fin 528 1) (int 16) (int 96)) (int 16) = true
  /\ number_geb (int 96) (clamp (Fin 528 1) (int 16) (int 96)) = true
  /\ (number_geb (Fin 528 1) (int 16) = true -> number_geb (int 96) (Fin 528 1) = true ->
      number_eqb (clamp (Fin 528 1) (int 16) (int 96)) (Fin 528 1) = true).
Proof.
  apply (proj2 (clamp_in_range (Fin 528 1) (int 16) (int 96))); [reflexivity|discriminate].
Defined.

Lemma pathEq_loop_eq (a : list nat) :
  forall b, length a = length b -> (pathEq_loop a b = true <-> a = b).
Proof.
  induction a as [|x a IH]; intros [|y b] Hlen; cbn [length pathEq_loop] in *;
    try discriminate.
  - tauto.
  - destruct (Nat.eqb_spec x y) as [->|Hxy]; cbn [negb].
    + rewrite (IH b) by lia. split; congruence.
    + split; [discriminate|congruence].
Qed.

(** X24.  [pathEq] answers true exactly for equal paths. *)
Theorem pathEq_eq (a b : list nat) : pathEq a b = true <-> a = b.
Proof.
  unfold pathEq. destruct (Nat.eqb_spec (length a) (length b)) as [Hlen|Hlen];
    cbn [negb].
  - apply pathEq_loop_eq. exact Hlen.
  - split; [discriminate|]. intros ->. contradiction.
Qed.

(** ** [applyToolAt] *)

Lemma undo_pushHistory (s : EditorState) (next : Level) :
  level (undo (pushHistory s next)) = level s.
Proof.
  unfold pushHistory.
  rewrite (undo_snoc _ (past (history s)) (level s)) by reflexivity. reflexivity.
Qed.

(** What a commit does, on a selection that resolves. *)
Lemma commit_spec (c : Component) (block nextBlock : Block) :
  selectedBlock c = Some block ->
  exists c',
    commit c nextBlock = Some c'
    /\ selectedBlock c' = Some nextBlock
    /\ selectedBlockPath (state c') = selectedBlockPath (state c)
    /\ past (history (state c')) = past (history (state c)) ++ [level (state c)]
    /\ future (history (state c')) = []
    /\ level (undo (state c')) = level (state c)
    /\ selectedChildIndex c' = selectedChildIndex c
    /\ lastError (state c') = lastError (state c).
Proof.
  unfold selectedBlock, commit. intros Hsel.
  destruct (setBlockAtPath_then_get_aux _ _ nextBlock _ Hsel) as (level' & -> & Hget).
  eexists. split; [reflexivity|].
  cbn [with_state state pushHistory with_level_history level selectedBlockPath history
       past future selectedChildIndex lastError].
  split; [exact Hget|]. repeat split.
  apply undo_pushHistory.
Qed.

Lemma hitTest_kinds (block : Block) (x y : number) :
  match hitTest block x y with
  | Some (BlockChild i) => exists d, nth_error (children block) i = Some (OBlock d)
  | Some (CellObj i) =>
      exists o, nth_error (children block) i = Some o /\ is_Block o = false
  | None => True
  end.
Proof.
  unfold hitTest.
  pose proof (hitTest_blocks_spec (children block) x y (length (children block))) as HB.
  pose proof (hitTest_cells_spec (children block) x y (length (children block))) as HC.
  destruct (hitTest_blocks (children block) x y (length (children block))) as [[i|i]|].
  - destruct HB as (_ & (d & Hd & _) & _). eauto.
  - contradiction.
  - destruct (hitTest_cells (children block) x y (length (children block))) as [[i|i]|].
    + contradiction.
    + destruct HC as (_ & (o & Ho & Hk & _) & _). eauto.
    + exact I.
Qed.

Lemma getBlockByPath_snoc (lvl : Level) (path : list nat) (i : nat) (block d : Block) :
  getBlockByPath lvl path = Some block ->
  nth_error (children block) i = Some (OBlock d) ->
  getBlockByPath lvl (path ++ [i]) = Some d.
Proof.
  rewrite !getBlockByPath_block_at. destruct path as [|j p]; [discriminate|].
  cbn [app block_at]. destruct (nth_error (roots lvl) j) as [r|]; [|discriminate].
  intros Hp Hi. rewrite child_block_at_snoc, Hp, Hi. reflexivity.
Qed.

(** X25.  A click with nothing selected, or on a cell outside the selected
    Block, changes nothing: neither the level nor the history nor the
    selection, whatever the tool. *)
Theorem applyToolAt_outside (c : Component) (cellX cellY : number) (erase : bool) :
  (selectedBlock c = None
   \/ exists block, selectedBlock c = Some block /\ isWithin block cellX cellY = false) ->
  applyToolAt c cellX cellY erase = Some c.
Proof.
  unfold applyToolAt. intros [->|(block & -> & ->)]; reflexivity.
Qed.

Lemma applyToolAt_outside_witness :
  applyToolAt (fresh_component ToolWall) (int 9) (int 0) false
  = Some (fresh_component ToolWall).
Proof.
  apply applyToolAt_outside. right. eexists. split; reflexivity.
Defined.

(** X26.  With a tool that commits an edit, a click inside the selected
    Block writes the edited Block at the selected path, which stays
    selected and resolves to it; the level before the click becomes the
    last entry of the past, the future is emptied, and an undo gives that
    level back.  The edited Block is the one of [removeAt] when erasing,
    and else of [upsertWall], [upsertFloor], [addBlock] with the id of
    [nextBlockId] and the size 3 by 3, or [addRef], by the tool. *)
Theorem applyToolAt_commits (c : Component) (block : Block) (cellX cellY : number)
    (erase : bool) :
  selectedBlock c = Some block ->
  isWithin block cellX cellY = true ->
  commits (tool (state c)) erase = true ->
  exists c' nextBlock,
    applyToolAt c cellX cellY erase = Some c'
    /\ selectedBlock c' = Some nextBlock
    /\ selectedBlockPath (state c') = selectedBlockPath (state c)
    /\ past (history (state c')) = past (history (state c)) ++ [level (state c)]
    /\ future (history (state c')) = []
    /\ level (undo (state c')) = level (state c)
    /\ nextBlock
       = (if erase then removeAt block cellX cellY
          else match tool (state c) with
               | ToolWall => upsertWall block cellX cellY
               | ToolFloor k => upsertFloor block cellX cellY (floor_of_kind k)
               | ToolBlock =>
                   addBlock block cellX cellY (int 3) (int 3)
                            (nextBlockId (level (state c)))
               | ToolRef (Some target) => addRef block cellX cellY target
               | _ => block
               end).
Proof.
  intros Hsel Hin Htool. unfold applyToolAt. rewrite Hsel, Hin. cbn [negb]. cbv zeta.
  assert (Herase :
            exists c',
              match commit c (removeAt block cellX cellY) with
              | Some c0 => Some (with_selectedChildIndex c0 None)
              | None => None
              end = Some c'
              /\ selectedBlock c' = Some (removeAt block cellX cellY)
              /\ selectedBlockPath (state c') = selectedBlockPath (state c)
              /\ past (history (state c')) = past (history (state c)) ++ [level (state c)]
              /\ future (history (state c')) = []
              /\ level (undo (state c')) = level (state c)).
  { destruct (commit_spec c block (removeAt block cellX cellY) Hsel)
      as (c0 & -> & H1 & H2 & H3 & H4 & H5 & _).
    eexists. split; [reflexivity|]. unfold selectedBlock in *.
    cbn [with_selectedChildIndex state]. auto. }
  destruct (tool (state c)) as [| |k| |[target|]] eqn:Et; cbn [commits] in Htool;
    try discriminate; destruct erase; try discriminate;
    try (destruct Herase as (c' & E & H1 & H2 & H3 & H4 & H5);
         exists c', (removeAt block cellX cellY); rewrite E; repeat split; auto).
  - destruct (commit_spec c block (upsertWall block cellX cellY) Hsel)
      as (c' & E & H1 & H2 & H3 & H4 & H5 & _).
    exists c', (upsertWall block cellX cellY). rewrite E. repeat split; auto.
  - destruct (commit_spec c block
                (upsertFloor block cellX cellY (floor_of_kind k)) Hsel)
      as (c' & E & H1 & H2 & H3 & H4 & H5 & _).
    exists c', (upsertFloor block cellX cellY (floor_of_kind k)). rewrite E. repeat split; auto.
  - destruct (commit_spec c block
                (addBlock block cellX cellY (int 3) (int 3)
                          (nextBlockId (level (state c)))) Hsel)
      as (c' & E & H1 & H2 & H3 & H4 & H5 & _).
    eexists c', _. rewrite E. repeat split; auto.
  - destruct (commit_spec c block (addRef block cellX cellY target) Hsel)
      as (c' & E & H1 & H2 & H3 & H4 & H5 & _).
    exists c', (addRef block cellX cellY target). rewrite E. repeat split; auto.
Qed.

Lemma applyToolAt_commits_witness :
  exists c' nextBlock,
    applyToolAt (fresh_component ToolBlock) (int 4) (int 4) false = Some c'
    /\ selectedBlock c' = Some nextBlock
    /\ selectedBlockPath (state c') = selectedBlockPath (state (fresh_component ToolBlock))
    /\ past (history (state c'))
       = past (history (state (fresh_component ToolBlock)))
         ++ [level (state (fresh_component ToolBlock))]
    /\ future (history (state c')) = []
    /\ level (undo (state c')) = level (state (fresh_component ToolBlock))
    /\ nextBlock
       = addBlock (with_children wall_scene
                     [OWall (mkWall (int 0) (int 0) B0 B0 (int 0)); OBlock spare_block])
                  (int 4) (int 4) (int 3) (int 3) (int 8).
Proof.
  apply (applyToolAt_commits (fresh_component ToolBlock)
           (with_children wall_scene
              [OWall (mkWall (int 0) (int 0) B0 B0 (int 0)); OBlock spare_block])
           (int 4) (int 4) false); reflexivity.
Defined.

(** X27.  With the Select tool a click inside the selected Block never
    changes the level or the history.  On a child Block it descends into
    it: the index of the child is appended to the selected path, which then
    resolves to that child.  On a leaf it selects the leaf and on an empty
    cell it clears the selection of a child; the selected path stays. *)
Theorem applyToolAt_select (c : Component) (block : Block) (cellX cellY : number)
    (erase : bool) :
  selectedBlock c = Some block ->
  isWithin block cellX cellY = true ->
  tool (state c) = ToolSelect ->
  exists c',
    applyToolAt c cellX cellY erase = Some c'
    /\ level (state c') = level (state c)
    /\ history (state c') = history (state c)
    /\ match hitTest block cellX cellY with
       | Some (BlockChild i) =>
           selectedBlockPath (state c') = selectedBlockPath (state c) ++ [i]
           /\ (exists d, nth_error (children block) i = Some (OBlock d)
                         /\ selectedBlock c' = Some d)
           /\ selectedChildIndex c' = None
       | Some (CellObj i) => state c' = state c /\ selectedChildIndex c' = Some i
       | None => state c' = state c /\ selectedChildIndex c' = None
       end.
Proof.
  intros Hsel Hin Htool. unfold applyToolAt. rewrite Hsel, Hin, Htool.
  cbn [negb]. cbv zeta.
  pose proof (hitTest_kinds block cellX cellY) as Hk.
  destruct (hitTest block cellX cellY) as [[i|i]|]; cbn [hit_index].
  - destruct Hk as (d & Hd). rewrite Hd. eexists. split; [reflexivity|].
    cbn [with_selectedChildIndex with_state with_selectedBlockPath state level history
         selectedBlockPath selectedChildIndex].
    repeat split. exists d. split; [reflexivity|].
    unfold selectedBlock in *.
    cbn [with_selectedChildIndex with_state with_selectedBlockPath state level
         selectedBlockPath].
    exact (getBlockByPath_snoc _ _ _ _ _ Hsel Hd).
  - destruct Hk as (o & Ho & Hleaf). rewrite Ho.
    destruct o as [b| | |]; [discriminate|..];
      (eexists; split; [reflexivity|]); repeat split.
  - eexists. split; [reflexivity|]. repeat split.
Qed.

Lemma applyToolAt_select_witness :
  exists c',
    applyToolAt (fresh_component ToolSelect) (int 2) (int 2) false = Some c'
    /\ level (state c') = level (state (fresh_component ToolSelect))
    /\ history (state c') = history (state (fresh_component ToolSelect))
    /\ selectedBlockPath (state c') = [0; 1]
    /\ (exists d, nth_error (children (with_children wall_scene
                     [OWall (mkWall (int 0) (int 0) B0 B0 (int 0)); OBlock spare_block]))
                            1 = Some (OBlock d)
                  /\ selectedBlock c' = Some d)
    /\ selectedChildIndex c' = None.
Proof.
  destruct (applyToolAt_select (fresh_component ToolSelect)
              (with_children wall_scene
                 [OWall (mkWall (int 0) (int 0) B0 B0 (int 0)); OBlock spare_block])
              (int 2) (int 2) false eq_refl eq_refl eq_refl)
    as (c' & E & Hl & Hh & Hhit).
  exists c'. split; [exact E|]. split; [exact Hl|]. split; [exact Hh|]. exact Hhit.
Defined.

(** X28.  [applyToolAt] keeps the selection alive: if the selected path
    resolves to a Block before the click, then the click, whatever tool,
    cell and button, leaves no array with holes, and the path selected
    after it resolves to a Block again. *)
Theorem applyToolAt_keeps_selection (c : Component) (cellX cellY : number)
    (erase : bool) :
  selectedBlock c <> None ->
  exists c',
    applyToolAt c cellX cellY erase = Some c' /\ selectedBlock c' <> None.
Proof.
  intros Hsel. destruct (selectedBlock c) as [block|] eqn:Eb; [|congruence].
  destruct (isWithin block cellX cellY) eqn:Hin.
  - assert (Hcommit : forall nb, exists c',
               commit c nb = Some c' /\ selectedBlock c' <> None
               /\ selectedBlock (with_selectedChildIndex c' None) <> None).
    { intros nb. destruct (commit_spec c block nb Eb) as (c' & E & H1 & _).
      exists c'. split; [exact E|]. unfold selectedBlock in *.
      cbn [with_selectedChildIndex state]. rewrite H1. split; discriminate. }
    unfold applyToolAt. rewrite Eb, Hin. cbn [negb]. cbv zeta.
    destruct (tool (state c)) as [| |k| |[target|]] eqn:Et.
    + pose proof (hitTest_kinds block cellX cellY) as Hk.
      destruct (hitTest block cellX cellY) as [[i|i]|]; cbn [hit_index].
      * destruct Hk as (d & Hd). rewrite Hd. eexists. split; [reflexivity|].
        unfold selectedBlock in *.
        cbn [with_selectedChildIndex with_state with_selectedBlockPath state level
             selectedBlockPath].
        rewrite (getBlockByPath_snoc _ _ _ _ _ Eb Hd). discriminate.
      * destruct Hk as (o & Ho & Hleaf). rewrite Ho.
        destruct o as [b| | |]; [discriminate|..];
          (eexists; split; [reflexivity|]); unfold selectedBlock in *;
          cbn [with_selectedChildIndex state]; rewrite Eb; discriminate.
      * eexists. split; [reflexivity|]. unfold selectedBlock in *.
        cbn [with_selectedChildIndex state]. rewrite Eb. discriminate.
    + destruct erase.
      * destruct (Hcommit (removeAt block cellX cellY)) as (c' & -> & _ & H). eauto.
      * destruct (Hcommit (upsertWall block cellX cellY)) as (c' & -> & H & _). eauto.
    + destruct erase.
      * destruct (Hcommit (removeAt block cellX cellY)) as (c' & -> & _ & H). eauto.
      * destruct (Hcommit (upsertFloor block cellX cellY (floor_of_kind k)))
          as (c' & -> & H & _). eauto.
    + destruct erase.
      * destruct (Hcommit (removeAt block cellX cellY)) as (c' & -> & _ & H). eauto.
      * destruct (Hcommit (addBlock block cellX cellY (int 3) (int 3)
                                    (nextBlockId (level (state c)))))
          as (c' & -> & H & _). eauto.
    + destruct erase.
      * destruct (Hcommit (removeAt block cellX cellY)) as (c' & -> & _ & H). eauto.
      * destruct (Hcommit (addRef block cellX cellY target)) as (c' & -> & H & _). eauto.
    + destruct erase.
      * destruct (Hcommit (removeAt block cellX cellY)) as (c' & -> & _ & H). eauto.
      * eexists. split; [reflexivity|]. unfold selectedBlock in *.
        cbn [with_state with_lastError state level selectedBlockPath].
        rewrite Eb. discriminate.
  - exists c. split.
    + unfold applyToolAt. rewrite Eb, Hin. reflexivity.
    + rewrite Eb. discriminate.
Qed.

Lemma applyToolAt_keeps_selection_witness :
  exists c',
    applyToolAt (fresh_component (ToolRef (Some (int 7)))) (int 1) (int 1) true = Some c'
    /\ selectedBlock c' <> None.
Proof. apply applyToolAt_keeps_selection. discriminate. Defined.

(** ** Import and export *)

Lemma parseLevel_roots (text : string) (lvl : Level) :
  parseLevel text = Ok lvl -> roots lvl <> [].
Proof.
  unfold parseLevel. cbv zeta.
  destruct (header_loop (lines_of text) 0 initial_header) as [[[h i] rest]|e];
    [|discriminate].
  destruct (negb (isFinite (version h))); [discriminate|].
  destruct (body_loop rest i {| st_roots := []; st_stack := [] |}) as [st|e];
    [|discriminate].
  destruct (st_roots st) as [|r rs]; [discriminate|].
  intros [= <-]. discriminate.
Qed.

(** X29.  An import of a text that parses starts over from the parsed
    level: the history is empty, no error is shown, the first root is
    selected, and this selection resolves, since a parsed level has a
    root.  An import of a text that does not parse keeps the level, the
    selection and the history, and shows "Line <n>: <message>" as the
    error. *)
Theorem onImport_result (c : Component) :
  (forall lvl, parseLevel (ioText c) = Ok lvl ->
     level (state (onImport c)) = lvl
     /\ history (state (onImport c)) = {| past := []; future := [] |}
     /\ lastError (state (onImport c)) = None
     /\ selectedBlockPath (state (onImport c)) = [0]
     /\ selectedBlock (onImport c) = nth_error (roots lvl) 0
     /\ selectedBlock (onImport c) <> None
     /\ selectedChildIndex (onImport c) = None)
  /\ (forall e, parseLevel (ioText c) = Err e ->
        level (state (onImport c)) = level (state c)
        /\ history (state (onImport c)) = history (state c)
        /\ selectedBlockPath (state (onImport c)) = selectedBlockPath (state c)
        /\ lastError (state (onImport c))
           = Some ("Line " ++ String_ (int (Z.of_nat (line e))) ++ ": " ++ message e)%js).
Proof.
  unfold onImport. split.
  - intros lvl H. rewrite H.
    pose proof (parseLevel_roots _ _ H) as Hr.
    unfold selectedBlock.
    cbn [with_hoverCell with_selectedChildIndex with_state with_level state level
         history lastError selectedBlockPath selectedChildIndex createInitialState
         getBlockByPath getBlockByPath_loop].
    repeat split. destruct (roots lvl); [congruence|discriminate].
  - intros e H. rewrite H.
    cbn [with_state with_lastError state level history lastError selectedBlockPath].
    repeat split.
Qed.

Lemma onImport_result_witness :
  level (state (onImport (with_ioText (fresh_component ToolSelect) leaf_first_text)))
  = nested_level
  /\ lastError (state (onImport (with_ioText (fresh_component ToolSelect) leaf_first_text)))
     = Some "Line 3: Wall must be inside a Block".
Proof.
  destruct (proj2 (onImport_result (with_ioText (fresh_component ToolSelect) leaf_first_text))
              {| message := "Wall must be inside a Block"; line := 3 |})
    as (Hl & _ & _ & He).
  - vm_compute. reflexivity.
  - split; [exact Hl|exact He].
Defined.

(** The text of a well-formed level is read back as the level. *)
Lemma parse_serialize_back (lvl : Level) :
  wf_level lvl = true -> parseLevel (serializeLevel lvl) = Ok lvl.
Proof.
  intros Hwf. unfold parseLevel. cbv zeta.
  rewrite (lines_of_serializeLevel lvl Hwf).
  unfold wf_level in Hwf. rewrite !andb_true_iff in Hwf.
  destruct Hwf as [[Hh Hne] Hr].
  rewrite (header_loop_header_out (header lvl) _ Hh).
  assert (Hfin : isFinite (version (header lvl)) = true).
  { unfold wf_header in Hh. rewrite !andb_true_iff in Hh.
    destruct Hh as ((((((Hv & _) & _) & _) & _) & _) & _).
    destruct (version (header lvl)) as [| |m [|k]]; try discriminate. reflexivity. }
  rewrite Hfin. cbn [negb].
  destruct (body_loop_roots (roots lvl) (length (header_out (header lvl))) Hr)
    as (stack & ->).
  cbn [st_roots]. destruct lvl as [h [|r rs]]; [discriminate|reflexivity].
Qed.

(** X30.  An export followed by an import brings a well-formed level back:
    the text area holds the serialized level, the level of the editor is
    the one that was exported, no error is shown, and the history starts
    empty. *)
Theorem export_then_import (c : Component) :
  wf_level (level (state c)) = true ->
  ioText (onImport (onExport c)) = serializeLevel (level (state c))
  /\ level (state (onImport (onExport c))) = level (state c)
  /\ lastError (state (onImport (onExport c))) = None
  /\ history (state (onImport (onExport c))) = {| past := []; future := [] |}.
Proof.
  intros Hwf. unfold onImport, onExport. cbn [with_ioText ioText state].
  rewrite (parse_serialize_back _ Hwf). repeat split.
Qed.

Lemma export_then_import_witness :
  ioText (onImport (onExport (fresh_component ToolWall)))
  = serializeLevel (level (state (fresh_component ToolWall)))
  /\ level (state (onImport (onExport (fresh_component ToolWall))))
     = level (state (fresh_component ToolWall))
  /\ lastError (state (onImport (onExport (fresh_component ToolWall)))) = None
  /\ history (state (onImport (onExport (fresh_component ToolWall))))
     = {| past := []; future := [] |}.
Proof. apply export_then_import. vm_compute. reflexivity. Defined.

End MoreEditor.
